(** * post-assist: the OAuth token manager and the storage manager

    A shallow embedding of [oauth-token-manager.js] (class
    [OAuthTokenManager]) and of the [StorageManager] class of
    [modules/storage-credentials-manager.js], with the part of the
    JavaScript platform the two classes rely on: values and their
    truthiness, property reads, [JSON.stringify] / [JSON.parse],
    [localStorage], [Date] and [fetch].  The classes built on
    [StorageManager] in the same module ([CredentialsManager],
    [PostsManager]) and the configuration half of [AIAPIManager]
    ([ai-api-manager.js]) follow the same conventions.

    Modelling conventions.
    - Numbers are integers ([Z]); arithmetic that JavaScript would carry
      out in doubles is exact here, which agrees with the platform while
      all magnitudes stay below 2^53.  [NaN] is kept apart ([num]).
    - Strings are sequences of code units below 256.
    - [JSON.parse] accepts the whole grammar of JSON.  Where a text
      denotes what the two conventions above do not hold (a number that
      is no safe integer, a code unit from 256 up), the value read holds
      in its place what [JSON_beyond] of the environment gives for it.
    - An object is the list of its own properties in insertion order (the
      platform lists keys that are array indices first; no such key is
      used by the two classes).
    - A callback is a notification: it returns, and leaves the manager and
      the store alone.
    - Asynchronous methods are run to completion, one at a time: a method
      is a state transformer on the [world] that returns a value or throws.
      The one fire-and-forget call of the source (the background refresh of
      [checkTokenExpiry]) is queued in the world and run separately.
    - What the source leaves to the platform or the network is a field of
      the environment [Env]; theorems hold for every environment. *)

From Stdlib Require Import ZArith Ascii String List Bool Lia.
From stdpp Require Import gmap strings list pretty.

Set Warnings "-register-all".
Local Open Scope string_scope.
Local Open Scope list_scope.

(* ===================================================================== *)
(** ** JavaScript values *)
(* ===================================================================== *)

Module JS.

(** The values a credential field, a stored record or a token response
    can hold.  An object is its own enumerable properties in insertion
    order. *)
Inductive value : Type :=
| VUndefined
| VNull
| VBool (b : bool)
| VNum (n : Z)
| VStr (s : string)
| VObj (props : list (string * value))
| VArr (elems : list value).

(** A number that may be [NaN] (the result of a conversion or of [Date]). *)
Inductive num : Type :=
| NaN
| Num (z : Z).

(** What a [throw] carries. [Error msg] is [new Error(msg)]. *)
Inductive exn : Type :=
| Error (message : string)
| TypeError (message : string)
| RangeError (message : string)
| SyntaxError (message : string)
| QuotaExceededError.

Inductive result (A : Type) : Type :=
| Ok (a : A)
| Throw (e : exn).
Arguments Ok {A} a.
Arguments Throw {A} e.

(** ToBoolean: [!!v]. *)
Definition truthy (v : value) : bool :=
  match v with
  | VUndefined | VNull => false
  | VBool b => b
  | VNum n => negb (n =? 0)%Z
  | VStr s => negb (String.eqb s "")
  | VObj _ | VArr _ => true
  end.

(** [a || b]. *)
Definition or_else (a b : value) : value := if truthy a then a else b.

(** ToString. A plain object prints as [[object Object]]; an array joins
    its elements with commas, [null] and [undefined] printing as nothing. *)
Fixpoint to_string (v : value) : string :=
  match v with
  | VUndefined => "undefined"
  | VNull => "null"
  | VBool true => "true"
  | VBool false => "false"
  | VNum n => pretty n
  | VStr s => s
  | VObj _ => "[object Object]"
  | VArr es =>
      (fix join (l : list value) : string :=
         match l with
         | [] => ""
         | e :: r =>
             let here := match e with
                         | VUndefined | VNull => ""
                         | _ => to_string e
                         end in
             match r with
             | [] => here
             | _ => here +:+ "," +:+ join r
             end
         end) es
  end.

(** ToNumber; the conversion of a string is the platform's
    ([StringToNumber]), passed as [s2n]. *)
Definition to_number (s2n : string → num) (v : value) : num :=
  match v with
  | VUndefined => NaN
  | VNull => Num 0
  | VBool true => Num 1
  | VBool false => Num 0
  | VNum n => Num n
  | VStr s => s2n s
  | VObj _ => NaN
  | VArr _ => s2n (to_string v)
  end.

Definition num_mul (a b : num) : num :=
  match a, b with Num x, Num y => Num (x * y) | _, _ => NaN end.
Definition num_add (a b : num) : num :=
  match a, b with Num x, Num y => Num (x + y) | _, _ => NaN end.
Definition num_sub (a b : num) : num :=
  match a, b with Num x, Num y => Num (x - y) | _, _ => NaN end.
(** Comparisons with [NaN] are false. *)
Definition num_lt (a b : num) : bool :=
  match a, b with Num x, Num y => (x <? y)%Z | _, _ => false end.
Definition num_le (a b : num) : bool :=
  match a, b with Num x, Num y => (x <=? y)%Z | _, _ => false end.
(** [Math.floor(a / d)] for a positive integer [d]. *)
Definition num_floor_div (a : num) (d : Z) : num :=
  match a with Num x => Num (x / d) | NaN => NaN end.

(** Own property [k] of an object literal, [undefined] when missing. *)
Fixpoint lookup_prop (k : string) (ps : list (string * value)) : value :=
  match ps with
  | [] => VUndefined
  | (k', v) :: r => if String.eqb k k' then v else lookup_prop k r
  end.

(** [v.k] for the property names the two classes read (none of them is a
    property of a string, a number, a boolean or an array): reading a
    property of [null] or [undefined] throws. *)
Definition get (v : value) (k : string) : result value :=
  match v with
  | VUndefined | VNull =>
      Throw (TypeError ("Cannot read properties of " +:+ to_string v))
  | VObj ps => Ok (lookup_prop k ps)
  | _ => Ok VUndefined
  end.

(** [o[k] = v] on a property list: an existing key keeps its place. *)
Fixpoint set_prop (k : string) (v : value) (ps : list (string * value))
  : list (string * value) :=
  match ps with
  | [] => [(k, v)]
  | (k', v') :: r =>
      if String.eqb k k' then (k, v) :: r else (k', v') :: set_prop k v r
  end.

(** The own enumerable properties an object spread [{...v}] copies. *)
Definition own_props (v : value) : list (string * value) :=
  match v with
  | VObj ps => ps
  | VArr es => imap (λ i e, (pretty (Z.of_nat i), e)) es
  | VStr s =>
      imap (λ i c, (pretty (Z.of_nat i), VStr (String c EmptyString)))
           (list_ascii_of_string s)
  | _ => []
  end.

(** [{...a, ...b}] as property lists. *)
Definition spread (base more : list (string * value)) : list (string * value) :=
  fold_left (λ acc kv, set_prop kv.1 kv.2 acc) more base.

(** [s.startsWith(p)]. *)
Definition startsWith (s p : string) : bool := String.prefix p s.

Fixpoint drop_chars (n : nat) (s : string) : string :=
  match n, s with
  | O, _ => s
  | S k, String _ r => drop_chars k r
  | S _, EmptyString => EmptyString
  end.

(** [s.substring(start)]: a start that is [NaN] or negative is 0, one
    past the end gives the empty string. *)
Definition substring_from (start : num) (s : string) : string :=
  match start with
  | Num z => drop_chars (Z.to_nat z) s
  | NaN => s
  end.

(** [o[k] = v] on an object built by the code.  The key [__proto__] names
    the prototype, not a property: the own properties stay as they are. *)
Definition assign (k : string) (v : value) (ps : list (string * value))
  : list (string * value) :=
  if String.eqb k "__proto__" then ps else set_prop k v ps.

(** [delete o.k]. *)
Fixpoint delete_prop (k : string) (ps : list (string * value))
  : list (string * value) :=
  match ps with
  | [] => []
  | (k', v) :: r =>
      if String.eqb k k' then delete_prop k r else (k', v) :: delete_prop k r
  end.

(** [Object.entries(v)]: the own properties, or a [TypeError] on [null]
    and [undefined]. *)
Definition entries (v : value) : result (list (string * value)) :=
  match v with
  | VUndefined | VNull =>
      Throw (TypeError "Cannot convert undefined or null to object")
  | _ => Ok (own_props v)
  end.

(** The values [for (const x of v)] runs through: the elements of an
    array, the characters of a string; nothing else here is iterable. *)
Definition iterate (v : value) : result (list value) :=
  match v with
  | VArr es => Ok es
  | VStr s => Ok (map (λ c, VStr (String c EmptyString)) (list_ascii_of_string s))
  | _ => Throw (TypeError (to_string v +:+ " is not iterable"))
  end.

(** [v + 1]: a sum of numbers, or a concatenation when [v] is a string or
    an object, read back as a number. *)
Definition plus_one (s2n : string → num) (v : value) : num :=
  match v with
  | VUndefined => NaN
  | VNull => Num 1
  | VBool true => Num 2
  | VBool false => Num 1
  | VNum n => Num (n + 1)
  | VStr _ | VObj _ | VArr _ => s2n (to_string v +:+ "1")
  end.

(** [v.length + 1] as [substring] reads it. *)
Definition length_plus_one (s2n : string → num) (v : value) : num :=
  match v with
  | VStr s => Num (Z.of_nat (String.length s) + 1)
  | VArr es => Num (Z.of_nat (length es) + 1)
  | VObj ps => plus_one s2n (lookup_prop "length" ps)
  | _ => NaN
  end.

(** [a === b].  Objects and arrays are equal to themselves only: the two
    sides compared here never are the same object, one being read from
    JSON text just parsed. *)
Definition strict_eq (a b : value) : bool :=
  match a, b with
  | VUndefined, VUndefined | VNull, VNull => true
  | VBool x, VBool y => Bool.eqb x y
  | VNum x, VNum y => (x =? y)%Z
  | VStr x, VStr y => String.eqb x y
  | _, _ => false
  end.

(** [r] then [k], for steps that may throw. *)
Definition and_then {A B} (r : result A) (k : A → result B) : result B :=
  match r with Ok a => k a | Throw e => Throw e end.

(** The array a method [posts.<method>(...)] runs on: anything but an
    array has no such method. *)
Definition as_array (method : string) (v : value) : result (list value) :=
  match v with
  | VArr es => Ok es
  | VUndefined | VNull =>
      Throw (TypeError ("Cannot read properties of " +:+ to_string v))
  | _ => Throw (TypeError ("posts." +:+ method +:+ " is not a function"))
  end.

End JS.

(* ===================================================================== *)
(** ** JSON text *)
(* ===================================================================== *)

Module JSON.
Import JS.

Definition dquote : ascii := "034"%char.
Definition backslash : ascii := "092"%char.

Definition hex_digit (n : N) : ascii :=
  if (n <? 10)%N then ascii_of_N (48 + n) else ascii_of_N (87 + n).

(** QuoteJSONString, one code unit. *)
Definition escape_char (c : ascii) : string :=
  let n := N_of_ascii c in
  if (n =? 8)%N then "\b"
  else if (n =? 9)%N then "\t"
  else if (n =? 10)%N then "\n"
  else if (n =? 12)%N then "\f"
  else if (n =? 13)%N then "\r"
  else if (n =? 34)%N then String backslash (String dquote EmptyString)
  else if (n =? 92)%N then "\\"
  else if (n <? 32)%N then
    "\u00" +:+ String (hex_digit (n / 16)) (String (hex_digit (n mod 16)) EmptyString)
  else String c EmptyString.

Fixpoint escape (s : string) : string :=
  match s with
  | EmptyString => EmptyString
  | String c r => escape_char c +:+ escape r
  end.

Definition quote (s : string) : string :=
  String dquote (escape s +:+ String dquote EmptyString).

Fixpoint join (sep : string) (l : list string) : string :=
  match l with
  | [] => ""
  | [x] => x
  | x :: r => x +:+ sep +:+ join sep r
  end.

(** [JSON.stringify(v)]; [None] is the result [undefined].  A property
    whose value is [undefined] is left out; an [undefined] array element
    prints as [null]. *)
Fixpoint stringify (v : value) : option string :=
  match v with
  | VUndefined => None
  | VNull => Some "null"
  | VBool true => Some "true"
  | VBool false => Some "false"
  | VNum n => Some (pretty n)
  | VStr s => Some (quote s)
  | VObj ps =>
      Some ("{" +:+
            join "," ((fix members (l : list (string * value)) : list string :=
                         match l with
                         | [] => []
                         | (k, x) :: r =>
                             match stringify x with
                             | Some t => (quote k +:+ ":" +:+ t) :: members r
                             | None => members r
                             end
                         end) ps)
            +:+ "}")
  | VArr es =>
      Some ("[" +:+
            join "," ((fix elems (l : list value) : list string :=
                         match l with
                         | [] => []
                         | x :: r =>
                             match stringify x with
                             | Some t => t :: elems r
                             | None => "null" :: elems r
                             end
                         end) es)
            +:+ "]")
  end.

(** *** Parsing *)

Definition is_ws (c : ascii) : bool :=
  let n := N_of_ascii c in
  (n =? 32)%N || (n =? 9)%N || (n =? 10)%N || (n =? 13)%N.

Fixpoint skip_ws (s : string) : string :=
  match s with
  | String c r => if is_ws c then skip_ws r else s
  | EmptyString => s
  end.

Definition hex_val (c : ascii) : option N :=
  let n := N_of_ascii c in
  if (48 <=? n)%N && (n <=? 57)%N then Some (n - 48)%N
  else if (97 <=? n)%N && (n <=? 102)%N then Some (n - 87)%N
  else if (65 <=? n)%N && (n <=? 70)%N then Some (n - 55)%N
  else None.

(** JSON text can denote two kinds of value that the values of this file
    cannot hold: a number that is no safe integer (a fraction, or an
    integer a double may round), and a string with a code unit from 256
    up.  [JSON.parse] reads them as it reads any other; what such a number
    and such a code unit are taken to be here is the platform's:
    [beyond_number m e] for the number [m * 10 ^ e], [beyond_unit n] for
    the code unit [n]. *)
Record Beyond : Type := {
  beyond_number : Z → Z → Z;
  beyond_unit : N → ascii
}.

(** The code unit of [\uXXXX]. *)
Definition hex4 (a b c d : ascii) : option N :=
  match hex_val a, hex_val b, hex_val c, hex_val d with
  | Some x, Some y, Some z, Some w => Some (4096 * x + 256 * y + 16 * z + w)%N
  | _, _, _, _ => None
  end.

Definition code_unit (B : Beyond) (n : N) : ascii :=
  if (n <? 256)%N then ascii_of_N n else beyond_unit B n.

Definition unescape (e : ascii) : option ascii :=
  if Ascii.eqb e dquote then Some dquote
  else if Ascii.eqb e backslash then Some backslash
  else if Ascii.eqb e "/" then Some "/"%char
  else if Ascii.eqb e "b" then Some "008"%char
  else if Ascii.eqb e "f" then Some "012"%char
  else if Ascii.eqb e "n" then Some "010"%char
  else if Ascii.eqb e "r" then Some "013"%char
  else if Ascii.eqb e "t" then Some "009"%char
  else None.

(** The characters of a string literal after its opening quote, up to
    and including the closing quote: any escape of the grammar, no
    control character. *)
Fixpoint parse_chars (B : Beyond) (s : string) : option (string * string) :=
  match s with
  | EmptyString => None
  | String c r =>
      if Ascii.eqb c dquote then Some (EmptyString, r)
      else if Ascii.eqb c backslash then
        match r with
        | EmptyString => None
        | String e r1 =>
            match unescape e with
            | Some d =>
                match parse_chars B r1 with
                | Some (t, rest) => Some (String d t, rest)
                | None => None
                end
            | None =>
                if Ascii.eqb e "u" then
                  match r1 with
                  | String h1 (String h2 (String h3 (String h4 r2))) =>
                      match hex4 h1 h2 h3 h4 with
                      | Some n =>
                          match parse_chars B r2 with
                          | Some (t, rest) => Some (String (code_unit B n) t, rest)
                          | None => None
                          end
                      | None => None
                      end
                  | _ => None
                  end
                else None
            end
        end
      else if (N_of_ascii c <? 32)%N then None
      else
        match parse_chars B r with
        | Some (t, rest) => Some (String c t, rest)
        | None => None
        end
  end.

Definition digit_val (c : ascii) : option Z :=
  let n := N_of_ascii c in
  if (48 <=? n)%N && (n <=? 57)%N then Some (Z.of_N (n - 48)) else None.

Fixpoint parse_digits (acc : Z) (s : string) : Z * string :=
  match s with
  | String c r =>
      match digit_val c with
      | Some d => parse_digits (10 * acc + d) r
      | None => (acc, s)
      end
  | EmptyString => (acc, s)
  end.

(** Neither a fraction nor an exponent follows. *)
Definition no_fraction (s : string) : bool :=
  match s with
  | String c _ => negb (Ascii.eqb c "." || Ascii.eqb c "e" || Ascii.eqb c "E")
  | EmptyString => true
  end.

(** The digits of a fraction, added to the digits before the point and
    counted. *)
Fixpoint parse_places (acc places : Z) (s : string) : Z * Z * string :=
  match s with
  | String c r =>
      match digit_val c with
      | Some d => parse_places (10 * acc + d) (places + 1) r
      | None => (acc, places, s)
      end
  | EmptyString => (acc, places, s)
  end.

Definition starts_with_digit (s : string) : bool :=
  match s with
  | String c _ => match digit_val c with Some _ => true | None => false end
  | EmptyString => false
  end.

(** [frac]: a point and at least one digit, or nothing.  The digits
    join those read before ([n]); their number is returned with them. *)
Definition read_fraction (n : Z) (s : string) : option (Z * Z * string) :=
  match s with
  | String c r =>
      if Ascii.eqb c "." then
        if starts_with_digit r then Some (parse_places n 0 r) else None
      else Some (n, 0%Z, s)
  | EmptyString => Some (n, 0%Z, s)
  end.

(** [exp]: [e] or [E], a sign or none, and at least one digit; or
    nothing. *)
Definition read_exponent (s : string) : option (Z * string) :=
  match s with
  | String c r =>
      if Ascii.eqb c "e" || Ascii.eqb c "E" then
        let '(negative, digits) :=
          match r with
          | String sign r' =>
              if Ascii.eqb sign "-" then (true, r')
              else if Ascii.eqb sign "+" then (false, r')
              else (false, r)
          | EmptyString => (false, r)
          end in
        if starts_with_digit digits then
          let '(e, rest) := parse_digits 0 digits in
          Some (if negative : bool then (- e)%Z else e, rest)
        else None
      else Some (0%Z, s)
  | EmptyString => Some (0%Z, s)
  end.

Definition max_safe_integer : Z := 9007199254740991.

(** The number [m * 10 ^ e], for [m] not negative: itself when it is a
    safe integer, which a double holds exactly. *)
Definition number_of (B : Beyond) (m e : Z) : Z :=
  let exact :=
    if (0 <=? e)%Z then Some (m * 10 ^ e)%Z
    else if (m mod 10 ^ (- e) =? 0)%Z then Some (m / 10 ^ (- e))%Z
    else None in
  match exact with
  | Some z => if (z <=? max_safe_integer)%Z then z else beyond_number B m e
  | None => beyond_number B m e
  end.

(** A numeral without its sign: [0], or digits that do not start with
    [0], then a fraction and an exponent if any. *)
Definition parse_unsigned (B : Beyond) (s : string) : option (Z * string) :=
  match s with
  | String c r =>
      match digit_val c with
      | Some d =>
          let '(n, rest) := if (d =? 0)%Z then (0%Z, r) else parse_digits d r in
          if no_fraction rest then Some (number_of B n 0, rest)
          else
            match read_fraction n rest with
            | Some (m, places, r1) =>
                match read_exponent r1 with
                | Some (e, r2) => Some (number_of B m (e - places), r2)
                | None => None
                end
            | None => None
            end
      | None => None
      end
  | EmptyString => None
  end.

Definition parse_number (B : Beyond) (s : string) : option (Z * string) :=
  match s with
  | String c r =>
      if Ascii.eqb c "-" then
        match parse_unsigned B r with
        | Some (n, rest) => Some ((- n)%Z, rest)
        | None => None
        end
      else parse_unsigned B s
  | EmptyString => None
  end.

Fixpoint expect (word : string) (s : string) : option string :=
  match word, s with
  | EmptyString, _ => Some s
  | String a w, String b r => if Ascii.eqb a b then expect w r else None
  | String _ _, EmptyString => None
  end.

(** What the parser is in the middle of: a value, the members of an
    object after at least a brace, or the elements of an array. *)
Inductive mode : Type :=
| MValue
| MMembers (acc : list (string * value))
| MElems (acc : list value).

Fixpoint parse (B : Beyond) (fuel : nat) (m : mode) (s : string)
  : option (value * string) :=
  match fuel with
  | O => None
  | S fuel' =>
      match m with
      | MValue =>
          match skip_ws s with
          | EmptyString => None
          | String c r =>
              if Ascii.eqb c "n" then
                match expect "ull" r with Some rest => Some (VNull, rest) | None => None end
              else if Ascii.eqb c "t" then
                match expect "rue" r with Some rest => Some (VBool true, rest) | None => None end
              else if Ascii.eqb c "f" then
                match expect "alse" r with Some rest => Some (VBool false, rest) | None => None end
              else if Ascii.eqb c dquote then
                match parse_chars B r with
                | Some (t, rest) => Some (VStr t, rest)
                | None => None
                end
              else if Ascii.eqb c "{" then
                match skip_ws r with
                | String c' r' =>
                    if Ascii.eqb c' "}" then Some (VObj [], r')
                    else parse B fuel' (MMembers []) r
                | EmptyString => None
                end
              else if Ascii.eqb c "[" then
                match skip_ws r with
                | String c' r' =>
                    if Ascii.eqb c' "]" then Some (VArr [], r')
                    else parse B fuel' (MElems []) r
                | EmptyString => None
                end
              else
                match parse_number B (String c r) with
                | Some (n, rest) => Some (VNum n, rest)
                | None => None
                end
          end
      | MMembers acc =>
          match skip_ws s with
          | String q r =>
              if Ascii.eqb q dquote then
                match parse_chars B r with
                | Some (k, r1) =>
                    match skip_ws r1 with
                    | String colon r2 =>
                        if Ascii.eqb colon ":" then
                          match parse B fuel' MValue r2 with
                          | Some (v, r3) =>
                              match skip_ws r3 with
                              | String d r4 =>
                                  if Ascii.eqb d "," then
                                    parse B fuel' (MMembers (set_prop k v acc)) r4
                                  else if Ascii.eqb d "}" then
                                    Some (VObj (set_prop k v acc), r4)
                                  else None
                              | EmptyString => None
                              end
                          | None => None
                          end
                        else None
                    | EmptyString => None
                    end
                | None => None
                end
              else None
          | EmptyString => None
          end
      | MElems acc =>
          match parse B fuel' MValue s with
          | Some (v, r1) =>
              match skip_ws r1 with
              | String d r2 =>
                  if Ascii.eqb d "," then parse B fuel' (MElems (acc ++ [v])) r2
                  else if Ascii.eqb d "]" then Some (VArr (acc ++ [v]), r2)
                  else None
              | EmptyString => None
              end
          | None => None
          end
      end
  end.

(** [JSON.parse(text)]: one value and nothing but blanks after it.  The
    fuel is enough for every text (lemma [parse_text_fuel]). *)
Definition parse_text (B : Beyond) (text : string) : result value :=
  match parse B (S (String.length text)) MValue text with
  | Some (v, rest) =>
      match skip_ws rest with
      | EmptyString => Ok v
      | String _ _ => Throw (SyntaxError "Unexpected non-whitespace character after JSON")
      end
  | None => Throw (SyntaxError "Unexpected token in JSON")
  end.

End JSON.

(* ===================================================================== *)
(** ** Dates *)
(* ===================================================================== *)

Module Date.
Import JS.

(** A time value is a number of milliseconds since the epoch, at most
    8.64e15 in magnitude, or [NaN] (an invalid date). *)
Definition max_time : Z := 8640000000000000.

Definition time_clip (t : num) : num :=
  match t with
  | Num z => if (Z.abs z <=? max_time)%Z then Num z else NaN
  | NaN => NaN
  end.

Definition ms_per_day : Z := 86400000.

(** Year, month and day of a day number (days since 1970-01-01) in the
    proleptic Gregorian calendar. *)
Definition civil_from_days (days : Z) : Z * Z * Z :=
  let z := (days + 719468)%Z in
  let era := (z / 146097)%Z in
  let doe := (z - era * 146097)%Z in
  let yoe := ((doe - doe / 1460 + doe / 36524 - doe / 146096) / 365)%Z in
  let doy := (doe - (365 * yoe + yoe / 4 - yoe / 100))%Z in
  let mp := ((5 * doy + 2) / 153)%Z in
  let d := (doy - (153 * mp + 2) / 5 + 1)%Z in
  let m := (if (mp <? 10)%Z then mp + 3 else mp - 9)%Z in
  let y := (yoe + era * 400 + (if (m <=? 2)%Z then 1 else 0))%Z in
  (y, m, d).

Definition days_from_civil (y m d : Z) : Z :=
  let y' := (if (m <=? 2)%Z then y - 1 else y)%Z in
  let era := (y' / 400)%Z in
  let yoe := (y' - era * 400)%Z in
  let mp := (if (m <=? 2)%Z then m + 9 else m - 3)%Z in
  let doy := ((153 * mp + 2) / 5 + d - 1)%Z in
  let doe := (yoe * 365 + yoe / 4 - yoe / 100 + doy)%Z in
  (era * 146097 + doe - 719468)%Z.

Fixpoint zeros (n : nat) : string :=
  match n with O => EmptyString | S k => String "0" (zeros k) end.

(** A non-negative number in decimal, zero-padded on the left. *)
Definition pad (width : nat) (n : Z) : string :=
  let digits := pretty n in
  zeros (width - String.length digits) +:+ digits.

Definition year_string (y : Z) : string :=
  if (0 <=? y)%Z && (y <=? 9999)%Z then pad 4 y
  else (if (y <? 0)%Z then "-" else "+") +:+ pad 6 (Z.abs y).

(** [YYYY-MM-DDTHH:mm:ss.sssZ] of a valid time value. *)
Definition iso_string (t : Z) : string :=
  let days := (t / ms_per_day)%Z in
  let ms := (t mod ms_per_day)%Z in
  let '(y, m, d) := civil_from_days days in
  year_string y +:+ "-" +:+ pad 2 m +:+ "-" +:+ pad 2 d +:+ "T" +:+
  pad 2 (ms / 3600000) +:+ ":" +:+ pad 2 (ms / 60000 mod 60) +:+ ":" +:+
  pad 2 (ms / 1000 mod 60) +:+ "." +:+ pad 3 (ms mod 1000) +:+ "Z".

(** [new Date(t).toISOString()]. *)
Definition toISOString (t : num) : result string :=
  match time_clip t with
  | Num z => Ok (iso_string z)
  | NaN => Throw (RangeError "Invalid time value")
  end.

(** [new Date(v).getTime()]: a string, or a value whose primitive is a
    string, goes through the platform's [Date.parse] (passed as [dparse]);
    anything else is converted to a number and clipped. *)
Definition getTime (dparse : string → num) (v : value) : num :=
  match v with
  | VStr s => dparse s
  | VObj _ | VArr _ => dparse (to_string v)
  | _ => time_clip (to_number (λ _, NaN) v)
  end.

(** *** A [Date.parse] for the strings [toISOString] writes *)

Fixpoint read_digits (n : nat) (acc : Z) (s : string) : option (Z * string) :=
  match n with
  | O => Some (acc, s)
  | S k =>
      match s with
      | String c r =>
          match JSON.digit_val c with
          | Some d => read_digits k (10 * acc + d) r
          | None => None
          end
      | EmptyString => None
      end
  end.

Definition read_year (s : string) : option (Z * string) :=
  match s with
  | String c r =>
      if Ascii.eqb c "+" then read_digits 6 0 r
      else if Ascii.eqb c "-" then
        match read_digits 6 0 r with
        | Some (y, rest) => if (y =? 0)%Z then None else Some ((- y)%Z, rest)
        | None => None
        end
      else read_digits 4 0 s
  | EmptyString => None
  end.

Definition days_in_month (y m : Z) : Z :=
  (days_from_civil (if (m =? 12) then y + 1 else y) (if (m =? 12) then 1 else m + 1) 1
   - days_from_civil y m 1)%Z.

(** Reads [YYYY-MM-DDTHH:mm:ss.sssZ] (years may be expanded); any other
    string is an invalid date. *)
Definition parse_iso (s : string) : num :=
  let field (n : nat) (sep : string) (s : string) : option (Z * string) :=
    match read_digits n 0 s with
    | Some (x, rest) =>
        match JSON.expect sep rest with
        | Some rest' => Some (x, rest')
        | None => None
        end
    | None => None
    end in
  match read_year s with
  | Some (y, r0) =>
      match JSON.expect "-" r0 with
      | Some r1 =>
          match field 2%nat "-" r1 with
          | Some (mo, r2) =>
              match field 2%nat "T" r2 with
              | Some (d, r3) =>
                  match field 2%nat ":" r3 with
                  | Some (h, r4) =>
                      match field 2%nat ":" r4 with
                      | Some (mi, r5) =>
                          match field 2%nat "." r5 with
                          | Some (sec, r6) =>
                              match field 3%nat "Z" r6 with
                              | Some (ms, EmptyString) =>
                                  if (1 <=? mo)%Z && (mo <=? 12)%Z && (1 <=? d)%Z
                                     && (d <=? days_in_month y mo)%Z
                                     && (h <=? 23)%Z && (mi <=? 59)%Z && (sec <=? 59)%Z
                                  then
                                    time_clip
                                      (Num (days_from_civil y mo d * ms_per_day
                                            + h * 3600000 + mi * 60000 + sec * 1000 + ms))
                                  else NaN
                              | _ => NaN
                              end
                          | None => NaN
                          end
                      | None => NaN
                      end
                  | None => NaN
                  end
              | None => NaN
              end
          | None => NaN
          end
      | None => NaN
      end
  | None => NaN
  end.

End Date.

(* ===================================================================== *)
(** ** The world a method runs in *)
(* ===================================================================== *)

Import JS.

(** What [fetch] resolves to: the status line and what [response.json()]
    settles to. *)
Record response : Type := Response {
  status : Z;
  json : result value
}.

(** A call [fetch(url, init)] settles after [elapsed] milliseconds. *)
Record fetch_outcome : Type := FetchOutcome {
  elapsed : Z;
  settled : result response
}.

(** The platform and the network.  [network n url init] is what the
    [n]-th call of [fetch] (counted from 0) settles to. *)
Record Env : Type := {
  string_to_number : string → num;
  Date_parse : string → num;
  JSON_beyond : JSON.Beyond;
  storage_accepts : gmap string string → string → string → bool;
  network : nat → string → list (string * value) → fetch_outcome;
  location_origin : string;
  location_pathname : string
}.

(** The fields of an [OAuthTokenManager]. A callback is kept as whether
    one was configured; running it is an [event]. *)
Record manager : Type := Manager {
  clientId : value;
  clientSecret : value;
  accessToken : value;
  refreshToken : value;
  tokenExpiry : value;
  storageKey : value;
  scope : value;
  tokenRefreshCallback : bool;
  tokenExpiryCallback : bool;
  refreshInterval : option nat
}.

(** What a run leaves behind besides the state.  [EFetch] and [ECall]
    name the method that made the call, so that calls can be counted;
    [ESetItem] is a write handed to localStorage, accepted or not. *)
Inductive event : Type :=
| EFetch (caller : string) (url : string) (init : list (string * value))
| ECall (method : string)
| ESetItem (key text : string)
| EConsoleError (label : string) (e : exn)
| ETokenRefresh (token expiry : value)
| ETokenExpiry (e : exn).

Record world : Type := World {
  self : manager;
  localStorage : gmap string string;
  now : Z;
  intervals : list (nat * Z);
  next_interval : nat;
  background : nat;
  log : list event
}.

(** A method body: it may change the world, and returns or throws. *)
Definition M (A : Type) : Type := world → result A * world.

Definition ret {A} (a : A) : M A := λ w, (Ok a, w).
Definition throw {A} (e : exn) : M A := λ w, (Throw e, w).
Definition bind {A B} (m : M A) (k : A → M B) : M B :=
  λ w, match m w with
       | (Ok a, w') => k a w'
       | (Throw e, w') => (Throw e, w')
       end.
(** [try { body } catch (error) { handler }]. *)
Definition try_catch {A} (body : M A) (handler : exn → M A) : M A :=
  λ w, match body w with
       | (Ok a, w') => (Ok a, w')
       | (Throw e, w') => handler e w'
       end.
Definition lift {A} (r : result A) : M A := λ w, (r, w).

Notation "x <- m ;; k" := (bind m (λ x, k))
  (at level 100, m at next level, right associativity).
Notation "m ;;; k" := (bind m (λ _, k))
  (at level 100, right associativity).

Definition this : M manager := λ w, (Ok (self w), w).
Definition update (f : manager → manager) : M unit :=
  λ w, (Ok tt, World (f (self w)) (localStorage w) (now w) (intervals w)
                      (next_interval w) (background w) (log w)).
Definition emit (e : event) : M unit :=
  λ w, (Ok tt, World (self w) (localStorage w) (now w) (intervals w)
                      (next_interval w) (background w) (log w ++ [e])).
Definition console_error (label : string) (e : exn) : M unit :=
  emit (EConsoleError label e).
Definition Date_now : M Z := λ w, (Ok (now w), w).

Definition set_clientId (v : value) (m : manager) : manager :=
  Manager v (clientSecret m) (accessToken m) (refreshToken m) (tokenExpiry m)
          (storageKey m) (scope m) (tokenRefreshCallback m) (tokenExpiryCallback m)
          (refreshInterval m).
Definition set_clientSecret (v : value) (m : manager) : manager :=
  Manager (clientId m) v (accessToken m) (refreshToken m) (tokenExpiry m)
          (storageKey m) (scope m) (tokenRefreshCallback m) (tokenExpiryCallback m)
          (refreshInterval m).
Definition set_accessToken (v : value) (m : manager) : manager :=
  Manager (clientId m) (clientSecret m) v (refreshToken m) (tokenExpiry m)
          (storageKey m) (scope m) (tokenRefreshCallback m) (tokenExpiryCallback m)
          (refreshInterval m).
Definition set_refreshToken (v : value) (m : manager) : manager :=
  Manager (clientId m) (clientSecret m) (accessToken m) v (tokenExpiry m)
          (storageKey m) (scope m) (tokenRefreshCallback m) (tokenExpiryCallback m)
          (refreshInterval m).
Definition set_tokenExpiry (v : value) (m : manager) : manager :=
  Manager (clientId m) (clientSecret m) (accessToken m) (refreshToken m) v
          (storageKey m) (scope m) (tokenRefreshCallback m) (tokenExpiryCallback m)
          (refreshInterval m).
Definition set_refreshInterval (h : option nat) (m : manager) : manager :=
  Manager (clientId m) (clientSecret m) (accessToken m) (refreshToken m)
          (tokenExpiry m) (storageKey m) (scope m) (tokenRefreshCallback m)
          (tokenExpiryCallback m) h.

(** *** localStorage *)

(** [localStorage.getItem(k)]; [None] is [null]. *)
Definition getItem (k : string) : M (option string) :=
  λ w, (Ok (localStorage w !! k), w).

(** [localStorage.setItem(k, v)]: the platform may refuse the write. *)
Definition setItem (E : Env) (k v : string) : M unit :=
  λ w, if storage_accepts E (localStorage w) k v
       then (Ok tt, World (self w) (<[k := v]> (localStorage w)) (now w)
                          (intervals w) (next_interval w) (background w)
                          (log w ++ [ESetItem k v]))
       else (Throw QuotaExceededError,
             World (self w) (localStorage w) (now w)
                   (intervals w) (next_interval w) (background w)
                   (log w ++ [ESetItem k v])).

Definition removeItem (k : string) : M unit :=
  λ w, (Ok tt, World (self w) (delete k (localStorage w)) (now w)
                      (intervals w) (next_interval w) (background w) (log w)).

(** The argument of [setItem] is converted to a string: the result
    [undefined] of [JSON.stringify] is stored as that word. *)
Definition text_of (o : option string) : string :=
  match o with Some t => t | None => "undefined" end.

(** *** fetch *)

Definition is_fetch (e : event) : bool :=
  match e with EFetch _ _ _ => true | _ => false end.
Definition is_fetch_by (caller : string) (e : event) : bool :=
  match e with EFetch c _ _ => String.eqb c caller | _ => false end.
Definition is_call (method : string) (e : event) : bool :=
  match e with ECall m => String.eqb m method | _ => false end.

Definition count (p : event → bool) (l : list event) : nat :=
  length (List.filter p l).

Definition fetches (w : world) : nat := count is_fetch (log w).
Definition fetches_by (caller : string) (w : world) : nat :=
  count (is_fetch_by caller) (log w).
Definition calls (method : string) (w : world) : nat :=
  count (is_call method) (log w).

(** The call itself: the request leaves, what it will settle to is fixed. *)
Definition fetch_issue (E : Env) (caller url : string) (init : list (string * value))
  : M fetch_outcome :=
  λ w, (Ok (network E (fetches w) url init),
        World (self w) (localStorage w) (now w) (intervals w)
              (next_interval w) (background w) (log w ++ [EFetch caller url init])).

(** [await] on it: time passes, then the response or the rejection. *)
Definition await (o : fetch_outcome) : M response :=
  λ w, (settled o,
        World (self w) (localStorage w) (now w + elapsed o)%Z (intervals w)
              (next_interval w) (background w) (log w)).

Definition fetch (E : Env) (caller url : string) (init : list (string * value))
  : M response :=
  o <- fetch_issue E caller url init ;; await o.

(** *** Timers *)

Definition setInterval (period : Z) : M nat :=
  λ w, (Ok (next_interval w),
        World (self w) (localStorage w) (now w)
              ((next_interval w, period) :: intervals w)
              (S (next_interval w)) (background w) (log w)).

Definition clearInterval (h : nat) : M unit :=
  λ w, (Ok tt,
        World (self w) (localStorage w) (now w)
              (filter (λ t, t.1 ≠ h) (intervals w))
              (next_interval w) (background w) (log w)).

(** A promise left to run on its own. *)
Definition spawn : M unit :=
  λ w, (Ok tt,
        World (self w) (localStorage w) (now w) (intervals w)
              (next_interval w) (S (background w)) (log w)).

(* ===================================================================== *)
(** ** StorageManager (modules/storage-credentials-manager.js) *)
(* ===================================================================== *)

Module StorageManager.

Record t : Type := Make {
  namespace : value;
  encryption : value;
  credentialKeys : value
}.

(** [constructor(config = {})]. *)
Definition constructor (config : value) : result t :=
  let config := match config with VUndefined => VObj [] | c => c end in
  match get config "namespace", get config "encryption", get config "credentialKeys" with
  | Ok ns, Ok enc, Ok keys =>
      Ok (Make (or_else ns (VStr "app")) (or_else enc (VBool false)) (or_else keys (VArr [])))
  | Throw e, _, _ | _, Throw e, _ | _, _, Throw e => Throw e
  end.

(** [getKey(key)]: the template literal [`${this.namespace}_${key}`]. *)
Definition getKey (sm : t) (key : value) : string :=
  to_string (namespace sm) +:+ "_" +:+ to_string key.

Definition save (E : Env) (sm : t) (key data : value) : M bool :=
  try_catch
    (let storageKey := getKey sm key in
     let dataStr := JSON.stringify data in
     setItem E storageKey (text_of dataStr) ;;;
     ret true)
    (λ error,
       console_error ("Error saving " +:+ to_string key +:+ ":") error ;;;
       ret false).

(** [load(key, defaultValue = null)]. *)
Definition load (E : Env) (sm : t) (key defaultValue : value) : M value :=
  let defaultValue := match defaultValue with VUndefined => VNull | d => d end in
  try_catch
    (let storageKey := getKey sm key in
     dataStr <- getItem storageKey ;;
     match dataStr with
     | None | Some EmptyString => ret defaultValue
     | Some text => lift (JSON.parse_text (JSON_beyond E) text)
     end)
    (λ error,
       console_error ("Error loading " +:+ to_string key +:+ ":") error ;;;
       ret defaultValue).

Definition remove (sm : t) (key : value) : M bool :=
  try_catch
    (removeItem (getKey sm key) ;;; ret true)
    (λ error,
       console_error ("Error removing " +:+ to_string key +:+ ":") error ;;;
       ret false).

Definition exists_ (sm : t) (key : value) : M bool :=
  item <- getItem (getKey sm key) ;;
  ret (match item with Some _ => true | None => false end).

(** The keys [localStorage.key(i)] gives for [i] below
    [localStorage.length]; their order is the platform's. *)
Definition storage_keys (w : world) : list string :=
  (map_to_list (localStorage w)).*1.

Definition in_namespace (sm : t) (key : string) : bool :=
  negb (String.eqb key "") && startsWith key (to_string (namespace sm) +:+ "_").

Fixpoint remove_each (keys : list string) : M unit :=
  match keys with
  | [] => ret tt
  | key :: r => removeItem key ;;; remove_each r
  end.

(** Clear all data with namespace. *)
Definition clearAll (sm : t) : M bool :=
  try_catch
    (λ w,
       let keysToRemove := List.filter (in_namespace sm) (storage_keys w) in
       (remove_each keysToRemove ;;; ret true) w)
    (λ error,
       console_error "Error clearing storage:" error ;;;
       ret false).

(** Get all keys in namespace. *)
Definition getAllKeys (E : Env) (sm : t) : M (list string) :=
  λ w,
    (Ok (map (substring_from (length_plus_one (string_to_number E) (namespace sm)))
             (List.filter (in_namespace sm) (storage_keys w))),
     w).

(** [saveBatch(items)]: the object of the results, key by key. *)
Fixpoint save_each (E : Env) (sm : t) (items : list (string * value))
         (results : list (string * value)) : M (list (string * value)) :=
  match items with
  | [] => ret results
  | (key, v) :: r =>
      saved <- save E sm (VStr key) v ;;
      save_each E sm r (assign key (VBool saved) results)
  end.

Definition saveBatch (E : Env) (sm : t) (items : value) : M value :=
  kvs <- lift (entries items) ;;
  results <- save_each E sm kvs [] ;;
  ret (VObj results).

Fixpoint load_each (E : Env) (sm : t) (keys : list value)
         (results : list (string * value)) : M (list (string * value)) :=
  match keys with
  | [] => ret results
  | key :: r =>
      v <- load E sm key VUndefined ;;
      load_each E sm r (assign (to_string key) v results)
  end.

Definition loadBatch (E : Env) (sm : t) (keys : value) : M value :=
  ks <- lift (iterate keys) ;;
  results <- load_each E sm ks [] ;;
  ret (VObj results).

End StorageManager.

(* ===================================================================== *)
(** ** CredentialsManager (modules/storage-credentials-manager.js) *)
(* ===================================================================== *)

(** The class extends [StorageManager]: its methods run on the namespace
    of the manager they are called on.  The table [credentialTypes] its
    constructor adds is read by no method. *)
Module CredentialsManager.

(** The template literal [`credentials_${service}`]. *)
Definition credentials_key (service : value) : value :=
  VStr ("credentials_" +:+ to_string service).

(** Filter out sensitive data based on service: as-is, for now. *)
Definition filterCredentials (service credentials : value) : value := credentials.

Definition saveCredentials (E : Env) (sm : StorageManager.t)
           (service credentials : value) : M bool :=
  let filtered := filterCredentials service credentials in
  StorageManager.save E sm (credentials_key service) filtered.

(** [load] with the default [{}]. *)
Definition loadCredentials (E : Env) (sm : StorageManager.t) (service : value)
  : M value :=
  StorageManager.load E sm (credentials_key service) (VObj []).

(** [{ ...current, ...updates }], then [saveCredentials]. *)
Definition updateCredentials (E : Env) (sm : StorageManager.t)
           (service updates : value) : M bool :=
  current <- loadCredentials E sm service ;;
  let updated := VObj (spread (spread [] (own_props current)) (own_props updates)) in
  saveCredentials E sm service updated.

(** [creds && Object.keys(creds).length > 0]: the stored value itself
    when it is falsy. *)
Definition hasCredentials (E : Env) (sm : StorageManager.t) (service : value)
  : M value :=
  creds <- loadCredentials E sm service ;;
  ret (if truthy creds then VBool (0 <? length (own_props creds))%nat else creds).

(** The names every object literal inherits from [Object.prototype]. *)
Definition inherited (k : string) : bool :=
  existsb (String.eqb k)
    ["constructor"; "__defineGetter__"; "__defineSetter__"; "hasOwnProperty";
     "__lookupGetter__"; "__lookupSetter__"; "isPrototypeOf";
     "propertyIsEnumerable"; "toString"; "valueOf"; "__proto__";
     "toLocaleString"].

(** [requirements[service] || []].  [None] is what the literal
    inherits under that name, a function or the prototype itself: it is
    truthy, and it is not iterable. *)
Definition getRequiredFields (service : value) : option (list string) :=
  let k := to_string service in
  if String.eqb k "google" then Some ["clientId"; "spreadsheetId"]
  else if String.eqb k "wordpress" then Some ["url"; "username"; "password"]
  else if String.eqb k "ai" then Some ["provider"; "apiKey"]
  else if String.eqb k "content" then Some []
  else if inherited k then None
  else Some [].

(** [validateCredentials(service, credentials = null)].  [creds[field]]
    is read for the required fields only, none of which a string, a
    number, a boolean or an array has. *)
Definition validateCredentials (E : Env) (sm : StorageManager.t)
           (service credentials : value) : M value :=
  creds <- (if truthy credentials then ret credentials
            else loadCredentials E sm service) ;;
  match getRequiredFields service with
  | None => throw (TypeError "requiredFields is not iterable")
  | Some requiredFields =>
      match creds, requiredFields with
      | (VUndefined | VNull), _ :: _ =>
          throw (TypeError ("Cannot read properties of " +:+ to_string creds))
      | (VUndefined | VNull), [] =>
          throw (TypeError "Cannot convert undefined or null to object")
      | _, _ =>
          let missing :=
            List.filter (λ field, negb (truthy (lookup_prop field (own_props creds))))
                        requiredFields in
          ret (VObj [("valid", VBool (length missing =? 0)%nat);
                     ("missing", VArr (map VStr missing));
                     ("hasPartial",
                      VBool ((0 <? length (own_props creds))%nat
                             && (0 <? length missing)%nat))])
      end
  end.

Definition clearCredentials (sm : StorageManager.t) (service : value) : M bool :=
  StorageManager.remove sm (credentials_key service).

(** The service a key of the namespace stands for: what follows
    [credentials_]. *)
Definition service_of (key : string) : option string :=
  if startsWith key "credentials_"
  then Some (drop_chars (String.length "credentials_") key)
  else None.

Fixpoint services_each (E : Env) (sm : StorageManager.t) (keys : list string)
         (services : list value) : M (list value) :=
  match keys with
  | [] => ret services
  | key :: r =>
      match service_of key with
      | Some service =>
          validation <- validateCredentials E sm (VStr service) VUndefined ;;
          services_each E sm r
            (services ++
             [VObj [("name", VStr service);
                    ("configured", lookup_prop "valid" (own_props validation));
                    ("partial", lookup_prop "hasPartial" (own_props validation))]])
      | None => services_each E sm r services
      end
  end.

(** Get all configured services. *)
Definition getConfiguredServices (E : Env) (sm : StorageManager.t) : M value :=
  allKeys <- StorageManager.getAllKeys E sm ;;
  services <- services_each E sm allKeys [] ;;
  ret (VArr services).

(** The three [delete creds.<token field>]. *)
Definition without_tokens (creds : value) : value :=
  match creds with
  | VObj ps =>
      VObj (delete_prop "tokenExpiry"
              (delete_prop "refreshToken" (delete_prop "accessToken" ps)))
  | _ => creds
  end.

Fixpoint export_each (E : Env) (sm : StorageManager.t) (includeTokens : value)
         (keys : list string) (credentials : list (string * value))
  : M (list (string * value)) :=
  match keys with
  | [] => ret credentials
  | key :: r =>
      match service_of key with
      | Some service =>
          creds <- loadCredentials E sm (VStr service) ;;
          let creds :=
            if negb (truthy includeTokens) && truthy creds
            then without_tokens creds else creds in
          export_each E sm includeTokens r (assign service creds credentials)
      | None => export_each E sm includeTokens r credentials
      end
  end.

(** [exportCredentials(includeTokens = false)]. *)
Definition exportCredentials (E : Env) (sm : StorageManager.t)
           (includeTokens : value) : M value :=
  allKeys <- StorageManager.getAllKeys E sm ;;
  credentials <- export_each E sm includeTokens allKeys [] ;;
  ret (VObj credentials).

Fixpoint import_each (E : Env) (sm : StorageManager.t) (overwrite : value)
         (items : list (string * value)) (results : list (string * value))
  : M (list (string * value)) :=
  match items with
  | [] => ret results
  | (service, creds) :: r =>
      wanted <- (if truthy overwrite then ret true
                 else has <- hasCredentials E sm (VStr service) ;;
                      ret (negb (truthy has))) ;;
      if wanted : bool then
        saved <- saveCredentials E sm (VStr service) creds ;;
        import_each E sm overwrite r (assign service (VBool saved) results)
      else
        import_each E sm overwrite r (assign service (VBool false) results)
  end.

(** [importCredentials(credentials, overwrite = false)]. *)
Definition importCredentials (E : Env) (sm : StorageManager.t)
           (credentials overwrite : value) : M value :=
  items <- lift (entries credentials) ;;
  results <- import_each E sm overwrite items [] ;;
  ret (VObj results).

End CredentialsManager.

(* ===================================================================== *)
(** ** PostsManager (modules/storage-credentials-manager.js) *)
(* ===================================================================== *)

(** The class extends [StorageManager] with the key [generated_posts]
    and the bound [maxPosts]. *)
Module PostsManager.

Record t : Type := Make {
  base : StorageManager.t;
  maxPosts : value
}.

Definition postsKey : value := VStr "generated_posts".

(** [constructor(config = {})]. *)
Definition constructor (config : value) : result t :=
  and_then (StorageManager.constructor config) (λ sm,
  let config := match config with VUndefined => VObj [] | c => c end in
  and_then (get config "maxPosts") (λ m,
  Ok (Make sm (or_else m (VNum 1000))))).

(** Get all posts. *)
Definition getAllPosts (E : Env) (pm : t) : M value :=
  StorageManager.load E (base pm) postsKey (VArr []).

(** [post.id] and [post.timestamp], set when missing.  [suffix] is what
    [Math.random().toString(36).substr(2, 9)] gave.  A primitive cannot
    take a property (the class is strict code); a property set on an
    array is not an element, and JSON text does not show it. *)
Definition stamped (suffix : string) (post : value) : M value :=
  match post with
  | VUndefined | VNull =>
      throw (TypeError ("Cannot read properties of " +:+ to_string post))
  | VObj ps =>
      ps <- (if truthy (lookup_prop "id" ps) then ret ps
             else t <- Date_now ;;
                  ret (set_prop "id" (VStr ("post_" +:+ pretty t +:+ "_" +:+ suffix)) ps)) ;;
      ps <- (if truthy (lookup_prop "timestamp" ps) then ret ps
             else t <- Date_now ;;
                  iso <- lift (Date.toISOString (Num t)) ;;
                  ret (set_prop "timestamp" (VStr iso) ps)) ;;
      ret (VObj ps)
  | VArr _ =>
      t <- Date_now ;;
      lift (Date.toISOString (Num t)) ;;;
      ret post
  | _ => throw (TypeError "Cannot create property 'id'")
  end.

(** [posts.splice(start)] on [posts], when [posts.length > start]: what
    is left of the array. *)
Definition splice_from (start : Z) (posts : list value) : list value :=
  if (start <? 0)%Z
  then firstn (Z.to_nat (Z.max (Z.of_nat (length posts) + start) 0)) posts
  else firstn (Z.to_nat start) posts.

(** Save a new post. *)
Definition savePost (E : Env) (pm : t) (suffix : string) (post : value) : M bool :=
  posts <- getAllPosts E pm ;;
  post <- stamped suffix post ;;
  es <- lift (as_array "unshift" posts) ;;
  let posts := post :: es in
  let posts :=
    match to_number (string_to_number E) (maxPosts pm) with
    | Num n => if (n <? Z.of_nat (length posts))%Z then splice_from n posts else posts
    | NaN => posts
    end in
  StorageManager.save E (base pm) postsKey (VArr posts).

(** [posts.findIndex(p => p.id === postId)]: the posts after the first
    match are not looked at. *)
Fixpoint findIndex (postId : value) (posts : list value) : result (option nat) :=
  match posts with
  | [] => Ok None
  | p :: r =>
      and_then (get p "id") (λ i,
      if strict_eq i postId then Ok (Some O)
      else and_then (findIndex postId r) (λ found,
           Ok (match found with Some n => Some (S n) | None => None end)))
  end.

(** Update a post. *)
Definition updatePost (E : Env) (pm : t) (postId updates : value) : M bool :=
  posts <- getAllPosts E pm ;;
  es <- lift (as_array "findIndex" posts) ;;
  index <- lift (findIndex postId es) ;;
  match index with
  | Some i =>
      t <- Date_now ;;
      iso <- lift (Date.toISOString (Num t)) ;;
      let post := nth i es VUndefined in
      let updated :=
        VObj (spread (spread (spread [] (own_props post)) (own_props updates))
                     [("lastModified", VStr iso)]) in
      StorageManager.save E (base pm) postsKey (VArr (<[i := updated]> es))
  | None => ret false
  end.

(** [filter.field && post.field !== filter.field]. *)
Definition differs (filter post : value) (field : string) : result bool :=
  and_then (get filter field) (λ wanted,
  if truthy wanted
  then and_then (get post field) (λ found, Ok (negb (strict_eq found wanted)))
  else Ok false).

(** [filter.dateFrom && new Date(post.timestamp) < new Date(filter.dateFrom)]. *)
Definition too_early (E : Env) (filter post : value) : result bool :=
  and_then (get filter "dateFrom") (λ from,
  if truthy from
  then and_then (get post "timestamp") (λ stamp,
       Ok (num_lt (Date.getTime (Date_parse E) stamp) (Date.getTime (Date_parse E) from)))
  else Ok false).

(** [filter.dateTo && new Date(post.timestamp) > new Date(filter.dateTo)]. *)
Definition too_late (E : Env) (filter post : value) : result bool :=
  and_then (get filter "dateTo") (λ to,
  if truthy to
  then and_then (get post "timestamp") (λ stamp,
       Ok (num_lt (Date.getTime (Date_parse E) to) (Date.getTime (Date_parse E) stamp)))
  else Ok false).

(** The callback of [getPostsByFilter]: the five tests in their order,
    the first that fails deciding. *)
Definition passes (E : Env) (filter post : value) : result bool :=
  and_then (differs filter post "source") (λ no,
  if no : bool then Ok false else
  and_then (differs filter post "platform") (λ no,
  if no : bool then Ok false else
  and_then (differs filter post "status") (λ no,
  if no : bool then Ok false else
  and_then (too_early E filter post) (λ no,
  if no : bool then Ok false else
  and_then (too_late E filter post) (λ no,
  Ok (negb no)))))).

Fixpoint filter_posts (E : Env) (filter : value) (posts : list value)
  : result (list value) :=
  match posts with
  | [] => Ok []
  | p :: r =>
      and_then (passes E filter p) (λ keep,
      and_then (filter_posts E filter r) (λ kept,
      Ok (if keep : bool then p :: kept else kept)))
  end.

(** Get posts by criteria. *)
Definition getPostsByFilter (E : Env) (pm : t) (filter : value) : M value :=
  posts <- getAllPosts E pm ;;
  es <- lift (as_array "filter" posts) ;;
  kept <- lift (filter_posts E filter es) ;;
  ret (VArr kept).

(** [posts.filter(p => p.id !== postId)]. *)
Fixpoint without_id (postId : value) (posts : list value) : result (list value) :=
  match posts with
  | [] => Ok []
  | p :: r =>
      and_then (get p "id") (λ i,
      and_then (without_id postId r) (λ kept,
      Ok (if strict_eq i postId then kept else p :: kept)))
  end.

(** Delete a post. *)
Definition deletePost (E : Env) (pm : t) (postId : value) : M bool :=
  posts <- getAllPosts E pm ;;
  es <- lift (as_array "filter" posts) ;;
  filtered <- lift (without_id postId es) ;;
  if (length filtered <? length es)%nat
  then StorageManager.save E (base pm) postsKey (VArr filtered)
  else ret false.

(** Clear all posts. *)
Definition clearAllPosts (E : Env) (pm : t) : M bool :=
  StorageManager.save E (base pm) postsKey (VArr []).

End PostsManager.

(* ===================================================================== *)
(** ** OAuthTokenManager (oauth-token-manager.js) *)
(* ===================================================================== *)

Module OAuthTokenManager.

(** The [config] object of the constructor; a missing property is
    [VUndefined], a callback is present or not. *)
Record Config : Type := {
  cfg_clientId : value;
  cfg_clientSecret : value;
  cfg_storageKey : value;
  cfg_scope : value;
  cfg_onTokenRefresh : bool;
  cfg_onTokenExpiry : bool
}.

Definition token_endpoint : string := "https://oauth2.googleapis.com/token".

Definition form_headers : value :=
  VObj [("Content-Type", VStr "application/x-www-form-urlencoded")].

(** [new URLSearchParams({...})]: every value becomes a string. *)
Definition URLSearchParams (fields : list (string * value)) : value :=
  VObj (map (λ kv, (kv.1, VStr (to_string kv.2))) fields).

(** The [init] of the POST that exchanges [code]. *)
Definition exchange_init (m : manager) (code actualRedirectUri : value)
  : list (string * value) :=
  [("method", VStr "POST");
   ("headers", form_headers);
   ("body", URLSearchParams
              [("code", code);
               ("client_id", clientId m);
               ("client_secret", clientSecret m);
               ("redirect_uri", actualRedirectUri);
               ("grant_type", VStr "authorization_code")])].

(** The [init] of the POST that refreshes the access token. *)
Definition refresh_init (m : manager) : list (string * value) :=
  [("method", VStr "POST");
   ("headers", form_headers);
   ("body", URLSearchParams
              [("client_id", clientId m);
               ("client_secret", clientSecret m);
               ("refresh_token", refreshToken m);
               ("grant_type", VStr "refresh_token")])].

(** What [checkTokenExpiry] returns when it has an expiry to report. *)
Record expiry_info : Type := ExpiryInfo {
  expired : bool;
  timeLeft : num;
  minutesLeft : num
}.

Record token_status : Type := Status {
  hasAccessToken : bool;
  hasRefreshToken : bool;
  isAuthenticated : bool;
  canAutoRefresh : bool;
  status_tokenExpiry : value;
  expiryInfo : option expiry_info
}.

Section Methods.
Context (E : Env).

(** Start automatic token expiry checking. A handle is never falsy. *)
Definition startTokenExpiryCheck (intervalMs : Z) : M unit :=
  m <- this ;;
  (match refreshInterval m with
   | Some h => clearInterval h
   | None => ret tt
   end) ;;;
  h <- setInterval intervalMs ;;
  update (set_refreshInterval (Some h)).

Definition stopTokenExpiryCheck : M unit :=
  m <- this ;;
  match refreshInterval m with
  | Some h => clearInterval h ;;; update (set_refreshInterval None)
  | None => ret tt
  end.

Definition constructor (config : Config) : M unit :=
  update (λ _, Manager (or_else (cfg_clientId config) VNull)
                       (or_else (cfg_clientSecret config) VNull)
                       VNull VNull VNull
                       (or_else (cfg_storageKey config) (VStr "oauth_tokens"))
                       (or_else (cfg_scope config)
                           (VStr "https://www.googleapis.com/auth/spreadsheets"))
                       (cfg_onTokenRefresh config)
                       (cfg_onTokenExpiry config)
                       None) ;;;
  startTokenExpiryCheck 60000.

(** Initialize from localStorage. *)
Definition loadFromStorage : M bool :=
  try_catch
    (m <- this ;;
     stored <- getItem (to_string (storageKey m)) ;;
     match stored with
     | None | Some EmptyString => ret false
     | Some text =>
         data <- lift (JSON.parse_text (JSON_beyond E) text) ;;
         v <- lift (get data "clientId") ;;
         m <- this ;; update (set_clientId (or_else v (clientId m))) ;;;
         v <- lift (get data "clientSecret") ;;
         m <- this ;; update (set_clientSecret (or_else v (clientSecret m))) ;;;
         v <- lift (get data "accessToken") ;;
         update (set_accessToken (or_else v VNull)) ;;;
         v <- lift (get data "refreshToken") ;;
         update (set_refreshToken (or_else v VNull)) ;;;
         v <- lift (get data "tokenExpiry") ;;
         update (set_tokenExpiry (or_else v VNull)) ;;;
         ret true
     end)
    (λ error,
       console_error "Error loading OAuth data from storage:" error ;;;
       ret false).

(** The record [saveToStorage] serializes. *)
Definition stored_record (m : manager) : value :=
  VObj [("clientId", clientId m);
        ("clientSecret", clientSecret m);
        ("accessToken", accessToken m);
        ("refreshToken", refreshToken m);
        ("tokenExpiry", tokenExpiry m)].

(** Save to localStorage. *)
Definition saveToStorage : M bool :=
  try_catch
    (m <- this ;;
     let data := stored_record m in
     setItem E (to_string (storageKey m)) (text_of (JSON.stringify data)) ;;;
     ret true)
    (λ error,
       console_error "Error saving OAuth data to storage:" error ;;;
       ret false).

(** [new Date(Date.now() + (expires_in * 1000)).toISOString()]. *)
Definition expiry_string (expires_in : value) : M string :=
  t <- Date_now ;;
  lift (Date.toISOString
          (num_add (Num t)
                   (num_mul (to_number (string_to_number E) expires_in) (Num 1000)))).

Definition notify_refresh : M unit :=
  m <- this ;;
  if tokenRefreshCallback m
  then emit (ETokenRefresh (accessToken m) (tokenExpiry m))
  else ret tt.

(** Exchange authorization code for tokens. *)
Definition exchangeCodeForTokens (code redirectUri : value) : M value :=
  m <- this ;;
  if negb (truthy (clientId m)) || negb (truthy (clientSecret m)) then
    throw (Error "Client ID and Client Secret are required for token exchange")
  else
    let actualRedirectUri :=
      or_else redirectUri (VStr (location_origin E +:+ location_pathname E)) in
    try_catch
      (response <- fetch E "exchangeCodeForTokens" token_endpoint
                     (exchange_init m code actualRedirectUri) ;;
       data <- lift (json response) ;;
       access_token <- lift (get data "access_token") ;;
       if truthy access_token then
         update (set_accessToken access_token) ;;;
         refresh_token <- lift (get data "refresh_token") ;;
         update (set_refreshToken refresh_token) ;;;
         expires_in <- lift (get data "expires_in") ;;
         iso <- expiry_string expires_in ;;
         update (set_tokenExpiry (VStr iso)) ;;;
         saveToStorage ;;;
         notify_refresh ;;;
         m <- this ;;
         ret (VObj [("accessToken", accessToken m);
                    ("refreshToken", refreshToken m);
                    ("tokenExpiry", tokenExpiry m)])
       else
         error <- lift (get data "error") ;;
         throw (Error (to_string (or_else error (VStr "Failed to get tokens")))))
      (λ error,
         console_error "Token exchange error:" error ;;;
         throw error).

(** Refresh access token. *)
Definition refreshAccessToken : M value :=
  emit (ECall "refreshAccessToken") ;;;
  m <- this ;;
  if negb (truthy (refreshToken m)) || negb (truthy (clientId m))
     || negb (truthy (clientSecret m)) then
    throw (Error "Cannot refresh token: missing required credentials")
  else
    try_catch
      (response <- fetch E "refreshAccessToken" token_endpoint (refresh_init m) ;;
       data <- lift (json response) ;;
       access_token <- lift (get data "access_token") ;;
       if truthy access_token then
         update (set_accessToken access_token) ;;;
         expires_in <- lift (get data "expires_in") ;;
         iso <- expiry_string expires_in ;;
         update (set_tokenExpiry (VStr iso)) ;;;
         saveToStorage ;;;
         notify_refresh ;;;
         m <- this ;;
         ret (accessToken m)
       else
         error <- lift (get data "error") ;;
         throw (Error (to_string (or_else error (VStr "Failed to refresh token")))))
      (λ error,
         console_error "Token refresh error:" error ;;;
         throw error).

(** The promise [this.refreshAccessToken().catch(...)] that
    [checkTokenExpiry] leaves running. *)
Definition background_refresh : M unit :=
  try_catch
    (refreshAccessToken ;;; ret tt)
    (λ error,
       console_error "Auto-refresh failed:" error ;;;
       m <- this ;;
       if tokenExpiryCallback m then emit (ETokenExpiry error) else ret tt).

(** Check token expiry; [None] is the result [null]. *)
Definition checkTokenExpiry : M (option expiry_info) :=
  m <- this ;;
  if negb (truthy (tokenExpiry m)) || negb (truthy (refreshToken m)) then ret None
  else
    t <- Date_now ;;
    let expiry := Date.getTime (Date_parse E) (tokenExpiry m) in
    let timeLeft := num_sub expiry (Num t) in
    (if num_lt timeLeft (Num (5 * 60 * 1000)) && num_lt (Num 0) timeLeft
     then spawn
     else ret tt) ;;;
    ret (Some (ExpiryInfo (num_le timeLeft (Num 0))
                          timeLeft
                          (num_floor_div timeLeft 60000))).

(** Update credentials. *)
Definition updateCredentials (clientId clientSecret : value) : M unit :=
  update (set_clientId clientId) ;;;
  update (set_clientSecret clientSecret) ;;;
  saveToStorage ;;;
  ret tt.

(** Get current token status. *)
Definition getStatus : M token_status :=
  expiryInfo <- checkTokenExpiry ;;
  m <- this ;;
  ret (Status (truthy (accessToken m))
              (truthy (refreshToken m))
              (truthy (accessToken m) &&
               (match expiryInfo with
                | None => true
                | Some info => negb (expired info)
                end))
              (truthy (refreshToken m) && truthy (clientSecret m))
              (tokenExpiry m)
              expiryInfo).

(** Clear all tokens. *)
Definition clearTokens : M unit :=
  update (set_accessToken VNull) ;;;
  update (set_refreshToken VNull) ;;;
  update (set_tokenExpiry VNull) ;;;
  saveToStorage ;;;
  ret tt.

(** Get headers for API requests. *)
Definition getAuthHeaders : M value :=
  m <- this ;;
  if negb (truthy (accessToken m)) then
    throw (Error "No access token available")
  else
    ret (VObj [("Authorization", VStr ("Bearer " +:+ to_string (accessToken m)))]).

(** The [init] object [{...options, headers: {...options.headers,
    ...this.getAuthHeaders()}}]. *)
Definition request_init (options : value) : M (list (string * value)) :=
  headers <- lift (get options "headers") ;;
  auth <- getAuthHeaders ;;
  ret (set_prop "headers"
         (VObj (spread (own_props headers) (own_props auth)))
         (own_props options)).

(** What the body of [makeAuthenticatedRequest] hands back from inside
    its [try]: a response it awaited, or the promise of the second
    [fetch], returned without awaiting it. *)
Inductive handed_back : Type :=
| Awaited (r : response)
| Promised (o : fetch_outcome).

(** Make authenticated request with auto-retry on 401
    ([options = {}] when none is passed). *)
Definition makeAuthenticatedRequest (url : string) (options : value) : M response :=
  let options := match options with VUndefined => VObj [] | o => o end in
  back <-
    try_catch
      (init <- request_init options ;;
       response <- fetch E "makeAuthenticatedRequest" url init ;;
       m <- this ;;
       if (status response =? 401)%Z && truthy (refreshToken m) then
         refreshAccessToken ;;;
         init <- request_init options ;;
         o <- fetch_issue E "makeAuthenticatedRequest" url init ;;
         ret (Promised o)
       else ret (Awaited response))
      (λ error,
         console_error "Authenticated request error:" error ;;;
         throw error) ;;
  match back with
  | Awaited r => ret r
  | Promised o => await o
  end.

(** Check for OAuth code in URL and exchange for tokens.  [code] is what
    [new URLSearchParams(window.location.search).get('code')] gave
    ([None] is [null]); cleaning the URL is the call
    [window.history.replaceState]. *)
Definition handleAuthCallback (code : option string) (redirectUri : value) : M bool :=
  match code with
  | None | Some EmptyString => ret false
  | Some code =>
      try_catch
        (exchangeCodeForTokens (VStr code) redirectUri ;;;
         emit (ECall "window.history.replaceState") ;;;
         ret true)
        (λ error,
           console_error "Error handling auth callback:" error ;;;
           throw error)
  end.

End Methods.
End OAuthTokenManager.

(* ===================================================================== *)
(** ** AIAPIManager (ai-api-manager.js) *)
(* ===================================================================== *)

(** The configuration half of the class: what it keeps, stores and
    reports, and the parser of structured answers.  A method that changes
    the manager returns the manager it leaves. *)
Module AIAPIManager.

Record t : Type := Make {
  provider : value;
  apiKey : value;
  proxyUrl : value;
  storageKey : value;
  defaultModel : value
}.

(** Load configuration from localStorage. *)
Definition loadFromStorage (E : Env) (ai : t) : M (bool * t) :=
  try_catch
    (stored <- getItem (to_string (storageKey ai)) ;;
     match stored with
     | None | Some EmptyString => ret (false, ai)
     | Some text =>
         data <- lift (JSON.parse_text (JSON_beyond E) text) ;;
         p <- lift (get data "provider") ;;
         k <- lift (get data "apiKey") ;;
         u <- lift (get data "proxyUrl") ;;
         m <- lift (get data "defaultModel") ;;
         ret (true,
              Make (or_else p (provider ai)) (or_else k (apiKey ai))
                   (or_else u (proxyUrl ai)) (storageKey ai)
                   (or_else m (defaultModel ai)))
     end)
    (λ error,
       console_error "Error loading AI config from storage:" error ;;;
       ret (false, ai)).

(** [constructor(config = {})]: the configuration, then what is
    stored. *)
Definition constructor (E : Env) (config : value) : M t :=
  let config := match config with VUndefined => VObj [] | c => c end in
  p <- lift (get config "provider") ;;
  k <- lift (get config "apiKey") ;;
  u <- lift (get config "proxyUrl") ;;
  s <- lift (get config "storageKey") ;;
  m <- lift (get config "defaultModel") ;;
  loaded <- loadFromStorage E
              (Make (or_else p (VStr "claude")) (or_else k VNull) (or_else u VNull)
                    (or_else s (VStr "ai_api_config")) (or_else m VNull)) ;;
  ret loaded.2.

(** Save configuration to localStorage. *)
Definition saveToStorage (E : Env) (ai : t) : M bool :=
  try_catch
    (let data := VObj [("provider", provider ai); ("apiKey", apiKey ai);
                       ("proxyUrl", proxyUrl ai);
                       ("defaultModel", defaultModel ai)] in
     setItem E (to_string (storageKey ai)) (text_of (JSON.stringify data)) ;;;
     ret true)
    (λ error,
       console_error "Error saving AI config to storage:" error ;;;
       ret false).

(** Update configuration. *)
Definition updateConfig (E : Env) (ai : t) (config : value) : M t :=
  p <- lift (get config "provider") ;;
  k <- lift (get config "apiKey") ;;
  u <- lift (get config "proxyUrl") ;;
  m <- lift (get config "defaultModel") ;;
  let ai :=
    Make (if truthy p then p else provider ai)
         (match k with VUndefined => apiKey ai | _ => k end)
         (match u with VUndefined => proxyUrl ai | _ => u end)
         (storageKey ai)
         (match m with VUndefined => defaultModel ai | _ => m end) in
  saveToStorage E ai ;;;
  ret ai.

(** Get configuration status. *)
Definition getStatus (ai : t) : value :=
  VObj [("provider", provider ai);
        ("isConfigured",
         VBool (strict_eq (provider ai) (VStr "manual") || truthy (apiKey ai)));
        ("hasApiKey", VBool (truthy (apiKey ai)));
        ("hasProxyUrl", VBool (truthy (proxyUrl ai)));
        ("needsProxy", VBool (strict_eq (provider ai) (VStr "claude")));
        ("model", defaultModel ai)].

(** Clear configuration. *)
Definition clearConfig (E : Env) (ai : t) : M t :=
  let ai := Make (provider ai) VNull VNull (storageKey ai) (defaultModel ai) in
  saveToStorage E ai ;;;
  ret ai.

(** The characters [trim] removes, among the code units below 256. *)
Definition is_space (c : ascii) : bool :=
  existsb (Ascii.eqb c)
    ["009"; "010"; "011"; "012"; "013"; " "; "160"]%char.

Fixpoint trim_start (s : string) : string :=
  match s with
  | String c r => if is_space c then trim_start r else s
  | EmptyString => EmptyString
  end.

Fixpoint trim_end (s : string) : string :=
  match s with
  | EmptyString => EmptyString
  | String c r =>
      match trim_end r with
      | EmptyString => if is_space c then EmptyString else String c EmptyString
      | r' => String c r'
      end
  end.

(** [s.trim()]. *)
Definition trim (s : string) : string := trim_end (trim_start s).

Definition newline : string := String "010" EmptyString.

(** [s.split('\n')]. *)
Fixpoint split_lines (s : string) : list string :=
  match s with
  | EmptyString => [EmptyString]
  | String c r =>
      if Ascii.eqb c "010" then EmptyString :: split_lines r
      else match split_lines r with
           | line :: lines => String c line :: lines
           | [] => [String c EmptyString]
           end
  end.

(** The first section whose name and a colon start the line. *)
Definition heading (sections : list string) (line : string) : option string :=
  List.find (λ section, startsWith line (section +:+ ":")) sections.

(** [result[currentSection] = currentContent.join('\n').trim()], when
    a section is open. *)
Definition close_section (result : list (string * value))
           (currentSection : string) (currentContent : list string)
  : list (string * value) :=
  if String.eqb currentSection "" then result
  else assign currentSection (VStr (trim (JSON.join newline currentContent))) result.

Fixpoint parse_lines (sections lines : list string)
         (result : list (string * value))
         (currentSection : string) (currentContent : list string)
  : list (string * value) :=
  match lines with
  | [] => close_section result currentSection currentContent
  | line :: r =>
      match heading sections line with
      | Some section =>
          parse_lines sections r
            (close_section result currentSection currentContent)
            section
            [trim (drop_chars (String.length section + 1) line)]
      | None =>
          parse_lines sections r result currentSection
            (if String.eqb currentSection "" then currentContent
             else currentContent ++ [line])
      end
  end.

(** Parse structured response: [content] a string, [sections] an array
    of strings. *)
Definition parseStructuredResponse (content : string) (sections : list string) : value :=
  VObj (parse_lines sections (split_lines content) [] "" []).

End AIAPIManager.

(* ===================================================================== *)
(** ** A concrete platform, for running the methods *)
(* ===================================================================== *)

Module Sample.
Import OAuthTokenManager.

(** StringToNumber on the strings that are a run of decimal digits (the
    empty string is 0); other strings are not numbers here. *)
Definition digits_to_number (s : string) : num :=
  match s with
  | EmptyString => Num 0
  | _ =>
      match Date.read_digits (String.length s) 0 s with
      | Some (n, _) => Num n
      | None => NaN
      end
  end.

(** A [JSON.parse] that renders a number that is no safe integer by its
    integer part, and a code unit from 256 up by a question mark. *)
Definition rendering : JSON.Beyond :=
  {| JSON.beyond_number :=
       λ m e, if (0 <=? e)%Z then (m * 10 ^ e)%Z else (m / 10 ^ (- e))%Z;
     JSON.beyond_unit := λ _, "?"%char |}.

(** A browser whose storage always has room, talking to [net]. *)
Definition env (net : nat → string → list (string * value) → fetch_outcome) : Env :=
  {| string_to_number := digits_to_number;
     Date_parse := Date.parse_iso;
     JSON_beyond := rendering;
     storage_accepts := λ _ _ _, true;
     network := net;
     location_origin := "https://app.example";
     location_pathname := "/index.html" |}.

(** The same browser with its storage full. *)
Definition env_full (net : nat → string → list (string * value) → fetch_outcome) : Env :=
  {| string_to_number := digits_to_number;
     Date_parse := Date.parse_iso;
     JSON_beyond := rendering;
     storage_accepts := λ _ _ _, false;
     network := net;
     location_origin := "https://app.example";
     location_pathname := "/index.html" |}.

(** A server that answers every request with [status] and [body], at once. *)
Definition always (status : Z) (body : value) : nat → string → list (string * value) → fetch_outcome :=
  λ _ _ _, FetchOutcome 0 (Ok (Response status (Ok body))).

(** The resource server answers 401 to everything; the token endpoint
    answers [token_body]. *)
Definition unauthorized (token_body : value)
  : nat → string → list (string * value) → fetch_outcome :=
  λ _ url _,
    if String.eqb url token_endpoint
    then FetchOutcome 250 (Ok (Response 200 (Ok token_body)))
    else FetchOutcome 100 (Ok (Response 401 (Ok (VObj [("error", VStr "unauthorized")])))).

Definition no_manager : manager :=
  Manager VUndefined VUndefined VUndefined VUndefined VUndefined VUndefined
          VUndefined false false None.

(** A page just loaded at time [t], with [items] in its storage. *)
Definition page (t : Z) (items : gmap string string) : world :=
  World no_manager items t [] 1 0 [].

Definition config (id secret : value) : Config :=
  {| cfg_clientId := id; cfg_clientSecret := secret;
     cfg_storageKey := VUndefined; cfg_scope := VUndefined;
     cfg_onTokenRefresh := true; cfg_onTokenExpiry := true |}.

(** The world with its manager holding the given credential. *)
Definition holding (id secret token refresh expiry : value) (t : Z) : world :=
  World (Manager id secret token refresh expiry (VStr "oauth_tokens")
                 (VStr "https://www.googleapis.com/auth/spreadsheets")
                 true true (Some 1%nat))
        ∅ t [(1%nat, 60000%Z)] 2 0 [].

(** A network that is never reached. *)
Definition quiet : Env := env (always 200 VNull).

(** The token endpoint refuses the refresh token. *)
Definition revoked : Env :=
  env (unauthorized (VObj [("error", VStr "invalid_grant")])).

(** The token endpoint grants a new access token and sends no refresh
    token with it. *)
Definition renewing : Env :=
  env (unauthorized (VObj [("access_token", VStr "AT2"); ("expires_in", VNum 3600)])).

(** A transport that answers 401 to every call, the token endpoint
    included. *)
Definition always_401 : Env :=
  env (always 401 (VObj [("error", VStr "unauthorized")])).

(** At 2026-11-03 06:44:00.123 UTC, an access token that expired at
    06:00, with a refresh token. *)
Definition expired_with_refresh : world :=
  holding (VStr "abc") (VStr "xyz") (VStr "AT1") (VStr "RT1")
          (VStr "2026-11-03T06:00:00.000Z") 1793688240123.

(** The same without a refresh token. *)
Definition expired_without_refresh : world :=
  holding (VStr "abc") (VStr "xyz") (VStr "AT1") VNull
          (VStr "2026-11-03T06:00:00.000Z") 1793688240123.

(** A page whose storage holds, under the default key, a record written
    by something else: an access token and nothing more. *)
Definition foreign_page : world :=
  page 1793688240123
       {[ "oauth_tokens" := text_of (JSON.stringify (VObj [("accessToken", VStr "AT1")])) ]}.

(** The manager constructed on that page. *)
Definition constructed_on_foreign_page : world :=
  (constructor (config (VStr "abc") (VStr "xyz")) foreign_page).2.

(** [s] between double quotes, as it stands. *)
Definition quoted (s : string) : string :=
  String JSON.dquote (s +:+ String JSON.dquote EmptyString).

(** A record written by something else again: an escaped letter in the
    access token, a numeral with a fraction and an exponent, a code unit
    above 255, and blanks between the members. *)
Definition escaped_record : string :=
  "{ " +:+ quoted "accessToken" +:+ ": " +:+ quoted "\u0041T1" +:+ ", "
  +:+ quoted "tokenExpiry" +:+ ": " +:+ quoted "2026-11-03T06:00:00.000Z" +:+ ", "
  +:+ quoted "issuedAt" +:+ ": 1.7936882e12, "
  +:+ quoted "mark" +:+ ": " +:+ quoted "\u2713" +:+ " }".

Definition constructed_on_escaped_page : world :=
  (constructor (config (VStr "abc") (VStr "xyz"))
               (page 1793688240123 {[ "oauth_tokens" := escaped_record ]})).2.

(** The token endpoint grants a new access token and says nothing of how
    long it lasts. *)
Definition renewing_timeless : Env :=
  env (unauthorized (VObj [("access_token", VStr "AT2")])).

(** A token endpoint that grants [AT1] and [RT1] and says nothing of how
    long the access token lasts. *)
Definition timeless : Env :=
  env (always 200 (VObj [("access_token", VStr "AT1"); ("refresh_token", VStr "RT1")])).

(** A manager whose record is in the store, on a platform that has since
    run out of room. *)
Definition saved : world :=
  (saveToStorage quiet expired_with_refresh).2.
Definition full : Env := env_full (always 200 VNull).

(** A manager just constructed on an empty page. *)
Definition constructed : world :=
  (constructor (config (VStr "abc") (VStr "xyz")) (page 1793688240123 ∅)).2.

End Sample.

(* ===================================================================== *)
(** ** Vocabulary of the specification *)
(* ===================================================================== *)

Module Spec.
Import OAuthTokenManager.

(** A field is present when the code's own test [!field] fails. *)
Definition present (v : value) : Prop := truthy v = true.
Definition absent (v : value) : Prop := truthy v = false.

(** The errors of the specification's taxonomy, as the code throws them. *)
Definition NoTokenError : exn := Error "No access token available".
Definition ConfigurationError_refresh : exn :=
  Error "Cannot refresh token: missing required credentials".

(** [isAuthenticated] as the specification words it: a token is present
    and, if the expiry is known, it has not passed. *)
Definition spec_isAuthenticated (E : Env) (w : world) : bool :=
  truthy (accessToken (self w)) &&
  (if truthy (tokenExpiry (self w))
   then negb (num_le (num_sub (Date.getTime (Date_parse E) (tokenExpiry (self w)))
                              (Num (now w)))
                     (Num 0))
   else true).

(** What [checkTokenExpiry] reports when it reports. *)
Definition expiry_report (E : Env) (w : world) : expiry_info :=
  let remaining :=
    num_sub (Date.getTime (Date_parse E) (tokenExpiry (self w))) (Num (now w)) in
  ExpiryInfo (num_le remaining (Num 0)) remaining (num_floor_div remaining 60000).

(** A value that is [null], a boolean or a string. *)
Definition scalar (v : value) : bool :=
  match v with
  | VNull | VBool _ | VStr _ => true
  | _ => false
  end.

(** An object whose keys are distinct and whose values are scalars. *)
Definition flat_record (ps : list (string * value)) : Prop :=
  NoDup ps.*1 ∧ Forall (λ kv, scalar kv.2 = true) ps.

(** The text of one member of an object. *)
Definition member_text (kv : string * value) : string :=
  JSON.quote kv.1 +:+ ":" +:+ text_of (JSON.stringify kv.2).

(** The five credential fields of the specification's persisted record. *)
Definition credential_record (id secret token refresh expires : value) : value :=
  VObj [("clientId", id); ("clientSecret", secret); ("accessToken", token);
        ("refreshToken", refresh); ("expiresAt", expires)].

(** A field of type [string?]: a string or [null]. *)
Definition nullable_string (v : value) : Prop :=
  v = VNull ∨ ∃ s, v = VStr s.

(** The token response as the two exchanges read it: the parsed body
    when it carries a truthy [access_token], nothing otherwise (no
    response, a body that is not JSON, [null], or no such property). *)
Definition granted (answer : result response) : option value :=
  match answer with
  | Ok resp =>
      match json resp with
      | Ok data =>
          match get data "access_token" with
          | Ok token => if truthy token then Some data else None
          | Throw _ => None
          end
      | Throw _ => None
      end
  | Throw _ => None
  end.

(** A property of a value that is known not to be [null] or [undefined]. *)
Definition prop (data : value) (k : string) : value :=
  match data with
  | VObj ps => lookup_prop k ps
  | _ => VUndefined
  end.

(** The expiry an exchange derives at time [t] from a token response. *)
Definition expiry_of (E : Env) (t : Z) (data : value) : result string :=
  Date.toISOString
    (num_add (Num t)
             (num_mul (to_number (string_to_number E) (prop data "expires_in"))
                      (Num 1000))).

(** The world once a [fetch] has settled. *)
Definition after_fetch (caller url : string) (init : list (string * value))
           (o : fetch_outcome) (w : world) : world :=
  World (self w) (localStorage w) (now w + elapsed o)%Z (intervals w)
        (next_interval w) (background w) (log w ++ [EFetch caller url init]).

(** The world with one item written, with another manager, with one more
    line in its log. *)
Definition with_item (k v : string) (w : world) : world :=
  World (self w) (<[k := v]> (localStorage w)) (now w) (intervals w)
        (next_interval w) (background w) (log w).
Definition with_self (m : manager) (w : world) : world :=
  World m (localStorage w) (now w) (intervals w)
        (next_interval w) (background w) (log w).
Definition logged (e : event) (w : world) : world :=
  World (self w) (localStorage w) (now w) (intervals w)
        (next_interval w) (background w) (log w ++ [e]).

(** The error a refused exchange throws: what the transport or the body
    parser threw, or [new Error(data.error || fallback)]. *)
Definition denial (fallback : string) (answer : result response) : exn :=
  match answer with
  | Throw e => e
  | Ok resp =>
      match json resp with
      | Throw e => e
      | Ok data =>
          match get data "access_token" with
          | Throw e => e
          | Ok _ => Error (to_string (or_else (prop data "error") (VStr fallback)))
          end
      end
  end.

(** The record [clearTokens] leaves to be stored. *)
Definition cleared_record (m : manager) : value :=
  VObj [("clientId", clientId m); ("clientSecret", clientSecret m);
        ("accessToken", VNull); ("refreshToken", VNull); ("tokenExpiry", VNull)].

(** The stored record without its [refreshToken] member. *)
Definition record_without_refresh (m : manager) : value :=
  VObj [("clientId", clientId m); ("clientSecret", clientSecret m);
        ("accessToken", accessToken m); ("tokenExpiry", tokenExpiry m)].

(** The invariant of the data model: [accessToken] and [tokenExpiry] are
    both present or both absent. *)
Definition paired (m : manager) : Prop :=
  truthy (accessToken m) = truthy (tokenExpiry m).

(** The manager after [loadFromStorage] has read the record [data]. *)
Definition loaded (m : manager) (data : value) : manager :=
  set_tokenExpiry (or_else (prop data "tokenExpiry") VNull)
    (set_refreshToken (or_else (prop data "refreshToken") VNull)
       (set_accessToken (or_else (prop data "accessToken") VNull)
          (set_clientSecret (or_else (prop data "clientSecret") (clientSecret m))
             (set_clientId (or_else (prop data "clientId") (clientId m)) m)))).

(** What [loadFromStorage] finds under the storage key, when it can be
    read as a value with properties. *)
Definition stored_data (E : Env) (w : world) : option value :=
  match localStorage w !! to_string (storageKey (self w)) with
  | None | Some EmptyString => None
  | Some text =>
      match JSON.parse_text (JSON_beyond E) text with
      | Ok VUndefined | Ok VNull | Throw _ => None
      | Ok data => Some data
      end
  end.

(** The request attempts and the refresh attempts a run has made. *)
Definition attempts (w : world) : nat := fetches_by "makeAuthenticatedRequest" w.
Definition refreshes (w : world) : nat := calls "refreshAccessToken" w.

(** [options = {}] when none is passed. *)
Definition defaulted (options : value) : value :=
  match options with VUndefined => VObj [] | o => o end.

(** The [init] of an authenticated request, when it can be built. *)
Definition authorized_init (options : value) (m : manager)
  : result (list (string * value)) :=
  match get options "headers" with
  | Throw e => Throw e
  | Ok headers =>
      if truthy (accessToken m) then
        Ok (set_prop "headers"
              (VObj (spread (own_props headers)
                            [("Authorization",
                              VStr ("Bearer " +:+ to_string (accessToken m)))]))
              (own_props options))
      else Throw NoTokenError
  end.

(** The requests [caller] sent among the events [l], each with its URL
    and its init, in the order they left. *)
Definition requests_by (caller : string) (l : list event)
  : list (string * list (string * value)) :=
  omap (λ e, match e with
             | EFetch c url init => if String.eqb c caller then Some (url, init) else None
             | _ => None
             end) l.

(** An init made from the caller's [options] for the holder of [token]:
    under [headers], [Authorization] is the bearer string of [token] and
    every other header is the caller's; every other option is the
    caller's. *)
Definition carries_bearer (options token : value) (init : list (string * value)) : Prop :=
  ∃ headers hs,
    get options "headers" = Ok headers ∧
    lookup_prop "headers" init = VObj hs ∧
    lookup_prop "Authorization" hs = VStr ("Bearer " +:+ to_string token) ∧
    (∀ k, k ≠ "Authorization" → lookup_prop k hs = lookup_prop k (own_props headers)) ∧
    (∀ k, k ≠ "headers" → lookup_prop k init = lookup_prop k (own_props options)).

(** What a refused write leaves in the console. *)
Definition save_error : event :=
  EConsoleError "Error saving OAuth data to storage:" QuotaExceededError.

(** The credentials a refresh needs. *)
Definition can_refresh (m : manager) : bool :=
  truthy (refreshToken m) && truthy (clientId m) && truthy (clientSecret m).

(** What the token endpoint answers to the refresh request sent from [w],
    and the world once that request has settled. *)
Definition refresh_answer (E : Env) (w : world) : result response :=
  settled (network E (fetches (logged (ECall "refreshAccessToken") w))
                   token_endpoint (refresh_init (self w))).

Definition refresh_sent (E : Env) (w : world) : world :=
  let w0 := logged (ECall "refreshAccessToken") w in
  after_fetch "refreshAccessToken" token_endpoint (refresh_init (self w))
              (network E (fetches w0) token_endpoint (refresh_init (self w))) w0.

(** The credentials a code exchange needs, its request, the answer and
    the world once the request has settled. *)
Definition can_exchange (m : manager) : bool :=
  truthy (clientId m) && truthy (clientSecret m).

Definition exchange_request (E : Env) (m : manager) (code redirectUri : value)
  : list (string * value) :=
  exchange_init m code
    (or_else redirectUri (VStr (location_origin E +:+ location_pathname E))).

Definition exchange_answer (E : Env) (code redirectUri : value) (w : world)
  : result response :=
  settled (network E (fetches w) token_endpoint
                   (exchange_request E (self w) code redirectUri)).

Definition exchange_sent (E : Env) (code redirectUri : value) (w : world) : world :=
  after_fetch "exchangeCodeForTokens" token_endpoint
              (exchange_request E (self w) code redirectUri)
              (network E (fetches w) token_endpoint
                       (exchange_request E (self w) code redirectUri)) w.

(** The state and the world after tokens were accepted at [w1]: both
    fields set, the record saved, the callback told. *)
Definition told (w : world) : world :=
  if tokenRefreshCallback (self w)
  then logged (ETokenRefresh (accessToken (self w)) (tokenExpiry (self w))) w
  else w.

Definition kept (E : Env) (w : world) : world :=
  let k := to_string (storageKey (self w)) in
  let text := text_of (JSON.stringify (stored_record (self w))) in
  if storage_accepts E (localStorage w) k text
  then with_item k text (logged (ESetItem k text) w)
  else logged save_error (logged (ESetItem k text) w).

(** A value that JSON text can carry as it is: no [undefined] anywhere,
    no key twice in an object, and numbers that are safe integers (others
    print with an exponent or lose digits).  The members of an object are
    listed in the order the engine enumerates them. *)
Fixpoint jsonable (v : value) : bool :=
  match v with
  | VUndefined => false
  | VNull | VBool _ | VStr _ => true
  | VNum n => (Z.abs n <=? JSON.max_safe_integer)%Z
  | VObj ps =>
      bool_decide (NoDup ps.*1) &&
      (fix all (l : list (string * value)) : bool :=
         match l with
         | [] => true
         | (_, x) :: r => jsonable x && all r
         end) ps
  | VArr es =>
      (fix all (l : list value) : bool :=
         match l with
         | [] => true
         | x :: r => jsonable x && all r
         end) es
  end.

(** The number of nodes of a value, members and elements counted. *)
Fixpoint weight (v : value) : nat :=
  match v with
  | VObj ps =>
      S ((fix sum (l : list (string * value)) : nat :=
            match l with
            | [] => O
            | (_, x) :: r => S (weight x + sum r)
            end) ps)
  | VArr es =>
      S ((fix sum (l : list value) : nat :=
            match l with
            | [] => O
            | x :: r => S (weight x + sum r)
            end) es)
  | _ => 1%nat
  end.

(** What may follow a value in JSON text: nothing, or a character that
    does not continue a number. *)
Definition ends_value (tail : string) : bool :=
  match tail with
  | EmptyString => true
  | String c _ =>
      match JSON.digit_val c with
      | Some _ => false
      | None => negb (Ascii.eqb c "." || Ascii.eqb c "e" || Ascii.eqb c "E")
      end
  end.

Fixpoint last_char (c : ascii) (s : string) : ascii :=
  match s with
  | EmptyString => c
  | String d r => last_char d r
  end.

(** A string that neither starts nor ends with a character [trim]
    removes. *)
Definition trimmed (s : string) : bool :=
  match s with
  | EmptyString => true
  | String c r =>
      negb (AIAPIManager.is_space c) && negb (AIAPIManager.is_space (last_char c r))
  end.

(** Handles are never reused: every running interval, and the handle the
    manager holds, was issued before the next one. *)
Definition handles_fresh (w : world) : Prop :=
  Forall (λ t : nat * Z, t.1 < next_interval w)%nat (intervals w) ∧
  (∀ h, refreshInterval (self w) = Some h → (h < next_interval w)%nat).

(** The members [JSON.stringify] writes: those whose value is not
    [undefined]. *)
Definition written (ps : list (string * value)) : list (string * value) :=
  List.filter (λ kv, match kv.2 with VUndefined => false | _ => true end) ps.

(** A field that is not set, or holds a value JSON can carry. *)
Definition storable (v : value) : Prop := v = VUndefined ∨ jsonable v = true.

(** [defaultValue = null]: what [load] falls back to. *)
Definition fallback (d : value) : value :=
  match d with VUndefined => VNull | d => d end.

(** What [load] makes of the item found under its key. *)
Definition read_item (E : Env) (item : option string) (d : value) : value :=
  match item with
  | None | Some EmptyString => fallback d
  | Some text =>
      match JSON.parse_text (JSON_beyond E) text with
      | Ok v => v
      | Throw _ => fallback d
      end
  end.

End Spec.

(* ===================================================================== *)
(** ** Properties *)
(* ===================================================================== *)

Import OAuthTokenManager Spec.

(** Unfolds the plumbing of a method body. *)
Ltac unfold_M :=
  unfold bind, ret, throw, try_catch, lift, this, update, emit, console_error,
         Date_now, getItem, setItem, removeItem, fetch, fetch_issue, await,
         spawn, setInterval, clearInterval in *.

Section Headers.

Lemma getAuthHeaders_world (w : world) : (getAuthHeaders w).2 = w.
Proof.
  unfold getAuthHeaders. unfold_M.
  destruct (truthy (accessToken (self w))); reflexivity.
Qed.

(** C7. [getAuthHeaders] throws the no-token error exactly when the access
    token is absent; when it is present the method returns, without
    touching the world, an object whose [Authorization] property is the
    string [Bearer ] followed by the access token. *)
Theorem getAuthHeaders_spec (w : world) :
  ((∃ e, (getAuthHeaders w).1 = Throw e) ↔ absent (accessToken (self w))) ∧
  ((getAuthHeaders w).1 = Throw NoTokenError ↔ absent (accessToken (self w))) ∧
  (accessToken (self w) = VNull → getAuthHeaders w = (Throw NoTokenError, w)) ∧
  (present (accessToken (self w)) →
     getAuthHeaders w =
       (Ok (VObj [("Authorization",
                   VStr ("Bearer " +:+ to_string (accessToken (self w))))]), w)) ∧
  (∀ token, accessToken (self w) = VStr token → token ≠ "" →
     ∃ headers, getAuthHeaders w = (Ok headers, w) ∧
                get headers "Authorization" = Ok (VStr ("Bearer " +:+ token))) ∧
  (getAuthHeaders w).2 = w.
Proof.
  unfold getAuthHeaders, absent, present, NoTokenError. unfold_M.
  destruct (truthy (accessToken (self w))) eqn:Ht; simpl.
  - repeat split; try congruence; try tauto.
    + intros [e He]. discriminate.
    + intros H. rewrite H in Ht. discriminate.
    + intros token Htok _. exists (VObj [("Authorization", VStr ("Bearer " +:+ token))]).
      rewrite Htok. simpl. split; reflexivity.
  - repeat split; try congruence; try tauto; eauto.
    intros token Htok Hne. rewrite Htok in Ht. simpl in Ht.
    destruct (String.eqb_spec token ""); [contradiction | discriminate].
Qed.

End Headers.

(** The run behind C7: with [AT1] held, the header reads [Bearer AT1]. *)
Lemma getAuthHeaders_spec_bearer :
  ∃ headers,
    getAuthHeaders Sample.expired_with_refresh = (Ok headers, Sample.expired_with_refresh)
    ∧ get headers "Authorization" = Ok (VStr "Bearer AT1").
Proof.
  refine (proj1 (proj2 (proj2 (proj2 (proj2
            (getAuthHeaders_spec Sample.expired_with_refresh))))) "AT1" _ _).
  - reflexivity.
  - discriminate.
Defined.

Section Expiry.
Context (E : Env).

Local Open Scope Z_scope.

Lemma num_window (t : num) :
  num_lt t (Num (5 * 60 * 1000)) && num_lt (Num 0) t = true
  ↔ ∃ z, t = Num z ∧ 0 < z < 5 * 60 * 1000.
Proof.
  destruct t as [|z]; simpl.
  - split; [discriminate | intros (z & Hz & _); discriminate].
  - rewrite andb_true_iff, !Z.ltb_lt. split.
    + intros [H1 H2]. exists z. split; [reflexivity | lia].
    + intros (z' & Hz & H). injection Hz as ->. lia.
Qed.

Lemma checkTokenExpiry_absent (w : world) :
  absent (tokenExpiry (self w)) ∨ absent (refreshToken (self w)) →
  checkTokenExpiry E w = (Ok None, w).
Proof.
  unfold absent, checkTokenExpiry. unfold_M.
  intros [H | H]; rewrite H; simpl; [reflexivity |].
  rewrite orb_true_r. reflexivity.
Qed.

Lemma checkTokenExpiry_present (w : world) :
  present (tokenExpiry (self w)) → present (refreshToken (self w)) →
  checkTokenExpiry E w =
    (Ok (Some (expiry_report E w)),
     if num_lt (timeLeft (expiry_report E w)) (Num (5 * 60 * 1000))
        && num_lt (Num 0) (timeLeft (expiry_report E w))
     then (spawn w).2 else w).
Proof.
  unfold present, checkTokenExpiry, expiry_report. unfold_M.
  intros -> ->. simpl.
  match goal with |- context [if ?c then _ else _] => destruct c end; reflexivity.
Qed.

Lemma spawn_background (w : world) : background (spawn w).2 = S (background w).
Proof. reflexivity. Qed.

(** C2. [checkTokenExpiry] returns [null] exactly when the expiry or the
    refresh token is missing, and then does nothing.  Otherwise it returns
    [expired], [timeLeft] and [minutesLeft] computed from
    [timeLeft = expiry - now], and leaves one background refresh running
    exactly when [0 < timeLeft < 5 minutes]; nothing else changes.  So a
    credential with a refresh token whose expiry lies in the past is
    reported expired and no refresh is started. *)
Theorem checkTokenExpiry_spec (w : world) :
  let m := self w in
  let remaining := num_sub (Date.getTime (Date_parse E) (tokenExpiry m)) (Num (now w)) in
  let in_window := ∃ z, remaining = Num z ∧ 0 < z < 5 * 60 * 1000 in
  let out := checkTokenExpiry E w in
  (out.1 = Ok None ↔ absent (tokenExpiry m) ∨ absent (refreshToken m)) ∧
  (absent (tokenExpiry m) ∨ absent (refreshToken m) → out = (Ok None, w)) ∧
  (present (tokenExpiry m) ∧ present (refreshToken m) →
     out.1 = Ok (Some (ExpiryInfo (num_le remaining (Num 0)) remaining
                                  (num_floor_div remaining 60000))) ∧
     (in_window → out.2 = (spawn w).2) ∧
     (¬ in_window → out.2 = w)) ∧
  (background out.2 = S (background w)
   ↔ present (tokenExpiry m) ∧ present (refreshToken m) ∧ in_window) ∧
  (∀ e, present (tokenExpiry m) → present (refreshToken m) →
        Date.getTime (Date_parse E) (tokenExpiry m) = Num e → e < now w →
        ∃ info, out = (Ok (Some info), w) ∧ expired info = true
                ∧ timeLeft info = Num (e - now w)).
Proof.
  intros m remaining in_window out. subst out.
  assert (Hwin : num_lt remaining (Num (5 * 60 * 1000)) && num_lt (Num 0) remaining = true
                 ↔ in_window) by apply num_window.
  destruct (truthy (tokenExpiry m)) eqn:Hexp; [destruct (truthy (refreshToken m)) eqn:Href |].
  - (* both present *)
    rewrite (checkTokenExpiry_present w Hexp Href).
    change (timeLeft (expiry_report E w)) with remaining.
    change (expiry_report E w)
      with (ExpiryInfo (num_le remaining (Num 0)) remaining (num_floor_div remaining 60000)).
    unfold absent, present. fold m. rewrite Hexp, Href. cbn [fst snd].
    split; [split; [discriminate | intros [?|?]; discriminate] |].
    split; [intros [?|?]; discriminate |].
    destruct (num_lt remaining _ && num_lt _ remaining) eqn:Hc.
    + assert (Hin : in_window) by (apply Hwin; reflexivity).
      split; [intros _; split; [reflexivity | split; [reflexivity | tauto]] |].
      split; [rewrite spawn_background; tauto |].
      intros e _ _ He Hlt. exfalso.
      destruct Hin as (z & Hz & Hpos). unfold remaining in Hz.
      rewrite He in Hz. injection Hz as <-. lia.
    + assert (Hout : ¬ in_window) by (intros Hin; apply Hwin in Hin; discriminate).
      split; [intros _; split; [reflexivity | split; [tauto | reflexivity]] |].
      split; [split; [intros Hbg; lia | tauto] |].
      intros e _ _ He Hlt.
      assert (Hrem : remaining = Num (e - now w)).
      { unfold remaining. rewrite He. reflexivity. }
      eexists. split; [reflexivity |]. cbn [expired timeLeft].
      split; [| exact Hrem].
      rewrite Hrem. apply Z.leb_le. lia.
  - (* no refresh token *)
    assert (Habs : absent (tokenExpiry m) ∨ absent (refreshToken m)) by (right; exact Href).
    rewrite (checkTokenExpiry_absent w Habs). unfold present. fold m. simpl.
    split; [tauto |]. split; [reflexivity |].
    split; [intros [_ H]; congruence |].
    split; [split; [intros H; lia | intros (_ & H & _); congruence] |].
    intros e _ H. congruence.
  - (* no expiry *)
    assert (Habs : absent (tokenExpiry m) ∨ absent (refreshToken m)) by (left; exact Hexp).
    rewrite (checkTokenExpiry_absent w Habs). unfold present. fold m. simpl.
    split; [tauto |]. split; [reflexivity |].
    split; [intros [H _]; congruence |].
    split; [split; [intros H; lia | intros (H & _); congruence] |].
    intros e H. congruence.
Qed.

End Expiry.

(** The run behind C2: at 06:44 a token that expired at 06:00 is reported
    expired, and no refresh is started. *)
Lemma checkTokenExpiry_spec_expired :
  ∃ info,
    checkTokenExpiry Sample.quiet Sample.expired_with_refresh
    = (Ok (Some info), Sample.expired_with_refresh)
    ∧ expired info = true
    ∧ timeLeft info = Num (1793685600000 - now Sample.expired_with_refresh).
Proof.
  refine (proj2 (proj2 (proj2 (proj2
            (checkTokenExpiry_spec Sample.quiet Sample.expired_with_refresh))))
            1793685600000%Z _ _ _ _).
  - reflexivity.
  - reflexivity.
  - vm_compute. reflexivity.
  - vm_compute. reflexivity.
Defined.

Section Status.
Context (E : Env).

Local Open Scope Z_scope.

Lemma num_le_zero (t : num) : num_le t (Num 0) = true ↔ ∃ z, t = Num z ∧ z <= 0.
Proof.
  destruct t as [|z]; simpl.
  - split; [discriminate | intros (z & Hz & _); discriminate].
  - rewrite Z.leb_le. split.
    + intros H. exists z. split; [reflexivity | exact H].
    + intros (z' & Hz & H). injection Hz as ->. exact H.
Qed.

Lemma getStatus_value (w : world) :
  let info := (checkTokenExpiry E w).1 in
  ∃ o, info = Ok o ∧
       (getStatus E w).1 =
         Ok (Status (truthy (accessToken (self w)))
                    (truthy (refreshToken (self w)))
                    (truthy (accessToken (self w)) &&
                     match o with None => true | Some i => negb (expired i) end)
                    (truthy (refreshToken (self w)) && truthy (clientSecret (self w)))
                    (tokenExpiry (self w))
                    o).
Proof.
  unfold getStatus. unfold_M.
  destruct (truthy (tokenExpiry (self w))) eqn:Hexp;
    [destruct (truthy (refreshToken (self w))) eqn:Href |].
  - rewrite (checkTokenExpiry_present E w Hexp Href). cbn [fst snd].
    eexists. split; [reflexivity |].
    match goal with |- context [if ?c then _ else _] => destruct c end;
      unfold spawn; cbn [snd self]; rewrite ?Href; reflexivity.
  - rewrite (checkTokenExpiry_absent E w (or_intror Href)). cbn [fst snd].
    eexists. split; [reflexivity |]. rewrite ?Href. reflexivity.
  - rewrite (checkTokenExpiry_absent E w (or_introl Hexp)). cbn [fst snd].
    eexists. split; reflexivity.
Qed.

(** C5, as the code has it.  [getStatus().isAuthenticated] is true exactly
    when an access token is present and, whenever both an expiry and a
    refresh token are present, [timeLeft = expiry - now] is not [<= 0].
    Without a refresh token the expiry is not looked at. *)
Theorem getStatus_isAuthenticated (w : world) :
  let m := self w in
  let remaining := num_sub (Date.getTime (Date_parse E) (tokenExpiry m)) (Num (now w)) in
  ∃ st, (getStatus E w).1 = Ok st ∧
        (isAuthenticated st = true
         ↔ present (accessToken m) ∧
           (present (tokenExpiry m) ∧ present (refreshToken m) →
            ¬ ∃ z, remaining = Num z ∧ z <= 0)) ∧
        (absent (refreshToken m) → isAuthenticated st = truthy (accessToken m)).
Proof.
  intros m remaining.
  destruct (getStatus_value w) as (o & Ho & Hst). cbn zeta in Ho.
  eexists. split; [exact Hst |]. cbn [isAuthenticated].
  unfold present, absent. fold m.
  destruct (truthy (tokenExpiry m)) eqn:Hexp;
    [destruct (truthy (refreshToken m)) eqn:Href |].
  - rewrite (checkTokenExpiry_present E w Hexp Href) in Ho. cbn [fst] in Ho.
    injection Ho as <-. cbn [expired expiry_report]. fold m. fold remaining.
    split; [| discriminate].
    rewrite andb_true_iff, negb_true_iff.
    pose proof (num_le_zero remaining) as Hz.
    destruct (num_le remaining (Num 0)).
    + split; [intros [_ H]; discriminate |].
      intros [_ H]. exfalso. apply H; [tauto |]. apply Hz. reflexivity.
    + split; [| tauto]. intros [Ha _]. split; [exact Ha |].
      intros _ H. apply Hz in H. discriminate.
  - rewrite (checkTokenExpiry_absent E w (or_intror Href)) in Ho. cbn [fst] in Ho.
    injection Ho as <-. rewrite andb_true_r.
    split; [| reflexivity]. split; [| tauto].
    intros Ha. split; [exact Ha |]. intros [_ H]. discriminate.
  - rewrite (checkTokenExpiry_absent E w (or_introl Hexp)) in Ho. cbn [fst] in Ho.
    injection Ho as <-. rewrite andb_true_r.
    split; [| reflexivity]. split; [| tauto].
    intros Ha. split; [exact Ha |]. intros [H _]. discriminate.
Qed.

End Status.

(** C5, as the specification words it, fails: an access token that
    expired 44 minutes ago, held without a refresh token, is reported as
    authenticated. *)
Lemma getStatus_expired_without_refresh :
  ∃ st, (getStatus Sample.quiet Sample.expired_without_refresh).1 = Ok st
        ∧ isAuthenticated st = true
        ∧ spec_isAuthenticated Sample.quiet Sample.expired_without_refresh = false
        ∧ present (accessToken (self Sample.expired_without_refresh))
        ∧ Date.getTime (Date_parse Sample.quiet)
                       (tokenExpiry (self Sample.expired_without_refresh))
          = Num 1793685600000
        ∧ (1793685600000 < now Sample.expired_without_refresh)%Z.
Proof.
  eexists. split; [vm_compute; reflexivity |].
  repeat split; vm_compute; reflexivity.
Qed.

(* --------------------------------------------------------------------- *)
(** *** JSON: what is written is read back *)
(* --------------------------------------------------------------------- *)

Section JsonRoundTrip.
Import JSON.
Context (B : JSON.Beyond).

Lemma append_cons (x : ascii) (a b : string) : String x a +:+ b = String x (a +:+ b).
Proof. reflexivity. Qed.

Lemma append_nil (b : string) : EmptyString +:+ b = b.
Proof. reflexivity. Qed.

Lemma append_assoc (a b c : string) : (a +:+ b) +:+ c = a +:+ (b +:+ c).
Proof.
  induction a as [|x a IH]; [reflexivity |].
  rewrite !append_cons, IH. reflexivity.
Qed.

Lemma append_length (a b : string) :
  String.length (a +:+ b) = (String.length a + String.length b)%nat.
Proof.
  induction a as [|x a IH]; [reflexivity |].
  rewrite append_cons. cbn [String.length]. rewrite IH. reflexivity.
Qed.

(** One escaped code unit is read back as that code unit. *)
Lemma parse_chars_escape_char (c : ascii) (r : string) :
  parse_chars B (escape_char c +:+ r) =
  match parse_chars B r with
  | Some (t, rest) => Some (String c t, rest)
  | None => None
  end.
Proof. destruct c as [[] [] [] [] [] [] [] []]; reflexivity. Qed.

Lemma parse_chars_escape (s rest : string) :
  parse_chars B (escape s +:+ String dquote rest) = Some (s, rest).
Proof.
  induction s as [|c s IH]; [reflexivity |].
  cbn [escape]. rewrite append_assoc, parse_chars_escape_char, IH. reflexivity.
Qed.

Lemma quote_append (s rest : string) :
  quote s +:+ rest = String dquote (escape s +:+ String dquote rest).
Proof. unfold quote. rewrite append_cons, append_assoc. reflexivity. Qed.

Lemma parse_scalar (fuel : nat) (v : value) (tail : string) :
  scalar v = true →
  parse B (S fuel) MValue (text_of (stringify v) +:+ tail) = Some (v, tail).
Proof.
  destruct v as [| |[]| |s| |]; try discriminate; intros _; try reflexivity.
  cbn [stringify text_of]. rewrite quote_append.
  cbn [parse skip_ws]. change (is_ws dquote) with false. cbv iota.
  change (Ascii.eqb dquote "n") with false.
  change (Ascii.eqb dquote "t") with false.
  change (Ascii.eqb dquote "f") with false.
  change (Ascii.eqb dquote dquote) with true. cbv iota.
  rewrite parse_chars_escape. reflexivity.
Qed.

Lemma stringify_flat (ps : list (string * value)) :
  Forall (λ kv, scalar kv.2 = true) ps →
  stringify (VObj ps) = Some ("{" +:+ join "," (map member_text ps) +:+ "}").
Proof.
  intros H. cbn [stringify].
  match goal with
  | |- Some (_ +:+ join _ ?l +:+ _) = _ => assert (Hl : l = map member_text ps)
  end.
  { induction H as [|[k v] ps Hv _ IH]; [reflexivity |].
    cbn [map]. rewrite <- IH. unfold member_text. cbn [fst snd] in *.
    destruct v; try discriminate; try reflexivity. destruct b; reflexivity. }
  rewrite Hl. reflexivity.
Qed.

Lemma member_text_head (kv : string * value) :
  ∃ r, member_text kv = String dquote r.
Proof. unfold member_text. rewrite quote_append. eexists. reflexivity. Qed.

Lemma join_head (x : string * value) (r : list (string * value)) (tail : string) :
  ∃ t, join "," (map member_text (x :: r)) +:+ tail = String dquote t.
Proof.
  destruct (member_text_head x) as [t Ht]. cbn [map join].
  destruct (map member_text r); rewrite Ht, ?append_cons; eexists; reflexivity.
Qed.

(** An opening brace: the empty object, or members. *)
Lemma parse_object_open (fuel : nat) (r : string) :
  parse B (S fuel) MValue (String "{" r) =
  match skip_ws r with
  | String c' r' =>
      if Ascii.eqb c' "}" then Some (VObj [], r') else parse B fuel (MMembers []) r
  | EmptyString => None
  end.
Proof. reflexivity. Qed.

(** One member: a key, a colon, a value, then a comma or the brace. *)
Lemma parse_one_member (fuel : nat) (acc : list (string * value)) (s : string) :
  parse B (S fuel) (MMembers acc) s =
  match skip_ws s with
  | String q r =>
      if Ascii.eqb q dquote then
        match parse_chars B r with
        | Some (k, r1) =>
            match skip_ws r1 with
            | String colon r2 =>
                if Ascii.eqb colon ":" then
                  match parse B fuel MValue r2 with
                  | Some (v, r3) =>
                      match skip_ws r3 with
                      | String d r4 =>
                          if Ascii.eqb d "," then
                            parse B fuel (MMembers (set_prop k v acc)) r4
                          else if Ascii.eqb d "}" then
                            Some (VObj (set_prop k v acc), r4)
                          else None
                      | EmptyString => None
                      end
                  | None => None
                  end
                else None
            | EmptyString => None
            end
        | None => None
        end
      else None
  | EmptyString => None
  end.
Proof. reflexivity. Qed.

(** The members of a flat object are read back in order, each stored
    with [set_prop]. *)
Lemma parse_members (ps : list (string * value)) :
  Forall (λ kv, scalar kv.2 = true) ps → ps ≠ [] →
  ∀ fuel acc rest,
    (length ps < fuel)%nat →
    parse B fuel (MMembers acc) (join "," (map member_text ps) +:+ String "}" rest)
    = Some (VObj (spread acc ps), rest).
Proof.
  induction 1 as [|[k v] ps Hv Hps IH]; [congruence |]. intros _ fuel acc rest Hfuel.
  destruct fuel as [|[|fuel]]; [cbn in Hfuel; lia .. |].
  cbn [fst snd] in Hv.
  assert (Hstep : ∀ tail,
            parse B (S (S fuel)) (MMembers acc) (member_text (k, v) +:+ tail)
            = match skip_ws tail with
              | String d r4 =>
                  if Ascii.eqb d "," then parse B (S fuel) (MMembers (set_prop k v acc)) r4
                  else if Ascii.eqb d "}" then Some (VObj (set_prop k v acc), r4)
                  else None
              | EmptyString => None
              end).
  { intros tail. unfold member_text. cbn [fst snd].
    rewrite !append_assoc, quote_append, parse_one_member.
    cbn [skip_ws]. change (is_ws dquote) with false. cbv iota.
    change (Ascii.eqb dquote dquote) with true. cbv iota.
    rewrite parse_chars_escape. rewrite append_cons, append_nil.
    cbn [skip_ws]. change (is_ws ":") with false. cbv iota.
    change (Ascii.eqb ":" ":") with true. cbv iota.
    rewrite (parse_scalar fuel v tail Hv). reflexivity. }
  destruct ps as [|kv ps].
  - cbn [map join]. rewrite Hstep. reflexivity.
  - cbn [map join]. cbn [map] in IH. rewrite !append_assoc, Hstep.
    rewrite append_cons, append_nil. cbn [skip_ws].
    change (is_ws ",") with false. cbv iota.
    change (Ascii.eqb "," ",") with true. cbv iota.
    rewrite IH; [reflexivity | discriminate | cbn [length] in *; lia].
Qed.

Lemma spread_fresh (ps acc : list (string * value)) :
  NoDup (acc ++ ps).*1 → spread acc ps = acc ++ ps.
Proof.
  revert acc. induction ps as [|[k v] ps IH]; intros acc Hnd.
  - rewrite app_nil_r. reflexivity.
  - unfold spread in *. cbn [fold_left fst snd].
    assert (Hset : set_prop k v acc = acc ++ [(k, v)]).
    { clear IH. induction acc as [|[k' v'] acc IHacc]; [reflexivity |].
      cbn [set_prop]. rewrite fmap_app in Hnd. cbn in Hnd.
      apply NoDup_cons in Hnd as [Hk' Hnd].
      destruct (String.eqb_spec k k') as [->|Hne].
      - exfalso. apply Hk'. rewrite elem_of_app. right. left.
      - rewrite IHacc; [reflexivity |]. rewrite fmap_app. exact Hnd. }
    rewrite Hset, IH; rewrite <- app_assoc; [reflexivity | exact Hnd].
Qed.

Lemma join_length (ms : list string) :
  Forall (λ x, 1 ≤ String.length x)%nat ms →
  (length ms ≤ String.length (join "," ms))%nat.
Proof.
  induction 1 as [|x ms Hx Hms IH]; [reflexivity |].
  destruct ms as [|y ms]; [cbn; lia |].
  cbn [join length] in *. rewrite !append_length. cbn [String.length]. lia.
Qed.

(** A flat object survives [JSON.stringify] followed by [JSON.parse]. *)
Lemma parse_text_stringify_flat (ps : list (string * value)) :
  flat_record ps →
  ∃ text, stringify (VObj ps) = Some text ∧ text ≠ EmptyString
          ∧ parse_text B text = Ok (VObj ps).
Proof.
  intros [Hnd Hsc]. rewrite (stringify_flat ps Hsc).
  eexists. split; [reflexivity |]. split; [discriminate |].
  destruct ps as [|kv ps]; [reflexivity |].
  unfold parse_text.
  destruct (join_head kv ps "}") as [t Ht].
  rewrite append_cons, append_nil, parse_object_open.
  rewrite Ht. cbn [skip_ws]. change (is_ws dquote) with false. cbv iota.
  change (Ascii.eqb dquote "}") with false. cbv iota. rewrite <- Ht.
  rewrite parse_members.
  - rewrite spread_fresh by exact Hnd. reflexivity.
  - exact Hsc.
  - discriminate.
  - cbn [String.length]. rewrite append_length. cbn [String.length].
    pose proof (join_length (map member_text (kv :: ps))) as Hlen.
    rewrite length_map in Hlen. 
    assert (Hall : Forall (λ x, 1 ≤ String.length x)%nat (map member_text (kv :: ps))).
    { generalize (kv :: ps). intros l.
      induction l as [|y l IHl]; cbn [map]; constructor; [| exact IHl].
      destruct (member_text_head y) as [r ->]. cbn [String.length]. lia. }
    specialize (Hlen Hall). lia.
Qed.

End JsonRoundTrip.

(** Numerals in every form of the grammar are read; one that is no safe
    integer is what the platform makes of it. *)
Lemma parse_text_numerals (B : JSON.Beyond) :
  JSON.parse_text B "[1.0, 15e-1, 2E3, -0.5e+1, 120e-1, 9007199254740993, -0]"
  = Ok (VArr [VNum 1; VNum (JSON.beyond_number B 15 (-1)); VNum 2000; VNum (-5);
              VNum 12; VNum (JSON.beyond_number B 9007199254740993 0); VNum 0]).
Proof. vm_compute. reflexivity. Qed.

(** What the grammar does not allow is refused. *)
Lemma parse_text_refuses (B : JSON.Beyond) :
  Forall (λ text, ∃ e, JSON.parse_text B text = Throw e)
         ["01"; "1."; ".5"; "1e"; "1e+"; "+1"; "-"; "0x10"; "[1,]"; "{,}"].
Proof. repeat constructor; eexists; vm_compute; reflexivity. Qed.

(** Escapes are read; a code unit above 255 is what the platform makes
    of it. *)
Lemma parse_text_escapes (B : JSON.Beyond) :
  JSON.parse_text B (Sample.quoted "\u0041\u00e9\u0100\/\n")
  = Ok (VStr (String "A" (String "233" (String (JSON.beyond_unit B 256)
                (String "/" (String "010" EmptyString)))))).
Proof. vm_compute. reflexivity. Qed.

Section JsonFuel.
Import JS JSON.
Context (B : JSON.Beyond).

Lemma skip_ws_length (s : string) : (String.length (skip_ws s) ≤ String.length s)%nat.
Proof.
  induction s as [|c r IH]; [reflexivity |]. cbn [skip_ws].
  destruct (is_ws c); cbn [String.length] in *; lia.
Qed.

Lemma expect_length (word s rest : string) :
  expect word s = Some rest → (String.length rest ≤ String.length s)%nat.
Proof.
  revert s. induction word as [|a w IH]; intros s; cbn [expect].
  - intros H. injection H as <-. lia.
  - destruct s as [|b r]; [discriminate |].
    destruct (Ascii.eqb a b); [| discriminate].
    intros H. apply IH in H. cbn [String.length]. lia.
Qed.

Lemma parse_chars_length (s t rest : string) :
  parse_chars B s = Some (t, rest) → (String.length rest < String.length s)%nat.
Proof.
  remember (String.length s) as n eqn:Hn. revert s t rest Hn.
  induction n as [n IH] using lt_wf_ind. intros s t rest Hn.
  destruct s as [|c r]; [discriminate |]. cbn [parse_chars String.length] in *.
  destruct (Ascii.eqb c dquote).
  { intros H. injection H as _ <-. lia. }
  destruct (Ascii.eqb c backslash).
  { destruct r as [|e r1]; [discriminate |]. cbn [String.length] in *.
    destruct (unescape e).
    - destruct (parse_chars B r1) as [[t' rest']|] eqn:Hp; [| discriminate].
      intros H. injection H as _ <-.
      pose proof (IH (String.length r1) ltac:(lia) r1 _ _ eq_refl Hp). lia.
    - destruct (Ascii.eqb e "u"); [| discriminate].
      destruct r1 as [|h1 [|h2 [|h3 [|h4 r2]]]]; try discriminate.
      cbn [String.length] in *.
      destruct (hex4 h1 h2 h3 h4); [| discriminate].
      destruct (parse_chars B r2) as [[t' rest']|] eqn:Hp; [| discriminate].
      intros H. injection H as _ <-.
      pose proof (IH (String.length r2) ltac:(lia) r2 _ _ eq_refl Hp). lia. }
  destruct (N_of_ascii c <? 32)%N; [discriminate |].
  destruct (parse_chars B r) as [[t' rest']|] eqn:Hp; [| discriminate].
  intros H. injection H as _ <-.
  pose proof (IH (String.length r) ltac:(lia) r _ _ eq_refl Hp). lia.
Qed.

Lemma parse_digits_length (acc : Z) (s : string) :
  (String.length (parse_digits acc s).2 ≤ String.length s)%nat.
Proof.
  revert acc. induction s as [|c r IH]; intros acc; [reflexivity |].
  cbn [parse_digits]. destruct (digit_val c); [| reflexivity].
  specialize (IH (10 * acc + z)%Z). cbn [String.length]. lia.
Qed.

Lemma parse_places_length (acc places : Z) (s : string) :
  (String.length (parse_places acc places s).2 ≤ String.length s)%nat.
Proof.
  revert acc places. induction s as [|c r IH]; intros acc places; [reflexivity |].
  cbn [parse_places]. destruct (digit_val c); [| reflexivity].
  specialize (IH (10 * acc + z)%Z (places + 1)%Z). cbn [String.length]. lia.
Qed.

Lemma read_fraction_length (n : Z) (s : string) (m places : Z) (rest : string) :
  read_fraction n s = Some (m, places, rest) →
  (String.length rest ≤ String.length s)%nat.
Proof.
  unfold read_fraction. destruct s as [|c r].
  - intros H. injection H as _ _ <-. lia.
  - destruct (Ascii.eqb c ".").
    + destruct (starts_with_digit r); [| discriminate].
      intros H. injection H as H.
      pose proof (parse_places_length n 0 r) as Hl. rewrite H in Hl.
      cbn [snd String.length] in *. lia.
    + intros H. injection H as _ _ <-. lia.
Qed.

Lemma read_exponent_length (s : string) (e : Z) (rest : string) :
  read_exponent s = Some (e, rest) → (String.length rest ≤ String.length s)%nat.
Proof.
  unfold read_exponent. destruct s as [|c r].
  - intros H. injection H as _ <-. lia.
  - destruct (Ascii.eqb c "e" || Ascii.eqb c "E").
    + assert (Hd : ∀ negative digits,
                (String.length digits ≤ String.length r)%nat →
                (if starts_with_digit digits
                 then let '(e0, rest0) := parse_digits 0 digits in
                      Some (if negative : bool then (- e0)%Z else e0, rest0)
                 else None) = Some (e, rest) →
                (String.length rest ≤ String.length (String c r))%nat).
      { intros negative digits Hle. destruct (starts_with_digit digits); [| discriminate].
        pose proof (parse_digits_length 0 digits) as Hl.
        destruct (parse_digits 0 digits) as [e0 rest0]. intros H. injection H as _ <-.
        cbn [snd String.length] in *. lia. }
      destruct r as [|sign r']; [apply (Hd false ""); lia |].
      destruct (Ascii.eqb sign "-"); [apply (Hd true r'); cbn [String.length]; lia |].
      destruct (Ascii.eqb sign "+");
        [apply (Hd false r') | apply (Hd false (String sign r'))];
        cbn [String.length]; lia.
    + intros H. injection H as _ <-. lia.
Qed.

Lemma parse_unsigned_length (s : string) (n : Z) (rest : string) :
  parse_unsigned B s = Some (n, rest) → (String.length rest < String.length s)%nat.
Proof.
  unfold parse_unsigned. destruct s as [|c r]; [discriminate |].
  destruct (digit_val c) as [d|]; [| discriminate].
  assert (Hd : ∀ n0 rest0,
            (String.length rest0 ≤ String.length r)%nat →
            (if no_fraction rest0 then Some (number_of B n0 0, rest0)
             else match read_fraction n0 rest0 with
                  | Some (m, places, r1) =>
                      match read_exponent r1 with
                      | Some (e, r2) => Some (number_of B m (e - places), r2)
                      | None => None
                      end
                  | None => None
                  end) = Some (n, rest) →
            (String.length rest < String.length (String c r))%nat).
  { intros n0 rest0 Hle. destruct (no_fraction rest0).
    - intros H. injection H as _ <-. cbn [String.length]. lia.
    - destruct (read_fraction n0 rest0) as [[[m places] r1]|] eqn:Hf; [| discriminate].
      destruct (read_exponent r1) as [[e r2]|] eqn:He; [| discriminate].
      intros H. injection H as _ <-.
      apply read_fraction_length in Hf. apply read_exponent_length in He.
      cbn [String.length]. lia. }
  destruct (d =? 0)%Z; [apply Hd; lia |].
  pose proof (parse_digits_length d r) as Hl.
  destruct (parse_digits d r) as [n0 rest0]. apply Hd. exact Hl.
Qed.

Lemma parse_number_length (s : string) (n : Z) (rest : string) :
  parse_number B s = Some (n, rest) → (String.length rest < String.length s)%nat.
Proof.
  unfold parse_number. destruct s as [|c r]; [discriminate |].
  destruct (Ascii.eqb c "-").
  - destruct (parse_unsigned B r) as [[n0 rest0]|] eqn:Hu; [| discriminate].
    intros H. injection H as _ <-. apply parse_unsigned_length in Hu.
    cbn [String.length]. lia.
  - apply parse_unsigned_length.
Qed.

Ltac with_fuel g Hg :=
  intros g Hg; destruct g as [|g]; [lia |]; cbn [parse];
  repeat match goal with
         | H : ?x = _ |- context [?x] => rewrite H
         end.

(** A parse that succeeds has consumed input, and succeeds with any fuel
    above the number of characters it consumed. *)
Lemma parse_enough (f : nat) :
  ∀ m s v r,
    parse B f m s = Some (v, r) →
    (String.length r < String.length s)%nat
    ∧ ∀ g, (String.length s - String.length r < g)%nat → parse B g m s = Some (v, r).
Proof.
  induction f as [|f IH]; intros m s v r H; [discriminate |].
  pose proof (skip_ws_length s) as Hws.
  destruct m as [|acc|acc]; cbn [parse] in H.
  - destruct (skip_ws s) as [|c r0] eqn:Hs; [discriminate |].
    cbn [String.length] in Hws.
    destruct (Ascii.eqb c "n") eqn:E1.
    { destruct (expect "ull" r0) as [rest|] eqn:He; [| discriminate].
      injection H as <- <-. apply expect_length in He as Hl.
      split; [lia |]. with_fuel g Hg. reflexivity. }
    destruct (Ascii.eqb c "t") eqn:E2.
    { destruct (expect "rue" r0) as [rest|] eqn:He; [| discriminate].
      injection H as <- <-. apply expect_length in He as Hl.
      split; [lia |]. with_fuel g Hg. reflexivity. }
    destruct (Ascii.eqb c "f") eqn:E3.
    { destruct (expect "alse" r0) as [rest|] eqn:He; [| discriminate].
      injection H as <- <-. apply expect_length in He as Hl.
      split; [lia |]. with_fuel g Hg. reflexivity. }
    destruct (Ascii.eqb c dquote) eqn:E4.
    { destruct (parse_chars B r0) as [[t rest]|] eqn:Hp; [| discriminate].
      injection H as <- <-. apply parse_chars_length in Hp as Hl.
      split; [lia |]. with_fuel g Hg. reflexivity. }
    destruct (Ascii.eqb c "{") eqn:E5.
    { pose proof (skip_ws_length r0) as Hws2.
      destruct (skip_ws r0) as [|c' r'] eqn:Hs2; [discriminate |].
      cbn [String.length] in Hws2.
      destruct (Ascii.eqb c' "}") eqn:E.
      - injection H as <- <-. split; [lia |]. with_fuel g Hg. reflexivity.
      - destruct (IH _ _ _ _ H) as [Hl Hb]. split; [lia |].
        with_fuel g Hg. apply Hb. lia. }
    destruct (Ascii.eqb c "[") eqn:E6.
    { pose proof (skip_ws_length r0) as Hws2.
      destruct (skip_ws r0) as [|c' r'] eqn:Hs2; [discriminate |].
      cbn [String.length] in Hws2.
      destruct (Ascii.eqb c' "]") eqn:E.
      - injection H as <- <-. split; [lia |]. with_fuel g Hg. reflexivity.
      - destruct (IH _ _ _ _ H) as [Hl Hb]. split; [lia |].
        with_fuel g Hg. apply Hb. lia. }
    destruct (parse_number B (String c r0)) as [[n rest]|] eqn:Hn; [| discriminate].
    injection H as <- <-. apply parse_number_length in Hn as Hl.
    cbn [String.length] in Hl.
    split; [lia |]. with_fuel g Hg. reflexivity.
  - destruct (skip_ws s) as [|q r0] eqn:Hs; [discriminate |].
    cbn [String.length] in Hws.
    destruct (Ascii.eqb q dquote) eqn:E1; [| discriminate].
    destruct (parse_chars B r0) as [[k r1]|] eqn:Hp; [| discriminate].
    apply parse_chars_length in Hp as Hl1.
    pose proof (skip_ws_length r1) as Hws1.
    destruct (skip_ws r1) as [|colon r2] eqn:Hs1; [discriminate |].
    cbn [String.length] in Hws1.
    destruct (Ascii.eqb colon ":") eqn:E2; [| discriminate].
    destruct (parse B f MValue r2) as [[v1 r3]|] eqn:Hv; [| discriminate].
    destruct (IH _ _ _ _ Hv) as [Hl3 Hb3].
    pose proof (skip_ws_length r3) as Hws3.
    destruct (skip_ws r3) as [|d r4] eqn:Hs3; [discriminate |].
    cbn [String.length] in Hws3.
    destruct (Ascii.eqb d ",") eqn:E3.
    { destruct (IH _ _ _ _ H) as [Hl Hb]. split; [lia |].
      intros g Hg. destruct g as [|g]; [lia |]. cbn [parse].
      rewrite Hs, E1, Hp, Hs1, E2, (Hb3 g) by lia. rewrite Hs3, E3.
      apply Hb. lia. }
    destruct (Ascii.eqb d "}") eqn:E4; [| discriminate].
    injection H as <- <-. split; [lia |].
    intros g Hg. destruct g as [|g]; [lia |]. cbn [parse].
    rewrite Hs, E1, Hp, Hs1, E2, (Hb3 g) by lia. rewrite Hs3, E3, E4. reflexivity.
  - destruct (parse B f MValue s) as [[v1 r1]|] eqn:Hv; [| discriminate].
    destruct (IH _ _ _ _ Hv) as [Hl1 Hb1].
    pose proof (skip_ws_length r1) as Hws1.
    destruct (skip_ws r1) as [|d r2] eqn:Hs1; [discriminate |].
    cbn [String.length] in Hws1.
    destruct (Ascii.eqb d ",") eqn:E1.
    { destruct (IH _ _ _ _ H) as [Hl Hb]. split; [lia |].
      intros g Hg. destruct g as [|g]; [lia |]. cbn [parse].
      rewrite (Hb1 g) by lia. rewrite Hs1, E1. apply Hb. lia. }
    destruct (Ascii.eqb d "]") eqn:E2; [| discriminate].
    injection H as <- <-. split; [lia |].
    intros g Hg. destruct g as [|g]; [lia |]. cbn [parse].
    rewrite (Hb1 g) by lia. rewrite Hs1, E1, E2. reflexivity.
Qed.

(** The fuel [parse_text] gives is enough: no text is refused for want
    of fuel, and more fuel reads nothing else. *)
Lemma parse_text_fuel (text : string) (fuel : nat) :
  (S (String.length text) ≤ fuel)%nat →
  parse B fuel MValue text = parse B (S (String.length text)) MValue text.
Proof.
  intros Hle.
  destruct (parse B (S (String.length text)) MValue text) as [[v r]|] eqn:Hshort.
  - destruct (parse_enough _ _ _ _ _ Hshort) as [Hl Hb]. apply Hb. lia.
  - destruct (parse B fuel MValue text) as [[v r]|] eqn:Hlong; [| reflexivity].
    destruct (parse_enough _ _ _ _ _ Hlong) as [Hl Hb].
    rewrite (Hb (S (String.length text))) in Hshort by lia. discriminate.
Qed.

End JsonFuel.

(* --------------------------------------------------------------------- *)
(** *** The token store *)
(* --------------------------------------------------------------------- *)

Section Store.
Context (E : Env).

Lemma save_run (sm : StorageManager.t) (key data : value) (w : world) :
  let k := StorageManager.getKey sm key in
  let text := text_of (JSON.stringify data) in
  StorageManager.save E sm key data w =
  if storage_accepts E (localStorage w) k text
  then (Ok true, with_item k text (logged (ESetItem k text) w))
  else (Ok false,
        logged (EConsoleError ("Error saving " +:+ to_string key +:+ ":")
                              QuotaExceededError)
               (logged (ESetItem k text) w)).
Proof.
  intros k text. unfold StorageManager.save. unfold_M. fold k. fold text.
  destruct (storage_accepts E (localStorage w) k text); reflexivity.
Qed.

Lemma load_run (sm : StorageManager.t) (key d : value) (text : string) (w : world) :
  localStorage w !! StorageManager.getKey sm key = Some text →
  text ≠ EmptyString →
  ∀ v, JSON.parse_text (JSON_beyond E) text = Ok v →
       StorageManager.load E sm key d w = (Ok v, w).
Proof.
  intros Hitem Hne v Hparse. unfold StorageManager.load. unfold_M.
  rewrite Hitem. destruct text as [|c text]; [congruence |].
  rewrite Hparse. reflexivity.
Qed.

(** Every flat record that [save] accepted is what [load] returns. *)
Lemma save_load_flat (sm : StorageManager.t) (key d : value)
      (ps : list (string * value)) (w : world) :
  flat_record ps →
  let saved := StorageManager.save E sm key (VObj ps) w in
  saved.1 = Ok true →
  StorageManager.load E sm key d saved.2 = (Ok (VObj ps), saved.2).
Proof.
  intros Hflat saved Hok. subst saved. rewrite save_run in *.
  destruct (parse_text_stringify_flat (JSON_beyond E) ps Hflat) as (text & Htext & Hne & Hparse).
  rewrite Htext in *. cbn [text_of] in *.
  destruct (storage_accepts E (localStorage w) _ text); [| discriminate].
  cbn [snd]. apply load_run with (text := text); [| exact Hne | exact Hparse].
  unfold with_item. cbn [localStorage]. apply lookup_insert_eq.
Qed.

Lemma credential_record_flat (id secret token refresh expires : value) :
  nullable_string id → nullable_string secret → nullable_string token →
  nullable_string refresh → nullable_string expires →
  ∃ ps, credential_record id secret token refresh expires = VObj ps ∧ flat_record ps.
Proof.
  intros H1 H2 H3 H4 H5. eexists. split; [reflexivity |]. split.
  - cbn. apply (bool_decide_unpack _). vm_compute. exact I.
  - repeat (apply Forall_cons; split);
      [ destruct H1 as [->|[? ->]] | destruct H2 as [->|[? ->]]
      | destruct H3 as [->|[? ->]] | destruct H4 as [->|[? ->]]
      | destruct H5 as [->|[? ->]] | ]; try reflexivity. apply Forall_nil. exact I.
Qed.

(** C8. For every record of the five credential fields, each a string or
    [null], [save(key, record)] that succeeds followed by [load(key)] on
    the same namespace and key returns the record that was saved, and
    reading does not change the world.  [save] succeeds exactly when
    localStorage accepts the write; a refused write leaves the store as it
    was. *)
Theorem save_load_round_trip (sm : StorageManager.t) (key d : value)
        (id secret token refresh expires : value) (w : world) :
  nullable_string id → nullable_string secret → nullable_string token →
  nullable_string refresh → nullable_string expires →
  let record := credential_record id secret token refresh expires in
  let saved := StorageManager.save E sm key record w in
  (saved.1 = Ok true →
   StorageManager.load E sm key d saved.2 = (Ok record, saved.2)) ∧
  (saved.1 = Ok true
   ↔ storage_accepts E (localStorage w) (StorageManager.getKey sm key)
                     (text_of (JSON.stringify record)) = true) ∧
  (saved.1 = Ok true ∨
   saved.1 = Ok false ∧ localStorage saved.2 = localStorage w).
Proof.
  intros H1 H2 H3 H4 H5 record saved.
  destruct (credential_record_flat id secret token refresh expires H1 H2 H3 H4 H5)
    as (ps & Hps & Hflat).
  fold record in Hps. split.
  - subst saved. rewrite Hps. apply save_load_flat. exact Hflat.
  - subst saved. rewrite save_run.
    destruct (storage_accepts E (localStorage w) _ _); cbn [fst snd].
    + split; [tauto | left; reflexivity].
    + split; [split; discriminate | right; split; reflexivity].
Qed.

End Store.

(** The run behind C8: a record with [accessToken: null] saved under
    [tokens] in the namespace [app] and loaded again. *)
Lemma save_load_round_trip_null_token :
  StorageManager.load Sample.quiet
    (StorageManager.Make (VStr "app") (VBool false) (VArr [])) (VStr "tokens") VNull
    (StorageManager.save Sample.quiet
       (StorageManager.Make (VStr "app") (VBool false) (VArr [])) (VStr "tokens")
       (credential_record (VStr "abc") (VStr "xyz") VNull (VStr "RT1") VNull)
       (Sample.page 0 ∅)).2
  = (Ok (credential_record (VStr "abc") (VStr "xyz") VNull (VStr "RT1") VNull),
     (StorageManager.save Sample.quiet
       (StorageManager.Make (VStr "app") (VBool false) (VArr [])) (VStr "tokens")
       (credential_record (VStr "abc") (VStr "xyz") VNull (VStr "RT1") VNull)
       (Sample.page 0 ∅)).2).
Proof.
  refine (proj1 (save_load_round_trip Sample.quiet
                   (StorageManager.Make (VStr "app") (VBool false) (VArr []))
                   (VStr "tokens") VNull
                   (VStr "abc") (VStr "xyz") VNull (VStr "RT1") VNull
                   (Sample.page 0 ∅) _ _ _ _ _) _).
  - right. exists "abc". reflexivity.
  - right. exists "xyz". reflexivity.
  - left. reflexivity.
  - right. exists "RT1". reflexivity.
  - left. reflexivity.
  - vm_compute. reflexivity.
Defined.

(* --------------------------------------------------------------------- *)
(** *** How the exchanges run *)
(* --------------------------------------------------------------------- *)

Section Runs.
Context (E : Env).

Lemma fetch_run (caller url : string) (init : list (string * value)) (w : world) :
  fetch E caller url init w =
  (settled (network E (fetches w) url init),
   after_fetch caller url init (network E (fetches w) url init) w).
Proof. reflexivity. Qed.

Lemma saveToStorage_run (w : world) :
  let k := to_string (storageKey (self w)) in
  let text := text_of (JSON.stringify (stored_record (self w))) in
  saveToStorage E w =
  (Ok (storage_accepts E (localStorage w) k text), kept E w).
Proof.
  intros k text. unfold saveToStorage, kept. unfold_M. fold k. fold text.
  destruct (storage_accepts E (localStorage w) k text); reflexivity.
Qed.

Lemma kept_self (w : world) : self (kept E w) = self w.
Proof. unfold kept. destruct (storage_accepts E _ _ _); reflexivity. Qed.

Lemma told_self (w : world) : self (told w) = self w.
Proof. unfold told. destruct (tokenRefreshCallback _); reflexivity. Qed.

Lemma notify_refresh_run (w : world) :
  notify_refresh w =
  (Ok tt, told w).
Proof.
  unfold notify_refresh, told. unfold_M.
  destruct (tokenRefreshCallback (self w)); reflexivity.
Qed.

Lemma refresh_missing (w : world) :
  can_refresh (self w) = false →
  refreshAccessToken E w =
  (Throw ConfigurationError_refresh, logged (ECall "refreshAccessToken") w).
Proof.
  unfold can_refresh, refreshAccessToken. unfold_M. cbn [self].
  intros H.
  replace (negb (truthy (refreshToken (self w))) || negb (truthy (clientId (self w)))
           || negb (truthy (clientSecret (self w)))) with true; [reflexivity |].
  destruct (truthy (refreshToken (self w))), (truthy (clientId (self w))),
    (truthy (clientSecret (self w))); try reflexivity; discriminate.
Qed.

Lemma refresh_denied (w : world) :
  can_refresh (self w) = true →
  granted (refresh_answer E w) = None →
  let e := denial "Failed to refresh token" (refresh_answer E w) in
  refreshAccessToken E w =
  (Throw e, logged (EConsoleError "Token refresh error:" e) (refresh_sent E w)).
Proof.
  unfold can_refresh, refreshAccessToken, granted, denial, refresh_answer, refresh_sent.
  intros Hcan Hno.
  apply andb_true_iff in Hcan as [Hcan H3]. apply andb_true_iff in Hcan as [H1 H2].
  unfold bind at 1. unfold emit at 1. unfold bind at 1. unfold this at 1.
  change (self (World _ _ _ _ _ _ _)) with (self w) in *.
  rewrite H1, H2, H3. cbn [negb orb].
  unfold try_catch. unfold bind at 1. rewrite fetch_run.
  change (self (logged _ w)) with (self w).
  change (World _ _ _ _ _ _ _) with (logged (ECall "refreshAccessToken") w) in *.
  destruct (settled _) as [resp|e]; [| reflexivity].
  unfold bind at 1. unfold lift at 1.
  destruct (json resp) as [data|e]; [| reflexivity].
  unfold bind at 1. unfold lift at 1.
  destruct (get data "access_token") as [token|e] eqn:Hget; [| reflexivity].
  destruct (truthy token); [discriminate |].
  unfold bind at 1. unfold lift at 1.
  destruct data; try discriminate; reflexivity.
Qed.

Lemma get_prop (data : value) (k : string) (v : value) (k' : string) :
  get data k = Ok v → get data k' = Ok (prop data k') ∧ v = prop data k.
Proof.
  destruct data; cbn [get prop]; intros H; try discriminate;
    injection H as <-; split; reflexivity.
Qed.

Lemma granted_token (answer : result response) (data : value) :
  granted answer = Some data →
  ∃ resp, answer = Ok resp ∧ json resp = Ok data
          ∧ get data "access_token" = Ok (prop data "access_token")
          ∧ truthy (prop data "access_token") = true.
Proof.
  unfold granted. destruct answer as [resp|]; [| discriminate].
  destruct (json resp) as [data'|] eqn:Hjson; [| discriminate].
  destruct (get data' "access_token") as [token|] eqn:Hget; [| discriminate].
  destruct (truthy token) eqn:Htok; [| discriminate].
  intros H. injection H as ->. exists resp.
  destruct (get_prop _ _ _ "access_token" Hget) as [H1 H2]. subst token.
  repeat split; first [reflexivity | assumption].
Qed.

Ltac same_iso Hiso :=
  match type of Hiso with
  | Date.toISOString ?X = _ =>
      match goal with
      | |- context [Date.toISOString ?x'] => change x' with X; rewrite Hiso
      end
  end.

Lemma refresh_granted (w : world) (data : value) :
  can_refresh (self w) = true →
  granted (refresh_answer E w) = Some data →
  let token := prop data "access_token" in
  let w1 := with_self (set_accessToken token (self w)) (refresh_sent E w) in
  truthy token = true ∧
  refreshAccessToken E w =
  match expiry_of E (now w1) data with
  | Ok iso =>
      (Ok token,
       told (kept E (with_self (set_tokenExpiry (VStr iso) (self w1)) w1)))
  | Throw e =>
      (Throw e, logged (EConsoleError "Token refresh error:" e) w1)
  end.
Proof.
  intros Hcan Hyes token w1. subst token w1.
  destruct (granted_token _ _ Hyes) as (resp & Hans & Hjson & Hget & Htok).
  split; [exact Htok |].
  unfold can_refresh in Hcan.
  apply andb_true_iff in Hcan as [Hcan H3]. apply andb_true_iff in Hcan as [H1 H2].
  unfold refreshAccessToken.
  unfold bind at 1. unfold emit at 1. unfold bind at 1. unfold this at 1.
  change (self (World _ _ _ _ _ _ _)) with (self w) in *.
  rewrite H1, H2, H3. cbn [negb orb].
  unfold try_catch. unfold bind at 1. rewrite fetch_run.
  change (self (logged _ w)) with (self w).
  unfold refresh_answer in Hans. change (World _ _ _ _ _ _ _) with (logged (ECall "refreshAccessToken") w).
  rewrite Hans.
  unfold bind at 1. unfold lift at 1. rewrite Hjson.
  unfold bind at 1. unfold lift at 1. rewrite Hget, Htok.
  unfold bind at 1. unfold update at 1. unfold bind at 1. unfold lift at 1.
  rewrite (proj1 (get_prop _ _ _ "expires_in" Hget)).
  unfold bind at 1. unfold expiry_string. unfold bind at 1. unfold Date_now at 1.
  unfold lift at 1. unfold expiry_of.
  match goal with
  | |- _ = match Date.toISOString ?X with _ => _ end =>
      destruct (Date.toISOString X) as [iso|e] eqn:Hiso
  end; same_iso Hiso; [| reflexivity].
  unfold bind at 1. unfold update at 1. unfold bind at 1.
  rewrite saveToStorage_run. unfold bind at 1. rewrite notify_refresh_run.
  unfold bind at 1. unfold this. unfold ret.
  rewrite told_self, kept_self. reflexivity.
Qed.

Lemma exchange_missing (code redirectUri : value) (w : world) :
  can_exchange (self w) = false →
  exchangeCodeForTokens E code redirectUri w =
  (Throw (Error "Client ID and Client Secret are required for token exchange"), w).
Proof.
  unfold can_exchange, exchangeCodeForTokens. unfold_M.
  intros H.
  replace (negb (truthy (clientId (self w))) || negb (truthy (clientSecret (self w))))
    with true; [reflexivity |].
  destruct (truthy (clientId (self w))), (truthy (clientSecret (self w)));
    try reflexivity; discriminate.
Qed.

Lemma exchange_denied (code redirectUri : value) (w : world) :
  can_exchange (self w) = true →
  granted (exchange_answer E code redirectUri w) = None →
  let e := denial "Failed to get tokens" (exchange_answer E code redirectUri w) in
  exchangeCodeForTokens E code redirectUri w =
  (Throw e, logged (EConsoleError "Token exchange error:" e)
                   (exchange_sent E code redirectUri w)).
Proof.
  unfold can_exchange, exchangeCodeForTokens, granted, denial, exchange_answer,
    exchange_sent, exchange_request.
  intros Hcan Hno. apply andb_true_iff in Hcan as [H1 H2].
  unfold bind at 1. unfold this at 1. rewrite H1, H2. cbn [negb orb].
  unfold try_catch. unfold bind at 1. rewrite fetch_run.
  destruct (settled _) as [resp|e]; [| reflexivity].
  unfold bind at 1. unfold lift at 1.
  destruct (json resp) as [data|e]; [| reflexivity].
  unfold bind at 1. unfold lift at 1.
  destruct (get data "access_token") as [token|e] eqn:Hget; [| reflexivity].
  destruct (truthy token); [discriminate |].
  unfold bind at 1. unfold lift at 1.
  destruct data; try discriminate; reflexivity.
Qed.

Lemma exchange_granted (code redirectUri : value) (w : world) (data : value) :
  can_exchange (self w) = true →
  granted (exchange_answer E code redirectUri w) = Some data →
  let token := prop data "access_token" in
  let w1 := with_self (set_refreshToken (prop data "refresh_token")
                         (set_accessToken token (self w)))
                      (exchange_sent E code redirectUri w) in
  truthy token = true ∧
  exchangeCodeForTokens E code redirectUri w =
  match expiry_of E (now w1) data with
  | Ok iso =>
      (Ok (VObj [("accessToken", token);
                 ("refreshToken", prop data "refresh_token");
                 ("tokenExpiry", VStr iso)]),
       told (kept E (with_self (set_tokenExpiry (VStr iso) (self w1)) w1)))
  | Throw e =>
      (Throw e, logged (EConsoleError "Token exchange error:" e) w1)
  end.
Proof.
  intros Hcan Hyes token w1. subst token w1.
  destruct (granted_token _ _ Hyes) as (resp & Hans & Hjson & Hget & Htok).
  split; [exact Htok |].
  unfold can_exchange in Hcan. apply andb_true_iff in Hcan as [H1 H2].
  unfold exchangeCodeForTokens.
  unfold bind at 1. unfold this at 1. rewrite H1, H2. cbn [negb orb].
  unfold try_catch. unfold bind at 1. rewrite fetch_run.
  unfold exchange_answer, exchange_request in Hans. rewrite Hans.
  unfold bind at 1. unfold lift at 1. rewrite Hjson.
  unfold bind at 1. unfold lift at 1. rewrite Hget, Htok.
  unfold bind at 1. unfold update at 1. unfold bind at 1. unfold lift at 1.
  rewrite (proj1 (get_prop _ _ _ "refresh_token" Hget)).
  unfold bind at 1. unfold update at 1. unfold bind at 1. unfold lift at 1.
  rewrite (proj1 (get_prop _ _ _ "expires_in" Hget)).
  unfold bind at 1. unfold expiry_string. unfold bind at 1. unfold Date_now at 1.
  unfold lift at 1. unfold expiry_of.
  match goal with
  | |- _ = match Date.toISOString ?X with _ => _ end =>
      destruct (Date.toISOString X) as [iso|e] eqn:Hiso
  end; same_iso Hiso; [| reflexivity].
  unfold bind at 1. unfold update at 1. unfold bind at 1.
  rewrite saveToStorage_run. unfold bind at 1. rewrite notify_refresh_run.
  unfold bind at 1. unfold this. unfold ret.
  rewrite told_self, kept_self. reflexivity.
Qed.

Lemma clearTokens_run (w : world) :
  clearTokens E w =
  (Ok tt, kept E (with_self (set_tokenExpiry VNull
                               (set_refreshToken VNull
                                  (set_accessToken VNull (self w)))) w)).
Proof.
  unfold clearTokens.
  unfold bind at 1. unfold update at 1. unfold bind at 1. unfold update at 1.
  unfold bind at 1. unfold update at 1. unfold bind at 1.
  rewrite saveToStorage_run. reflexivity.
Qed.

Lemma updateCredentials_run (id secret : value) (w : world) :
  updateCredentials E id secret w =
  (Ok tt, kept E (with_self (set_clientSecret secret (set_clientId id (self w))) w)).
Proof.
  unfold updateCredentials.
  unfold bind at 1. unfold update at 1. unfold bind at 1. unfold update at 1.
  unfold bind at 1. rewrite saveToStorage_run. reflexivity.
Qed.

End Runs.

(* --------------------------------------------------------------------- *)
(** *** Clearing, refreshing, exchanging *)
(* --------------------------------------------------------------------- *)

Section Lifecycle.
Context (E : Env).

Lemma kept_storage (w : world) :
  let k := to_string (storageKey (self w)) in
  let text := text_of (JSON.stringify (stored_record (self w))) in
  localStorage (kept E w) =
    (if storage_accepts E (localStorage w) k text
     then <[k := text]> (localStorage w) else localStorage w)
  ∧ log (kept E w) =
      log w ++ ESetItem k text ::
        (if storage_accepts E (localStorage w) k text then [] else [save_error]).
Proof.
  intros k text. unfold kept. fold k. fold text.
  destruct (storage_accepts E (localStorage w) k text); cbn.
  - split; reflexivity.
  - split; [reflexivity |]. rewrite <- app_assoc. reflexivity.
Qed.

Lemma cleared_record_parse (m : manager) :
  nullable_string (clientId m) → nullable_string (clientSecret m) →
  JSON.parse_text (JSON_beyond E) (text_of (JSON.stringify (cleared_record m))) = Ok (cleared_record m).
Proof.
  intros H1 H2. unfold cleared_record.
  destruct (parse_text_stringify_flat (JSON_beyond E)
              [("clientId", clientId m); ("clientSecret", clientSecret m);
               ("accessToken", VNull); ("refreshToken", VNull); ("tokenExpiry", VNull)])
    as (text & Htext & _ & Hparse).
  - split.
    + cbn. apply (bool_decide_unpack _). vm_compute. exact I.
    + repeat (apply Forall_cons; split);
        [ destruct H1 as [->|[? ->]] | destruct H2 as [->|[? ->]] | .. ];
        try reflexivity. apply Forall_nil. exact I.
  - rewrite Htext. exact Hparse.
Qed.

(** C9. [clearTokens] always returns, with [accessToken], [refreshToken]
    and [tokenExpiry] all [null] and every other field as it was, in
    particular [clientId] and [clientSecret].  It hands localStorage one
    write, under the storage key, of the JSON text of the cleared record,
    which carries the same [clientId] and [clientSecret]; the store holds
    that text if the platform accepts the write, and is left as it was,
    with the error logged, if it refuses. *)
Theorem clearTokens_spec (w : world) :
  let m := self w in
  let out := clearTokens E w in
  let key := to_string (storageKey m) in
  let text := text_of (JSON.stringify (cleared_record m)) in
  let accepted := storage_accepts E (localStorage w) key text in
  out.1 = Ok tt ∧
  self out.2 = set_tokenExpiry VNull (set_refreshToken VNull (set_accessToken VNull m)) ∧
  (accessToken (self out.2) = VNull ∧ refreshToken (self out.2) = VNull
   ∧ tokenExpiry (self out.2) = VNull) ∧
  (clientId (self out.2) = clientId m ∧ clientSecret (self out.2) = clientSecret m) ∧
  log out.2 = log w ++ ESetItem key text :: (if accepted then [] else [save_error]) ∧
  localStorage out.2 =
    (if accepted then <[key := text]> (localStorage w) else localStorage w) ∧
  (nullable_string (clientId m) → nullable_string (clientSecret m) →
   JSON.parse_text (JSON_beyond E) text = Ok (cleared_record m)).
Proof.
  intros m out key text accepted. subst out. rewrite clearTokens_run. cbn [fst snd].
  rewrite kept_self.
  split; [reflexivity |]. split; [reflexivity |].
  split; [repeat split |]. split; [repeat split |].
  destruct (kept_storage
              (with_self (set_tokenExpiry VNull
                            (set_refreshToken VNull (set_accessToken VNull (self w)))) w))
    as [Hls Hlog].
  split; [exact Hlog |]. split; [exact Hls |].
  apply cleared_record_parse.
Qed.

End Lifecycle.

(** The run behind C9: what is stored after clearing reads back as the
    cleared record, with the client's identity in it. *)
Lemma clearTokens_spec_stored :
  JSON.parse_text (JSON_beyond Sample.quiet)
    (text_of (JSON.stringify (cleared_record (self Sample.expired_with_refresh))))
  = Ok (cleared_record (self Sample.expired_with_refresh)).
Proof.
  refine (proj2 (proj2 (proj2 (proj2 (proj2 (proj2
            (clearTokens_spec Sample.quiet Sample.expired_with_refresh)))))) _ _).
  - right. exists "abc". reflexivity.
  - right. exists "xyz". reflexivity.
Defined.

Section Refresh.
Context (E : Env).

Lemma can_refresh_false (m : manager) :
  can_refresh m = false
  ↔ absent (refreshToken m) ∨ absent (clientId m) ∨ absent (clientSecret m).
Proof.
  unfold can_refresh, absent.
  destruct (truthy (refreshToken m)), (truthy (clientId m)), (truthy (clientSecret m));
    cbn; intuition congruence.
Qed.

(** The two failures that leave the credential state alone.  A refresh
    that fails for lack of [refreshToken], [clientId] or
    [clientSecret] throws the missing-credentials error and changes
    neither a field of the manager nor the store, and hands the store no
    write.  A refresh whose token response carries no access token (no
    response at all, a body that is not JSON, or a body without a truthy
    [access_token]) throws, logs the error as a token refresh error, and
    leaves every field (so [accessToken], [refreshToken] and
    [tokenExpiry]) and the store exactly as they were; when the body is an
    object the error is [Error(data.error || 'Failed to refresh token')]. *)
Theorem refreshAccessToken_failure_atomic (w : world) :
  let m := self w in
  let out := refreshAccessToken E w in
  (absent (refreshToken m) ∨ absent (clientId m) ∨ absent (clientSecret m) →
   out.1 = Throw ConfigurationError_refresh ∧
   self out.2 = m ∧ localStorage out.2 = localStorage w ∧
   log out.2 = log w ++ [ECall "refreshAccessToken"]) ∧
  (present (refreshToken m) ∧ present (clientId m) ∧ present (clientSecret m) →
   granted (refresh_answer E w) = None →
   let e := denial "Failed to refresh token" (refresh_answer E w) in
   out.1 = Throw e ∧
   self out.2 = m ∧ localStorage out.2 = localStorage w ∧
   log out.2 = log w ++ [ECall "refreshAccessToken";
                         EFetch "refreshAccessToken" token_endpoint (refresh_init m);
                         EConsoleError "Token refresh error:" e] ∧
   (∀ resp ps, refresh_answer E w = Ok resp → json resp = Ok (VObj ps) →
      e = Error (to_string (or_else (lookup_prop "error" ps)
                               (VStr "Failed to refresh token"))))).
Proof.
  intros m out. subst out. split.
  - intros Hmiss. apply can_refresh_false in Hmiss.
    rewrite (refresh_missing E w Hmiss). cbn [fst snd logged self localStorage log].
    repeat split.
  - intros (H1 & H2 & H3) Hno e.
    assert (Hcan : can_refresh (self w) = true).
    { unfold can_refresh. unfold present in *. fold m. rewrite H1, H2, H3. reflexivity. }
    pose proof (refresh_denied E w Hcan Hno) as Hrun. cbn zeta in Hrun. fold e in Hrun.
    rewrite Hrun. cbn [fst snd].
    split; [reflexivity |]. split; [reflexivity |]. split; [reflexivity |].
    split.
    + unfold logged, refresh_sent, after_fetch, logged. cbn [log self].
      rewrite <- !app_assoc. reflexivity.
    + intros resp ps Hans Hjson. subst e. unfold denial. rewrite Hans, Hjson.
      reflexivity.
Qed.

(** The third failure: the response carries an access token, and no
    expiry can be computed from its [expires_in].  [accessToken] is
    assigned before [toISOString] throws; the error is logged and thrown
    again, and nothing is saved. *)
Lemma refresh_after_assignment (w : world) (data : value) (e : exn) :
  can_refresh (self w) = true →
  granted (refresh_answer E w) = Some data →
  expiry_of E (now (refresh_sent E w)) data = Throw e →
  refreshAccessToken E w =
  (Throw e,
   logged (EConsoleError "Token refresh error:" e)
          (with_self (set_accessToken (prop data "access_token") (self w))
                     (refresh_sent E w))).
Proof.
  intros Hcan Hgr Hexp.
  destruct (refresh_granted E w data Hcan Hgr) as [_ Hrun]. cbn zeta in Hrun.
  change (now (with_self _ ?x)) with (now x) in Hrun.
  rewrite Hexp in Hrun. exact Hrun.
Qed.

End Refresh.

(** C3 does not hold of the code.  A manager holding [AT1], [RT1] and an
    expiry refreshes; the token endpoint answers with the access token
    [AT2] and no [expires_in].  [refreshAccessToken] fails, with the
    [RangeError] of [toISOString] and not with a token refresh error, and
    it does not leave the credential state as it was: [accessToken] is
    [AT2] afterwards, beside the refresh token and the expiry held
    before.  Nothing is written to the store. *)
Theorem refreshAccessToken_not_atomic :
  let w := Sample.expired_with_refresh in
  let out := refreshAccessToken Sample.renewing_timeless w in
  granted (refresh_answer Sample.renewing_timeless w)
  = Some (VObj [("access_token", VStr "AT2")]) ∧
  out.1 = Throw (RangeError "Invalid time value") ∧
  accessToken (self w) = VStr "AT1" ∧
  accessToken (self out.2) = VStr "AT2" ∧
  refreshToken (self out.2) = refreshToken (self w) ∧
  tokenExpiry (self out.2) = tokenExpiry (self w) ∧
  localStorage out.2 = localStorage w ∧
  last (log out.2)
  = Some (EConsoleError "Token refresh error:" (RangeError "Invalid time value")).
Proof. repeat split; vm_compute; reflexivity. Qed.

(** Runs of the two failures that leave the state alone: a manager
    without a refresh token, and a token endpoint that answers
    [invalid_grant]. *)
Lemma refreshAccessToken_failure_atomic_runs :
  ((refreshAccessToken Sample.quiet Sample.expired_without_refresh).1
   = Throw ConfigurationError_refresh
   ∧ self (refreshAccessToken Sample.quiet Sample.expired_without_refresh).2
     = self Sample.expired_without_refresh
   ∧ localStorage (refreshAccessToken Sample.quiet Sample.expired_without_refresh).2
     = localStorage Sample.expired_without_refresh
   ∧ log (refreshAccessToken Sample.quiet Sample.expired_without_refresh).2
     = log Sample.expired_without_refresh ++ [ECall "refreshAccessToken"])
  ∧ (refreshAccessToken Sample.revoked Sample.expired_with_refresh).1
    = Throw (denial "Failed to refresh token"
                    (refresh_answer Sample.revoked Sample.expired_with_refresh)).
Proof.
  split.
  - refine (proj1 (refreshAccessToken_failure_atomic
                     Sample.quiet Sample.expired_without_refresh) _).
    left. reflexivity.
  - refine (proj1 (proj2 (refreshAccessToken_failure_atomic
                            Sample.revoked Sample.expired_with_refresh) _ _)).
    + repeat split.
    + vm_compute. reflexivity.
Defined.

Section RefreshSuccess.
Context (E : Env).

Lemma told_run (w : world) :
  localStorage (told w) = localStorage w ∧ now (told w) = now w ∧
  log (told w) =
    log w ++ (if tokenRefreshCallback (self w)
              then [ETokenRefresh (accessToken (self w)) (tokenExpiry (self w))]
              else []).
Proof.
  unfold told. destruct (tokenRefreshCallback (self w)); cbn.
  - repeat split.
  - rewrite app_nil_r. repeat split.
Qed.

Lemma kept_now (w : world) : now (kept E w) = now w.
Proof. unfold kept. destruct (storage_accepts E _ _ _); reflexivity. Qed.

(** A refresh that returns has gone all the way. *)
Lemma refresh_returns (w : world) (v : value) :
  (refreshAccessToken E w).1 = Ok v →
  can_refresh (self w) = true ∧
  ∃ data iso,
    granted (refresh_answer E w) = Some data ∧
    v = prop data "access_token" ∧ truthy v = true ∧
    expiry_of E (now (refresh_sent E w)) data = Ok iso ∧
    (refreshAccessToken E w).2 =
      told (kept E (with_self (set_tokenExpiry (VStr iso)
                                 (set_accessToken v (self w)))
                              (refresh_sent E w))).
Proof.
  intros Hok.
  destruct (can_refresh (self w)) eqn:Hcan.
  2: { rewrite (refresh_missing E w Hcan) in Hok. discriminate. }
  split; [reflexivity |].
  destruct (granted (refresh_answer E w)) as [data|] eqn:Hgr.
  2: { pose proof (refresh_denied E w Hcan Hgr) as Hrun. cbn zeta in Hrun.
       rewrite Hrun in Hok. discriminate. }
  destruct (refresh_granted E w data Hcan Hgr) as [Htok Hrun]. cbn zeta in Hrun.
  change (now (with_self _ ?x)) with (now x) in Hrun.
  rewrite Hrun in Hok |- *.
  destruct (expiry_of E (now (refresh_sent E w)) data) as [iso|e] eqn:Hiso;
    [| discriminate].
  cbn [fst snd] in *. injection Hok as <-.
  exists data, iso. repeat split; try reflexivity; assumption.
Qed.

(** C4. A [refreshAccessToken] call that returns changes [accessToken]
    (to the response's [access_token], which it returns) and
    [tokenExpiry] (to the ISO string of now plus [expires_in] seconds) and
    no other field: [refreshToken], which was present or the call would
    have thrown, is what it was.  The call hands localStorage one write of
    the new record, kept if the platform accepts it, and then runs the
    refresh callback, if one is configured, on the new token and expiry. *)
Theorem refreshAccessToken_success (w : world) (v : value) :
  (refreshAccessToken E w).1 = Ok v →
  let m := self w in
  let out := refreshAccessToken E w in
  let m' := self out.2 in
  let key := to_string (storageKey m) in
  let text := text_of (JSON.stringify (stored_record m')) in
  let accepted := storage_accepts E (localStorage w) key text in
  present (refreshToken m) ∧
  refreshToken m' = refreshToken m ∧
  (refreshToken m' ≠ VNull ∧ refreshToken m' ≠ VUndefined) ∧
  (∃ data iso,
     granted (refresh_answer E w) = Some data ∧
     v = prop data "access_token" ∧ present v ∧
     expiry_of E (now out.2) data = Ok iso ∧
     m' = set_tokenExpiry (VStr iso) (set_accessToken v m)) ∧
  accessToken m' = v ∧
  (clientId m' = clientId m ∧ clientSecret m' = clientSecret m ∧
   storageKey m' = storageKey m ∧ scope m' = scope m ∧
   tokenRefreshCallback m' = tokenRefreshCallback m ∧
   tokenExpiryCallback m' = tokenExpiryCallback m ∧
   refreshInterval m' = refreshInterval m) ∧
  localStorage out.2 =
    (if accepted then <[key := text]> (localStorage w) else localStorage w) ∧
  log out.2 =
    log w ++ [ECall "refreshAccessToken";
              EFetch "refreshAccessToken" token_endpoint (refresh_init m);
              ESetItem key text]
          ++ (if accepted then [] else [save_error])
          ++ (if tokenRefreshCallback m
              then [ETokenRefresh (accessToken m') (tokenExpiry m')] else []).
Proof.
  intros Hok m out m' key text accepted.
  destruct (refresh_returns w v Hok) as (Hcan & data & iso & Hgr & Hv & Htok & Hiso & Hout).
  assert (Hm' : m' = set_tokenExpiry (VStr iso) (set_accessToken v m)).
  { subst m' out. rewrite Hout, told_self, kept_self. reflexivity. }
  assert (Hnow : now out.2 = now (refresh_sent E w)).
  { subst out. rewrite Hout. rewrite (proj1 (proj2 (told_run _))), kept_now. reflexivity. }
  assert (Hrt : present (refreshToken m)).
  { unfold can_refresh in Hcan. apply andb_true_iff in Hcan as [Hcan _].
    apply andb_true_iff in Hcan as [Hcan _]. exact Hcan. }
  split; [exact Hrt |].
  split; [rewrite Hm'; reflexivity |].
  split.
  { rewrite Hm'. cbn [refreshToken set_tokenExpiry set_accessToken].
    unfold present in Hrt. split; intros Heq; rewrite Heq in Hrt; discriminate. }
  split; [exists data, iso; rewrite Hnow; repeat split; assumption |].
  split; [rewrite Hm'; reflexivity |].
  split; [rewrite Hm'; repeat split |].
  subst accepted text key. rewrite Hm'.
  subst out. rewrite Hout.
  set (w3 := with_self (set_tokenExpiry (VStr iso) (set_accessToken v (self w)))
                       (refresh_sent E w)).
  destruct (told_run (kept E w3)) as (Hls & _ & Hlog).
  destruct (kept_storage E w3) as [Hkls Hklog]. cbn zeta in Hkls, Hklog.
  cbn [snd]. rewrite Hls, Hlog, Hkls, Hklog, kept_self.
  subst w3. cbn [self localStorage log with_self refresh_sent after_fetch logged
                 storageKey set_tokenExpiry set_accessToken tokenRefreshCallback
                 accessToken tokenExpiry].
  fold m. split; [reflexivity |].
  rewrite <- !app_assoc. reflexivity.
Qed.

End RefreshSuccess.

(** The run behind C4: the token endpoint sends [AT2] and no refresh
    token; [RT1] stays. *)
Lemma refreshAccessToken_success_keeps_RT1 :
  present (refreshToken (self Sample.expired_with_refresh)) ∧
  refreshToken (self (refreshAccessToken Sample.renewing Sample.expired_with_refresh).2)
  = refreshToken (self Sample.expired_with_refresh).
Proof.
  refine (let H := refreshAccessToken_success Sample.renewing Sample.expired_with_refresh
                     (VStr "AT2") _ in conj (proj1 H) (proj1 (proj2 H))).
  vm_compute. reflexivity.
Defined.

Section Exchange.
Context (E : Env).

(** An exchange that returns has gone all the way. *)
Lemma exchange_returns (code redirectUri : value) (w : world) (v : value) :
  (exchangeCodeForTokens E code redirectUri w).1 = Ok v →
  can_exchange (self w) = true ∧
  ∃ data iso,
    granted (exchange_answer E code redirectUri w) = Some data ∧
    truthy (prop data "access_token") = true ∧
    expiry_of E (now (exchange_sent E code redirectUri w)) data = Ok iso ∧
    v = VObj [("accessToken", prop data "access_token");
              ("refreshToken", prop data "refresh_token");
              ("tokenExpiry", VStr iso)] ∧
    (exchangeCodeForTokens E code redirectUri w).2 =
      told (kept E (with_self
                      (set_tokenExpiry (VStr iso)
                         (set_refreshToken (prop data "refresh_token")
                            (set_accessToken (prop data "access_token") (self w))))
                      (exchange_sent E code redirectUri w))).
Proof.
  intros Hok.
  destruct (can_exchange (self w)) eqn:Hcan.
  2: { rewrite (exchange_missing E code redirectUri w Hcan) in Hok. discriminate. }
  split; [reflexivity |].
  destruct (granted (exchange_answer E code redirectUri w)) as [data|] eqn:Hgr.
  2: { pose proof (exchange_denied E code redirectUri w Hcan Hgr) as Hrun.
       cbn zeta in Hrun. rewrite Hrun in Hok. discriminate. }
  destruct (exchange_granted E code redirectUri w data Hcan Hgr) as [Htok Hrun].
  cbn zeta in Hrun. change (now (with_self _ ?x)) with (now x) in Hrun.
  rewrite Hrun in Hok |- *.
  destruct (expiry_of E (now (exchange_sent E code redirectUri w)) data)
    as [iso|e] eqn:Hiso; [| discriminate].
  cbn [fst snd] in *. injection Hok as <-.
  exists data, iso. repeat split; try reflexivity; assumption.
Qed.

(** C10. [exchangeCodeForTokens] returns exactly when [clientId] and
    [clientSecret] are present, the token response carries an access
    token, and the expiry can be computed from its [expires_in].  It then
    returns the three token fields, has set [accessToken],
    [refreshToken] and [tokenExpiry] from the response, and has handed the
    record of the new state to localStorage, which holds it when the
    platform accepts the write.  [refreshToken] is the [refresh_token]
    property of the response, whatever was held before: when the response
    has no [refresh_token] the field is [undefined], the returned object
    has [refreshToken] [undefined], and the record written has no
    [refreshToken] member, so that what is read back from it has none
    either. *)
Theorem exchangeCodeForTokens_refresh_token
        (code redirectUri : value) (w : world) :
  let m := self w in
  let out := exchangeCodeForTokens E code redirectUri w in
  let m' := self out.2 in
  let key := to_string (storageKey m) in
  let text := text_of (JSON.stringify (stored_record m')) in
  let accepted := storage_accepts E (localStorage w) key text in
  ((∃ v, out.1 = Ok v)
   ↔ can_exchange m = true
     ∧ ∃ data iso,
         granted (exchange_answer E code redirectUri w) = Some data
         ∧ expiry_of E (now (exchange_sent E code redirectUri w)) data = Ok iso) ∧
  (∀ data iso,
     can_exchange m = true →
     granted (exchange_answer E code redirectUri w) = Some data →
     expiry_of E (now (exchange_sent E code redirectUri w)) data = Ok iso →
     out.1 = Ok (VObj [("accessToken", prop data "access_token");
                       ("refreshToken", prop data "refresh_token");
                       ("tokenExpiry", VStr iso)]) ∧
     refreshToken m' = prop data "refresh_token" ∧
     accessToken m' = prop data "access_token" ∧
     tokenExpiry m' = VStr iso ∧
     localStorage out.2 =
       (if accepted then <[key := text]> (localStorage w) else localStorage w) ∧
     In (ESetItem key text) (log out.2) ∧
     (prop data "refresh_token" = VUndefined →
        refreshToken m' = VUndefined ∧
        text = text_of (JSON.stringify (record_without_refresh m')) ∧
        (nullable_string (clientId m) → nullable_string (clientSecret m) →
         (∃ token, prop data "access_token" = VStr token) →
         JSON.parse_text (JSON_beyond E) text = Ok (record_without_refresh m') ∧
         get (record_without_refresh m') "refreshToken" = Ok VUndefined))).
Proof.
  intros m out m' key text accepted. split.
  { split.
    - intros [v Hok].
      destruct (exchange_returns code redirectUri w v Hok)
        as (Hcan & data & iso & Hgr & _ & Hiso & _).
      split; [exact Hcan |]. exists data, iso. split; assumption.
    - intros (Hcan & data & iso & Hgr & Hiso).
      destruct (exchange_granted E code redirectUri w data Hcan Hgr) as [_ Hrun].
      cbn zeta in Hrun. change (now (with_self _ ?x)) with (now x) in Hrun.
      rewrite Hiso in Hrun. subst out. rewrite Hrun. eexists. reflexivity. }
  intros data iso Hcan Hgr Hiso.
  destruct (exchange_granted E code redirectUri w data Hcan Hgr) as [Htok Hrun].
  cbn zeta in Hrun. change (now (with_self _ ?x)) with (now x) in Hrun.
  rewrite Hiso in Hrun.
  assert (Hout : out.2 =
            told (kept E (with_self
                            (set_tokenExpiry (VStr iso)
                               (set_refreshToken (prop data "refresh_token")
                                  (set_accessToken (prop data "access_token") (self w))))
                            (exchange_sent E code redirectUri w)))).
  { subst out. rewrite Hrun. reflexivity. }
  assert (Hm' : m' = set_tokenExpiry (VStr iso)
                       (set_refreshToken (prop data "refresh_token")
                          (set_accessToken (prop data "access_token") m))).
  { subst m'. rewrite Hout, told_self, kept_self. reflexivity. }
  split; [subst out; rewrite Hrun; reflexivity |].
  split; [rewrite Hm'; reflexivity |].
  split; [rewrite Hm'; reflexivity |].
  split; [rewrite Hm'; reflexivity |].
  set (w3 := with_self (set_tokenExpiry (VStr iso)
                          (set_refreshToken (prop data "refresh_token")
                             (set_accessToken (prop data "access_token") (self w))))
                       (exchange_sent E code redirectUri w)) in *.
  destruct (told_run (kept E w3)) as (Hls & _ & Hlog).
  destruct (kept_storage E w3) as [Hkls Hklog]. cbn zeta in Hkls, Hklog.
  assert (Hself3 : self w3 = m') by (rewrite Hm'; reflexivity).
  rewrite Hself3 in Hkls, Hklog.
  change (storageKey m') with (storageKey (self out.2)) in Hkls, Hklog.
  assert (Hkey : storageKey m' = storageKey m) by (rewrite Hm'; reflexivity).
  fold m' in Hkls, Hklog. rewrite Hkey in Hkls, Hklog.
  fold key text in Hkls, Hklog.
  change (localStorage w3) with (localStorage w) in Hkls, Hklog. fold accepted in Hkls, Hklog.
  split; [rewrite Hout, Hls; exact Hkls |].
  split.
  { rewrite Hout, Hlog, Hklog.
    apply in_or_app. left. apply in_or_app. right. left. reflexivity. }
  intros Hundef.
  split; [rewrite Hm'; exact Hundef |].
  assert (Htext : text = text_of (JSON.stringify (record_without_refresh m'))).
  { subst text. rewrite Hm'. unfold stored_record, record_without_refresh.
    cbn [refreshToken clientId clientSecret accessToken tokenExpiry
         set_tokenExpiry set_refreshToken set_accessToken].
    rewrite Hundef. reflexivity. }
  split; [exact Htext |].
  intros H1 H2 [token Htoken]. split; [| rewrite Hm'; reflexivity].
  rewrite Htext.
  destruct (parse_text_stringify_flat (JSON_beyond E)
              [("clientId", clientId m'); ("clientSecret", clientSecret m');
               ("accessToken", accessToken m'); ("tokenExpiry", tokenExpiry m')])
    as (t & Ht & _ & Hparse).
  - split.
    + cbn. apply (bool_decide_unpack _). vm_compute. exact I.
    + rewrite Hm'. cbn [clientId clientSecret accessToken tokenExpiry
                        set_tokenExpiry set_refreshToken set_accessToken].
      rewrite Htoken.
      repeat (apply Forall_cons; split);
        [ destruct H1 as [->|[? ->]] | destruct H2 as [->|[? ->]] | .. ];
        try reflexivity. apply Forall_nil. exact I.
  - unfold record_without_refresh. rewrite Ht. exact Hparse.
Qed.

End Exchange.

(** The run behind C10: a manager holding [RT1] exchanges a code; the
    response carries [AT2], a lifetime of an hour and no refresh token.
    The exchange returns; [RT1] is gone from the manager, and the record
    in the store has no [refreshToken] member. *)
Lemma exchangeCodeForTokens_erases_RT1 :
  let w := Sample.expired_with_refresh in
  let out := exchangeCodeForTokens Sample.renewing (VStr "code123") VUndefined w in
  let text := text_of (JSON.stringify (record_without_refresh (self out.2))) in
  refreshToken (self w) = VStr "RT1" ∧
  out.1 = Ok (VObj [("accessToken", VStr "AT2"); ("refreshToken", VUndefined);
                    ("tokenExpiry", VStr "2026-11-03T07:44:00.373Z")]) ∧
  refreshToken (self out.2) = VUndefined ∧
  accessToken (self out.2) = VStr "AT2" ∧
  tokenExpiry (self out.2) = VStr "2026-11-03T07:44:00.373Z" ∧
  localStorage out.2 = <["oauth_tokens" := text]> (localStorage w) ∧
  In (ESetItem "oauth_tokens" text) (log out.2) ∧
  JSON.parse_text (JSON_beyond Sample.renewing) text
  = Ok (record_without_refresh (self out.2)).
Proof.
  intros w out text.
  destruct (proj2 (exchangeCodeForTokens_refresh_token
                     Sample.renewing (VStr "code123") VUndefined w)
                  (VObj [("access_token", VStr "AT2"); ("expires_in", VNum 3600)])
                  "2026-11-03T07:44:00.373Z")
    as (Hok & Hrt & Hat & Hexp & Hls & Hlog & Hundef).
  - reflexivity.
  - vm_compute. reflexivity.
  - vm_compute. reflexivity.
  - destruct (Hundef eq_refl) as (_ & Htext & Hread).
    destruct Hread as [Hparse _].
    + right. exists "abc". reflexivity.
    + right. exists "xyz". reflexivity.
    + exists "AT2". reflexivity.
    + fold out in Hok, Hrt, Hat, Hexp, Hls, Hlog, Htext, Hparse.
      fold text in Htext. rewrite Htext in Hls, Hlog, Hparse.
      split; [reflexivity |]. split; [exact Hok |]. split; [exact Hrt |].
      split; [exact Hat |]. split; [exact Hexp |].
      split; [exact Hls |]. split; [exact Hlog |]. exact Hparse.
Defined.

(* --------------------------------------------------------------------- *)
(** *** The pairing of access token and expiry *)
(* --------------------------------------------------------------------- *)

Section Pairing.
Context (E : Env).

Lemma loadFromStorage_run (w : world) :
  match stored_data E w with
  | Some data => loadFromStorage E w = (Ok true, with_self (loaded (self w) data) w)
  | None =>
      loadFromStorage E w = (Ok false, w) ∨
      ∃ e, loadFromStorage E w =
           (Ok false, logged (EConsoleError "Error loading OAuth data from storage:" e) w)
  end.
Proof.
  unfold stored_data, loadFromStorage. unfold_M.
  destruct (localStorage w !! to_string (storageKey (self w))) as [[|c text]|];
    [left; reflexivity | | left; reflexivity].
  destruct (JSON.parse_text (JSON_beyond E) (String c text)) as [data|e];
    [| right; eexists; reflexivity].
  destruct data; try reflexivity; right; eexists; reflexivity.
Qed.

Lemma constructor_self (config : Config) (w : world) :
  accessToken (self (constructor config w).2) = VNull ∧
  refreshToken (self (constructor config w).2) = VNull ∧
  tokenExpiry (self (constructor config w).2) = VNull.
Proof. repeat split. Qed.

Lemma toISOString_truthy (t : num) (iso : string) :
  Date.toISOString t = Ok iso → truthy (VStr iso) = true.
Proof.
  unfold Date.toISOString. destruct (Date.time_clip t) as [|z]; [discriminate |].
  intros H. injection H as <-. unfold Date.iso_string.
  destruct (Date.civil_from_days _) as [[y m] d].
  destruct (Date.year_string y); reflexivity.
Qed.

Lemma truthy_or_null (v : value) : truthy (or_else v VNull) = truthy v.
Proof. unfold or_else. destruct (truthy v) eqn:H; [exact H | reflexivity]. Qed.

(** C6, as the code has it.  The pairing of [accessToken] and
    [tokenExpiry] holds in the constructed state.  It holds after
    [clearTokens], and after every [exchangeCodeForTokens] and
    [refreshAccessToken] that returns; an exchange or refresh that fails
    for missing credentials or for a response without access token
    leaves the manager as it was, and so do [updateCredentials],
    [saveToStorage], [checkTokenExpiry], [getStatus] and
    [getAuthHeaders].  [loadFromStorage] takes the two fields from the
    stored record as they are: when it reads a record, the pairing holds
    afterwards exactly when the record has both [accessToken] and
    [tokenExpiry] or neither; when it reads none, the manager is as it
    was. *)
Theorem paired_preserved (w : world) :
  (∀ config, paired (self (constructor config w).2)) ∧
  paired (self (clearTokens E w).2) ∧
  (∀ code redirectUri v,
     (exchangeCodeForTokens E code redirectUri w).1 = Ok v →
     paired (self (exchangeCodeForTokens E code redirectUri w).2)) ∧
  (∀ v, (refreshAccessToken E w).1 = Ok v →
        paired (self (refreshAccessToken E w).2)) ∧
  (∀ code redirectUri,
     can_exchange (self w) = false
     ∨ granted (exchange_answer E code redirectUri w) = None →
     self (exchangeCodeForTokens E code redirectUri w).2 = self w) ∧
  (can_refresh (self w) = false ∨ granted (refresh_answer E w) = None →
   self (refreshAccessToken E w).2 = self w) ∧
  (∀ data, stored_data E w = Some data →
     (paired (self (loadFromStorage E w).2)
      ↔ truthy (prop data "accessToken") = truthy (prop data "tokenExpiry"))) ∧
  (stored_data E w = None → self (loadFromStorage E w).2 = self w) ∧
  (∀ id secret,
     accessToken (self (updateCredentials E id secret w).2) = accessToken (self w) ∧
     tokenExpiry (self (updateCredentials E id secret w).2) = tokenExpiry (self w)) ∧
  self (saveToStorage E w).2 = self w ∧
  self (checkTokenExpiry E w).2 = self w ∧
  self (getStatus E w).2 = self w ∧
  self (getAuthHeaders w).2 = self w.
Proof.
  split; [intros config; reflexivity |].
  split; [rewrite clearTokens_run; cbn [snd]; rewrite kept_self; reflexivity |].
  split.
  { intros code redirectUri v Hok.
    destruct (exchange_returns E code redirectUri w v Hok)
      as (_ & data & iso & _ & Htok & Hiso & _ & Hout).
    rewrite Hout, told_self, kept_self. unfold paired.
    cbn [accessToken tokenExpiry set_tokenExpiry set_refreshToken set_accessToken
         with_self self].
    rewrite Htok. symmetry. exact (toISOString_truthy _ _ Hiso). }
  split.
  { intros v Hok.
    destruct (refresh_returns E w v Hok) as (_ & data & iso & _ & _ & Htok & Hiso & Hout).
    rewrite Hout, told_self, kept_self. unfold paired.
    cbn [accessToken tokenExpiry set_tokenExpiry set_refreshToken set_accessToken
         with_self self].
    rewrite Htok. symmetry. exact (toISOString_truthy _ _ Hiso). }
  split.
  { intros code redirectUri [Hcan | Hno].
    - rewrite (exchange_missing E code redirectUri w Hcan). reflexivity.
    - destruct (can_exchange (self w)) eqn:Hcan.
      + pose proof (exchange_denied E code redirectUri w Hcan Hno) as Hrun.
        cbn zeta in Hrun. rewrite Hrun. reflexivity.
      + rewrite (exchange_missing E code redirectUri w Hcan). reflexivity. }
  split.
  { intros [Hcan | Hno].
    - rewrite (refresh_missing E w Hcan). reflexivity.
    - destruct (can_refresh (self w)) eqn:Hcan.
      + pose proof (refresh_denied E w Hcan Hno) as Hrun.
        cbn zeta in Hrun. rewrite Hrun. reflexivity.
      + rewrite (refresh_missing E w Hcan). reflexivity. }
  split.
  { intros data Hdata. pose proof (loadFromStorage_run w) as Hrun.
    rewrite Hdata in Hrun. rewrite Hrun. unfold paired, loaded. cbn.
    rewrite !truthy_or_null. reflexivity. }
  split.
  { intros Hnone. pose proof (loadFromStorage_run w) as Hrun.
    rewrite Hnone in Hrun. destruct Hrun as [-> | [e ->]]; reflexivity. }
  split.
  { intros id secret. rewrite updateCredentials_run. cbn [snd]. rewrite kept_self.
    split; reflexivity. }
  split; [rewrite saveToStorage_run; cbn [snd]; apply kept_self |].
  split.
  { destruct (truthy (tokenExpiry (self w))) eqn:Hexp;
      [destruct (truthy (refreshToken (self w))) eqn:Href |].
    - rewrite (checkTokenExpiry_present E w Hexp Href). cbn [snd].
      match goal with |- context [if ?c then _ else _] => destruct c end; reflexivity.
    - rewrite (checkTokenExpiry_absent E w (or_intror Href)). reflexivity.
    - rewrite (checkTokenExpiry_absent E w (or_introl Hexp)). reflexivity. }
  split.
  { unfold getStatus. unfold bind at 1.
    destruct (truthy (tokenExpiry (self w))) eqn:Hexp;
      [destruct (truthy (refreshToken (self w))) eqn:Href |].
    - rewrite (checkTokenExpiry_present E w Hexp Href).
      match goal with |- context [if ?c then _ else _] => destruct c end; reflexivity.
    - rewrite (checkTokenExpiry_absent E w (or_intror Href)). reflexivity.
    - rewrite (checkTokenExpiry_absent E w (or_introl Hexp)). reflexivity. }
  rewrite getAuthHeaders_world. reflexivity.
Qed.

End Pairing.

(** C6, as the specification words it, fails: a manager is constructed,
    with the pairing in place, on a page whose storage holds a record with
    an access token and no expiry; [loadFromStorage] reads it and leaves
    [accessToken] set and [tokenExpiry] [null]. *)
Lemma loadFromStorage_breaks_pairing :
  paired (self Sample.constructed_on_foreign_page) ∧
  (loadFromStorage Sample.quiet Sample.constructed_on_foreign_page).1 = Ok true ∧
  accessToken (self (loadFromStorage Sample.quiet Sample.constructed_on_foreign_page).2) = VStr "AT1" ∧
  tokenExpiry (self (loadFromStorage Sample.quiet Sample.constructed_on_foreign_page).2) = VNull ∧
  truthy (accessToken (self (loadFromStorage Sample.quiet Sample.constructed_on_foreign_page).2))
  ≠ truthy (tokenExpiry (self (loadFromStorage Sample.quiet Sample.constructed_on_foreign_page).2)).
Proof.
  split; [reflexivity |]. split; [vm_compute; reflexivity |].
  split; [vm_compute; reflexivity |]. split; [vm_compute; reflexivity |].
  vm_compute. discriminate.
Qed.

(** [loadFromStorage] reads a record in any spelling JSON allows, on
    every platform: escapes, a numeral with fraction and exponent, blanks
    between the tokens. *)
Lemma loadFromStorage_reads_escaped_record (E : Env) :
  stored_data E Sample.constructed_on_escaped_page
  = Some (VObj [("accessToken", VStr "AT1");
                ("tokenExpiry", VStr "2026-11-03T06:00:00.000Z");
                ("issuedAt", VNum 1793688200000);
                ("mark", VStr (String (JSON.beyond_unit (JSON_beyond E) 10003) ""))]) ∧
  (loadFromStorage E Sample.constructed_on_escaped_page).1 = Ok true ∧
  accessToken (self (loadFromStorage E Sample.constructed_on_escaped_page).2)
  = VStr "AT1" ∧
  paired (self (loadFromStorage E Sample.constructed_on_escaped_page).2).
Proof. repeat split; vm_compute; reflexivity. Qed.

(** The run behind C6: the record on the foreign page lacks the expiry,
    which is what separates it from the records the theorem covers. *)
Lemma paired_preserved_foreign_page :
  paired (self (loadFromStorage Sample.quiet Sample.constructed_on_foreign_page).2)
  ↔ truthy (prop (VObj [("accessToken", VStr "AT1")]) "accessToken")
    = truthy (prop (VObj [("accessToken", VStr "AT1")]) "tokenExpiry").
Proof.
  refine (proj1 (proj2 (proj2 (proj2 (proj2 (proj2 (proj2
            (paired_preserved Sample.quiet Sample.constructed_on_foreign_page)))))))
            (VObj [("accessToken", VStr "AT1")]) _).
  vm_compute. reflexivity.
Defined.

(* --------------------------------------------------------------------- *)
(** *** The authenticated request *)
(* --------------------------------------------------------------------- *)

Section Request.
Context (E : Env).

Lemma count_app (p : event → bool) (l l' : list event) :
  count p (l ++ l') = (count p l + count p l')%nat.
Proof. unfold count. rewrite List.filter_app, length_app. reflexivity. Qed.

Lemma request_init_run (options : value) (w : world) :
  request_init options w = (authorized_init options (self w), w).
Proof.
  unfold request_init, authorized_init, getAuthHeaders. unfold_M.
  destruct (get options "headers") as [headers|e]; [| reflexivity].
  destruct (truthy (accessToken (self w))); reflexivity.
Qed.

(** What a refresh adds to the log: its own call, and then nothing that
    counts as a refresh call or as a request attempt. *)
Lemma refresh_log (w : world) :
  ∃ rest,
    log (refreshAccessToken E w).2 = log w ++ ECall "refreshAccessToken" :: rest ∧
    count (is_call "refreshAccessToken") rest = 0%nat ∧
    count (is_fetch_by "makeAuthenticatedRequest") rest = 0%nat.
Proof.
  destruct (can_refresh (self w)) eqn:Hcan.
  2: { rewrite (refresh_missing E w Hcan). exists []. repeat split. }
  destruct (granted (refresh_answer E w)) as [data|] eqn:Hgr.
  2: { pose proof (refresh_denied E w Hcan Hgr) as Hrun. cbn zeta in Hrun.
       rewrite Hrun. eexists. split.
       - unfold logged, refresh_sent, after_fetch, logged. cbn [snd log].
         rewrite <- !app_assoc. reflexivity.
       - split; reflexivity. }
  destruct (refresh_granted E w data Hcan Hgr) as [Htok Hrun]. cbn zeta in Hrun.
  rewrite Hrun.
  destruct (expiry_of E _ data) as [iso|e].
  - cbn [snd].
    match goal with |- context [told (kept E ?x)] => set (w3 := x) end.
    destruct (told_run (kept E w3)) as (_ & _ & Hlog).
    destruct (kept_storage E w3) as [_ Hklog]. cbn zeta in Hklog.
    rewrite Hlog, Hklog. subst w3.
    unfold with_self, refresh_sent, after_fetch, logged. cbn [log self].
    eexists. split; [rewrite <- !app_assoc; reflexivity |].
    repeat match goal with
           | |- context [if ?c then _ else _] => destruct c
           end; split; reflexivity.
  - eexists. split.
    + unfold logged, with_self, refresh_sent, after_fetch, logged. cbn [snd log].
      rewrite <- !app_assoc. reflexivity.
    + split; reflexivity.
Qed.

Lemma refresh_counts (w : world) :
  refreshes (refreshAccessToken E w).2 = S (refreshes w) ∧
  attempts (refreshAccessToken E w).2 = attempts w.
Proof.
  destruct (refresh_log w) as (rest & Hlog & Hc & Hf).
  unfold refreshes, attempts, calls, fetches_by. rewrite Hlog.
  rewrite !count_app.
  change (ECall "refreshAccessToken" :: rest) with ([ECall "refreshAccessToken"] ++ rest).
  rewrite !count_app, Hc, Hf. cbn. lia.
Qed.

Lemma after_fetch_counts (url : string) (init : list (string * value))
      (o : fetch_outcome) (w : world) :
  attempts (after_fetch "makeAuthenticatedRequest" url init o w) = S (attempts w) ∧
  refreshes (after_fetch "makeAuthenticatedRequest" url init o w) = refreshes w.
Proof.
  unfold attempts, refreshes, fetches_by, calls, after_fetch. cbn [log].
  rewrite !count_app. cbn. lia.
Qed.

Lemma logged_error_counts (label : string) (e : exn) (w : world) :
  attempts (logged (EConsoleError label e) w) = attempts w ∧
  refreshes (logged (EConsoleError label e) w) = refreshes w.
Proof.
  unfold attempts, refreshes, fetches_by, calls, logged. cbn [log].
  rewrite !count_app. cbn. lia.
Qed.

(** How [makeAuthenticatedRequest] runs, case by case. *)
Lemma makeAuthenticatedRequest_run (url : string) (options : value) (w : world) :
  let opts := defaulted options in
  let failed e w' := (Throw e, logged (EConsoleError "Authenticated request error:" e) w') in
  makeAuthenticatedRequest E url options w =
  match authorized_init opts (self w) with
  | Throw e => failed e w
  | Ok init =>
      let o1 := network E (fetches w) url init in
      let w1 := after_fetch "makeAuthenticatedRequest" url init o1 w in
      match settled o1 with
      | Throw e => failed e w1
      | Ok r1 =>
          if (status r1 =? 401)%Z && truthy (refreshToken (self w)) then
            match refreshAccessToken E w1 with
            | (Throw e, w2) => failed e w2
            | (Ok _, w2) =>
                match authorized_init opts (self w2) with
                | Throw e => failed e w2
                | Ok init2 =>
                    let o2 := network E (fetches w2) url init2 in
                    (settled o2,
                     after_fetch "makeAuthenticatedRequest" url init2 o2 w2)
                end
            end
          else (Ok r1, w1)
      end
  end.
Proof.
  intros opts failed. unfold makeAuthenticatedRequest. fold (defaulted options). fold opts.
  unfold bind at 1. unfold try_catch. unfold bind at 1.
  rewrite request_init_run.
  destruct (authorized_init opts (self w)) as [init|e]; [| reflexivity].
  unfold bind at 1. rewrite fetch_run.
  destruct (settled (network E (fetches w) url init)) as [r1|e]; [| reflexivity].
  unfold bind at 1. unfold this at 1.
  change (self (after_fetch _ _ _ _ w)) with (self w).
  destruct ((status r1 =? 401)%Z && truthy (refreshToken (self w))); [| reflexivity].
  unfold bind at 1.
  destruct (refreshAccessToken E _) as [[v|e] w2]; [| reflexivity].
  unfold bind at 1. rewrite request_init_run.
  destruct (authorized_init opts (self w2)) as [init2|e]; reflexivity.
Qed.

Lemma authorized_init_again (options : value) (m m' : manager)
      (init : list (string * value)) :
  authorized_init options m = Ok init → truthy (accessToken m') = true →
  ∃ init', authorized_init options m' = Ok init'.
Proof.
  unfold authorized_init. destruct (get options "headers"); [| discriminate].
  intros _ ->. eexists. reflexivity.
Qed.

(** C1, as the code has it.  A call makes at most two request attempts
    and at most one refresh attempt.  When the first response is not a
    401, or no refresh token is present, that response is returned as it
    is, after one attempt and no refresh.  When it is a 401 and a refresh
    token is present, [refreshAccessToken] is called exactly once; if the
    refresh returns, the request is sent exactly once more, with the new
    token, and what that second request settles to is the result, whatever
    its status; if the refresh throws, its error is the result and the
    request is not sent again. *)
Theorem makeAuthenticatedRequest_retry (url : string) (options : value) (w : world) :
  let opts := defaulted options in
  let out := makeAuthenticatedRequest E url options w in
  (attempts out.2 ≤ attempts w + 2 ∧ refreshes out.2 ≤ refreshes w + 1)%nat ∧
  ∀ init r1,
    authorized_init opts (self w) = Ok init →
    settled (network E (fetches w) url init) = Ok r1 →
    let w1 := after_fetch "makeAuthenticatedRequest" url init
                          (network E (fetches w) url init) w in
    (status r1 ≠ 401%Z ∨ absent (refreshToken (self w)) →
     out = (Ok r1, w1) ∧
     attempts out.2 = (attempts w + 1)%nat ∧ refreshes out.2 = refreshes w) ∧
    (status r1 = 401%Z ∧ present (refreshToken (self w)) →
     refreshes out.2 = (refreshes w + 1)%nat ∧
     (∀ v, (refreshAccessToken E w1).1 = Ok v →
        let w2 := (refreshAccessToken E w1).2 in
        ∃ init2,
          authorized_init opts (self w2) = Ok init2 ∧
          out = (settled (network E (fetches w2) url init2),
                 after_fetch "makeAuthenticatedRequest" url init2
                             (network E (fetches w2) url init2) w2) ∧
          attempts out.2 = (attempts w + 2)%nat) ∧
     (∀ e, (refreshAccessToken E w1).1 = Throw e →
        out.1 = Throw e ∧ attempts out.2 = (attempts w + 1)%nat)).
Proof.
  intros opts out. subst out. rewrite makeAuthenticatedRequest_run. fold opts. cbn zeta.
  destruct (authorized_init opts (self w)) as [init|e0] eqn:Hinit.
  2: { split; [| intros ? ? H; discriminate].
       cbn [snd]. destruct (logged_error_counts "Authenticated request error:" e0 w)
         as [-> ->]. lia. }
  set (o1 := network E (fetches w) url init).
  set (w1 := after_fetch "makeAuthenticatedRequest" url init o1 w).
  destruct (after_fetch_counts url init o1 w) as [Ha1 Hr1]. fold w1 in Ha1, Hr1.
  destruct (settled o1) as [r1|e1] eqn:Hset.
  2: { split; [| intros ? ? H; injection H as <-; fold o1; rewrite Hset; discriminate].
       cbn [snd]. destruct (logged_error_counts "Authenticated request error:" e1 w1)
         as [-> ->]. lia. }
  destruct (refresh_counts w1) as [Hrc Hac].
  destruct ((status r1 =? 401)%Z && truthy (refreshToken (self w))) eqn:Hretry.
  - (* a 401 with a refresh token *)
    apply andb_true_iff in Hretry as [Hst Hrt]. apply Z.eqb_eq in Hst.
    destruct (refreshAccessToken E w1) as [[v|e] w2] eqn:Hrefresh; cbn [fst snd] in *.
    + (* the refresh returned *)
      destruct (refresh_returns E w1 v) as (_ & data & iso & _ & _ & Htok & _ & Hout).
      { rewrite Hrefresh. reflexivity. }
      rewrite Hrefresh in Hout. cbn [snd] in Hout.
      assert (Hat : truthy (accessToken (self w2)) = true).
      { rewrite Hout, told_self, kept_self. exact Htok. }
      destruct (authorized_init_again opts (self w) (self w2) init Hinit Hat)
        as [init2 Hinit2].
      rewrite Hinit2.
      set (o2 := network E (fetches w2) url init2).
      destruct (after_fetch_counts url init2 o2 w2) as [Ha2 Hr2].
      split; [cbn [snd]; lia |].
      intros init' r1' Heq Hset'. injection Heq as <-. fold o1 in Hset'.
      rewrite Hset in Hset'. injection Hset' as <-.
      fold o1. fold w1. rewrite Hrefresh. cbn [fst snd].
      split; [intros [Hne | Habs]; [congruence | unfold absent in Habs; congruence] |].
      intros _. split; [cbn [snd]; lia |]. split.
      * intros v' _. exists init2. split; [exact Hinit2 |].
        split; [reflexivity |]. cbn [snd]. lia.
      * intros e He. discriminate.
    + (* the refresh threw *)
      destruct (logged_error_counts "Authenticated request error:" e w2) as [Ha3 Hr3].
      split; [cbn [snd]; lia |].
      intros init' r1' Heq Hset'. injection Heq as <-. fold o1 in Hset'.
      rewrite Hset in Hset'. injection Hset' as <-.
      fold o1. fold w1. rewrite Hrefresh. cbn [fst snd].
      split; [intros [Hne | Habs]; [congruence | unfold absent in Habs; congruence] |].
      intros _. split; [cbn [snd]; lia |]. split.
      * intros v' Hv'. discriminate.
      * intros e' He'. injection He' as <-. split; [reflexivity |]. cbn [snd]. lia.
  - (* the first response is the result *)
    split; [cbn [snd]; lia |].
    intros init' r1' Heq Hset'. injection Heq as <-. fold o1 in Hset'.
    rewrite Hset in Hset'. injection Hset' as <-. fold o1. fold w1.
    split.
    + intros _. split; [reflexivity |]. cbn [snd]. split; [lia | exact Hr1].
    + intros [Hst Hrt]. exfalso. unfold present in Hrt.
      rewrite Hst, Hrt in Hretry. discriminate.
Qed.

End Request.

(** C1, as the specification words it, fails: against a transport that
    answers 401 to every call, a manager holding a refresh token makes one
    request attempt and one refresh attempt; the refresh throws, the
    request is not sent again, and no response is returned. *)
Lemma makeAuthenticatedRequest_refresh_fails :
  present (refreshToken (self Sample.expired_with_refresh)) ∧
  (∃ init r1,
     authorized_init (VObj []) (self Sample.expired_with_refresh) = Ok init ∧
     settled (network Sample.always_401 (fetches Sample.expired_with_refresh)
                      "https://api.example/rows" init) = Ok r1 ∧
     status r1 = 401%Z) ∧
  (makeAuthenticatedRequest Sample.always_401 "https://api.example/rows" VUndefined
                            Sample.expired_with_refresh).1
  = Throw (Error "unauthorized") ∧
  attempts (makeAuthenticatedRequest Sample.always_401 "https://api.example/rows"
                                     VUndefined Sample.expired_with_refresh).2
  = (attempts Sample.expired_with_refresh + 1)%nat ∧
  refreshes (makeAuthenticatedRequest Sample.always_401 "https://api.example/rows"
                                      VUndefined Sample.expired_with_refresh).2
  = (refreshes Sample.expired_with_refresh + 1)%nat.
Proof.
  split; [reflexivity |].
  split; [eexists; eexists; repeat split; vm_compute; reflexivity |].
  repeat split; vm_compute; reflexivity.
Qed.

(** The run behind C1: the resource server answers 401 to everything and
    the token endpoint renews the token; the request is sent twice, the
    token refreshed once, and the second 401 is the result. *)
Lemma makeAuthenticatedRequest_retry_second_401 :
  (attempts (makeAuthenticatedRequest Sample.renewing "https://api.example/rows"
                                      VUndefined Sample.expired_with_refresh).2
   ≤ attempts Sample.expired_with_refresh + 2)%nat ∧
  refreshes (makeAuthenticatedRequest Sample.renewing "https://api.example/rows"
                                      VUndefined Sample.expired_with_refresh).2
  = (refreshes Sample.expired_with_refresh + 1)%nat.
Proof.
  pose proof (makeAuthenticatedRequest_retry Sample.renewing "https://api.example/rows"
                VUndefined Sample.expired_with_refresh) as [[Hbound _] Hcases].
  split; [exact Hbound |].
  refine (proj1 (proj2 (Hcases _ (Response 401 (Ok (VObj [("error", VStr "unauthorized")])))
                               _ _) _)).
  - vm_compute. reflexivity.
  - vm_compute. reflexivity.
  - split; reflexivity.
Defined.

(** A token response with an access token and no [expires_in]: the
    exchange throws a [RangeError] after it has assigned [accessToken] and
    [refreshToken], with [tokenExpiry] still [null] and nothing stored. *)
Lemma exchange_without_expires_in :
  (exchangeCodeForTokens Sample.timeless (VStr "code123") VUndefined Sample.constructed).1
  = Throw (RangeError "Invalid time value") ∧
  accessToken
    (self (exchangeCodeForTokens Sample.timeless (VStr "code123") VUndefined
                                 Sample.constructed).2) = VStr "AT1" ∧
  tokenExpiry
    (self (exchangeCodeForTokens Sample.timeless (VStr "code123") VUndefined
                                 Sample.constructed).2) = VNull ∧
  localStorage
    (exchangeCodeForTokens Sample.timeless (VStr "code123") VUndefined
                           Sample.constructed).2 = ∅.
Proof. repeat split; vm_compute; reflexivity. Qed.

(** A refused write: on a platform whose storage is full, [clearTokens]
    clears the fields in memory, logs the failed save, and the store goes
    on holding the record with the tokens. *)
Lemma clearTokens_on_full_storage :
  accessToken (self (clearTokens Sample.full Sample.saved).2) = VNull ∧
  refreshToken (self (clearTokens Sample.full Sample.saved).2) = VNull ∧
  localStorage (clearTokens Sample.full Sample.saved).2 = localStorage Sample.saved ∧
  localStorage Sample.saved !! "oauth_tokens"
  = Some (text_of (JSON.stringify (stored_record (self Sample.expired_with_refresh)))) ∧
  last (log (clearTokens Sample.full Sample.saved).2) = Some save_error.
Proof. repeat split; vm_compute; reflexivity. Qed.

(* ===================================================================== *)
(** ** Further properties of the classes *)
(* ===================================================================== *)

(* --------------------------------------------------------------------- *)
(** *** StorageManager: items and keys *)
(* --------------------------------------------------------------------- *)

Section StoreLaws.
Context (E : Env).

Lemma append_inj_r (a b c : string) : a +:+ b = a +:+ c → b = c.
Proof.
  induction a as [|x a IH]; [intros H; exact H |].
  rewrite !append_cons. intros H. injection H as H. exact (IH H).
Qed.

Lemma getKey_inj (sm : StorageManager.t) (k k' : value) :
  StorageManager.getKey sm k = StorageManager.getKey sm k' → to_string k = to_string k'.
Proof.
  unfold StorageManager.getKey. intros H.
  apply append_inj_r in H. apply append_inj_r in H. exact H.
Qed.

Lemma load_value (sm : StorageManager.t) (key d : value) (w : world) :
  (StorageManager.load E sm key d w).1
  = Ok (read_item E (localStorage w !! StorageManager.getKey sm key) d)
  ∧ localStorage (StorageManager.load E sm key d w).2 = localStorage w
  ∧ self (StorageManager.load E sm key d w).2 = self w.
Proof.
  unfold StorageManager.load, read_item, fallback. unfold_M.
  destruct (localStorage w !! StorageManager.getKey sm key) as [[|c text]|];
    [repeat split | | repeat split].
  destruct (JSON.parse_text (JSON_beyond E) (String c text)); repeat split.
Qed.

Lemma exists_value (sm : StorageManager.t) (key : value) (w : world) :
  StorageManager.exists_ sm key w
  = (Ok (match localStorage w !! StorageManager.getKey sm key with
         | Some _ => true
         | None => false
         end), w).
Proof. reflexivity. Qed.

(** X1. [remove(key)] always returns true; afterwards [exists(key)] is
    false and [load(key, d)] returns the default ([null] when none is
    given) without touching the world, while every item stored under
    another key of the namespace reads as before. *)
Theorem remove_then_load (sm : StorageManager.t) (key d : value) (w : world) :
  let w' := (StorageManager.remove sm key w).2 in
  (StorageManager.remove sm key w).1 = Ok true ∧
  (StorageManager.exists_ sm key w').1 = Ok false ∧
  StorageManager.load E sm key d w' = (Ok (fallback d), w') ∧
  (∀ key', to_string key' ≠ to_string key →
     (StorageManager.load E sm key' d w').1 = (StorageManager.load E sm key' d w).1 ∧
     (StorageManager.exists_ sm key' w').1 = (StorageManager.exists_ sm key' w).1).
Proof.
  intros w'. subst w'.
  assert (Hrun : StorageManager.remove sm key w
                 = (Ok true, World (self w) (delete (StorageManager.getKey sm key)
                                                    (localStorage w))
                                   (now w) (intervals w) (next_interval w)
                                   (background w) (log w))) by reflexivity.
  rewrite Hrun. cbn [fst snd].
  split; [reflexivity |]. split.
  { rewrite exists_value. cbn [fst localStorage]. rewrite lookup_delete_eq. reflexivity. }
  split.
  { unfold StorageManager.load. unfold_M. cbn [localStorage].
    rewrite lookup_delete_eq. reflexivity. }
  intros key' Hne.
  assert (Hk : StorageManager.getKey sm key ≠ StorageManager.getKey sm key').
  { intros Heq. apply Hne. symmetry. exact (getKey_inj sm key key' Heq). }
  split.
  - rewrite !(proj1 (load_value sm key' d _)). cbn [localStorage].
    rewrite lookup_delete_ne by exact Hk. reflexivity.
  - rewrite !exists_value. cbn [fst localStorage].
    rewrite lookup_delete_ne by exact Hk. reflexivity.
Qed.

(** X2. Within one namespace, keys that differ as strings never meet:
    [save(key, data)], accepted or refused, changes neither what
    [load(key')] returns nor what [exists(key')] answers. *)
Theorem save_other_key (sm : StorageManager.t) (key key' data d : value) (w : world) :
  to_string key ≠ to_string key' →
  let w' := (StorageManager.save E sm key data w).2 in
  (StorageManager.load E sm key' d w').1 = (StorageManager.load E sm key' d w).1 ∧
  (StorageManager.exists_ sm key' w').1 = (StorageManager.exists_ sm key' w).1.
Proof.
  intros Hne w'. subst w'.
  assert (Hk : StorageManager.getKey sm key ≠ StorageManager.getKey sm key').
  { intros Heq. apply Hne. exact (getKey_inj sm key key' Heq). }
  rewrite save_run.
  destruct (storage_accepts E (localStorage w) _ _); cbn [snd].
  - rewrite !(proj1 (load_value sm key' d _)), !exists_value.
    cbn [fst localStorage with_item logged].
    rewrite lookup_insert_ne by exact Hk. split; reflexivity.
  - rewrite !(proj1 (load_value sm key' d _)), !exists_value.
    cbn [fst localStorage logged]. split; reflexivity.
Qed.

(** X3. [save(key, undefined)] stores the word [undefined], which is not
    JSON: when the write is accepted, [save] returns true and
    [exists(key)] is true, yet [load(key, d)] returns the default and
    logs the parse error. *)
Theorem save_undefined_unreadable (sm : StorageManager.t) (key d : value) (w : world) :
  storage_accepts E (localStorage w) (StorageManager.getKey sm key) "undefined" = true →
  let w' := (StorageManager.save E sm key VUndefined w).2 in
  (StorageManager.save E sm key VUndefined w).1 = Ok true ∧
  localStorage w' !! StorageManager.getKey sm key = Some "undefined" ∧
  (StorageManager.exists_ sm key w').1 = Ok true ∧
  (StorageManager.load E sm key d w').1 = Ok (fallback d) ∧
  log (StorageManager.load E sm key d w').2
  = log w' ++ [EConsoleError ("Error loading " +:+ to_string key +:+ ":")
                             (SyntaxError "Unexpected token in JSON")].
Proof.
  intros Hacc w'. subst w'. rewrite save_run. cbn [JSON.stringify text_of].
  rewrite Hacc. cbn [fst snd].
  split; [reflexivity |].
  assert (Hitem : localStorage
                    (with_item (StorageManager.getKey sm key) "undefined"
                       (logged (ESetItem (StorageManager.getKey sm key) "undefined") w))
                  !! StorageManager.getKey sm key = Some "undefined").
  { cbn [localStorage with_item]. apply lookup_insert_eq. }
  split; [exact Hitem |].
  split; [rewrite exists_value; cbn [fst]; rewrite Hitem; reflexivity |].
  split.
  - rewrite (proj1 (load_value sm key d _)), Hitem. reflexivity.
  - unfold StorageManager.load. unfold_M. rewrite Hitem. reflexivity.
Qed.

End StoreLaws.

(** The runs behind X2 and X3. *)
Lemma save_other_key_run :
  (StorageManager.load Sample.quiet (StorageManager.Make (VStr "app") (VBool false) (VArr []))
     (VStr "b") VNull
     (StorageManager.save Sample.quiet
        (StorageManager.Make (VStr "app") (VBool false) (VArr []))
        (VStr "a") (VStr "x") (Sample.page 0 ∅)).2).1
  = (StorageManager.load Sample.quiet (StorageManager.Make (VStr "app") (VBool false) (VArr []))
       (VStr "b") VNull (Sample.page 0 ∅)).1.
Proof.
  refine (proj1 (save_other_key Sample.quiet
                   (StorageManager.Make (VStr "app") (VBool false) (VArr []))
                   (VStr "a") (VStr "b") (VStr "x") VNull (Sample.page 0 ∅) _)).
  discriminate.
Defined.

Lemma save_undefined_unreadable_run :
  (StorageManager.load Sample.quiet (StorageManager.Make (VStr "app") (VBool false) (VArr []))
     (VStr "a") (VNum 7)
     (StorageManager.save Sample.quiet
        (StorageManager.Make (VStr "app") (VBool false) (VArr []))
        (VStr "a") VUndefined (Sample.page 0 ∅)).2).1
  = Ok (VNum 7).
Proof.
  refine (proj1 (proj2 (proj2 (proj2
            (save_undefined_unreadable Sample.quiet
               (StorageManager.Make (VStr "app") (VBool false) (VArr []))
               (VStr "a") (VNum 7) (Sample.page 0 ∅) _))))).
  reflexivity.
Defined.

(* --------------------------------------------------------------------- *)
(** *** OAuthTokenManager: the expiry timer *)
(* --------------------------------------------------------------------- *)

Section Timer.

Lemma start_run (ms : Z) (w : world) :
  startTokenExpiryCheck ms w =
  (Ok tt,
   World (set_refreshInterval (Some (next_interval w)) (self w))
         (localStorage w) (now w)
         ((next_interval w, ms) ::
          match refreshInterval (self w) with
          | Some h => filter (λ t : nat * Z, t.1 ≠ h) (intervals w)
          | None => intervals w
          end)
         (S (next_interval w)) (background w) (log w)).
Proof.
  unfold startTokenExpiryCheck. unfold_M.
  destruct (refreshInterval (self w)); reflexivity.
Qed.

Lemma stop_run (w : world) :
  stopTokenExpiryCheck w =
  (Ok tt,
   match refreshInterval (self w) with
   | Some h =>
       World (set_refreshInterval None (self w)) (localStorage w) (now w)
             (filter (λ t : nat * Z, t.1 ≠ h) (intervals w))
             (next_interval w) (background w) (log w)
   | None => w
   end).
Proof.
  unfold stopTokenExpiryCheck. unfold_M.
  destruct (refreshInterval (self w)); reflexivity.
Qed.

(** X4. [startTokenExpiryCheck] never leaves two timers behind: after it
    the manager holds a new handle, that timer runs with the given
    period, the timer it held before runs no more, and every other timer
    is as it was.  [stopTokenExpiryCheck] after it stops that timer too
    and forgets the handle, so that starting and stopping leaves exactly
    the timers that were not the manager's. *)
Theorem start_replaces_timer (ms : Z) (w : world) :
  handles_fresh w →
  let w1 := (startTokenExpiryCheck ms w).2 in
  let w2 := (stopTokenExpiryCheck w1).2 in
  refreshInterval (self w1) = Some (next_interval w) ∧
  (∀ t, t ∈ intervals w1
        ↔ t = (next_interval w, ms)
          ∨ (t ∈ intervals w ∧ refreshInterval (self w) ≠ Some t.1)) ∧
  (∀ h p, refreshInterval (self w) = Some h → (h, p) ∉ intervals w1) ∧
  handles_fresh w1 ∧
  refreshInterval (self w2) = None ∧
  (∀ t, t ∈ intervals w2
        ↔ t ∈ intervals w ∧ refreshInterval (self w) ≠ Some t.1) ∧
  handles_fresh w2.
Proof.
  intros [Hfresh Hheld] w1 w2. subst w2 w1.
  rewrite start_run. cbn [snd]. rewrite stop_run. cbn [snd self refreshInterval
    set_refreshInterval intervals next_interval].
  assert (Hold : ∀ t,
            t ∈ match refreshInterval (self w) with
                | Some h => filter (λ t : nat * Z, t.1 ≠ h) (intervals w)
                | None => intervals w
                end
            ↔ t ∈ intervals w ∧ refreshInterval (self w) ≠ Some t.1).
  { intros t. destruct (refreshInterval (self w)) as [h|].
    - rewrite list_elem_of_filter. split.
      + intros [Hne Hin]. split; [exact Hin | congruence].
      + intros [Hin Hne]. split; [congruence | exact Hin].
    - split; [intros Hin; split; [exact Hin | discriminate] | tauto]. }
  assert (Hlt : ∀ t, t ∈ intervals w → (t.1 < next_interval w)%nat).
  { intros t Hin. rewrite Forall_forall in Hfresh. exact (Hfresh t Hin). }
  split; [reflexivity |].
  split.
  { intros t. rewrite elem_of_cons, Hold. reflexivity. }
  split.
  { intros h p Hh. rewrite elem_of_cons, Hold. intros [Heq | [Hin Hne]].
    - injection Heq as -> _. specialize (Hheld _ Hh). lia.
    - apply Hne. exact Hh. }
  split.
  { split.
    - apply Forall_cons. split; [cbn; lia |].
      apply Forall_forall. intros t Hin. apply Hold in Hin as [Hin _].
      specialize (Hlt t Hin). cbn. lia.
    - cbn. intros h Hh. injection Hh as <-. lia. }
  split; [reflexivity |].
  split.
  { intros t. rewrite list_elem_of_filter, elem_of_cons, Hold. split.
    - intros [Hne [-> | H]]; [cbn in Hne; congruence | exact H].
    - intros [Hin Hne]. split; [| right; split; assumption].
      specialize (Hlt t Hin). lia. }
  split.
  - apply Forall_forall. intros t Hin.
    apply list_elem_of_filter in Hin as [_ Hin]. apply elem_of_cons in Hin as [-> | Hin].
    + cbn. lia.
    + apply Hold in Hin as [Hin _]. specialize (Hlt t Hin). cbn. lia.
  - cbn. discriminate.
Qed.

End Timer.

(** The run behind X4: a manager constructed on a page holds handle 1;
    restarting the check gives it handle 2 and stops timer 1. *)
Lemma start_replaces_timer_run :
  refreshInterval (self (startTokenExpiryCheck 30000 Sample.constructed).2)
  = Some (next_interval Sample.constructed).
Proof.
  refine (proj1 (start_replaces_timer 30000 Sample.constructed _)).
  split.
  - repeat constructor.
  - intros h Hh. vm_compute in Hh. injection Hh as <-. vm_compute. lia.
Defined.

(* --------------------------------------------------------------------- *)
(** *** OAuthTokenManager: background refresh, callback, headers *)
(* --------------------------------------------------------------------- *)

Section Background.
Context (E : Env).

(** X5. The background refresh that [checkTokenExpiry] starts never
    throws.  When the refresh returns, nothing more happens; when it
    throws, the error is logged as a failed auto-refresh and handed to the
    expiry callback, if one is configured, and the manager and the store
    are as the failed refresh left them. *)
Theorem background_refresh_never_throws (w : world) :
  let r := refreshAccessToken E w in
  let out := background_refresh E w in
  out.1 = Ok tt ∧
  (∀ v, r.1 = Ok v → out.2 = r.2) ∧
  (∀ e, r.1 = Throw e →
     self out.2 = self r.2 ∧ localStorage out.2 = localStorage r.2 ∧
     log out.2 =
       log r.2 ++ EConsoleError "Auto-refresh failed:" e ::
                  (if tokenExpiryCallback (self r.2) then [ETokenExpiry e] else [])).
Proof.
  intros r out.
  assert (Hrun : out =
            match r with
            | (Ok _, w1) => (Ok tt, w1)
            | (Throw e, w1) =>
                (Ok tt,
                 if tokenExpiryCallback (self w1)
                 then logged (ETokenExpiry e)
                             (logged (EConsoleError "Auto-refresh failed:" e) w1)
                 else logged (EConsoleError "Auto-refresh failed:" e) w1)
            end).
  { subst r out. unfold background_refresh. unfold_M. unfold emit.
    destruct (refreshAccessToken E w) as [[v|e] w1]; [reflexivity |].
    cbn [self]. destruct (tokenExpiryCallback (self w1)); reflexivity. }
  rewrite Hrun. clearbody r. clear Hrun out.
  destruct r as [[v|e] w1]; cbn [fst snd].
  - split; [reflexivity |]. split; [intros ? _; reflexivity | intros ? H; discriminate].
  - split; [destruct (tokenExpiryCallback (self w1)); reflexivity |].
    split; [intros ? H; discriminate |].
    intros e' He'. injection He' as <-.
    destruct (tokenExpiryCallback (self w1)); cbn [self localStorage log logged].
    + rewrite <- app_assoc. repeat split.
    + repeat split.
Qed.

(** X6. With a code in the location, [handleAuthCallback] returns true
    exactly when the exchange returns, and only then cleans the URL, as
    its last step; when the exchange throws, the error is logged and
    thrown again and the URL is left alone.  With no code (or an empty
    one) it returns false and does nothing. *)
Theorem handleAuthCallback_spec (code : option string) (redirectUri : value) (w : world) :
  let out := handleAuthCallback E code redirectUri w in
  (code = None ∨ code = Some EmptyString → out = (Ok false, w)) ∧
  (∀ c, code = Some c → c ≠ EmptyString →
     let x := exchangeCodeForTokens E (VStr c) redirectUri w in
     (∀ v, x.1 = Ok v →
        out = (Ok true, logged (ECall "window.history.replaceState") x.2)) ∧
     (∀ e, x.1 = Throw e →
        out = (Throw e,
               logged (EConsoleError "Error handling auth callback:" e) x.2))).
Proof.
  intros out. subst out. split.
  - intros [-> | ->]; reflexivity.
  - intros c -> Hne x.
    assert (Hrun : handleAuthCallback E (Some c) redirectUri w =
              match x with
              | (Ok _, w1) => (Ok true, logged (ECall "window.history.replaceState") w1)
              | (Throw e, w1) =>
                  (Throw e, logged (EConsoleError "Error handling auth callback:" e) w1)
              end).
    { subst x. destruct c as [|a c]; [congruence |].
      unfold handleAuthCallback. unfold_M. unfold emit.
      destruct (exchangeCodeForTokens E (VStr (String a c)) redirectUri w) as [[v|e] w1];
        reflexivity. }
    rewrite Hrun. clearbody x. clear Hrun.
    destruct x as [[v|e] w1]; cbn [fst snd].
    + split; [intros ? _; reflexivity | intros ? H; discriminate].
    + split; [intros ? H; discriminate |].
      intros e' He'. injection He' as <-. reflexivity.
Qed.

Lemma lookup_set_prop (k k' : string) (v : value) (ps : list (string * value)) :
  lookup_prop k' (set_prop k v ps) = if String.eqb k' k then v else lookup_prop k' ps.
Proof.
  induction ps as [|[k0 v0] ps IH]; cbn [set_prop lookup_prop].
  - destruct (String.eqb k' k); reflexivity.
  - destruct (String.eqb_spec k k0) as [->|Hne]; cbn [lookup_prop].
    + destruct (String.eqb k' k0); reflexivity.
    + rewrite IH. destruct (String.eqb_spec k' k0) as [->|Hne'].
      * destruct (String.eqb_spec k0 k); [congruence | reflexivity].
      * reflexivity.
Qed.

Lemma authorized_init_carries (options : value) (m : manager)
      (init : list (string * value)) :
  authorized_init options m = Ok init →
  truthy (accessToken m) = true ∧ carries_bearer options (accessToken m) init.
Proof.
  unfold authorized_init, carries_bearer.
  destruct (get options "headers") as [headers|e]; [| discriminate].
  destruct (truthy (accessToken m)); [| discriminate].
  intros H. injection H as <-. split; [reflexivity |].
  eexists headers, _. split; [reflexivity |].
  split; [rewrite lookup_set_prop; reflexivity |].
  unfold spread. cbn [fold_left fst snd].
  split; [rewrite lookup_set_prop; reflexivity |].
  split.
  - intros k Hk. rewrite lookup_set_prop.
    destruct (String.eqb_spec k "Authorization"); [contradiction | reflexivity].
  - intros k Hk. rewrite lookup_set_prop.
    destruct (String.eqb_spec k "headers"); [contradiction | reflexivity].
Qed.

Lemma authorized_init_throws (options : value) (m : manager) (e : exn) :
  authorized_init options m = Throw e →
  truthy (accessToken m) = true → (∃ headers, get options "headers" = Ok headers) → False.
Proof.
  unfold authorized_init. intros H Htok [headers Hh]. rewrite Hh, Htok in H. discriminate.
Qed.

Lemma authorized_init_returns (options : value) (m : manager)
      (init : list (string * value)) :
  authorized_init options m = Ok init →
  absent (accessToken m) ∨ (∃ e, get options "headers" = Throw e) → False.
Proof.
  unfold authorized_init, absent. intros H [Habs | [e He]].
  - destruct (get options "headers"); [rewrite Habs in H |]; discriminate.
  - rewrite He in H. discriminate.
Qed.

Lemma requests_by_length (caller : string) (l : list event) :
  length (requests_by caller l) = count (is_fetch_by caller) l.
Proof.
  unfold requests_by, count. induction l as [|e l IH]; [reflexivity |].
  cbn [omap list_omap List.filter]. destruct e; cbn [is_fetch_by]; try exact IH.
  destruct (String.eqb caller0 caller); cbn [length]; [f_equal |]; exact IH.
Qed.

Lemma requests_by_none (caller : string) (l : list event) :
  count (is_fetch_by caller) l = 0%nat → requests_by caller l = [].
Proof.
  rewrite <- requests_by_length. destruct (requests_by caller l); [reflexivity | discriminate].
Qed.

Lemma requests_by_app (caller : string) (l l' : list event) :
  requests_by caller (l ++ l') = requests_by caller l ++ requests_by caller l'.
Proof. apply omap_app. Qed.

(** X7. Every request [makeAuthenticatedRequest] sends goes to the URL
    it was given and carries, under [headers.Authorization], the bearer
    string of an access token: an [Authorization] header the caller
    passed in is replaced, every other header and every other option the
    caller passed is kept.  Without an access token, or with options
    whose headers cannot be read, nothing is sent.  Otherwise the first
    request carries the token held at the call; it is the only one,
    unless its response is a 401 and a refresh token is present and the
    refresh returns: then one more request is sent, with the token the
    refresh returned, which is the one then held. *)
Theorem makeAuthenticatedRequest_sends_bearer
        (url : string) (options : value) (w : world) :
  let opts := defaulted options in
  let out := makeAuthenticatedRequest E url options w in
  ∃ added,
    log out.2 = log w ++ added ∧
    let sent := requests_by "makeAuthenticatedRequest" added in
    Forall (λ r, r.1 = url
                 ∧ ∃ token, truthy token = true ∧ carries_bearer opts token r.2) sent ∧
    (absent (accessToken (self w)) ∨ (∃ e, get opts "headers" = Throw e) → sent = []) ∧
    (present (accessToken (self w)) → (∃ headers, get opts "headers" = Ok headers) →
     ∃ init,
       carries_bearer opts (accessToken (self w)) init ∧
       let o1 := network E (fetches w) url init in
       let w1 := after_fetch "makeAuthenticatedRequest" url init o1 w in
       let again := match settled o1 with
                    | Ok r1 => (status r1 =? 401)%Z && truthy (refreshToken (self w))
                    | Throw _ => false
                    end in
       (again = false → sent = [(url, init)]) ∧
       (again = true →
        (∀ e, (refreshAccessToken E w1).1 = Throw e → sent = [(url, init)]) ∧
        (∀ v, (refreshAccessToken E w1).1 = Ok v →
           accessToken (self (refreshAccessToken E w1).2) = v ∧
           ∃ init2, carries_bearer opts v init2
                    ∧ sent = [(url, init); (url, init2)]))).
Proof.
  intros opts out. subst out. rewrite makeAuthenticatedRequest_run. fold opts. cbn zeta.
  destruct (authorized_init opts (self w)) as [init|e0] eqn:Hinit.
  2: { exists [EConsoleError "Authenticated request error:" e0].
       split; [reflexivity |].
       cbv zeta. change (requests_by _ _) with (@nil (string * list (string * value))).
       split; [constructor |]. split; [reflexivity |].
       intros Htok Hh. destruct (authorized_init_throws _ _ _ Hinit Htok Hh). }
  destruct (authorized_init_carries _ _ _ Hinit) as [Htok Hcar].
  assert (Hone : Forall (λ r : string * list (string * value),
                           r.1 = url ∧ ∃ token, truthy token = true
                                                ∧ carries_bearer opts token r.2)
                        [(url, init)]).
  { repeat constructor. exists (accessToken (self w)). split; assumption. }
  set (o1 := network E (fetches w) url init).
  set (w1 := after_fetch "makeAuthenticatedRequest" url init o1 w).
  destruct (settled o1) as [r1|e1] eqn:Hset.
  2: { exists [EFetch "makeAuthenticatedRequest" url init;
               EConsoleError "Authenticated request error:" e1].
       split; [unfold logged, w1, after_fetch; cbn [snd log];
               rewrite <- app_assoc; reflexivity |].
       cbv zeta. change (requests_by _ _) with [(url, init)].
       split; [exact Hone |].
       split; [intros H; destruct (authorized_init_returns _ _ _ Hinit H) |].
       intros _ _. exists init. split; [exact Hcar |]. fold o1. rewrite Hset.
       split; [reflexivity | discriminate]. }
  destruct ((status r1 =? 401)%Z && truthy (refreshToken (self w))) eqn:Hretry.
  2: { exists [EFetch "makeAuthenticatedRequest" url init].
       split; [reflexivity |].
       cbv zeta. change (requests_by _ _) with [(url, init)].
       split; [exact Hone |].
       split; [intros H; destruct (authorized_init_returns _ _ _ Hinit H) |].
       intros _ _. exists init. split; [exact Hcar |]. fold o1. rewrite Hset, Hretry.
       split; [reflexivity | discriminate]. }
  destruct (refresh_log E w1) as (rest & Hlog & _ & Hnone).
  apply requests_by_none in Hnone.
  destruct (refreshAccessToken E w1) as [[v|e] w2] eqn:Hrefresh; cbn [fst snd] in *.
  - destruct (refresh_returns E w1 v) as (_ & data & iso & _ & _ & Hv & _ & Hout).
    { rewrite Hrefresh. reflexivity. }
    rewrite Hrefresh in Hout. cbn [snd] in Hout.
    assert (Hat : accessToken (self w2) = v).
    { rewrite Hout, told_self, kept_self. reflexivity. }
    destruct (authorized_init_again opts (self w) (self w2) init Hinit) as [init2 Hinit2].
    { rewrite Hat. exact Hv. }
    rewrite Hinit2.
    destruct (authorized_init_carries _ _ _ Hinit2) as [_ Hcar2]. rewrite Hat in Hcar2.
    exists ([EFetch "makeAuthenticatedRequest" url init]
            ++ (ECall "refreshAccessToken" :: rest)
            ++ [EFetch "makeAuthenticatedRequest" url init2]).
    split.
    { unfold after_fetch. cbn [snd log]. rewrite Hlog. unfold w1, after_fetch. cbn [log].
      rewrite <- !app_assoc. reflexivity. }
    assert (Hsent : requests_by "makeAuthenticatedRequest"
                      ([EFetch "makeAuthenticatedRequest" url init]
                       ++ (ECall "refreshAccessToken" :: rest)
                       ++ [EFetch "makeAuthenticatedRequest" url init2])
                    = [(url, init); (url, init2)]).
    { rewrite !requests_by_app.
      change (ECall "refreshAccessToken" :: rest) with ([ECall "refreshAccessToken"] ++ rest).
      rewrite requests_by_app, Hnone. reflexivity. }
    cbv zeta. rewrite Hsent.
    split.
    { apply Forall_cons; split; [| apply Forall_cons; split; [| constructor]].
      - split; [reflexivity |]. exists (accessToken (self w)). split; assumption.
      - split; [reflexivity |]. exists v. split; assumption. }
    split; [intros H; destruct (authorized_init_returns _ _ _ Hinit H) |].
    intros _ _. exists init. split; [exact Hcar |]. fold o1. rewrite Hset, Hretry.
    fold w1. rewrite Hrefresh. cbn [fst snd].
    split; [discriminate |]. intros _. split; [intros e He; discriminate |].
    intros v' Hv'. injection Hv' as <-. split; [exact Hat |].
    exists init2. split; [exact Hcar2 | reflexivity].
  - exists ([EFetch "makeAuthenticatedRequest" url init]
            ++ (ECall "refreshAccessToken" :: rest)
            ++ [EConsoleError "Authenticated request error:" e]).
    split.
    { unfold logged. cbn [snd log]. rewrite Hlog. unfold w1, after_fetch. cbn [log].
      rewrite <- !app_assoc. reflexivity. }
    assert (Hsent : requests_by "makeAuthenticatedRequest"
                      ([EFetch "makeAuthenticatedRequest" url init]
                       ++ (ECall "refreshAccessToken" :: rest)
                       ++ [EConsoleError "Authenticated request error:" e])
                    = [(url, init)]).
    { rewrite !requests_by_app.
      change (ECall "refreshAccessToken" :: rest) with ([ECall "refreshAccessToken"] ++ rest).
      rewrite requests_by_app, Hnone. reflexivity. }
    cbv zeta. rewrite Hsent.
    split; [exact Hone |].
    split; [intros H; destruct (authorized_init_returns _ _ _ Hinit H) |].
    intros _ _. exists init. split; [exact Hcar |]. fold o1. rewrite Hset, Hretry.
    fold w1. rewrite Hrefresh. cbn [fst snd].
    split; [discriminate |]. intros _. split; [| intros v Hv; discriminate].
    intros e' _. reflexivity.
Qed.

(** X8. After an exchange or a refresh that returns, [getAuthHeaders]
    returns the bearer string of the access token the token endpoint
    sent, and no longer that of the token held before. *)
Theorem fresh_token_in_headers (w : world) :
  (∀ v, (refreshAccessToken E w).1 = Ok v →
     (getAuthHeaders (refreshAccessToken E w).2).1
     = Ok (VObj [("Authorization", VStr ("Bearer " +:+ to_string v))])) ∧
  (∀ code redirectUri v,
     (exchangeCodeForTokens E code redirectUri w).1 = Ok v →
     ∃ token, get v "accessToken" = Ok token ∧
       (getAuthHeaders (exchangeCodeForTokens E code redirectUri w).2).1
       = Ok (VObj [("Authorization", VStr ("Bearer " +:+ to_string token))])).
Proof.
  split.
  - intros v Hok.
    destruct (refresh_returns E w v Hok) as (_ & data & iso & _ & _ & Htok & _ & Hout).
    unfold getAuthHeaders. unfold_M. rewrite Hout, told_self, kept_self.
    cbn [self with_self accessToken set_tokenExpiry set_accessToken].
    rewrite Htok. reflexivity.
  - intros code redirectUri v Hok.
    destruct (exchange_returns E code redirectUri w v Hok)
      as (_ & data & iso & _ & Htok & _ & Hv & Hout).
    exists (prop data "access_token"). split; [rewrite Hv; reflexivity |].
    unfold getAuthHeaders. unfold_M. rewrite Hout, told_self, kept_self.
    cbn [self with_self accessToken set_tokenExpiry set_refreshToken set_accessToken].
    rewrite Htok. reflexivity.
Qed.

End Background.

(** The runs behind X6, X7 and X8.  In the run of X7 the resource server
    answers 401 and the token is renewed: two requests leave, the first
    with [AT1] and the second with [AT2], each in place of the header the
    caller passed and beside the caller's other header and option. *)
Lemma handleAuthCallback_spec_run :
  handleAuthCallback Sample.renewing (Some "code123") VUndefined Sample.constructed
  = (Ok true,
     logged (ECall "window.history.replaceState")
            (exchangeCodeForTokens Sample.renewing (VStr "code123") VUndefined
                                   Sample.constructed).2).
Proof.
  refine (proj1 (proj2 (handleAuthCallback_spec Sample.renewing (Some "code123")
                          VUndefined Sample.constructed) "code123" _ _)
                (VObj [("accessToken", VStr "AT2"); ("refreshToken", VUndefined);
                       ("tokenExpiry", VStr "2026-11-03T07:44:00.373Z")]) _).
  - reflexivity.
  - discriminate.
  - vm_compute. reflexivity.
Defined.

Lemma makeAuthenticatedRequest_sends_bearer_run :
  let url := "https://api.example/rows" in
  let options :=
    VObj [("method", VStr "POST");
          ("headers", VObj [("Authorization", VStr "Basic abc");
                            ("Accept", VStr "text/csv")])] in
  let w := Sample.expired_with_refresh in
  let out := makeAuthenticatedRequest Sample.renewing url options w in
  (∃ added,
     log out.2 = log w ++ added ∧
     Forall (λ r, r.1 = url
                  ∧ ∃ token, truthy token = true ∧ carries_bearer options token r.2)
            (requests_by "makeAuthenticatedRequest" added)) ∧
  requests_by "makeAuthenticatedRequest" (skipn (length (log w)) (log out.2))
  = [(url, [("method", VStr "POST");
            ("headers", VObj [("Authorization", VStr "Bearer AT1");
                              ("Accept", VStr "text/csv")])]);
     (url, [("method", VStr "POST");
            ("headers", VObj [("Authorization", VStr "Bearer AT2");
                              ("Accept", VStr "text/csv")])])].
Proof.
  intros url options w out. split.
  - destruct (makeAuthenticatedRequest_sends_bearer Sample.renewing url options w)
      as (added & Hlog & Hall & _).
    exists added. split; [exact Hlog | exact Hall].
  - vm_compute. reflexivity.
Defined.

Lemma fresh_token_in_headers_run :
  (getAuthHeaders (refreshAccessToken Sample.renewing Sample.expired_with_refresh).2).1
  = Ok (VObj [("Authorization", VStr ("Bearer " +:+ to_string (VStr "AT2")))]).
Proof.
  refine (proj1 (fresh_token_in_headers Sample.renewing Sample.expired_with_refresh)
                (VStr "AT2") _).
  vm_compute. reflexivity.
Defined.

(* --------------------------------------------------------------------- *)
(** *** JSON: every value that JSON can carry is read back *)
(* --------------------------------------------------------------------- *)

Section JsonNumbers.
Import JSON.
Context (B : JSON.Beyond).

Lemma digit_val_char (d : N) :
  (d < 10)%N → digit_val (pretty_N_char d) = Some (Z.of_N d).
Proof.
  intros H.
  destruct d as [|p]; [reflexivity |].
  do 4 (destruct p as [p|p|]; try reflexivity; try lia).
Qed.

(** The digits of [x] in front of [s] are read as [x]. *)
Lemma parse_digits_pretty (x : N) :
  ∃ m : Z, ∀ s acc,
    parse_digits acc (pretty_N_go x s) = parse_digits (acc * m + Z.of_N x) s.
Proof.
  induction (N.lt_wf_0 x) as [x _ IH].
  destruct (N.eq_dec x 0%N) as [->|Hne].
  - exists 1%Z. intros s acc. rewrite pretty_N_go_0. f_equal. lia.
  - assert (Hpos : (0 < x)%N) by lia.
    destruct (IH (x / 10)%N) as [m Hm].
    { apply N.div_lt; lia. }
    exists (10 * m)%Z. intros s acc.
    rewrite pretty_N_go_step by exact Hpos. rewrite Hm.
    cbn [parse_digits]. rewrite digit_val_char by (apply N.mod_lt; lia).
    f_equal.
    pose proof (N.div_mod x 10 ltac:(lia)) as Hdm.
    assert (Hz : Z.of_N x = (10 * Z.of_N (x / 10) + Z.of_N (x mod 10))%Z) by lia.
    lia.
Qed.

(** A positive number starts with a digit that is not zero. *)
Lemma pretty_head (x : N) (s : string) :
  (0 < x)%N →
  ∃ c r d, pretty_N_go x s = String c r ∧ digit_val c = Some d ∧ d ≠ 0%Z.
Proof.
  revert s. induction (N.lt_wf_0 x) as [x _ IH]. intros s Hpos.
  rewrite pretty_N_go_step by exact Hpos.
  destruct (N.eq_dec (x / 10)%N 0%N) as [Hz|Hnz].
  - rewrite Hz, pretty_N_go_0.
    assert (Hx : (x mod 10 = x)%N).
    { apply N.mod_small. apply (N.div_small_iff x 10%N); [lia | exact Hz]. }
    exists (pretty_N_char (x mod 10)), s, (Z.of_N (x mod 10)).
    split; [reflexivity |]. split; [apply digit_val_char, N.mod_lt; lia | lia].
  - apply IH; [apply N.div_lt; lia | apply N.neq_0_lt_0; exact Hnz].
Qed.

Lemma parse_digits_end (acc : Z) (tail : string) :
  ends_value tail = true → parse_digits acc tail = (acc, tail).
Proof.
  destruct tail as [|c r]; [reflexivity |]. cbn [ends_value parse_digits].
  destruct (digit_val c); [discriminate | reflexivity].
Qed.

Lemma no_fraction_end (tail : string) : ends_value tail = true → no_fraction tail = true.
Proof.
  destruct tail as [|c r]; [reflexivity |]. cbn [ends_value no_fraction].
  destruct (digit_val c); [discriminate | intros H; exact H].
Qed.

Lemma pretty_go_append (x : N) (s t : string) :
  pretty_N_go x s +:+ t = pretty_N_go x (s +:+ t).
Proof.
  revert s. induction (N.lt_wf_0 x) as [x _ IH]. intros s.
  destruct (N.eq_dec x 0%N) as [->|Hne].
  - rewrite !pretty_N_go_0. reflexivity.
  - rewrite (pretty_N_go_step x s), (pretty_N_go_step x (s +:+ t)) by lia.
    rewrite IH by (apply N.div_lt; lia).
    reflexivity.
Qed.

Lemma number_of_safe (n : Z) :
  (0 <= n <= max_safe_integer)%Z → number_of B n 0 = n.
Proof.
  intros Hn. unfold number_of. change (0 <=? 0)%Z with true. cbv iota.
  change (10 ^ 0)%Z with 1%Z. rewrite Z.mul_1_r.
  destruct (Z.leb_spec n max_safe_integer) as [_|Hgt]; [reflexivity | lia].
Qed.

Lemma parse_unsigned_pretty (p : positive) (tail : string) :
  (Z.pos p <= max_safe_integer)%Z →
  ends_value tail = true →
  parse_unsigned B (pretty (Npos p) +:+ tail) = Some (Z.pos p, tail).
Proof.
  intros Hsafe Hend. unfold pretty, pretty_N.
  destruct (decide (N.pos p = 0%N)) as [H|_]; [discriminate |].
  rewrite pretty_go_append, append_nil.
  destruct (pretty_head (N.pos p) tail ltac:(lia)) as (c & r & d & Hc & Hd & Hnz).
  destruct (parse_digits_pretty (N.pos p)) as [m Hm].
  pose proof (Hm tail 0%Z) as H0. rewrite Hc in H0 |- *.
  unfold parse_unsigned. rewrite Hd.
  cbn [parse_digits] in H0. rewrite Hd in H0.
  destruct (d =? 0)%Z eqn:Hdz; [apply Z.eqb_eq in Hdz; contradiction |].
  replace (10 * 0 + d)%Z with d in H0 by lia. rewrite H0.
  rewrite parse_digits_end by exact Hend.
  rewrite no_fraction_end by exact Hend.
  replace (0 * m + Z.of_N (N.pos p))%Z with (Z.pos p) by lia.
  rewrite number_of_safe by lia. reflexivity.
Qed.

(** A safe integer is read back, when what follows does not continue
    it. *)
Lemma parse_number_pretty (n : Z) (tail : string) :
  (Z.abs n <= max_safe_integer)%Z →
  ends_value tail = true →
  parse_number B (pretty n +:+ tail) = Some (n, tail).
Proof.
  intros Hsafe Hend. destruct n as [|p|p].
  - change (pretty 0%Z) with "0". rewrite append_cons, append_nil.
    cbn [parse_number]. change (Ascii.eqb "0" "-") with false. cbv iota.
    unfold parse_unsigned. change (digit_val "0") with (Some 0%Z). cbv iota.
    change (0 =? 0)%Z with true. cbv iota.
    rewrite no_fraction_end by exact Hend.
    rewrite number_of_safe by (unfold max_safe_integer; lia). reflexivity.
  - change (pretty (Z.pos p)) with (pretty (N.pos p)).
    pose proof (parse_unsigned_pretty p tail ltac:(lia) Hend) as Hu.
    unfold pretty, pretty_N in *.
    destruct (decide (N.pos p = 0%N)) as [H|_]; [discriminate |].
    rewrite pretty_go_append, append_nil in *.
    destruct (pretty_head (N.pos p) tail ltac:(lia)) as (c & r & d & Hc & Hd & Hnz).
    rewrite Hc in *. cbn [parse_number].
    assert (Hdash : Ascii.eqb c "-" = false).
    { destruct (Ascii.eqb_spec c "-") as [->|]; [discriminate | reflexivity]. }
    rewrite Hdash. exact Hu.
  - change (pretty (Z.neg p)) with ("-" +:+ pretty (N.pos p)).
    rewrite append_assoc, append_cons, append_nil. cbn [parse_number].
    change (Ascii.eqb "-" "-") with true. cbv iota.
    rewrite (parse_unsigned_pretty p tail ltac:(lia) Hend). reflexivity.
Qed.

End JsonNumbers.

Section JsonValues.
Import JSON.
Context (B : JSON.Beyond).

Lemma value_weight_ind (P : value → Prop) :
  (∀ v, (∀ v', (weight v' < weight v)%nat → P v') → P v) → ∀ v, P v.
Proof.
  intros step v. remember (weight v) as n eqn:Hn.
  revert v Hn. induction (lt_wf n) as [n _ IH]. intros v ->.
  apply step. intros v' Hlt. exact (IH _ Hlt v' eq_refl).
Qed.

Lemma weight_obj_cons (k : string) (v : value) (ps : list (string * value)) :
  weight (VObj ((k, v) :: ps)) = S (weight v + weight (VObj ps)).
Proof. cbn [weight]. lia. Qed.

Lemma weight_arr_cons (v : value) (es : list value) :
  weight (VArr (v :: es)) = S (weight v + weight (VArr es)).
Proof. cbn [weight]. lia. Qed.

Lemma weight_pos (v : value) : (1 ≤ weight v)%nat.
Proof. destruct v; cbn [weight]; lia. Qed.

Lemma weight_member (ps : list (string * value)) (kv : string * value) :
  kv ∈ ps → (weight kv.2 < weight (VObj ps))%nat.
Proof.
  induction ps as [|[k v] ps IH]; intros Hin; [inversion Hin |].
  rewrite weight_obj_cons. apply elem_of_cons in Hin as [->|Hin].
  - cbn [snd]. lia.
  - specialize (IH Hin). lia.
Qed.

Lemma weight_element (es : list value) (v : value) :
  v ∈ es → (weight v < weight (VArr es))%nat.
Proof.
  induction es as [|e es IH]; intros Hin; [inversion Hin |].
  rewrite weight_arr_cons. apply elem_of_cons in Hin as [->|Hin].
  - lia.
  - specialize (IH Hin). lia.
Qed.

Lemma jsonable_members (ps : list (string * value)) :
  jsonable (VObj ps) = true →
  NoDup ps.*1 ∧ Forall (λ kv, jsonable kv.2 = true) ps.
Proof.
  cbn [jsonable]. intros H. apply andb_true_iff in H as [Hnd Hall].
  split; [apply bool_decide_eq_true in Hnd; exact Hnd |]. clear Hnd.
  induction ps as [|[k v] ps IH]; [constructor |].
  apply andb_true_iff in Hall as [Hv Hall]. constructor; [exact Hv | exact (IH Hall)].
Qed.

Lemma jsonable_elements (es : list value) :
  jsonable (VArr es) = true → Forall (λ v, jsonable v = true) es.
Proof.
  cbn [jsonable]. intros Hall.
  induction es as [|v es IH]; [constructor |].
  apply andb_true_iff in Hall as [Hv Hall]. constructor; [exact Hv | exact (IH Hall)].
Qed.

Lemma stringify_jsonable (v : value) :
  jsonable v = true → stringify v = Some (text_of (stringify v)).
Proof. destruct v as [| |[]| | | |]; try discriminate; reflexivity. Qed.

Lemma stringify_members (ps : list (string * value)) :
  Forall (λ kv, jsonable kv.2 = true) ps →
  stringify (VObj ps) = Some ("{" +:+ join "," (map member_text ps) +:+ "}").
Proof.
  intros H. cbn [stringify].
  match goal with
  | |- Some (_ +:+ join _ ?l +:+ _) = _ => assert (Hl : l = map member_text ps)
  end.
  { induction H as [|[k v] ps Hv _ IH]; [reflexivity |].
    cbn [map]. rewrite <- IH. unfold member_text. cbn [fst snd] in *.
    rewrite (stringify_jsonable v Hv). reflexivity. }
  rewrite Hl. reflexivity.
Qed.

Lemma stringify_elements (es : list value) :
  Forall (λ v, jsonable v = true) es →
  stringify (VArr es)
  = Some ("[" +:+ join "," (map (λ v, text_of (stringify v)) es) +:+ "]").
Proof.
  intros H. cbn [stringify].
  match goal with
  | |- Some (_ +:+ join _ ?l +:+ _) = _ =>
      assert (Hl : l = map (λ v, text_of (stringify v)) es)
  end.
  { induction H as [|v es Hv _ IH]; [reflexivity |].
    cbn [map]. rewrite <- IH. rewrite (stringify_jsonable v Hv). reflexivity. }
  rewrite Hl. reflexivity.
Qed.

(** A number starts with a digit or a minus sign. *)
Lemma pretty_Z_head (n : Z) :
  ∃ c r, pretty n = String c r ∧ ((∃ d, digit_val c = Some d) ∨ c = "-"%char).
Proof.
  destruct n as [|p|p].
  - exists "0"%char, "". split; [reflexivity |]. left. exists 0%Z. reflexivity.
  - change (pretty (Z.pos p)) with (pretty (N.pos p)). unfold pretty, pretty_N.
    destruct (decide (N.pos p = 0%N)) as [H|_]; [discriminate |].
    destruct (pretty_head (N.pos p) "" ltac:(lia)) as (c & r & d & Hc & Hd & _).
    exists c, r. split; [exact Hc |]. left. exists d. exact Hd.
  - change (pretty (Z.neg p)) with ("-" +:+ pretty (N.pos p)).
    eexists _, _. split; [reflexivity |]. right. reflexivity.
Qed.

(** Where a value may start with a digit or a minus sign, a number is
    read. *)
Lemma parse_value_number (fuel : nat) (c : ascii) (r : string) :
  (∃ d, digit_val c = Some d) ∨ c = "-"%char →
  parse B (S fuel) MValue (String c r) =
  match parse_number B (String c r) with
  | Some (n, rest) => Some (VNum n, rest)
  | None => None
  end.
Proof.
  intros [[d Hd]| ->]; [| reflexivity].
  destruct c as [[] [] [] [] [] [] [] []]; try discriminate Hd; reflexivity.
Qed.

(** No value starts with a blank or with a closing bracket. *)
Lemma text_head (v : value) :
  jsonable v = true →
  ∃ c r, text_of (stringify v) = String c r
         ∧ is_ws c = false ∧ Ascii.eqb c "]" = false.
Proof.
  destruct v as [| |[]|n|s|ps|es]; try discriminate; intros _;
    try (eexists _, _; split; [reflexivity | split; reflexivity]).
  - cbn [stringify text_of].
    destruct (pretty_Z_head n) as (c & r & Hc & [[d Hd]| ->]).
    + exists c, r. split; [exact Hc |].
      destruct c as [[] [] [] [] [] [] [] []]; try discriminate Hd; split; reflexivity.
    + eexists _, _. split; [exact Hc | split; reflexivity].
Qed.

Lemma parse_array_open (fuel : nat) (r : string) :
  parse B (S fuel) MValue (String "[" r) =
  match skip_ws r with
  | String c' r' =>
      if Ascii.eqb c' "]" then Some (VArr [], r') else parse B fuel (MElems []) r
  | EmptyString => None
  end.
Proof. reflexivity. Qed.

Lemma parse_one_element (fuel : nat) (acc : list value) (s : string) :
  parse B (S fuel) (MElems acc) s =
  match parse B fuel MValue s with
  | Some (v, r1) =>
      match skip_ws r1 with
      | String d r2 =>
          if Ascii.eqb d "," then parse B fuel (MElems (acc ++ [v])) r2
          else if Ascii.eqb d "]" then Some (VArr (acc ++ [v]), r2)
          else None
      | EmptyString => None
      end
  | None => None
  end.
Proof. reflexivity. Qed.

(** The members of an object are read back, when each of their values
    is. *)
Lemma parse_members_of (ps : list (string * value)) :
  Forall (λ kv, ∀ fuel tail, (weight kv.2 ≤ fuel)%nat → ends_value tail = true →
                parse B fuel MValue (text_of (stringify kv.2) +:+ tail)
                = Some (kv.2, tail)) ps →
  ps ≠ [] →
  ∀ fuel acc rest,
    (weight (VObj ps) ≤ S fuel)%nat →
    parse B fuel (MMembers acc) (join "," (map member_text ps) +:+ String "}" rest)
    = Some (VObj (spread acc ps), rest).
Proof.
  induction 1 as [|[k v] ps Hv Hps IH]; [congruence |]. intros _ fuel acc rest Hfuel.
  rewrite weight_obj_cons in Hfuel. pose proof (weight_pos (VObj ps)) as Hpos.
  destruct fuel as [|fuel]; [lia |].
  cbn [fst snd] in Hv.
  assert (Hstep : ∀ tail, ends_value tail = true →
            parse B (S fuel) (MMembers acc) (member_text (k, v) +:+ tail)
            = match skip_ws tail with
              | String d r4 =>
                  if Ascii.eqb d "," then parse B fuel (MMembers (set_prop k v acc)) r4
                  else if Ascii.eqb d "}" then Some (VObj (set_prop k v acc), r4)
                  else None
              | EmptyString => None
              end).
  { intros tail Htail. unfold member_text. cbn [fst snd].
    rewrite !append_assoc, quote_append, parse_one_member.
    cbn [skip_ws]. change (is_ws dquote) with false. cbv iota.
    change (Ascii.eqb dquote dquote) with true. cbv iota.
    rewrite parse_chars_escape. rewrite append_cons, append_nil.
    cbn [skip_ws]. change (is_ws ":") with false. cbv iota.
    change (Ascii.eqb ":" ":") with true. cbv iota.
    rewrite (Hv fuel tail) by (assumption || lia). reflexivity. }
  destruct ps as [|kv ps].
  - cbn [map join]. rewrite Hstep by reflexivity. reflexivity.
  - cbn [map join]. cbn [map] in IH. rewrite !append_assoc, Hstep by reflexivity.
    rewrite append_cons, append_nil. cbn [skip_ws].
    change (is_ws ",") with false. cbv iota.
    change (Ascii.eqb "," ",") with true. cbv iota.
    rewrite IH; [reflexivity | discriminate | lia].
Qed.

(** The elements of an array are read back, when each of them is. *)
Lemma parse_elements_of (es : list value) :
  Forall (λ v, ∀ fuel tail, (weight v ≤ fuel)%nat → ends_value tail = true →
               parse B fuel MValue (text_of (stringify v) +:+ tail) = Some (v, tail)) es →
  es ≠ [] →
  ∀ fuel acc rest,
    (weight (VArr es) ≤ S fuel)%nat →
    parse B fuel (MElems acc)
          (join "," (map (λ v, text_of (stringify v)) es) +:+ String "]" rest)
    = Some (VArr (acc ++ es), rest).
Proof.
  induction 1 as [|v es Hv Hes IH]; [congruence |]. intros _ fuel acc rest Hfuel.
  rewrite weight_arr_cons in Hfuel. pose proof (weight_pos (VArr es)) as Hpos.
  destruct fuel as [|fuel]; [lia |].
  destruct es as [|e es].
  - cbn [map join]. rewrite parse_one_element, (Hv fuel) by (reflexivity || lia).
    reflexivity.
  - cbn [map join]. cbn [map] in IH. rewrite !append_assoc.
    rewrite parse_one_element, (Hv fuel) by (reflexivity || lia).
    rewrite append_cons, append_nil. cbn [skip_ws].
    change (is_ws ",") with false. cbv iota.
    change (Ascii.eqb "," ",") with true. cbv iota.
    rewrite IH; [rewrite <- app_assoc; reflexivity | discriminate | lia].
Qed.

(** Every value JSON can carry is read back from its text, whatever
    follows it, as long as that does not continue a number. *)
Lemma parse_stringify (v : value) :
  jsonable v = true →
  ∀ fuel tail, (weight v ≤ fuel)%nat → ends_value tail = true →
    parse B fuel MValue (text_of (stringify v) +:+ tail) = Some (v, tail).
Proof.
  induction v as [v IH] using value_weight_ind. intros Hj fuel tail Hfuel Htail.
  destruct v as [| |b|n|s|ps|es]; try discriminate Hj.
  - destruct fuel as [|fuel]; [cbn in Hfuel; lia |]. apply parse_scalar. reflexivity.
  - destruct fuel as [|fuel]; [cbn in Hfuel; lia |]. apply parse_scalar. reflexivity.
  - destruct fuel as [|fuel]; [cbn in Hfuel; lia |]. cbn [stringify text_of].
    destruct (pretty_Z_head n) as (c & r & Hc & Hhead).
    assert (Hsafe : (Z.abs n <= max_safe_integer)%Z).
    { apply Z.leb_le. exact Hj. }
    pose proof (parse_number_pretty B n tail Hsafe Htail) as Hnum.
    rewrite Hc in Hnum |- *. rewrite append_cons in Hnum |- *.
    rewrite (parse_value_number fuel c _ Hhead), Hnum. reflexivity.
  - destruct fuel as [|fuel]; [cbn in Hfuel; lia |]. apply parse_scalar. reflexivity.
  - destruct (jsonable_members ps Hj) as [Hnd Hall].
    rewrite (stringify_members ps Hall). cbn [text_of].
    destruct fuel as [|fuel]; [cbn in Hfuel; lia |].
    destruct ps as [|kv ps]; [reflexivity |].
    destruct (join_head kv ps (String "}" tail)) as [t Ht].
    rewrite !append_assoc, append_cons, append_nil, parse_object_open.
    rewrite (append_cons "}"), append_nil.
    rewrite Ht. cbn [skip_ws]. change (is_ws dquote) with false. cbv iota.
    change (Ascii.eqb dquote "}") with false. cbv iota. rewrite <- Ht.
    rewrite parse_members_of.
    + rewrite spread_fresh by exact Hnd. reflexivity.
    + apply Forall_forall. intros x Hx f t' Hf Ht'.
      apply IH; [apply weight_member; exact Hx | | exact Hf | exact Ht'].
      rewrite Forall_forall in Hall. exact (Hall x Hx).
    + discriminate.
    + exact Hfuel.
  - pose proof (jsonable_elements es Hj) as Hall.
    rewrite (stringify_elements es Hall). cbn [text_of].
    destruct fuel as [|fuel]; [cbn in Hfuel; lia |].
    destruct es as [|e es]; [reflexivity |].
    rewrite !append_assoc, append_cons, append_nil, parse_array_open.
    rewrite (append_cons "]"), append_nil.
    assert (He : jsonable e = true) by (inversion Hall; assumption).
    destruct (text_head e He) as (c & r & Hc & Hws & Hclose).
    assert (Hstart : ∃ t, join "," (map (λ v, text_of (stringify v)) (e :: es))
                          +:+ String "]" tail = String c t).
    { cbn [map join]. destruct (map _ es); rewrite Hc, ?append_cons; eexists; reflexivity. }
    destruct Hstart as [t Ht]. rewrite Ht. cbn [skip_ws]. rewrite Hws, Hclose.
    rewrite <- Ht. rewrite parse_elements_of.
    + reflexivity.
    + apply Forall_forall. intros x Hx f t' Hf Ht'.
      apply IH; [apply weight_element; exact Hx | | exact Hf | exact Ht'].
      rewrite Forall_forall in Hall. exact (Hall x Hx).
    + discriminate.
    + exact Hfuel.
Qed.

Lemma join_text_length (A : Type) (f : A → string) (g : A → nat) (l : list A) :
  Forall (λ x, g x ≤ String.length (f x))%nat l →
  (list_sum (map (λ x, S (g x)) l) ≤ S (String.length (join "," (map f l))))%nat.
Proof.
  induction 1 as [|x l Hx Hl IH]; [cbn; lia |].
  destruct l as [|y l]; [cbn in *; lia |].
  cbn [map join] in *. rewrite !append_length. cbn [String.length].
  unfold list_sum in *. cbn [fold_right] in *. lia.
Qed.

Lemma weight_obj_sum (ps : list (string * value)) :
  weight (VObj ps) = S (list_sum (map (λ kv, S (weight kv.2)) ps)).
Proof.
  induction ps as [|[k v] ps IH]; [reflexivity |].
  rewrite weight_obj_cons, IH. cbn [map snd]. unfold list_sum. cbn [fold_right]. lia.
Qed.

Lemma weight_arr_sum (es : list value) :
  weight (VArr es) = S (list_sum (map (λ v, S (weight v)) es)).
Proof.
  induction es as [|v es IH]; [reflexivity |].
  rewrite weight_arr_cons, IH. cbn [map]. unfold list_sum. cbn [fold_right]. lia.
Qed.

(** The text of a value has at least as many characters as the value has
    nodes, so [JSON.parse] never runs short on it. *)
Lemma weight_text (v : value) :
  jsonable v = true → (weight v ≤ String.length (text_of (stringify v)))%nat.
Proof.
  induction v as [v IH] using value_weight_ind. intros Hj.
  destruct v as [| |[]|n|s|ps|es]; try discriminate Hj; try (cbn; lia).
  - cbn [stringify text_of weight].
    destruct (pretty_Z_head n) as (c & r & -> & _). cbn. lia.
  - destruct (jsonable_members ps Hj) as [_ Hall].
    rewrite (stringify_members ps Hall), weight_obj_sum. cbn [text_of].
    rewrite append_cons, append_nil. cbn [String.length].
    rewrite append_length. cbn [String.length].
    pose proof (join_text_length _ member_text (λ kv, weight kv.2) ps) as Hlen.
    assert (Hm : Forall (λ x, weight x.2 ≤ String.length (member_text x))%nat ps).
    { apply Forall_forall. intros x Hx. unfold member_text.
      rewrite !append_length. rewrite Forall_forall in Hall.
      pose proof (IH x.2 (weight_member ps x Hx) (Hall x Hx)). lia. }
    specialize (Hlen Hm). lia.
  - pose proof (jsonable_elements es Hj) as Hall.
    rewrite (stringify_elements es Hall), weight_arr_sum. cbn [text_of].
    rewrite append_cons, append_nil. cbn [String.length].
    rewrite append_length. cbn [String.length].
    pose proof (join_text_length _ (λ v, text_of (stringify v)) weight es) as Hlen.
    assert (Hm : Forall (λ x, weight x ≤ String.length (text_of (stringify x)))%nat es).
    { apply Forall_forall. intros x Hx. rewrite Forall_forall in Hall.
      exact (IH x (weight_element es x Hx) (Hall x Hx)). }
    specialize (Hlen Hm). lia.
Qed.

Lemma append_empty (a : string) : a +:+ "" = a.
Proof. induction a as [|c a IH]; [reflexivity |]. rewrite append_cons, IH. reflexivity. Qed.

(** [JSON.parse(JSON.stringify(v))] is [v], for every value JSON can
    carry. *)
Lemma parse_text_stringify (v : value) :
  jsonable v = true →
  ∃ text, stringify v = Some text ∧ text ≠ EmptyString ∧ parse_text B text = Ok v.
Proof.
  intros Hj. exists (text_of (stringify v)).
  split; [apply stringify_jsonable; exact Hj |].
  split.
  - destruct (text_head v Hj) as (c & r & -> & _). discriminate.
  - unfold parse_text.
    pose proof (parse_stringify v Hj (S (String.length (text_of (stringify v)))) ""
                  ltac:(pose proof (weight_text v Hj); lia) eq_refl) as Hp.
    rewrite append_empty in Hp. rewrite Hp. reflexivity.
Qed.

End JsonValues.

(* --------------------------------------------------------------------- *)
(** *** StorageManager: any value, and the keys of a namespace *)
(* --------------------------------------------------------------------- *)

Section StoreValues.
Context (E : Env).

(** Every value JSON can carry that [save] stored is what [load]
    returns. *)
Lemma save_then_load (sm : StorageManager.t) (key d data : value) (w : world) :
  jsonable data = true →
  (StorageManager.save E sm key data w).1 = Ok true →
  localStorage (StorageManager.save E sm key data w).2 !! StorageManager.getKey sm key
  = Some (text_of (JSON.stringify data))
  ∧ StorageManager.load E sm key d (StorageManager.save E sm key data w).2
    = (Ok data, (StorageManager.save E sm key data w).2).
Proof.
  intros Hj Hok. rewrite save_run in *.
  destruct (parse_text_stringify (JSON_beyond E) data Hj) as (text & Htext & Hne & Hparse).
  rewrite Htext in *. cbn [text_of] in *.
  destruct (storage_accepts E (localStorage w) _ text); [| discriminate].
  cbn [snd].
  assert (Hitem : localStorage (with_item (StorageManager.getKey sm key) text
                                  (logged (ESetItem (StorageManager.getKey sm key) text) w))
                  !! StorageManager.getKey sm key = Some text).
  { unfold with_item. cbn [localStorage]. apply lookup_insert_eq. }
  split; [exact Hitem |].
  apply load_run with (text := text); [exact Hitem | exact Hne | exact Hparse].
Qed.

(** X10. Whatever JSON can carry (null, booleans, safe integers,
    strings, arrays and objects of these, nested at will) and [save]
    stored under a key is what [load] returns for that key, whatever the
    default, and [exists] is true; neither call changes the world. *)
Theorem save_load_any_value (sm : StorageManager.t) (key d data : value) (w : world) :
  jsonable data = true →
  let saved := StorageManager.save E sm key data w in
  saved.1 = Ok true →
  StorageManager.load E sm key d saved.2 = (Ok data, saved.2)
  ∧ StorageManager.exists_ sm key saved.2 = (Ok true, saved.2).
Proof.
  intros Hj saved Hok. subst saved.
  destruct (save_then_load sm key d data w Hj Hok) as [Hitem Hload].
  split; [exact Hload |]. rewrite exists_value, Hitem. reflexivity.
Qed.

End StoreValues.

(** A run of X10: a nested object with an array, numbers of both signs
    and an empty array. *)
Lemma save_load_any_value_run :
  let sm := StorageManager.Make (VStr "app") (VBool false) (VArr []) in
  let data := VObj [("posts", VArr [VNum 12; VNum (-3);
                                    VObj [("title", VStr "a"); ("tags", VArr [])]]);
                    ("count", VNum 0); ("draft", VBool true)] in
  let saved := StorageManager.save Sample.quiet sm (VStr "state") data (Sample.page 0 ∅) in
  StorageManager.load Sample.quiet sm (VStr "state") VUndefined saved.2 = (Ok data, saved.2)
  ∧ StorageManager.exists_ sm (VStr "state") saved.2 = (Ok true, saved.2).
Proof.
  intros sm data saved.
  apply (save_load_any_value Sample.quiet sm (VStr "state") VUndefined data
           (Sample.page 0 ∅)).
  - vm_compute. reflexivity.
  - vm_compute. reflexivity.
Defined.

Section Keys.
Context (E : Env).

Lemma prefix_split (p s : string) :
  String.prefix p s = true ↔ ∃ r, s = p +:+ r.
Proof.
  revert s. induction p as [|c p IH]; intros s.
  - split; [intros _; exists s; reflexivity | intros _; destruct s; reflexivity].
  - destruct s as [|c' s]; cbn [String.prefix].
    + split; [discriminate | intros [r Hr]; rewrite append_cons in Hr; discriminate].
    + destruct (ascii_dec c c') as [->|Hne].
      * rewrite IH. split; intros [r Hr]; exists r.
        -- rewrite append_cons, Hr. reflexivity.
        -- rewrite append_cons in Hr. injection Hr as Hr. exact Hr.
      * split; [discriminate |].
        intros [r Hr]. rewrite append_cons in Hr. injection Hr as Hc _. congruence.
Qed.

Lemma drop_chars_append (p r : string) : drop_chars (String.length p) (p +:+ r) = r.
Proof. induction p as [|c p IH]; [destruct r; reflexivity | exact IH]. Qed.

Lemma in_namespace_prefix (sm : StorageManager.t) (k : string) :
  StorageManager.in_namespace sm k
  = startsWith k (to_string (StorageManager.namespace sm) +:+ "_").
Proof.
  unfold StorageManager.in_namespace. destruct k as [|c k]; [| reflexivity].
  cbn [String.eqb negb andb]. unfold startsWith. symmetry.
  destruct (String.prefix _ "") eqn:Hp; [| reflexivity].
  apply prefix_split in Hp as [r Hr].
  destruct (to_string (StorageManager.namespace sm)); discriminate Hr.
Qed.

Lemma storage_keys_elem (w : world) (k : string) :
  k ∈ StorageManager.storage_keys w ↔ is_Some (localStorage w !! k).
Proof.
  unfold StorageManager.storage_keys. rewrite list_elem_of_fmap. split.
  - intros [[k' v] [-> Hin]]. apply elem_of_map_to_list in Hin. eexists. exact Hin.
  - intros [v Hv]. exists (k, v). split; [reflexivity |].
    apply elem_of_map_to_list. exact Hv.
Qed.

Lemma remove_each_run (keys : list string) (w : world) :
  StorageManager.remove_each keys w
  = (Ok tt, World (self w) (fold_left (λ st k, delete k st) keys (localStorage w))
                  (now w) (intervals w) (next_interval w) (background w) (log w)).
Proof.
  revert w. induction keys as [|k keys IH]; intros w; [destruct w; reflexivity |].
  cbn [StorageManager.remove_each fold_left]. unfold bind at 1. unfold removeItem at 1.
  rewrite IH. reflexivity.
Qed.

Lemma lookup_fold_delete (keys : list string) (st : gmap string string) (k : string) :
  fold_left (λ st k, delete k st) keys st !! k
  = if bool_decide (k ∈ keys) then None else st !! k.
Proof.
  revert st. induction keys as [|k' keys IH]; intros st; [reflexivity |].
  cbn [fold_left]. rewrite IH.
  destruct (decide (k = k')) as [->|Hne].
  - rewrite lookup_delete_eq. rewrite (bool_decide_eq_true_2 (k' ∈ k' :: keys)) by left.
    destruct (bool_decide (k' ∈ keys)); reflexivity.
  - rewrite lookup_delete_ne by congruence.
    destruct (decide (k ∈ keys)) as [Hin|Hnin].
    + rewrite !bool_decide_eq_true_2; [reflexivity | right; exact Hin | exact Hin].
    + rewrite !bool_decide_eq_false_2; [reflexivity | | exact Hnin].
      intros Hin. apply elem_of_cons in Hin as [?|?]; [congruence | contradiction].
Qed.

Lemma clearAll_run (sm : StorageManager.t) (w : world) :
  StorageManager.clearAll sm w
  = (Ok true,
     World (self w)
           (fold_left (λ st k, delete k st)
                      (List.filter (StorageManager.in_namespace sm)
                                   (StorageManager.storage_keys w))
                      (localStorage w))
           (now w) (intervals w) (next_interval w) (background w) (log w)).
Proof.
  unfold StorageManager.clearAll, try_catch, bind. rewrite remove_each_run. reflexivity.
Qed.

Lemma elem_of_bfilter {A} (f : A → bool) (l : list A) (x : A) :
  x ∈ List.filter f l ↔ f x = true ∧ x ∈ l.
Proof. rewrite !list_elem_of_In, filter_In. tauto. Qed.

Lemma clearAll_lookup (sm : StorageManager.t) (w : world) (k : string) :
  localStorage (StorageManager.clearAll sm w).2 !! k
  = if startsWith k (to_string (StorageManager.namespace sm) +:+ "_")
    then None else localStorage w !! k.
Proof.
  rewrite clearAll_run. cbn [snd localStorage]. rewrite lookup_fold_delete.
  rewrite <- in_namespace_prefix.
  destruct (StorageManager.in_namespace sm k) eqn:Hns.
  - destruct (decide (k ∈ List.filter (StorageManager.in_namespace sm)
                                      (StorageManager.storage_keys w))) as [Hin|Hnin].
    + rewrite bool_decide_eq_true_2 by exact Hin. reflexivity.
    + rewrite bool_decide_eq_false_2 by exact Hnin.
      destruct (localStorage w !! k) as [v|] eqn:Hv; [| reflexivity].
      exfalso. apply Hnin. apply elem_of_bfilter. split; [exact Hns |].
      apply storage_keys_elem. eexists. exact Hv.
  - rewrite bool_decide_eq_false_2; [reflexivity |].
    intros Hin. apply elem_of_bfilter in Hin as [Hin _]. congruence.
Qed.

Lemma load_missing (sm : StorageManager.t) (key d : value) (w : world) :
  localStorage w !! StorageManager.getKey sm key = None →
  StorageManager.load E sm key d w = (Ok (fallback d), w)
  ∧ StorageManager.exists_ sm key w = (Ok false, w).
Proof.
  intros Hnone. rewrite exists_value, Hnone. split; [| reflexivity].
  unfold StorageManager.load. unfold_M. rewrite Hnone. destruct d; reflexivity.
Qed.

Lemma bfilter_none {A} (f : A → bool) (l : list A) :
  (∀ x, x ∈ l → f x = false) → List.filter f l = [].
Proof.
  induction l as [|x l IH]; intros H; [reflexivity |].
  cbn [List.filter]. rewrite (H x) by left. apply IH. intros y Hy. apply H. right. exact Hy.
Qed.

(** X11. [clearAll()] returns true and removes exactly the items whose
    key starts with the namespace and an underscore: every other item
    stays as it was.  Afterwards every key of the namespace reads as its
    default and does not exist, and [getAllKeys()] is empty. *)
Theorem clearAll_spec (sm : StorageManager.t) (w : world) :
  let done := StorageManager.clearAll sm w in
  done.1 = Ok true ∧
  (∀ k, localStorage done.2 !! k
        = if startsWith k (to_string (StorageManager.namespace sm) +:+ "_")
          then None else localStorage w !! k) ∧
  (∀ key d, StorageManager.load E sm key d done.2 = (Ok (fallback d), done.2)
            ∧ StorageManager.exists_ sm key done.2 = (Ok false, done.2)) ∧
  StorageManager.getAllKeys E sm done.2 = (Ok [], done.2) ∧
  self done.2 = self w ∧ log done.2 = log w.
Proof.
  intros done. subst done.
  split; [rewrite clearAll_run; reflexivity |].
  split; [apply clearAll_lookup |].
  split; [| split; [| rewrite clearAll_run; split; reflexivity]].
  - intros key d. apply load_missing. rewrite clearAll_lookup.
    unfold StorageManager.getKey, startsWith.
    rewrite <- append_assoc.
    rewrite (proj2 (prefix_split _ _)); [reflexivity | eexists; reflexivity].
  - unfold StorageManager.getAllKeys. rewrite bfilter_none; [reflexivity |].
    intros k Hk. apply storage_keys_elem in Hk as [v Hv].
    rewrite clearAll_lookup, <- in_namespace_prefix in Hv.
    destruct (StorageManager.in_namespace sm k); [discriminate | reflexivity].
Qed.

(** X12. [clearAll()] reaches into every namespace that starts with its
    own namespace and an underscore: after [clearAll()] on [app], no key
    of a manager on [app_posts] exists any more. *)
Theorem clearAll_longer_namespace (sm sm' : StorageManager.t) (key d : value) (w : world) :
  startsWith (to_string (StorageManager.namespace sm'))
             (to_string (StorageManager.namespace sm) +:+ "_") = true →
  let done := StorageManager.clearAll sm w in
  StorageManager.exists_ sm' key done.2 = (Ok false, done.2)
  ∧ StorageManager.load E sm' key d done.2 = (Ok (fallback d), done.2).
Proof.
  intros Hpre done. subst done.
  apply and_comm. apply load_missing. rewrite clearAll_lookup.
  unfold startsWith in *. apply prefix_split in Hpre as [r Hr].
  unfold StorageManager.getKey. rewrite Hr, !append_assoc.
  rewrite (proj2 (prefix_split _ _)); [reflexivity |].
  eexists. rewrite !append_assoc. reflexivity.
Qed.

(** X13. On a namespace that is a string, [getAllKeys()] lists each key
    of the namespace once, without the prefix: a key is listed exactly
    when [exists(key)] is true.  The call changes nothing. *)
Theorem getAllKeys_spec (sm : StorageManager.t) (ns : string) (w : world) :
  StorageManager.namespace sm = VStr ns →
  ∃ keys, StorageManager.getAllKeys E sm w = (Ok keys, w)
          ∧ NoDup keys
          ∧ ∀ k, k ∈ keys ↔ StorageManager.exists_ sm (VStr k) w = (Ok true, w).
Proof.
  intros Hns.
  exists (drop_chars (String.length (ns +:+ "_"))
            <$> List.filter (StorageManager.in_namespace sm)
                            (StorageManager.storage_keys w)).
  split.
  { unfold StorageManager.getAllKeys. rewrite Hns. cbn [length_plus_one].
    do 2 f_equal. apply map_ext. intros x. unfold substring_from.
    f_equal. rewrite append_length. cbn [String.length]. lia. }
  assert (Hfull : ∀ x, x ∈ List.filter (StorageManager.in_namespace sm)
                                       (StorageManager.storage_keys w)
                       ↔ ∃ k, x = (ns +:+ "_") +:+ k ∧ is_Some (localStorage w !! x)).
  { intros x. rewrite elem_of_bfilter, in_namespace_prefix, Hns, storage_keys_elem.
    cbn [to_string]. unfold startsWith. rewrite prefix_split. split.
    - intros [[k Hk] Hsome]. exists k. split; assumption.
    - intros [k [Hk Hsome]]. split; [exists k; exact Hk | exact Hsome]. }
  split.
  - apply (NoDup_fmap_2_strong (drop_chars (String.length (ns +:+ "_")))).
    + intros x y Hx Hy Heq.
      apply Hfull in Hx as [kx [-> _]]. apply Hfull in Hy as [ky [-> _]].
      rewrite !drop_chars_append in Heq. rewrite Heq. reflexivity.
    + apply NoDup_ListNoDup, List.NoDup_filter, NoDup_ListNoDup.
      apply NoDup_fst_map_to_list.
  - intros k. rewrite exists_value.
    unfold StorageManager.getKey. rewrite Hns. cbn [to_string].
    rewrite <- append_assoc.
    rewrite list_elem_of_fmap. split.
    + intros [x [-> Hx]]. apply Hfull in Hx as [k' [-> [v Hv]]].
      rewrite drop_chars_append, Hv. reflexivity.
    + intros Hex. exists ((ns +:+ "_") +:+ k). rewrite drop_chars_append.
      split; [reflexivity |]. apply Hfull. exists k. split; [reflexivity |].
      destruct (localStorage w !! ((ns +:+ "_") +:+ k)); [eexists; reflexivity | discriminate].
Qed.

End Keys.

(** A run of X12: the namespaces [app] and [app_posts]. *)
Lemma clearAll_longer_namespace_run :
  let app := StorageManager.Make (VStr "app") (VBool false) (VArr []) in
  let posts := StorageManager.Make (VStr "app_posts") (VBool false) (VArr []) in
  let w := Sample.page 0 {[ "app_posts_list" := "[1,2]"; "app_theme" := "7" ]} in
  let done := StorageManager.clearAll app w in
  StorageManager.exists_ posts (VStr "list") w = (Ok true, w)
  ∧ StorageManager.exists_ posts (VStr "list") done.2 = (Ok false, done.2)
  ∧ StorageManager.load Sample.quiet posts (VStr "list") VUndefined done.2 = (Ok VNull, done.2).
Proof.
  intros app posts w done. split; [vm_compute; reflexivity |].
  apply (clearAll_longer_namespace Sample.quiet app posts (VStr "list") VUndefined w).
  vm_compute. reflexivity.
Defined.

(** A run of X13: two keys of [app] and one of another namespace. *)
Lemma getAllKeys_spec_run :
  let app := StorageManager.Make (VStr "app") (VBool false) (VArr []) in
  let w := Sample.page 0 {[ "app_a" := "1"; "app_b" := "2"; "other_c" := "3" ]} in
  ∃ keys, StorageManager.getAllKeys Sample.quiet app w = (Ok keys, w)
          ∧ NoDup keys
          ∧ ∀ k, k ∈ keys ↔ StorageManager.exists_ app (VStr k) w = (Ok true, w).
Proof.
  intros app w. apply (getAllKeys_spec Sample.quiet app "app" w). reflexivity.
Defined.

Section Batch.
Context (E : Env).

Lemma set_prop_fresh (k : string) (v : value) (ps : list (string * value)) :
  k ∉ ps.*1 → set_prop k v ps = ps ++ [(k, v)].
Proof.
  induction ps as [|[k' v'] ps IH]; intros Hk; [reflexivity |].
  cbn [set_prop]. cbn in Hk. apply not_elem_of_cons in Hk as [Hne Hk].
  destruct (String.eqb_spec k k') as [->|_]; [congruence |].
  rewrite IH by exact Hk. reflexivity.
Qed.

Lemma lookup_prop_member (k : string) (v : value) (ps : list (string * value)) :
  NoDup ps.*1 → (k, v) ∈ ps → lookup_prop k ps = v.
Proof.
  induction ps as [|[k' v'] ps IH]; intros Hnd Hin; [inversion Hin |].
  cbn in Hnd. apply NoDup_cons in Hnd as [Hk' Hnd]. cbn [lookup_prop].
  apply elem_of_cons in Hin as [Heq|Hin].
  - injection Heq as -> ->. rewrite String.eqb_refl. reflexivity.
  - destruct (String.eqb_spec k k') as [->|_]; [| exact (IH Hnd Hin)].
    exfalso. apply Hk'. apply list_elem_of_fmap. exists (k', v). split; [reflexivity | exact Hin].
Qed.

(** What one [save] does to the store. *)
Lemma save_store (sm : StorageManager.t) (key data : value) (w : world) :
  let k := StorageManager.getKey sm key in
  let text := text_of (JSON.stringify data) in
  let b := storage_accepts E (localStorage w) k text in
  (StorageManager.save E sm key data w).1 = Ok b
  ∧ localStorage (StorageManager.save E sm key data w).2
    = if b then <[k := text]> (localStorage w) else localStorage w.
Proof.
  intros k text b. rewrite save_run. fold k text b. destruct b; split; reflexivity.
Qed.

(** What [save_each] leaves behind, item by item. *)
Lemma save_each_inv (sm : StorageManager.t) (items : list (string * value)) :
  ∀ results w,
    NoDup (results.*1 ++ items.*1) →
    ∃ flags w',
      StorageManager.save_each E sm items results w = (Ok (results ++ flags), w')
      ∧ flags.*1 = List.filter (λ k, negb (String.eqb k "__proto__")) items.*1
      ∧ (∀ k v, (k, v) ∈ items →
           (localStorage w' !! StorageManager.getKey sm (VStr k)
            = Some (text_of (JSON.stringify v))
            ∧ (k ≠ "__proto__" → lookup_prop k flags = VBool true))
           ∨ (localStorage w' !! StorageManager.getKey sm (VStr k)
              = localStorage w !! StorageManager.getKey sm (VStr k)
              ∧ (k ≠ "__proto__" → lookup_prop k flags = VBool false)))
      ∧ ((∀ ls k t, storage_accepts E ls k t = true) →
         ∀ k v, (k, v) ∈ items →
           localStorage w' !! StorageManager.getKey sm (VStr k)
           = Some (text_of (JSON.stringify v))
           ∧ (k ≠ "__proto__" → lookup_prop k flags = VBool true))
      ∧ (∀ key, to_string key ∉ items.*1 →
           localStorage w' !! StorageManager.getKey sm key
           = localStorage w !! StorageManager.getKey sm key).
Proof.
  induction items as [|[k v] items IH]; intros results w Hnd.
  - exists [], w. rewrite app_nil_r.
    split; [reflexivity |]. split; [reflexivity |].
    split; [intros k v Hin; inversion Hin |].
    split; [intros _ k v Hin; inversion Hin | reflexivity].
  - cbn [fmap list_fmap fst] in Hnd.
    assert (Hkr : k ∉ results.*1).
    { apply NoDup_app in Hnd as (_ & Hdis & _). intros Hin. apply (Hdis k Hin). left. }
    assert (Hki : k ∉ items.*1).
    { apply NoDup_app in Hnd as (_ & _ & Hnd). apply NoDup_cons in Hnd as [Hnd _]. exact Hnd. }
    assert (Hnd' : NoDup (results.*1 ++ items.*1)).
    { apply NoDup_app in Hnd as (Hr & Hdis & Hi). apply NoDup_cons in Hi as [_ Hi].
      apply NoDup_app. split; [exact Hr |]. split; [| exact Hi].
      intros x Hx Hx'. apply (Hdis x Hx). right. exact Hx'. }
    cbn [StorageManager.save_each]. unfold bind at 1.
    destruct (save_store sm (VStr k) v w) as [Hflag Hstore]. cbv zeta in Hflag, Hstore.
    set (key := StorageManager.getKey sm (VStr k)) in *.
    set (text := text_of (JSON.stringify v)) in *.
    set (b := storage_accepts E (localStorage w) key text) in *.
    destruct (StorageManager.save E sm (VStr k) v w) as [r1 w1]. cbn [fst snd] in *.
    subst r1.
    set (mine := if String.eqb k "__proto__" then [] else [(k, VBool b)]).
    assert (Hres : assign k (VBool b) results = results ++ mine).
    { unfold assign, mine. destruct (String.eqb k "__proto__");
        [rewrite app_nil_r; reflexivity | apply set_prop_fresh; exact Hkr]. }
    rewrite Hres.
    destruct (IH (results ++ mine) w1) as (flags & w' & Hrun & Hkeys & Hitems & Hall & Hother).
    { rewrite fmap_app. unfold mine. destruct (String.eqb k "__proto__");
        cbn [fmap list_fmap fst]; [rewrite app_nil_r; exact Hnd' |].
      rewrite <- app_assoc. exact Hnd. }
    exists (mine ++ flags), w'. rewrite Hrun, <- app_assoc.
    split; [reflexivity |].
    split.
    { rewrite fmap_app, Hkeys. unfold mine. cbn [fmap list_fmap fst List.filter].
      destruct (String.eqb k "__proto__"); reflexivity. }
    assert (Hmine : localStorage w' !! key
                    = if b then Some text else localStorage w !! key).
    { pose proof (Hother (VStr k) Hki) as Hk. fold key in Hk. rewrite Hk, Hstore.
      destruct b; [apply lookup_insert_eq | reflexivity]. }
    assert (Hflag : k ≠ "__proto__" → lookup_prop k (mine ++ flags) = VBool b).
    { intros Hne. unfold mine. destruct (String.eqb_spec k "__proto__"); [contradiction |].
      cbn [app lookup_prop]. rewrite String.eqb_refl. reflexivity. }
    assert (Hlater : ∀ k' v', (k', v') ∈ items →
              lookup_prop k' (mine ++ flags) = lookup_prop k' flags
              ∧ localStorage w1 !! StorageManager.getKey sm (VStr k')
                = localStorage w !! StorageManager.getKey sm (VStr k')).
    { intros k' v' Hin.
      assert (Hne : k' ≠ k).
      { intros ->. apply Hki. apply list_elem_of_fmap. exists (k, v').
        split; [reflexivity | exact Hin]. }
      split.
      - unfold mine. destruct (String.eqb k "__proto__"); [reflexivity |].
        cbn [app lookup_prop]. destruct (String.eqb_spec k' k); [contradiction | reflexivity].
      - rewrite Hstore. destruct b; [| reflexivity].
        apply lookup_insert_ne. intros Heq. apply getKey_inj in Heq. cbn in Heq.
        congruence. }
    split.
    { intros k' v' Hin. apply elem_of_cons in Hin as [Heq|Hin].
      - injection Heq as -> ->. fold key text. rewrite Hmine.
        destruct b; [left | right]; (split; [reflexivity | exact Hflag]).
      - destruct (Hlater k' v' Hin) as [Hl Hs]. rewrite Hl.
        destruct (Hitems k' v' Hin) as [[Hst Hf]|[Hst Hf]]; [left | right];
          (split; [| exact Hf]); [exact Hst | rewrite Hst; exact Hs]. }
    split.
    { intros Hacc k' v' Hin. apply elem_of_cons in Hin as [Heq|Hin].
      - injection Heq as -> ->. fold key text. rewrite Hmine.
        assert (Hb : b = true) by apply Hacc. rewrite Hb in Hflag |- *.
        split; [reflexivity | exact Hflag].
      - destruct (Hlater k' v' Hin) as [Hl _]. rewrite Hl. exact (Hall Hacc k' v' Hin). }
    intros key' Hkey. cbn [fmap list_fmap fst] in Hkey.
    apply not_elem_of_cons in Hkey as [Hne Hkey].
    rewrite (Hother key' Hkey), Hstore. destruct b; [| reflexivity].
    apply lookup_insert_ne. intros Heq. apply getKey_inj in Heq. cbn in Heq. congruence.
Qed.

(** X14. [saveBatch(items)] on an object (each key once) never throws.
    It returns an object with the keys of [items] in their order, each
    holding true or false; a key named [__proto__] gets no flag.  Under a
    key reported true the store holds the JSON text of the value passed
    for it, and [load] returns that value when it is one JSON can carry;
    a key reported false has left its item as it was.  Where localStorage
    accepts every write, every flag is true.  No item under another key
    of the namespace is touched. *)
Theorem saveBatch_spec (sm : StorageManager.t) (ps : list (string * value))
        (d : value) (w : world) :
  NoDup ps.*1 →
  ∃ results w',
    StorageManager.saveBatch E sm (VObj ps) w = (Ok (VObj results), w')
    ∧ results.*1 = List.filter (λ k, negb (String.eqb k "__proto__")) ps.*1
    ∧ (∀ k v, (k, v) ∈ ps → k ≠ "__proto__" →
         (lookup_prop k results = VBool true
          ∧ localStorage w' !! StorageManager.getKey sm (VStr k)
            = Some (text_of (JSON.stringify v))
          ∧ (jsonable v = true →
             StorageManager.load E sm (VStr k) d w' = (Ok v, w')))
         ∨ (lookup_prop k results = VBool false
            ∧ localStorage w' !! StorageManager.getKey sm (VStr k)
              = localStorage w !! StorageManager.getKey sm (VStr k)))
    ∧ ((∀ ls k t, storage_accepts E ls k t = true) →
       ∀ k v, (k, v) ∈ ps → k ≠ "__proto__" →
         lookup_prop k results = VBool true
         ∧ (jsonable v = true →
            StorageManager.load E sm (VStr k) d w' = (Ok v, w')))
    ∧ (∀ key, to_string key ∉ ps.*1 →
         localStorage w' !! StorageManager.getKey sm key
         = localStorage w !! StorageManager.getKey sm key).
Proof.
  intros Hnd.
  destruct (save_each_inv sm ps [] w Hnd)
    as (flags & w' & Hrun & Hkeys & Hitems & Hall & Hother).
  exists flags, w'. unfold StorageManager.saveBatch, bind, lift, ret.
  cbn [entries own_props]. rewrite Hrun. cbn [app].
  assert (Hload : ∀ k v, localStorage w' !! StorageManager.getKey sm (VStr k)
                         = Some (text_of (JSON.stringify v)) →
                         jsonable v = true →
                         StorageManager.load E sm (VStr k) d w' = (Ok v, w')).
  { intros k v Hs Hj.
    destruct (parse_text_stringify (JSON_beyond E) v Hj) as (text & Htext & Hne & Hparse).
    rewrite Htext in Hs. cbn [text_of] in Hs.
    apply load_run with (text := text); assumption. }
  split; [reflexivity |]. split; [exact Hkeys |].
  split; [| split; [| exact Hother]].
  - intros k v Hin Hne. destruct (Hitems k v Hin) as [[Hs Hf]|[Hs Hf]]; [left | right].
    + split; [exact (Hf Hne) |]. split; [exact Hs | exact (Hload k v Hs)].
    + split; [exact (Hf Hne) | exact Hs].
  - intros Hacc k v Hin Hne. destruct (Hall Hacc k v Hin) as [Hs Hf].
    split; [exact (Hf Hne) | exact (Hload k v Hs)].
Qed.

Lemma set_prop_keys (k k' : string) (v : value) (ps : list (string * value)) :
  k' ∈ (set_prop k v ps).*1 ↔ k' = k ∨ k' ∈ ps.*1.
Proof.
  induction ps as [|[k0 v0] ps IH]; cbn [set_prop].
  - cbn. rewrite elem_of_cons, elem_of_nil. tauto.
  - destruct (String.eqb_spec k k0) as [->|Hne]; cbn [fmap list_fmap fst].
    + rewrite !elem_of_cons. tauto.
    + rewrite !elem_of_cons, IH. tauto.
Qed.

(** What [load_each] collects, key by key. *)
Lemma load_each_inv (sm : StorageManager.t) (keys : list value) :
  ∀ results w,
    ∃ out w',
      StorageManager.load_each E sm keys results w = (Ok out, w')
      ∧ localStorage w' = localStorage w ∧ self w' = self w
      ∧ (∀ k, lookup_prop k out
              = if bool_decide (k ∈ to_string <$> keys) && negb (String.eqb k "__proto__")
                then read_item E (localStorage w !! StorageManager.getKey sm (VStr k))
                               VUndefined
                else lookup_prop k results)
      ∧ (∀ k, k ∈ out.*1
              ↔ k ∈ results.*1 ∨ (k ∈ to_string <$> keys ∧ k ≠ "__proto__")).
Proof.
  induction keys as [|key keys IH]; intros results w.
  - exists results, w. repeat split; try tauto.
    + intros [?|[H _]]; [assumption | inversion H].
  - cbn [StorageManager.load_each]. unfold bind at 1.
    destruct (load_value E sm key VUndefined w) as (Hv & Hstore & Hself).
    destruct (StorageManager.load E sm key VUndefined w) as [r1 w1]. cbn [fst snd] in *.
    subst r1.
    destruct (IH (assign (to_string key)
                         (read_item E (localStorage w !! StorageManager.getKey sm key)
                                    VUndefined) results) w1)
      as (out & w' & Hrun & Hst & Hse & Hlook & Hkeys).
    exists out, w'. rewrite Hrun.
    split; [reflexivity |]. split; [congruence |]. split; [congruence |].
    assert (Hsame : ∀ k, k = to_string key →
              StorageManager.getKey sm (VStr k) = StorageManager.getKey sm key).
    { intros k ->. reflexivity. }
    split.
    + intros k. rewrite Hlook, Hstore. cbn [fmap list_fmap].
      destruct (String.eqb_spec k "__proto__") as [Hp|Hp]; cbn [negb].
      * rewrite !andb_false_r. unfold assign.
        destruct (String.eqb (to_string key) "__proto__") eqn:Hkp; [reflexivity |].
        rewrite lookup_set_prop.
        destruct (String.eqb_spec k (to_string key)) as [Heq|_]; [| reflexivity].
        rewrite <- Heq, Hp in Hkp. discriminate.
      * rewrite !andb_true_r.
        destruct (decide (k ∈ to_string <$> keys)) as [Hin|Hnin].
        -- rewrite !bool_decide_eq_true_2; [reflexivity | right; exact Hin | exact Hin].
        -- rewrite (bool_decide_eq_false_2 _ Hnin).
           destruct (decide (k = to_string key)) as [Heq|Hne].
           ++ rewrite bool_decide_eq_true_2 by (apply elem_of_cons; left; exact Heq).
              unfold assign. rewrite <- Heq.
              destruct (String.eqb_spec k "__proto__") as [?|_]; [contradiction |].
              rewrite lookup_set_prop, String.eqb_refl, (Hsame k Heq). reflexivity.
           ++ rewrite bool_decide_eq_false_2.
              ** unfold assign. destruct (String.eqb (to_string key) "__proto__"); [reflexivity |].
                 rewrite lookup_set_prop.
                 destruct (String.eqb_spec k (to_string key)); [contradiction | reflexivity].
              ** intros Hin. apply elem_of_cons in Hin as [?|?]; contradiction.
    + intros k. rewrite Hkeys. cbn [fmap list_fmap]. rewrite elem_of_cons.
      unfold assign. destruct (String.eqb_spec (to_string key) "__proto__") as [Hp|Hp].
      * split; [tauto |]. intros [?|[[Heq|?] Hne]]; [tauto | | tauto].
        exfalso. apply Hne. rewrite Heq. exact Hp.
      * rewrite set_prop_keys. split; [| tauto].
        intros [[Heq|?]|?]; [| tauto | tauto].
        right. split; [left; exact Heq | rewrite Heq; exact Hp].
Qed.

(** X15. [loadBatch(keys)] on an array never throws and changes nothing
    in localStorage: it returns an object with one property for each key
    other than [__proto__], holding what [load(key)] returns (the parsed
    item, or null where the item is missing, empty or not JSON). *)
Theorem loadBatch_spec (sm : StorageManager.t) (keys : list value) (w : world) :
  ∃ results w',
    StorageManager.loadBatch E sm (VArr keys) w = (Ok (VObj results), w')
    ∧ localStorage w' = localStorage w ∧ self w' = self w
    ∧ (∀ key, key ∈ keys → to_string key ≠ "__proto__" →
         Ok (lookup_prop (to_string key) results)
         = (StorageManager.load E sm key VUndefined w).1)
    ∧ (∀ k, k ∈ results.*1 ↔ k ∈ to_string <$> keys ∧ k ≠ "__proto__").
Proof.
  destruct (load_each_inv sm keys [] w) as (out & w' & Hrun & Hst & Hse & Hlook & Hkeys).
  exists out, w'. unfold StorageManager.loadBatch, bind, lift, ret. cbn [iterate].
  rewrite Hrun. split; [reflexivity |]. split; [exact Hst |]. split; [exact Hse |].
  split.
  - intros key Hin Hp. rewrite Hlook.
    rewrite bool_decide_eq_true_2
      by (apply list_elem_of_fmap; exists key; split; [reflexivity | exact Hin]).
    destruct (String.eqb_spec (to_string key) "__proto__") as [?|_]; [contradiction |].
    cbn [andb negb]. destruct (load_value E sm key VUndefined w) as (-> & _). reflexivity.
  - intros k. rewrite Hkeys. cbn. rewrite elem_of_nil. tauto.
Qed.

End Batch.

(** A run of X14: three items saved where localStorage accepts them, one
    of them [undefined].  Every flag is true; the two JSON values load
    back, the third loads as the default. *)
Lemma saveBatch_spec_run :
  let sm := StorageManager.Make (VStr "app") (VBool false) (VArr []) in
  let ps := [("title", VStr "Hi"); ("tags", VArr [VStr "a"; VNum 2]);
             ("draft", VUndefined)] in
  let w := Sample.page 0 ∅ in
  let out := StorageManager.saveBatch Sample.quiet sm (VObj ps) w in
  out.1 = Ok (VObj [("title", VBool true); ("tags", VBool true); ("draft", VBool true)])
  ∧ StorageManager.load Sample.quiet sm (VStr "title") VNull out.2
    = (Ok (VStr "Hi"), out.2)
  ∧ StorageManager.load Sample.quiet sm (VStr "tags") VNull out.2
    = (Ok (VArr [VStr "a"; VNum 2]), out.2)
  ∧ (StorageManager.load Sample.quiet sm (VStr "draft") VNull out.2).1 = Ok VNull.
Proof.
  intros sm ps w out.
  destruct (saveBatch_spec Sample.quiet sm ps VNull w)
    as (results & w' & Hrun & _ & _ & Hall & _).
  { apply (bool_decide_unpack _). vm_compute. exact I. }
  assert (Hw' : out.2 = w') by (subst out; rewrite Hrun; reflexivity).
  rewrite Hw'.
  split; [vm_compute; reflexivity |].
  split; [| split].
  - refine (proj2 (Hall _ "title" (VStr "Hi") _ _) _);
      [intros; reflexivity | left | discriminate | reflexivity].
  - refine (proj2 (Hall _ "tags" (VArr [VStr "a"; VNum 2]) _ _) _);
      [intros; reflexivity | right; left | discriminate | reflexivity].
  - rewrite <- Hw'. vm_compute. reflexivity.
Defined.

(* --------------------------------------------------------------------- *)
(** *** CredentialsManager *)
(* --------------------------------------------------------------------- *)

Section Credentials.
Context (E : Env).

Import CredentialsManager.

Lemma bind_run {A B} (m : M A) (k : A → M B) (w w' : world) (a : A) :
  m w = (Ok a, w') → bind m k w = k a w'.
Proof. intros H. unfold bind. rewrite H. reflexivity. Qed.

Lemma bind_throws {A B} (m : M A) (k : A → M B) (w w' : world) (e : exn) :
  m w = (Throw e, w') → bind m k w = (Throw e, w').
Proof. intros H. unfold bind. rewrite H. reflexivity. Qed.

(** X16. Credentials that [saveCredentials] stored are what
    [loadCredentials] returns for the service, and validating the service
    from storage gives what validating those credentials directly gives. *)
Theorem saved_credentials_validate (sm : StorageManager.t)
        (service creds : value) (w : world) :
  jsonable creds = true → truthy creds = true →
  let saved := saveCredentials E sm service creds w in
  saved.1 = Ok true →
  loadCredentials E sm service saved.2 = (Ok creds, saved.2)
  ∧ validateCredentials E sm service VUndefined saved.2
    = validateCredentials E sm service creds saved.2.
Proof.
  intros Hj Ht saved Hok. subst saved.
  unfold saveCredentials, filterCredentials in *. cbv zeta in *.
  destruct (save_then_load E sm (credentials_key service) (VObj []) creds w Hj Hok)
    as [_ Hload].
  split; [exact Hload |].
  unfold validateCredentials. cbn [truthy]. rewrite Ht.
  erewrite bind_run by exact Hload. reflexivity.
Qed.

(** X17. A service the manager has no requirements for (any name but
    [google], [wordpress] and [ai] that an object literal does not
    inherit) always validates: whatever credentials are passed, and also
    when none are passed and none are stored, the result is valid, with
    nothing missing and nothing partial. *)
Theorem unknown_service_is_valid (sm : StorageManager.t)
        (service credentials : value) (w : world) :
  to_string service ∉ ["google"; "wordpress"; "ai"] →
  inherited (to_string service) = false →
  truthy credentials = true
  ∨ localStorage w !! StorageManager.getKey sm (credentials_key service) = None →
  validateCredentials E sm service credentials w
  = (Ok (VObj [("valid", VBool true); ("missing", VArr []);
               ("hasPartial", VBool false)]), w).
Proof.
  intros Hservice Hinh Hcreds.
  assert (Hreq : getRequiredFields service = Some []).
  { unfold getRequiredFields. cbv zeta. rewrite Hinh.
    repeat match goal with
           | |- context [String.eqb ?a ?b] =>
               destruct (String.eqb_spec a b) as [Heq|_];
               [try reflexivity; exfalso; apply Hservice; rewrite Heq;
                repeat (try (left; fail); right) |]
           end; try reflexivity. }
  unfold validateCredentials. rewrite Hreq.
  destruct (truthy credentials) eqn:Ht.
  - unfold bind, ret. destruct credentials; try discriminate Ht; cbn;
      rewrite ?andb_false_r; reflexivity.
  - destruct Hcreds as [?|Hnone]; [discriminate |].
    destruct (load_missing E sm (credentials_key service) (VObj []) w Hnone) as [Hl _].
    erewrite bind_run by exact Hl. reflexivity.
Qed.

Lemma set_prop_nodup (k : string) (v : value) (ps : list (string * value)) :
  NoDup ps.*1 → NoDup (set_prop k v ps).*1.
Proof.
  induction ps as [|[k' v'] ps IH]; intros Hnd; cbn [set_prop].
  - cbn. apply NoDup_singleton.
  - cbn in Hnd. apply NoDup_cons in Hnd as [Hk' Hnd].
    destruct (String.eqb_spec k k') as [->|Hne]; cbn.
    + apply NoDup_cons. split; assumption.
    + apply NoDup_cons. split; [| exact (IH Hnd)].
      change (k' ∉ (set_prop k v ps).*1). rewrite set_prop_keys.
      intros [?|?]; [congruence | contradiction].
Qed.

Lemma set_prop_forall (P : value → Prop) (k : string) (v : value)
      (ps : list (string * value)) :
  P v → Forall (λ kv, P kv.2) ps → Forall (λ kv, P kv.2) (set_prop k v ps).
Proof.
  intros Hv. induction 1 as [|[k' v'] ps Hv' Hps IH]; cbn [set_prop].
  - constructor; [exact Hv | constructor].
  - destruct (String.eqb k k'); constructor; assumption.
Qed.

Lemma spread_nodup (more base : list (string * value)) :
  NoDup base.*1 → NoDup (spread base more).*1.
Proof.
  revert base. induction more as [|[k v] more IH]; intros base Hnd; [exact Hnd |].
  unfold spread in *. cbn [fold_left fst snd]. apply IH, set_prop_nodup, Hnd.
Qed.

Lemma spread_forall (P : value → Prop) (more base : list (string * value)) :
  Forall (λ kv, P kv.2) base → Forall (λ kv, P kv.2) more →
  Forall (λ kv, P kv.2) (spread base more).
Proof.
  revert base. induction more as [|[k v] more IH]; intros base Hb Hm; [exact Hb |].
  unfold spread in *. cbn [fold_left fst snd].
  apply Forall_cons in Hm as [Hv Hm]. apply IH; [| exact Hm].
  apply set_prop_forall; assumption.
Qed.

Lemma spread_keys (more base : list (string * value)) (k : string) :
  k ∈ (spread base more).*1 ↔ k ∈ base.*1 ∨ k ∈ more.*1.
Proof.
  revert base. induction more as [|[k' v] more IH]; intros base.
  - cbn. rewrite elem_of_nil. tauto.
  - unfold spread in *. cbn [fold_left fst snd]. rewrite IH, set_prop_keys.
    cbn [fmap list_fmap fst]. rewrite elem_of_cons. tauto.
Qed.

(** In [{...base, ...more}] a key of [more] has the value [more] gives
    it, every other key the value [base] gives it. *)
Lemma lookup_spread (more base : list (string * value)) (k : string) :
  NoDup more.*1 →
  lookup_prop k (spread base more)
  = if bool_decide (k ∈ more.*1) then lookup_prop k more else lookup_prop k base.
Proof.
  revert base. induction more as [|[k' v] more IH]; intros base Hnd; [reflexivity |].
  cbn in Hnd. apply NoDup_cons in Hnd as [Hk' Hnd].
  unfold spread in *. cbn [fold_left fst snd]. rewrite (IH _ Hnd).
  cbn [fmap list_fmap fst lookup_prop]. rewrite lookup_set_prop.
  destruct (String.eqb_spec k k') as [->|Hne].
  - rewrite (bool_decide_eq_false_2 _ Hk').
    rewrite bool_decide_eq_true_2 by left. reflexivity.
  - destruct (decide (k ∈ more.*1)) as [Hin|Hnin].
    + rewrite !bool_decide_eq_true_2; [reflexivity | right; exact Hin | exact Hin].
    + rewrite !bool_decide_eq_false_2; [reflexivity | | exact Hnin].
      intros Hin. apply elem_of_cons in Hin as [?|?]; contradiction.
Qed.

Lemma jsonable_object (ps : list (string * value)) :
  NoDup ps.*1 → Forall (λ kv, jsonable kv.2 = true) ps → jsonable (VObj ps) = true.
Proof.
  intros Hnd Hall. cbn [jsonable]. apply andb_true_iff.
  split; [apply bool_decide_eq_true; exact Hnd |].
  induction Hall as [|[k v] ps Hv _ IH]; [reflexivity |].
  cbn in Hnd. apply NoDup_cons in Hnd as [_ Hnd].
  apply andb_true_iff. split; [exact Hv | exact (IH Hnd)].
Qed.

(** X18. [updateCredentials(service, updates)] merges: when it returns
    true, the credentials then stored for the service give every key of
    [updates] the value [updates] has for it and every other key the
    value it had, and have no other keys. *)
Theorem updateCredentials_merges (sm : StorageManager.t) (service : value)
        (cur ups : list (string * value)) (w : world) :
  loadCredentials E sm service w = (Ok (VObj cur), w) →
  jsonable (VObj cur) = true → jsonable (VObj ups) = true →
  let done := updateCredentials E sm service (VObj ups) w in
  done.1 = Ok true →
  ∃ merged,
    loadCredentials E sm service done.2 = (Ok (VObj merged), done.2)
    ∧ (∀ k, lookup_prop k merged
            = if bool_decide (k ∈ ups.*1) then lookup_prop k ups
              else lookup_prop k cur)
    ∧ (∀ k, k ∈ merged.*1 ↔ k ∈ cur.*1 ∨ k ∈ ups.*1).
Proof.
  intros Hcur Hjc Hju done Hok. subst done.
  destruct (jsonable_members cur Hjc) as [Hndc Hallc].
  destruct (jsonable_members ups Hju) as [Hndu Hallu].
  unfold updateCredentials in *. cbv zeta in *.
  rewrite (bind_run _ _ _ _ _ Hcur) in *. cbn [own_props] in *.
  assert (Hbase : spread [] cur = cur) by (apply (spread_fresh cur []); exact Hndc).
  rewrite Hbase in *.
  assert (Hjm : jsonable (VObj (spread cur ups)) = true).
  { apply jsonable_object; [apply spread_nodup; exact Hndc |].
    apply (spread_forall (λ v, jsonable v = true)); assumption. }
  unfold saveCredentials, filterCredentials in *. cbv zeta in *.
  destruct (save_then_load E sm (credentials_key service) (VObj [])
              (VObj (spread cur ups)) w Hjm Hok) as [_ Hload].
  exists (spread cur ups). split; [exact Hload |]. split.
  - intros k. apply lookup_spread. exact Hndu.
  - intros k. apply spread_keys.
Qed.

Lemma delete_prop_keys (k k' : string) (ps : list (string * value)) :
  k' ∈ (delete_prop k ps).*1 ↔ k' ≠ k ∧ k' ∈ ps.*1.
Proof.
  induction ps as [|[k0 v0] ps IH]; cbn [delete_prop].
  - cbn. rewrite elem_of_nil. tauto.
  - destruct (String.eqb_spec k k0) as [->|Hne]; cbn [fmap list_fmap fst];
      rewrite ?elem_of_cons, IH; intuition congruence.
Qed.

Lemma without_tokens_keys (ps ps' : list (string * value)) :
  without_tokens (VObj ps) = VObj ps' →
  ("accessToken" ∉ ps'.*1) ∧ ("refreshToken" ∉ ps'.*1) ∧ ("tokenExpiry" ∉ ps'.*1).
Proof.
  cbn [without_tokens]. intros H. injection H as <-.
  rewrite !delete_prop_keys. repeat split; intros H; decompose [and] H; congruence.
Qed.

Lemma elem_of_set_prop (k : string) (v : value) (ps : list (string * value))
      (x : string * value) :
  x ∈ set_prop k v ps → x = (k, v) ∨ x ∈ ps.
Proof.
  induction ps as [|[k' v'] ps IH]; cbn [set_prop].
  - rewrite elem_of_cons, elem_of_nil. tauto.
  - destruct (String.eqb k k'); rewrite !elem_of_cons; [tauto |].
    intros [?|Hin]; [tauto |]. destruct (IH Hin); tauto.
Qed.

Lemma loadCredentials_value (sm : StorageManager.t) (service : value) (w : world) :
  ∃ v w', loadCredentials E sm service w = (Ok v, w')
          ∧ v = read_item E (localStorage w !! StorageManager.getKey sm (credentials_key service))
                          (VObj [])
          ∧ localStorage w' = localStorage w ∧ self w' = self w.
Proof.
  unfold loadCredentials.
  destruct (load_value E sm (credentials_key service) (VObj []) w) as (Hv & Hst & Hse).
  destruct (StorageManager.load E sm (credentials_key service) (VObj []) w) as [r w'].
  cbn [fst snd] in *. subst r. eexists _, w'. repeat split; assumption.
Qed.

(** What [export_each] collects: for each service, what is stored for
    it, less the token fields unless they were asked for. *)
Lemma export_each_inv (sm : StorageManager.t) (includeTokens : value)
      (st : gmap string string) (keys : list string) :
  let exported (x : string * value) :=
    ∃ v, v = read_item E (st !! StorageManager.getKey sm (credentials_key (VStr x.1)))
                       (VObj [])
         ∧ x.2 = if negb (truthy includeTokens) && truthy v
                 then without_tokens v else v in
  ∀ acc w,
    localStorage w = st → Forall exported acc →
    ∃ out w',
      export_each E sm includeTokens keys acc w = (Ok out, w')
      ∧ localStorage w' = st ∧ self w' = self w ∧ Forall exported out.
Proof.
  intros exported. induction keys as [|key keys IH]; intros acc w Hst Hacc.
  - exists acc, w. repeat split; assumption.
  - cbn [export_each]. destruct (service_of key) as [service|]; [| apply IH; assumption].
    destruct (loadCredentials_value sm (VStr service) w) as (v & w1 & Hrun & Hv & Hst1 & Hse1).
    rewrite (bind_run _ _ _ _ _ Hrun).
    destruct (IH (assign service
                         (if negb (truthy includeTokens) && truthy v
                          then without_tokens v else v) acc) w1)
      as (out & w' & Hout & Hst' & Hse' & Hall).
    + congruence.
    + unfold assign. destruct (String.eqb service "__proto__"); [exact Hacc |].
      apply Forall_forall. intros x Hx. apply elem_of_set_prop in Hx as [->|Hx].
      * exists v. split; [rewrite <- Hst; exact Hv | reflexivity].
      * rewrite Forall_forall in Hacc. exact (Hacc x Hx).
    + exists out, w'. repeat split; [exact Hout | exact Hst' | congruence | exact Hall].
Qed.

(** X19. [exportCredentials(includeTokens)] never throws and leaves
    localStorage as it is.  Each service it exports carries what
    [loadCredentials] returns for it, less [accessToken], [refreshToken]
    and [tokenExpiry] unless [includeTokens] is truthy: exported without
    tokens, no credentials object has any of the three keys. *)
Theorem exportCredentials_spec (sm : StorageManager.t) (includeTokens : value)
        (w : world) :
  ∃ out w',
    exportCredentials E sm includeTokens w = (Ok (VObj out), w')
    ∧ localStorage w' = localStorage w
    ∧ (∀ s c, (s, c) ∈ out →
         ∃ v, (loadCredentials E sm (VStr s) w).1 = Ok v
              ∧ c = if negb (truthy includeTokens) && truthy v
                    then without_tokens v else v)
    ∧ (truthy includeTokens = false →
       ∀ s ps, (s, VObj ps) ∈ out →
         ("accessToken" ∉ ps.*1) ∧ ("refreshToken" ∉ ps.*1) ∧ ("tokenExpiry" ∉ ps.*1)).
Proof.
  destruct (export_each_inv sm includeTokens (localStorage w)
              (map (substring_from
                      (length_plus_one (string_to_number E) (StorageManager.namespace sm)))
                   (List.filter (StorageManager.in_namespace sm)
                                (StorageManager.storage_keys w)))
              [] w eq_refl (Forall_nil_2 _))
    as (out & w' & Hrun & Hst & _ & Hall).
  exists out, w'. unfold exportCredentials.
  unfold bind at 1. unfold StorageManager.getAllKeys at 1.
  rewrite (bind_run _ _ _ _ _ Hrun).
  split; [reflexivity |]. split; [exact Hst |].
  rewrite Forall_forall in Hall. split.
  - intros s c Hin. destruct (Hall _ Hin) as (v & Hv & Hc). cbn [fst snd] in *.
    exists v. split; [| exact Hc].
    destruct (loadCredentials_value sm (VStr s) w) as (v' & w1 & -> & Hv' & _).
    cbn [fst]. congruence.
  - intros Hinc s ps Hin. destruct (Hall _ Hin) as (v & _ & Hc). cbn [fst snd] in *.
    rewrite Hinc in Hc. cbn [negb andb] in Hc.
    destruct (truthy v) eqn:Htv.
    + destruct v; try discriminate Hc.
      symmetry in Hc. exact (without_tokens_keys _ _ Hc).
    + subst v. discriminate Htv.
Qed.

Lemma hasCredentials_value (sm : StorageManager.t) (service : value) (w : world) :
  ∃ h w', hasCredentials E sm service w = (Ok h, w')
          ∧ h = (let creds :=
                   read_item E (localStorage w
                              !! StorageManager.getKey sm (credentials_key service))
                             (VObj []) in
                 if truthy creds then VBool (0 <? length (own_props creds))%nat
                 else creds)
          ∧ localStorage w' = localStorage w ∧ self w' = self w.
Proof.
  destruct (loadCredentials_value sm service w) as (v & w' & Hrun & Hv & Hst & Hse).
  unfold hasCredentials. rewrite (bind_run _ _ _ _ _ Hrun). subst v.
  eexists _, w'. repeat split; assumption.
Qed.

Lemma hasCredentials_store (sm : StorageManager.t) (service : value) (w1 w2 : world) :
  localStorage w1 !! StorageManager.getKey sm (credentials_key service)
  = localStorage w2 !! StorageManager.getKey sm (credentials_key service) →
  (hasCredentials E sm service w1).1 = (hasCredentials E sm service w2).1.
Proof.
  intros Heq.
  destruct (hasCredentials_value sm service w1) as (h1 & w1' & -> & -> & _).
  destruct (hasCredentials_value sm service w2) as (h2 & w2' & -> & -> & _).
  cbn [fst]. rewrite Heq. reflexivity.
Qed.

Lemma credentials_key_inj (sm : StorageManager.t) (s s' : string) :
  StorageManager.getKey sm (credentials_key (VStr s))
  = StorageManager.getKey sm (credentials_key (VStr s')) → s = s'.
Proof.
  intros H. apply getKey_inj in H. cbn [credentials_key to_string] in H.
  apply append_inj_r in H. exact H.
Qed.

(** What [import_each] leaves behind when it must not overwrite. *)
Lemma import_each_inv (sm : StorageManager.t) (overwrite : value)
      (items : list (string * value)) :
  truthy overwrite = false →
  ∀ results w,
    NoDup (results.*1 ++ items.*1) → "__proto__" ∉ items.*1 →
    ∃ flags w',
      import_each E sm overwrite items results w = (Ok (results ++ flags), w')
      ∧ flags.*1 = items.*1
      ∧ (∀ s c, (s, c) ∈ items →
           ∀ h, (hasCredentials E sm (VStr s) w).1 = Ok h →
             (truthy h = true →
              lookup_prop s flags = VBool false
              ∧ localStorage w' !! StorageManager.getKey sm (credentials_key (VStr s))
                = localStorage w !! StorageManager.getKey sm (credentials_key (VStr s)))
             ∧ (truthy h = false →
                (lookup_prop s flags = VBool true
                 ∧ localStorage w' !! StorageManager.getKey sm (credentials_key (VStr s))
                   = Some (text_of (JSON.stringify c)))
                ∨ (lookup_prop s flags = VBool false
                   ∧ localStorage w' !! StorageManager.getKey sm (credentials_key (VStr s))
                     = localStorage w
                       !! StorageManager.getKey sm (credentials_key (VStr s)))))
      ∧ (∀ s, s ∉ items.*1 →
           localStorage w' !! StorageManager.getKey sm (credentials_key (VStr s))
           = localStorage w !! StorageManager.getKey sm (credentials_key (VStr s))).
Proof.
  intros Hov. induction items as [|[s c] items IH]; intros results w Hnd Hproto.
  - exists [], w. rewrite app_nil_r.
    split; [reflexivity |]. split; [reflexivity |]. split; [| reflexivity].
    intros s c Hin. inversion Hin.
  - cbn [fmap list_fmap fst] in Hnd, Hproto.
    apply not_elem_of_cons in Hproto as [Hs Hproto].
    assert (Hsr : s ∉ results.*1).
    { apply NoDup_app in Hnd as (_ & Hdis & _). intros Hin. apply (Hdis s Hin). left. }
    assert (Hsi : s ∉ items.*1).
    { apply NoDup_app in Hnd as (_ & _ & Hnd). apply NoDup_cons in Hnd as [Hnd _]. exact Hnd. }
    assert (Hnd' : ∀ b, NoDup ((results ++ [(s, VBool b)]).*1 ++ items.*1)).
    { intros b. rewrite fmap_app. cbn [fmap list_fmap fst]. rewrite <- app_assoc. exact Hnd. }
    assert (Hassign : ∀ b, assign s (VBool b) results = results ++ [(s, VBool b)]).
    { intros b. unfold assign. destruct (String.eqb_spec s "__proto__") as [->|_]; [congruence |].
      apply set_prop_fresh. exact Hsr. }
    assert (Hother : ∀ s' c', (s', c') ∈ items → s' ≠ s).
    { intros s' c' Hin ->. apply Hsi. apply list_elem_of_fmap.
      exists (s, c'). split; [reflexivity | exact Hin]. }
    cbn [import_each]. rewrite Hov.
    destruct (hasCredentials_value sm (VStr s) w) as (h0 & w1 & Hhas & Hh0 & Hst1 & _).
    pose proof (f_equal fst Hhas) as Hhas1. cbn [fst] in Hhas1.
    clear Hh0.
    rewrite (bind_run _ _ w w1 (negb (truthy h0)))
      by (rewrite (bind_run _ _ _ _ _ Hhas); reflexivity).
    destruct (truthy h0) eqn:Hth; cbn [negb].
    + (* the service has credentials: skipped *)
      rewrite Hassign.
      destruct (IH (results ++ [(s, VBool false)]) w1 (Hnd' false) Hproto)
        as (flags & w' & Hrun & Hkeys & Hitems & Hrest).
      exists ((s, VBool false) :: flags), w'. rewrite Hrun, <- app_assoc.
      split; [reflexivity |]. split; [cbn; rewrite Hkeys; reflexivity |].
      split.
      * intros s' c' Hin h Hh. apply elem_of_cons in Hin as [Heq|Hin].
        -- injection Heq as -> ->. rewrite Hhas1 in Hh. injection Hh as <-.
           split; [| congruence]. intros _. cbn [lookup_prop]. rewrite String.eqb_refl.
           split; [reflexivity |]. rewrite (Hrest s Hsi), Hst1. reflexivity.
        -- pose proof (Hother s' c' Hin) as Hne.
           cbn [lookup_prop]. destruct (String.eqb_spec s' s) as [?|_]; [contradiction |].
           rewrite <- Hst1.
           apply (Hitems s' c' Hin h).
           rewrite <- Hh. apply hasCredentials_store. rewrite Hst1. reflexivity.
      * intros s' Hs'. cbn in Hs'. apply not_elem_of_cons in Hs' as [_ Hs'].
        rewrite (Hrest s' Hs'), Hst1. reflexivity.
    + (* the service has none: saved *)
      unfold saveCredentials, filterCredentials. cbv zeta.
      pose proof (save_run E sm (credentials_key (VStr s)) c w1) as Hsave.
      cbv zeta in Hsave.
      destruct (storage_accepts E (localStorage w1)
                  (StorageManager.getKey sm (credentials_key (VStr s)))
                  (text_of (JSON.stringify c))) eqn:Hacc;
        rewrite (bind_run _ _ _ _ _ Hsave), Hassign;
        match goal with
        | |- context [import_each E sm overwrite items ?r ?w2] =>
            destruct (IH r w2 (Hnd' _) Hproto)
              as (flags & w' & Hrun & Hkeys & Hitems & Hrest)
        end.
      * exists ((s, VBool true) :: flags), w'. rewrite Hrun, <- app_assoc.
        split; [reflexivity |]. split; [cbn; rewrite Hkeys; reflexivity |].
        split.
        -- intros s' c' Hin h Hh. apply elem_of_cons in Hin as [Heq|Hin].
           ++ injection Heq as -> ->. rewrite Hhas1 in Hh. injection Hh as <-.
              split; [congruence |]. intros _. left. cbn [lookup_prop].
              rewrite String.eqb_refl. split; [reflexivity |].
              rewrite (Hrest s Hsi). unfold with_item. cbn [localStorage].
              apply lookup_insert_eq.
           ++ pose proof (Hother s' c' Hin) as Hne.
              cbn [lookup_prop]. destruct (String.eqb_spec s' s) as [?|_]; [contradiction |].
              assert (Hsame : localStorage
                                (with_item (StorageManager.getKey sm (credentials_key (VStr s)))
                                   (text_of (JSON.stringify c))
                                   (logged (ESetItem
                                              (StorageManager.getKey sm (credentials_key (VStr s)))
                                              (text_of (JSON.stringify c))) w1))
                              !! StorageManager.getKey sm (credentials_key (VStr s'))
                              = localStorage w
                                !! StorageManager.getKey sm (credentials_key (VStr s'))).
              { unfold with_item, logged. cbn [localStorage]. rewrite <- Hst1.
                apply lookup_insert_ne. intros Heq. apply credentials_key_inj in Heq.
                congruence. }
              rewrite <- Hsame. apply (Hitems s' c' Hin h).
              rewrite <- Hh. apply hasCredentials_store. exact Hsame.
        -- intros s' Hs'. cbn in Hs'. apply not_elem_of_cons in Hs' as [Hne Hs'].
           rewrite (Hrest s' Hs'). unfold with_item, logged. cbn [localStorage].
           rewrite <- Hst1. apply lookup_insert_ne. intros Heq.
           apply credentials_key_inj in Heq. congruence.
      * exists ((s, VBool false) :: flags), w'. rewrite Hrun, <- app_assoc.
        split; [reflexivity |]. split; [cbn; rewrite Hkeys; reflexivity |].
        split.
        -- intros s' c' Hin h Hh. apply elem_of_cons in Hin as [Heq|Hin].
           ++ injection Heq as -> ->. rewrite Hhas1 in Hh. injection Hh as <-.
              split; [congruence |]. intros _. right. cbn [lookup_prop].
              rewrite String.eqb_refl. split; [reflexivity |].
              rewrite (Hrest s Hsi). unfold logged. cbn [localStorage].
              rewrite Hst1. reflexivity.
           ++ pose proof (Hother s' c' Hin) as Hne.
              cbn [lookup_prop]. destruct (String.eqb_spec s' s) as [?|_]; [contradiction |].
              unfold logged in Hitems. cbn [localStorage] in Hitems. rewrite <- Hst1.
              apply (Hitems s' c' Hin h).
              rewrite <- Hh. apply hasCredentials_store. cbn [localStorage].
              rewrite Hst1. reflexivity.
        -- intros s' Hs'. cbn in Hs'. apply not_elem_of_cons in Hs' as [Hne Hs'].
           rewrite (Hrest s' Hs'). unfold logged. cbn [localStorage]. rewrite Hst1.
           reflexivity.
Qed.

(** X20. [importCredentials(credentials, overwrite)] with [overwrite]
    falsy never replaces what a service already has: it returns one flag
    per service, false for every service that had credentials, whose
    stored credentials are untouched.  A service that had none and is
    reported true then loads the credentials that were imported. *)
Theorem importCredentials_keeps_existing (sm : StorageManager.t)
        (items : list (string * value)) (overwrite : value) (w : world) :
  truthy overwrite = false → NoDup items.*1 → "__proto__" ∉ items.*1 →
  ∃ results w',
    importCredentials E sm (VObj items) overwrite w = (Ok (VObj results), w')
    ∧ results.*1 = items.*1
    ∧ (∀ s c h, (s, c) ∈ items →
         (hasCredentials E sm (VStr s) w).1 = Ok h → truthy h = true →
         lookup_prop s results = VBool false
         ∧ (loadCredentials E sm (VStr s) w').1 = (loadCredentials E sm (VStr s) w).1)
    ∧ (∀ s c, (s, c) ∈ items →
         lookup_prop s results = VBool true → jsonable c = true →
         loadCredentials E sm (VStr s) w' = (Ok c, w')).
Proof.
  intros Hov Hnd Hproto.
  destruct (import_each_inv sm overwrite items Hov [] w Hnd Hproto)
    as (flags & w' & Hrun & Hkeys & Hitems & _).
  exists flags, w'. unfold importCredentials. cbn [entries own_props].
  rewrite (bind_run _ _ w w items eq_refl), (bind_run _ _ _ _ _ Hrun).
  split; [reflexivity |]. split; [exact Hkeys |]. split.
  - intros s c h Hin Hh Hth. destruct (Hitems s c Hin h Hh) as [Hhad _].
    destruct (Hhad Hth) as [Hflag Hstore]. split; [exact Hflag |].
    destruct (loadCredentials_value sm (VStr s) w') as (v1 & w1 & -> & -> & _).
    destruct (loadCredentials_value sm (VStr s) w) as (v2 & w2 & -> & -> & _).
    cbn [fst]. rewrite Hstore. reflexivity.
  - intros s c Hin Hflag Hj.
    destruct (hasCredentials_value sm (VStr s) w) as (h & w1 & Hhas & _).
    pose proof (f_equal fst Hhas) as Hh. cbn [fst] in Hh.
    destruct (Hitems s c Hin h Hh) as [Hhad Hnone].
    destruct (truthy h) eqn:Hth.
    + destruct (Hhad eq_refl) as [Hf _]. congruence.
    + destruct (Hnone eq_refl) as [[_ Hstore]|[Hf _]]; [| congruence].
      destruct (parse_text_stringify (JSON_beyond E) c Hj) as (text & Htext & Hne & Hparse).
      rewrite Htext in Hstore. cbn [text_of] in Hstore.
      unfold loadCredentials. apply load_run with (text := text); assumption.
Qed.

Lemma filter_all {A} (f : A → bool) (l : list A) :
  (∀ x, f x = true) → List.filter f l = l.
Proof.
  intros H. induction l as [|x l IH]; [reflexivity |].
  cbn [List.filter]. rewrite H, IH. reflexivity.
Qed.

(** X21. [clearCredentials(service)] returns true and leaves the service
    as if nothing had ever been stored for it: [loadCredentials] returns
    the empty object, [hasCredentials] is false, and validating from
    storage reports every required field missing and nothing partial.
    The credentials of every other service are untouched. *)
Theorem clearCredentials_spec (sm : StorageManager.t) (service : value) (w : world) :
  let done := clearCredentials sm service w in
  done.1 = Ok true
  ∧ loadCredentials E sm service done.2 = (Ok (VObj []), done.2)
  ∧ hasCredentials E sm service done.2 = (Ok (VBool false), done.2)
  ∧ (∀ fields, getRequiredFields service = Some fields →
       validateCredentials E sm service VUndefined done.2
       = (Ok (VObj [("valid", VBool (length fields =? 0)%nat);
                    ("missing", VArr (map VStr fields));
                    ("hasPartial", VBool false)]), done.2))
  ∧ (∀ service', to_string service' ≠ to_string service →
       (loadCredentials E sm service' done.2).1 = (loadCredentials E sm service' w).1).
Proof.
  intros done.
  assert (Hrun : clearCredentials sm service w
                 = (Ok true,
                    World (self w)
                          (delete (StorageManager.getKey sm (credentials_key service))
                                  (localStorage w))
                          (now w) (intervals w) (next_interval w) (background w) (log w))).
  { unfold clearCredentials, StorageManager.remove. unfold_M. reflexivity. }
  subst done. rewrite Hrun. cbn [fst snd].
  match goal with |- context [loadCredentials E sm service ?w1] => set (w' := w1) end.
  assert (Hnone : localStorage w' !! StorageManager.getKey sm (credentials_key service) = None).
  { subst w'. cbn [localStorage]. apply lookup_delete_eq. }
  destruct (load_missing E sm (credentials_key service) (VObj []) w' Hnone) as [Hload _].
  change (fallback (VObj [])) with (VObj []) in Hload.
  split; [reflexivity |]. split; [exact Hload |]. split; [| split].
  - unfold hasCredentials. erewrite bind_run by exact Hload. reflexivity.
  - intros fields Hreq. unfold validateCredentials. cbn [truthy].
    erewrite bind_run by exact Hload. rewrite Hreq.
    cbn [own_props lookup_prop truthy negb length]. rewrite filter_all by reflexivity.
    reflexivity.
  - intros service' Hne.
    destruct (loadCredentials_value sm service' w') as (v1 & w1 & -> & -> & _).
    destruct (loadCredentials_value sm service' w) as (v2 & w2 & -> & -> & _).
    cbn [fst]. subst w'. cbn [localStorage]. rewrite lookup_delete_ne; [reflexivity |].
    intros Heq. apply getKey_inj in Heq. cbn [credentials_key to_string] in Heq.
    apply append_inj_r in Heq. congruence.
Qed.

End Credentials.

(** A run of X16: Google credentials saved, then validated from
    storage. *)
Lemma saved_credentials_validate_run :
  let sm := StorageManager.Make (VStr "app") (VBool false) (VArr []) in
  let creds := VObj [("clientId", VStr "abc"); ("spreadsheetId", VStr "")] in
  let saved := CredentialsManager.saveCredentials Sample.quiet sm (VStr "google") creds
                 (Sample.page 0 ∅) in
  CredentialsManager.loadCredentials Sample.quiet sm (VStr "google") saved.2 = (Ok creds, saved.2)
  ∧ CredentialsManager.validateCredentials Sample.quiet sm (VStr "google") VUndefined saved.2
    = CredentialsManager.validateCredentials Sample.quiet sm (VStr "google") creds saved.2.
Proof.
  intros sm creds saved.
  apply (saved_credentials_validate Sample.quiet sm (VStr "google") creds (Sample.page 0 ∅));
    vm_compute; reflexivity.
Defined.

(** A run of X17: the misspelt service [gogle], with credentials that
    lack every field. *)
Lemma unknown_service_is_valid_run :
  let sm := StorageManager.Make (VStr "app") (VBool false) (VArr []) in
  CredentialsManager.validateCredentials Sample.quiet sm (VStr "gogle") (VObj [("note", VStr "x")])
    (Sample.page 0 ∅)
  = (Ok (VObj [("valid", VBool true); ("missing", VArr []);
               ("hasPartial", VBool false)]), Sample.page 0 ∅).
Proof.
  intros sm.
  apply (unknown_service_is_valid Sample.quiet sm (VStr "gogle") (VObj [("note", VStr "x")])
           (Sample.page 0 ∅)).
  - apply (bool_decide_unpack _). vm_compute. exact I.
  - reflexivity.
  - left. reflexivity.
Defined.

(** A run of X18: a new access token merged into stored Google
    credentials. *)
Lemma updateCredentials_merges_run :
  let sm := StorageManager.Make (VStr "app") (VBool false) (VArr []) in
  let cur := [("clientId", VStr "abc"); ("accessToken", VStr "old")] in
  let ups := [("accessToken", VStr "new"); ("tokenExpiry", VNum 5)] in
  let w := Sample.page 0 {[ "app_credentials_google"
                            := text_of (JSON.stringify (VObj cur)) ]} in
  let done := CredentialsManager.updateCredentials Sample.quiet sm (VStr "google")
                (VObj ups) w in
  ∃ merged,
    CredentialsManager.loadCredentials Sample.quiet sm (VStr "google") done.2
    = (Ok (VObj merged), done.2)
    ∧ (∀ k, lookup_prop k merged
            = if bool_decide (k ∈ ups.*1) then lookup_prop k ups
              else lookup_prop k cur)
    ∧ (∀ k, k ∈ merged.*1 ↔ k ∈ cur.*1 ∨ k ∈ ups.*1).
Proof.
  intros sm cur ups w done.
  apply (updateCredentials_merges Sample.quiet sm (VStr "google") cur ups w);
    vm_compute; reflexivity.
Defined.

(** A run of X20: [google] has credentials, [ai] has none. *)
Lemma importCredentials_keeps_existing_run :
  let sm := StorageManager.Make (VStr "app") (VBool false) (VArr []) in
  let items := [("google", VObj [("clientId", VStr "new")]);
                ("ai", VObj [("provider", VStr "claude")])] in
  let w := Sample.page 0 {[ "app_credentials_google" := "{" +:+ JSON.quote "clientId"
                                                        +:+ ":" +:+ JSON.quote "old" +:+ "}" ]} in
  ∃ results w',
    CredentialsManager.importCredentials Sample.quiet sm (VObj items) (VBool false) w
    = (Ok (VObj results), w')
    ∧ results.*1 = items.*1
    ∧ (∀ s c h, (s, c) ∈ items →
         (CredentialsManager.hasCredentials Sample.quiet sm (VStr s) w).1 = Ok h → truthy h = true →
         lookup_prop s results = VBool false
         ∧ (CredentialsManager.loadCredentials Sample.quiet sm (VStr s) w').1
           = (CredentialsManager.loadCredentials Sample.quiet sm (VStr s) w).1)
    ∧ (∀ s c, (s, c) ∈ items →
         lookup_prop s results = VBool true → jsonable c = true →
         CredentialsManager.loadCredentials Sample.quiet sm (VStr s) w' = (Ok c, w')).
Proof.
  intros sm items w.
  apply (importCredentials_keeps_existing Sample.quiet sm items (VBool false) w).
  - reflexivity.
  - apply (bool_decide_unpack _). vm_compute. exact I.
  - apply (bool_decide_unpack _). vm_compute. exact I.
Defined.

(* --------------------------------------------------------------------- *)
(** *** OAuthTokenManager: what is saved is what is loaded *)
(* --------------------------------------------------------------------- *)

Section Restore.
Context (E : Env).

Lemma stringify_written (ps : list (string * value)) :
  JSON.stringify (VObj ps) = JSON.stringify (VObj (written ps)).
Proof.
  cbn [JSON.stringify].
  match goal with
  | |- Some (_ +:+ JSON.join _ ?l +:+ _) = Some (_ +:+ JSON.join _ ?l' +:+ _) =>
      assert (Hl : l = l'); [| rewrite Hl; reflexivity]
  end.
  induction ps as [|[k v] ps IH]; [reflexivity |].
  unfold written. cbn [List.filter snd]. fold (written ps).
  destruct v; cbn [JSON.stringify]; try (f_equal; exact IH); [exact IH |].
  destruct b; f_equal; exact IH.
Qed.

Lemma written_sub (ps : list (string * value)) (kv : string * value) :
  kv ∈ written ps → kv ∈ ps ∧ kv.2 ≠ VUndefined.
Proof.
  unfold written. rewrite elem_of_bfilter. intros [H Hin]. split; [exact Hin |].
  intros Hu. rewrite Hu in H. discriminate.
Qed.

Lemma written_keys (ps : list (string * value)) :
  NoDup ps.*1 → NoDup (written ps).*1.
Proof.
  induction ps as [|[k v] ps IH]; [intros; constructor |].
  cbn [fmap list_fmap fst]. intros Hnd. apply NoDup_cons in Hnd as [Hk Hnd].
  unfold written. cbn [List.filter snd]. fold (written ps).
  destruct v; try exact (IH Hnd);
    (cbn [fmap list_fmap fst]; apply NoDup_cons; split; [| exact (IH Hnd)];
     intros Hin; apply Hk; apply list_elem_of_fmap in Hin as ([k' v'] & -> & Hin);
     apply written_sub in Hin as [Hin _];
     apply list_elem_of_fmap; exists (k', v'); split; [reflexivity | exact Hin]).
Qed.

Lemma written_jsonable (ps : list (string * value)) :
  Forall (λ kv, storable kv.2) ps → Forall (λ kv, jsonable kv.2 = true) (written ps).
Proof.
  intros Hall. rewrite Forall_forall in Hall |- *. intros kv Hin.
  apply written_sub in Hin as [Hin Hdef].
  destruct (Hall kv Hin) as [Hu | Hj]; [contradiction | exact Hj].
Qed.

Lemma lookup_prop_fresh (k : string) (ps : list (string * value)) :
  k ∉ ps.*1 → lookup_prop k ps = VUndefined.
Proof.
  induction ps as [|[k' v] ps IH]; [reflexivity |].
  cbn [fmap list_fmap fst lookup_prop]. intros Hk.
  apply not_elem_of_cons in Hk as [Hne Hk].
  destruct (String.eqb_spec k k') as [?|_]; [contradiction | exact (IH Hk)].
Qed.

(** Reading a property of the record that was written gives what reading
    it from the record that was passed gives: a member left out reads as
    [undefined], which is what it was. *)
Lemma lookup_written (k : string) (ps : list (string * value)) :
  NoDup ps.*1 → lookup_prop k (written ps) = lookup_prop k ps.
Proof.
  induction ps as [|[k' v] ps IH]; [reflexivity |].
  cbn [fmap list_fmap fst]. intros Hnd. apply NoDup_cons in Hnd as [Hk Hnd].
  unfold written. cbn [List.filter snd]. fold (written ps).
  destruct v; cbn [lookup_prop]; rewrite ?(IH Hnd); try reflexivity.
  destruct (String.eqb_spec k k') as [->|_]; [| reflexivity].
  apply lookup_prop_fresh. exact Hk.
Qed.

Lemma stored_record_parse (m : manager) :
  storable (clientId m) → storable (clientSecret m) → storable (accessToken m) →
  storable (refreshToken m) → storable (tokenExpiry m) →
  ∃ text ps,
    JSON.stringify (stored_record m) = Some text ∧ text ≠ EmptyString
    ∧ JSON.parse_text (JSON_beyond E) text = Ok (VObj ps)
    ∧ ∀ k, lookup_prop k ps = prop (stored_record m) k.
Proof.
  intros H1 H2 H3 H4 H5. unfold stored_record.
  set (ps := [("clientId", clientId m); ("clientSecret", clientSecret m);
              ("accessToken", accessToken m); ("refreshToken", refreshToken m);
              ("tokenExpiry", tokenExpiry m)]).
  assert (Hnd : NoDup ps.*1).
  { apply (bool_decide_unpack _). vm_compute. exact I. }
  assert (Hall : Forall (λ kv : string * value, storable kv.2) ps).
  { repeat (apply Forall_cons; split; [assumption |]). constructor. }
  destruct (parse_text_stringify (JSON_beyond E) (VObj (written ps)))
    as (text & Htext & Hne & Hparse).
  { apply jsonable_object; [apply written_keys; exact Hnd |].
    apply written_jsonable. exact Hall. }
  exists text, (written ps). rewrite stringify_written.
  split; [exact Htext |]. split; [exact Hne |]. split; [exact Hparse |].
  intros k. cbn [prop]. apply lookup_written. exact Hnd.
Qed.

(** X9. What [saveToStorage] writes, [loadFromStorage] reads back, in
    this manager or in any other that uses the same storage key.  Each of
    the five fields is unset ([undefined]) or holds a value JSON can
    carry, and localStorage accepts the write.  Then [saveToStorage]
    returns true, [loadFromStorage] returns true, and each of the three
    token fields is the saved one when that was truthy and [null] when it
    was not ([null], [undefined], an empty string, zero, [false]);
    [clientId] and [clientSecret] are the saved ones when those were
    truthy, and otherwise the loading manager keeps its own. *)
Theorem saved_state_is_restored (w : world) (m2 : manager) :
  let m := self w in
  storable (clientId m) → storable (clientSecret m) → storable (accessToken m) →
  storable (refreshToken m) → storable (tokenExpiry m) →
  storage_accepts E (localStorage w) (to_string (storageKey m))
                  (text_of (JSON.stringify (stored_record m))) = true →
  storageKey m2 = storageKey m →
  let out := loadFromStorage E (with_self m2 (saveToStorage E w).2) in
  (saveToStorage E w).1 = Ok true ∧
  out.1 = Ok true ∧
  accessToken (self out.2) = or_else (accessToken m) VNull ∧
  refreshToken (self out.2) = or_else (refreshToken m) VNull ∧
  tokenExpiry (self out.2) = or_else (tokenExpiry m) VNull ∧
  clientId (self out.2) = or_else (clientId m) (clientId m2) ∧
  clientSecret (self out.2) = or_else (clientSecret m) (clientSecret m2) ∧
  localStorage out.2 = localStorage (saveToStorage E w).2.
Proof.
  intros m H1 H2 H3 H4 H5 Hacc Hkey out.
  destruct (stored_record_parse m H1 H2 H3 H4 H5)
    as (text & ps & Htext & Hne & Hparse & Hps).
  pose proof (saveToStorage_run E w) as Hr. cbv zeta in Hr. fold m in Hr.
  rewrite Hacc in Hr.
  rewrite Htext in Hacc. change (text_of (Some text)) with text in Hacc.
  assert (Hw1 : (saveToStorage E w).2
                = with_item (to_string (storageKey m)) text
                            (logged (ESetItem (to_string (storageKey m)) text) w)).
  { rewrite Hr. unfold snd, kept. fold m. rewrite Htext.
    change (text_of (Some text)) with text. rewrite Hacc. reflexivity. }
  assert (Hdata : stored_data E (with_self m2 (saveToStorage E w).2) = Some (VObj ps)).
  { unfold stored_data. rewrite Hw1. cbn [with_self self localStorage with_item logged].
    rewrite Hkey, lookup_insert_eq.
    destruct text as [|c t]; [congruence |]. rewrite Hparse. reflexivity. }
  pose proof (loadFromStorage_run E (with_self m2 (saveToStorage E w).2)) as Hrun.
  rewrite Hdata in Hrun. subst out. rewrite Hrun, Hr. cbn [fst snd].
  unfold loaded. cbn [prop]. rewrite !Hps.
  repeat split.
Qed.

End Restore.

(** The run behind X9.  A manager that held [RT1] has exchanged a code
    for a response without refresh token: its [refreshToken] is
    [undefined].  What it saves loads into a manager just constructed
    with [refreshToken] [null] and the access token [AT2]. *)
Lemma saved_state_is_restored_run :
  let w := (exchangeCodeForTokens Sample.renewing (VStr "code123") VUndefined
                                  Sample.expired_with_refresh).2 in
  let out := loadFromStorage Sample.quiet
               (with_self (self Sample.constructed) (saveToStorage Sample.quiet w).2) in
  refreshToken (self w) = VUndefined ∧
  (saveToStorage Sample.quiet w).1 = Ok true ∧
  out.1 = Ok true ∧
  accessToken (self out.2) = VStr "AT2" ∧
  refreshToken (self out.2) = VNull.
Proof.
  intros w out.
  destruct (saved_state_is_restored Sample.quiet w (self Sample.constructed))
    as (Hsaved & Hok & Hat & Hrt & _).
  - right. reflexivity.
  - right. reflexivity.
  - right. reflexivity.
  - left. reflexivity.
  - right. reflexivity.
  - reflexivity.
  - reflexivity.
  - split; [reflexivity |]. split; [exact Hsaved |]. split; [exact Hok |].
    split; [exact Hat | exact Hrt].
Defined.

(* --------------------------------------------------------------------- *)
(** *** PostsManager *)
(* --------------------------------------------------------------------- *)

Section Posts.
Context (E : Env).

Import PostsManager.

Lemma jsonable_array (es : list value) :
  Forall (λ v, jsonable v = true) es → jsonable (VArr es) = true.
Proof.
  intros Hall. cbn [jsonable].
  induction Hall as [|v es Hv _ IH]; [reflexivity |].
  apply andb_true_iff. split; assumption.
Qed.

Lemma without_id_objects (postId : value) (es : list value) :
  Forall (λ p, ∃ ps, p = VObj ps) es →
  without_id postId es
  = Ok (List.filter (λ p, negb (strict_eq (lookup_prop "id" (own_props p)) postId)) es).
Proof.
  induction 1 as [|p es [ps ->] _ IH]; [reflexivity |].
  cbn [without_id get and_then List.filter own_props]. rewrite IH. cbn [and_then].
  destruct (strict_eq (lookup_prop "id" ps) postId); reflexivity.
Qed.

Lemma filter_length_le {A} (f : A → bool) (l : list A) :
  (length (List.filter f l) ≤ length l)%nat.
Proof.
  induction l as [|x l IH]; [reflexivity |].
  cbn [List.filter]. destruct (f x); cbn [length]; lia.
Qed.

Lemma filter_length_all {A} (f : A → bool) (l : list A) :
  length (List.filter f l) = length l → List.filter f l = l.
Proof.
  induction l as [|x l IH]; [reflexivity |].
  cbn [List.filter]. pose proof (filter_length_le f l) as Hle.
  destruct (f x); cbn [length]; intros H; [| lia].
  rewrite IH by lia. reflexivity.
Qed.

Lemma deletePost_run (pm : t) (postId : value) (es : list value) (w : world) :
  getAllPosts E pm w = (Ok (VArr es), w) →
  Forall (λ p, ∃ ps, p = VObj ps) es →
  let kept :=
    List.filter (λ p, negb (strict_eq (lookup_prop "id" (own_props p)) postId)) es in
  deletePost E pm postId w
  = if (length kept <? length es)%nat
    then StorageManager.save E (base pm) postsKey (VArr kept) w
    else (Ok false, w).
Proof.
  intros Hposts Hobj kept.
  unfold deletePost. rewrite (bind_run _ _ _ _ _ Hposts).
  cbn [as_array]. rewrite (bind_run _ _ w w es eq_refl).
  rewrite (bind_run _ _ w w kept)
    by (unfold lift; rewrite without_id_objects by exact Hobj; reflexivity).
  destruct (length kept <? length es)%nat; reflexivity.
Qed.

(** X22. [deletePost(postId)] on stored posts that are objects of
    values JSON can carry.  When no post has that id it returns false and
    writes nothing.  Otherwise it saves the posts whose id differs from
    [postId], in their order, of which there are fewer, and returns what
    [save] returns: true exactly when localStorage accepts the write, and
    then the posts stored are those; false when it does not, and then the
    store is as it was. *)
Theorem deletePost_spec (pm : t) (postId : value) (es : list value) (w : world) :
  getAllPosts E pm w = (Ok (VArr es), w) →
  jsonable (VArr es) = true →
  Forall (λ p, ∃ ps, p = VObj ps) es →
  let kept :=
    List.filter (λ p, negb (strict_eq (lookup_prop "id" (own_props p)) postId)) es in
  let done := deletePost E pm postId w in
  (kept = es → done = (Ok false, w))
  ∧ (kept ≠ es →
     (length kept < length es)%nat
     ∧ done = StorageManager.save E (base pm) postsKey (VArr kept) w
     ∧ (done.1 = Ok true
        ↔ storage_accepts E (localStorage w)
                          (StorageManager.getKey (base pm) postsKey)
                          (text_of (JSON.stringify (VArr kept))) = true)
     ∧ (done.1 = Ok true →
        getAllPosts E pm done.2 = (Ok (VArr kept), done.2))
     ∧ (done.1 = Ok true
        ∨ done.1 = Ok false ∧ localStorage done.2 = localStorage w)).
Proof.
  intros Hposts Hj Hobj kept done. subst done.
  rewrite (deletePost_run pm postId es w Hposts Hobj). fold kept.
  pose proof (filter_length_le
                (λ p, negb (strict_eq (lookup_prop "id" (own_props p)) postId)) es) as Hle.
  fold kept in Hle. split.
  - intros Heq. rewrite Heq, Nat.ltb_irrefl. reflexivity.
  - intros Hne.
    assert (Hlt : (length kept < length es)%nat).
    { destruct (Nat.eq_dec (length kept) (length es)) as [Heq|?]; [| lia].
      exfalso. apply Hne. apply filter_length_all. exact Heq. }
    rewrite (proj2 (Nat.ltb_lt _ _) Hlt).
    split; [exact Hlt |]. split; [reflexivity |].
    assert (Hjk : jsonable (VArr kept) = true).
    { apply jsonable_array. apply jsonable_elements in Hj.
      rewrite Forall_forall in Hj |- *. intros x Hx. apply Hj.
      apply elem_of_bfilter in Hx as [_ Hx]. exact Hx. }
    split; [| split].
    + rewrite save_run.
      destruct (storage_accepts E (localStorage w) _ _); cbn [fst];
        [tauto | split; discriminate].
    + intros Hok.
      exact (proj2 (save_then_load E (base pm) postsKey (VArr []) (VArr kept) w Hjk Hok)).
    + rewrite save_run.
      destruct (storage_accepts E (localStorage w) _ _); cbn [fst snd];
        [left; reflexivity | right; split; reflexivity].
Qed.

Lemma findIndex_first (postId : value) (before after : list value)
      (ps : list (string * value)) :
  Forall (λ p, ∃ qs, p = VObj qs ∧ strict_eq (lookup_prop "id" qs) postId = false) before →
  strict_eq (lookup_prop "id" ps) postId = true →
  findIndex postId (before ++ VObj ps :: after) = Ok (Some (length before)).
Proof.
  intros Hb Hps. induction Hb as [|p before (qs & -> & Hq) _ IH].
  - cbn [app findIndex get and_then]. rewrite Hps. reflexivity.
  - cbn [app findIndex get and_then]. rewrite Hq, IH. reflexivity.
Qed.

Lemma findIndex_none (postId : value) (es : list value) :
  Forall (λ p, ∃ qs, p = VObj qs ∧ strict_eq (lookup_prop "id" qs) postId = false) es →
  findIndex postId es = Ok None.
Proof.
  induction 1 as [|p es (qs & -> & Hq) _ IH]; [reflexivity |].
  cbn [findIndex get and_then]. rewrite Hq, IH. reflexivity.
Qed.

(** X23. [updatePost(postId, updates)]: when no stored post has that id
    it returns false and writes nothing.  Otherwise the first post with
    that id, and no other, is replaced by the merge of the post, the
    updates and a [lastModified] stamp of the current time, at its place
    in the list. *)
Theorem updatePost_spec (pm : t) (postId : value) (before after : list value)
        (ps ups : list (string * value)) (iso : string) (w : world) :
  getAllPosts E pm w = (Ok (VArr (before ++ VObj ps :: after)), w) →
  jsonable (VArr (before ++ VObj ps :: after)) = true →
  Forall (λ p, ∃ qs, p = VObj qs ∧ strict_eq (lookup_prop "id" qs) postId = false) before →
  strict_eq (lookup_prop "id" ps) postId = true →
  jsonable (VObj ups) = true →
  Date.toISOString (Num (now w)) = Ok iso →
  let done := updatePost E pm postId (VObj ups) w in
  done.1 = Ok true →
  ∃ merged,
    getAllPosts E pm done.2 = (Ok (VArr (before ++ VObj merged :: after)), done.2)
    ∧ lookup_prop "lastModified" merged = VStr iso
    ∧ (∀ k, k ≠ "lastModified" →
         lookup_prop k merged
         = if bool_decide (k ∈ ups.*1) then lookup_prop k ups else lookup_prop k ps)
    ∧ (∀ other, Forall (λ p, ∃ qs, p = VObj qs
                             ∧ strict_eq (lookup_prop "id" qs) other = false)
                       (before ++ VObj ps :: after) →
         updatePost E pm other (VObj ups) w = (Ok false, w)).
Proof.
  intros Hposts Hj Hbefore Hps Hju Hiso done Hok. subst done.
  pose proof (jsonable_elements _ Hj) as Hall.
  apply Forall_app in Hall as [Hallb Hall]. apply Forall_cons in Hall as [Hjp Halla].
  destruct (jsonable_members ps Hjp) as [Hndp Hallp].
  destruct (jsonable_members ups Hju) as [Hndu Hallu].
  set (merged := spread (spread ps ups) [("lastModified", VStr iso)]).
  assert (Hrun : updatePost E pm postId (VObj ups) w
                 = StorageManager.save E (base pm) postsKey
                     (VArr (before ++ VObj merged :: after)) w).
  { unfold updatePost. rewrite (bind_run _ _ _ _ _ Hposts).
    rewrite (bind_run (lift _) _ w w (before ++ VObj ps :: after) eq_refl).
    rewrite (bind_run _ _ w w (Some (length before)))
      by (unfold lift; rewrite (findIndex_first postId before after ps Hbefore Hps);
          reflexivity).
    rewrite (bind_run Date_now _ w w (now w) eq_refl).
    rewrite (bind_run _ _ w w iso) by (unfold lift; rewrite Hiso; reflexivity).
    rewrite nth_middle. cbn [own_props].
    rewrite (spread_fresh ps []) by exact Hndp. cbn [app].
    replace (length before) with (length before + 0)%nat by lia.
    rewrite insert_app_r. reflexivity. }
  rewrite Hrun in *.
  assert (Hjm : jsonable (VArr (before ++ VObj merged :: after)) = true).
  { apply jsonable_array. apply Forall_app. split; [exact Hallb |].
    apply Forall_cons. split; [| exact Halla].
    apply jsonable_object.
    - subst merged. apply spread_nodup, spread_nodup. exact Hndp.
    - subst merged. apply (spread_forall (λ v, jsonable v = true)).
      + apply (spread_forall (λ v, jsonable v = true)); assumption.
      + constructor; [reflexivity | constructor]. }
  exists merged.
  split; [exact (proj2 (save_then_load E (base pm) postsKey (VArr []) _ w Hjm Hok)) |].
  split; [| split].
  - subst merged. rewrite lookup_spread by (apply NoDup_singleton). reflexivity.
  - intros k Hk. subst merged. rewrite lookup_spread by (apply NoDup_singleton).
    rewrite bool_decide_eq_false_2.
    + apply lookup_spread. exact Hndu.
    + cbn. rewrite elem_of_cons, elem_of_nil. tauto.
  - intros other Hnone. unfold updatePost. rewrite (bind_run _ _ _ _ _ Hposts).
    rewrite (bind_run (lift _) _ w w (before ++ VObj ps :: after) eq_refl).
    rewrite (bind_run _ _ w w None)
      by (unfold lift; rewrite (findIndex_none other _ Hnone); reflexivity).
    reflexivity.
Qed.

Lemma stamped_object (suffix : string) (ps : list (string * value)) (iso : string)
      (w : world) :
  Date.toISOString (Num (now w)) = Ok iso →
  let ps1 := if truthy (lookup_prop "id" ps) then ps
             else set_prop "id" (VStr ("post_" +:+ pretty (now w) +:+ "_" +:+ suffix)) ps in
  let ps2 := if truthy (lookup_prop "timestamp" ps1) then ps1
             else set_prop "timestamp" (VStr iso) ps1 in
  stamped suffix (VObj ps) w = (Ok (VObj ps2), w).
Proof.
  intros Hiso ps1 ps2. unfold stamped.
  rewrite (bind_run _ _ w w ps1)
    by (subst ps1; destruct (truthy (lookup_prop "id" ps)); reflexivity).
  rewrite (bind_run _ _ w w ps2); [reflexivity |].
  subst ps2. destruct (truthy (lookup_prop "timestamp" ps1)); [reflexivity |].
  rewrite (bind_run Date_now _ w w (now w) eq_refl).
  rewrite (bind_run _ _ w w iso) by (unfold lift; rewrite Hiso; reflexivity).
  reflexivity.
Qed.

Lemma savePost_run (pm : t) (suffix : string) (ps : list (string * value))
      (es : list value) (n : Z) (iso : string) (w : world) :
  getAllPosts E pm w = (Ok (VArr es), w) →
  maxPosts pm = VNum n → (1 ≤ n)%Z →
  Date.toISOString (Num (now w)) = Ok iso →
  let ps1 := if truthy (lookup_prop "id" ps) then ps
             else set_prop "id" (VStr ("post_" +:+ pretty (now w) +:+ "_" +:+ suffix)) ps in
  let ps2 := if truthy (lookup_prop "timestamp" ps1) then ps1
             else set_prop "timestamp" (VStr iso) ps1 in
  savePost E pm suffix (VObj ps) w
  = StorageManager.save E (base pm) postsKey
      (VArr (VObj ps2 :: firstn (Z.to_nat n - 1) es)) w.
Proof.
  intros Hposts Hmax Hn Hiso ps1 ps2.
  pose proof (stamped_object suffix ps iso w Hiso) as Hstamp. cbv zeta in Hstamp.
  fold ps1 in Hstamp. fold ps2 in Hstamp.
  assert (Hkeep : (if (n <? Z.of_nat (length (VObj ps2 :: es)))%Z
                   then splice_from n (VObj ps2 :: es) else VObj ps2 :: es)
                  = VObj ps2 :: firstn (Z.to_nat n - 1) es).
  { assert (Hcut : firstn (Z.to_nat n) (VObj ps2 :: es)
                   = VObj ps2 :: firstn (Z.to_nat n - 1) es).
    { destruct (Z.to_nat n) as [|m] eqn:Hm; [lia |].
      cbn [firstn]. replace (S m - 1)%nat with m by lia. reflexivity. }
    destruct (Z.ltb_spec n (Z.of_nat (length (VObj ps2 :: es)))) as [Hlt|Hge].
    - unfold splice_from. destruct (Z.ltb_spec n 0) as [?|_]; [lia |]. exact Hcut.
    - rewrite <- Hcut. symmetry. apply firstn_all2. lia. }
  unfold savePost. rewrite (bind_run _ _ _ _ _ Hposts).
  rewrite (bind_run _ _ _ _ _ Hstamp). cbn [as_array].
  rewrite (bind_run _ _ w w es eq_refl). rewrite Hmax. cbn [to_number].
  rewrite Hkeep. reflexivity.
Qed.

Lemma stamped_jsonable (ps : list (string * value)) (k : string) (s : string) :
  NoDup ps.*1 ∧ Forall (λ kv, jsonable kv.2 = true) ps →
  let ps' := if truthy (lookup_prop k ps) then ps else set_prop k (VStr s) ps in
  NoDup ps'.*1 ∧ Forall (λ kv, jsonable kv.2 = true) ps'.
Proof.
  intros [Hnd Hall] ps'. subst ps'.
  destruct (truthy (lookup_prop k ps)); [split; assumption |].
  split; [apply set_prop_nodup; exact Hnd |].
  apply (set_prop_forall (λ v, jsonable v = true)); [reflexivity | exact Hall].
Qed.

(** X24. [savePost(post)] with a bound [maxPosts] of at least one: when
    the save succeeds, the post is the first of the stored posts,
    followed by the posts stored before, and never more than [maxPosts]
    posts are stored.  The post keeps its properties, and has an id and
    a timestamp: its own, or [post_<now>_<random>] and the current time. *)
Theorem savePost_spec (pm : t) (suffix : string) (ps : list (string * value))
        (es : list value) (n : Z) (iso : string) (w : world) :
  getAllPosts E pm w = (Ok (VArr es), w) →
  jsonable (VArr es) = true → jsonable (VObj ps) = true →
  maxPosts pm = VNum n → (1 ≤ n)%Z →
  Date.toISOString (Num (now w)) = Ok iso →
  let done := savePost E pm suffix (VObj ps) w in
  done.1 = Ok true →
  ∃ post,
    getAllPosts E pm done.2
    = (Ok (VArr (VObj post :: firstn (Z.to_nat n - 1) es)), done.2)
    ∧ (length (VObj post :: firstn (Z.to_nat n - 1) es) ≤ Z.to_nat n)%nat
    ∧ lookup_prop "id" post
      = (if truthy (lookup_prop "id" ps) then lookup_prop "id" ps
         else VStr ("post_" +:+ pretty (now w) +:+ "_" +:+ suffix))
    ∧ lookup_prop "timestamp" post
      = (if truthy (lookup_prop "timestamp" ps) then lookup_prop "timestamp" ps
         else VStr iso)
    ∧ (∀ k, k ≠ "id" → k ≠ "timestamp" → lookup_prop k post = lookup_prop k ps).
Proof.
  intros Hposts Hj Hjp Hmax Hn Hiso done Hok. subst done.
  pose proof (jsonable_elements _ Hj) as Hall.
  destruct (jsonable_members ps Hjp) as [Hndp Hallp].
  pose proof (savePost_run pm suffix ps es n iso w Hposts Hmax Hn Hiso) as Hrun.
  cbv zeta in Hrun.
  set (ps1 := if truthy (lookup_prop "id" ps) then ps
              else set_prop "id" (VStr ("post_" +:+ pretty (now w) +:+ "_" +:+ suffix)) ps)
    in *.
  set (ps2 := if truthy (lookup_prop "timestamp" ps1) then ps1
              else set_prop "timestamp" (VStr iso) ps1) in *.
  rewrite Hrun in *.
  pose proof (stamped_jsonable ps "id" ("post_" +:+ pretty (now w) +:+ "_" +:+ suffix)
                (conj Hndp Hallp)) as Hj1.
  cbv zeta in Hj1. fold ps1 in Hj1.
  pose proof (stamped_jsonable ps1 "timestamp" iso Hj1) as Hj2.
  cbv zeta in Hj2. fold ps2 in Hj2.
  assert (Hjs : jsonable (VArr (VObj ps2 :: firstn (Z.to_nat n - 1) es)) = true).
  { apply jsonable_array. apply Forall_cons.
    split; [apply jsonable_object; tauto |]. apply Forall_take. exact Hall. }
  exists ps2.
  split; [exact (proj2 (save_then_load E (base pm) postsKey (VArr []) _ w Hjs Hok)) |].
  assert (Hid1 : lookup_prop "id" ps1
                 = if truthy (lookup_prop "id" ps) then lookup_prop "id" ps
                   else VStr ("post_" +:+ pretty (now w) +:+ "_" +:+ suffix)).
  { subst ps1. destruct (truthy (lookup_prop "id" ps)); [reflexivity |].
    rewrite lookup_set_prop. reflexivity. }
  assert (Hother1 : ∀ k, k ≠ "id" → lookup_prop k ps1 = lookup_prop k ps).
  { intros k Hk. subst ps1. destruct (truthy (lookup_prop "id" ps)); [reflexivity |].
    rewrite lookup_set_prop. destruct (String.eqb_spec k "id"); [contradiction | reflexivity]. }
  split; [| split; [| split]].
  - cbn [length]. pose proof (firstn_le_length (Z.to_nat n - 1) es). lia.
  - rewrite <- Hid1. subst ps2.
    destruct (truthy (lookup_prop "timestamp" ps1)); [reflexivity |].
    rewrite lookup_set_prop. reflexivity.
  - rewrite <- (Hother1 "timestamp") by discriminate. subst ps2.
    destruct (truthy (lookup_prop "timestamp" ps1)); [reflexivity |].
    rewrite lookup_set_prop. reflexivity.
  - intros k Hid Hts. rewrite <- (Hother1 k Hid). subst ps2.
    destruct (truthy (lookup_prop "timestamp" ps1)); [reflexivity |].
    rewrite lookup_set_prop. destruct (String.eqb_spec k "timestamp"); [contradiction | reflexivity].
Qed.

(** X25. Deleting the post just saved gives back the list as it was:
    when no stored post has the id of the new post and the bound is not
    reached, [savePost(post)] followed by [deletePost(post.id)], both
    accepted by localStorage, leaves exactly the posts stored before. *)
Theorem savePost_then_deletePost (pm : t) (suffix : string)
        (ps : list (string * value)) (es : list value) (n : Z) (iso x : string)
        (w : world) :
  getAllPosts E pm w = (Ok (VArr es), w) →
  jsonable (VArr es) = true → jsonable (VObj ps) = true →
  Forall (λ p, ∃ qs, p = VObj qs ∧ strict_eq (lookup_prop "id" qs) (VStr x) = false) es →
  lookup_prop "id" ps = VStr x → x ≠ "" →
  maxPosts pm = VNum n → (Z.of_nat (length es) < n)%Z →
  Date.toISOString (Num (now w)) = Ok iso →
  let saved := savePost E pm suffix (VObj ps) w in
  saved.1 = Ok true →
  let deleted := deletePost E pm (VStr x) saved.2 in
  deleted.1 = Ok true →
  getAllPosts E pm deleted.2 = (Ok (VArr es), deleted.2).
Proof.
  intros Hposts Hj Hjp Hes Hid Hx Hmax Hn Hiso saved Hsaved deleted Hdeleted.
  subst deleted saved.
  pose proof (jsonable_elements _ Hj) as Hall.
  destruct (jsonable_members ps Hjp) as [Hndp Hallp].
  pose proof (savePost_run pm suffix ps es n iso w Hposts Hmax ltac:(lia) Hiso) as Hrun.
  cbv zeta in Hrun.
  assert (Htid : truthy (lookup_prop "id" ps) = true).
  { rewrite Hid. cbn [truthy]. destruct (String.eqb_spec x ""); [contradiction | reflexivity]. }
  rewrite Htid in Hrun.
  set (ps2 := if truthy (lookup_prop "timestamp" ps) then ps
              else set_prop "timestamp" (VStr iso) ps) in *.
  rewrite (firstn_all2 es) in Hrun by lia.
  rewrite Hrun in *.
  pose proof (stamped_jsonable ps "timestamp" iso (conj Hndp Hallp)) as Hj2.
  cbv zeta in Hj2. fold ps2 in Hj2.
  assert (Hid2 : lookup_prop "id" ps2 = VStr x).
  { subst ps2. destruct (truthy (lookup_prop "timestamp" ps)); [exact Hid |].
    rewrite lookup_set_prop. exact Hid. }
  assert (Hjs : jsonable (VArr (VObj ps2 :: es)) = true).
  { apply jsonable_array. apply Forall_cons.
    split; [apply jsonable_object; tauto | exact Hall]. }
  destruct (save_then_load E (base pm) postsKey (VArr []) _ w Hjs Hsaved) as [_ Hload].
  set (w1 := (StorageManager.save E (base pm) postsKey (VArr (VObj ps2 :: es)) w).2) in *.
  assert (Hobj : Forall (λ p, ∃ qs, p = VObj qs) (VObj ps2 :: es)).
  { apply Forall_cons. split; [eexists; reflexivity |].
    rewrite Forall_forall in Hes |- *. intros p Hp.
    destruct (Hes p Hp) as (qs & -> & _). eexists. reflexivity. }
  assert (Hkept : List.filter
                    (λ p, negb (strict_eq (lookup_prop "id" (own_props p)) (VStr x)))
                    (VObj ps2 :: es) = es).
  { cbn [List.filter own_props]. rewrite Hid2. cbn [strict_eq].
    rewrite String.eqb_refl. cbn [negb].
    clear -Hes. induction Hes as [|p es (qs & -> & Hq) _ IH]; [reflexivity |].
    cbn [List.filter own_props]. rewrite Hq. cbn [negb]. rewrite IH. reflexivity. }
  pose proof (deletePost_run pm (VStr x) (VObj ps2 :: es) w1 Hload Hobj) as Hdel.
  cbv zeta in Hdel. rewrite Hkept in Hdel. cbn [length] in Hdel.
  rewrite (proj2 (Nat.ltb_lt _ _) (Nat.lt_succ_diag_r _)) in Hdel.
  rewrite Hdel in *.
  exact (proj2 (save_then_load E (base pm) postsKey (VArr []) (VArr es) w1 Hj Hdeleted)).
Qed.

Lemma differs_objects (fs ps : list (string * value)) (field : string) :
  differs (VObj fs) (VObj ps) field
  = Ok (truthy (lookup_prop field fs)
        && negb (strict_eq (lookup_prop field ps) (lookup_prop field fs))).
Proof.
  unfold differs. cbn [get and_then].
  destruct (truthy (lookup_prop field fs)); reflexivity.
Qed.

Lemma passes_value (fs ps : list (string * value)) :
  let differ field :=
    truthy (lookup_prop field fs)
    && negb (strict_eq (lookup_prop field ps) (lookup_prop field fs)) in
  let early :=
    truthy (lookup_prop "dateFrom" fs)
    && num_lt (Date.getTime (Date_parse E) (lookup_prop "timestamp" ps))
              (Date.getTime (Date_parse E) (lookup_prop "dateFrom" fs)) in
  let late :=
    truthy (lookup_prop "dateTo" fs)
    && num_lt (Date.getTime (Date_parse E) (lookup_prop "dateTo" fs))
              (Date.getTime (Date_parse E) (lookup_prop "timestamp" ps)) in
  passes E (VObj fs) (VObj ps)
  = Ok (negb (differ "source")
        && (negb (differ "platform")
            && (negb (differ "status") && (negb early && negb late)))).
Proof.
  intros differ early late. unfold passes. rewrite !differs_objects.
  fold (differ "source"). fold (differ "platform"). fold (differ "status").
  assert (He : too_early E (VObj fs) (VObj ps) = Ok early).
  { unfold too_early. cbn [get and_then]. subst early.
    destruct (truthy (lookup_prop "dateFrom" fs)); reflexivity. }
  assert (Hl : too_late E (VObj fs) (VObj ps) = Ok late).
  { unfold too_late. cbn [get and_then]. subst late.
    destruct (truthy (lookup_prop "dateTo" fs)); reflexivity. }
  rewrite He, Hl. cbn [and_then].
  destruct (differ "source"), (differ "platform"), (differ "status"), early, late;
    reflexivity.
Qed.

Lemma passes_objects (fs ps : list (string * value)) :
  ∃ keep, passes E (VObj fs) (VObj ps) = Ok keep
    ∧ (keep = true → ∀ field, field ∈ ["source"; "platform"; "status"] →
         truthy (lookup_prop field fs) = true →
         strict_eq (lookup_prop field ps) (lookup_prop field fs) = true)
    ∧ ((∀ field, field ∈ ["source"; "platform"; "status"; "dateFrom"; "dateTo"] →
          truthy (lookup_prop field fs) = false) → keep = true).
Proof.
  pose proof (passes_value fs ps) as Hv. cbv beta zeta in Hv.
  eexists. split; [exact Hv |]. split.
  - intros Hk field Hf Ht.
    apply andb_true_iff in Hk as [H1 Hk]. apply andb_true_iff in Hk as [H2 Hk].
    apply andb_true_iff in Hk as [H3 _].
    assert (Hfield : negb (truthy (lookup_prop field fs)
                           && negb (strict_eq (lookup_prop field ps)
                                              (lookup_prop field fs))) = true).
    { repeat (apply elem_of_cons in Hf as [->|Hf]; [assumption |]). inversion Hf. }
    rewrite Ht in Hfield. cbn [andb] in Hfield.
    destruct (strict_eq (lookup_prop field ps) (lookup_prop field fs));
      [reflexivity | discriminate].
  - intros Hnone.
    rewrite !Hnone by (repeat (try (left; fail); right)). reflexivity.
Qed.

(** X26. [getPostsByFilter(filter)] on stored posts that are objects
    never throws and returns stored posts only, in their order.  Every
    post it returns has the source, the platform and the status the
    filter names; a filter that names no criterion returns every post. *)
Theorem getPostsByFilter_spec (pm : t) (fs : list (string * value))
        (es : list value) (w : world) :
  getAllPosts E pm w = (Ok (VArr es), w) →
  Forall (λ p, ∃ ps, p = VObj ps) es →
  ∃ kept,
    getPostsByFilter E pm (VObj fs) w = (Ok (VArr kept), w)
    ∧ sublist kept es
    ∧ (∀ p field, p ∈ kept → field ∈ ["source"; "platform"; "status"] →
         truthy (lookup_prop field fs) = true →
         strict_eq (lookup_prop field (own_props p)) (lookup_prop field fs) = true)
    ∧ ((∀ field, field ∈ ["source"; "platform"; "status"; "dateFrom"; "dateTo"] →
          truthy (lookup_prop field fs) = false) → kept = es).
Proof.
  intros Hposts Hobj.
  assert (Hfilter : ∃ kept,
            filter_posts E (VObj fs) es = Ok kept
            ∧ sublist kept es
            ∧ (∀ p field, p ∈ kept → field ∈ ["source"; "platform"; "status"] →
                 truthy (lookup_prop field fs) = true →
                 strict_eq (lookup_prop field (own_props p)) (lookup_prop field fs) = true)
            ∧ ((∀ field, field ∈ ["source"; "platform"; "status"; "dateFrom"; "dateTo"] →
                  truthy (lookup_prop field fs) = false) → kept = es)).
  { clear Hposts. induction Hobj as [|p es [ps ->] _ IH].
    - exists []. repeat split; [constructor | intros p field Hp; inversion Hp].
    - destruct IH as (kept & Hrun & Hsub & Hmatch & Hall).
      destruct (passes_objects fs ps) as (keep & Hpass & Hkeep & Hnone).
      cbn [filter_posts]. rewrite Hpass, Hrun. cbn [and_then].
      destruct keep.
      + exists (VObj ps :: kept). split; [reflexivity |].
        split; [constructor; exact Hsub |]. split.
        * intros p field Hp Hf Ht. apply elem_of_cons in Hp as [->|Hp].
          -- exact (Hkeep eq_refl field Hf Ht).
          -- exact (Hmatch p field Hp Hf Ht).
        * intros Hno. rewrite (Hall Hno). reflexivity.
      + exists kept. split; [reflexivity |].
        split; [constructor; exact Hsub |]. split; [exact Hmatch |].
        intros Hno. specialize (Hnone Hno). discriminate. }
  destruct Hfilter as (kept & Hrun & Hrest).
  exists kept. split; [| exact Hrest].
  unfold getPostsByFilter. rewrite (bind_run _ _ _ _ _ Hposts).
  rewrite (bind_run (lift _) _ w w es eq_refl).
  rewrite (bind_run (lift _) _ w w kept) by (unfold lift; rewrite Hrun; reflexivity).
  reflexivity.
Qed.

End Posts.

(** A run of X22: the post [a] deleted from the posts [a] and [b], where
    localStorage accepts the write.  [deletePost] returns true and the
    post [b] is what is stored. *)
Lemma deletePost_spec_run :
  let pm := PostsManager.Make (StorageManager.Make (VStr "app") (VBool false) (VArr []))
                              (VNum 1000) in
  let es := [VObj [("id", VStr "a")]; VObj [("id", VStr "b")]] in
  let w := Sample.page 0 {[ "app_generated_posts" := text_of (JSON.stringify (VArr es)) ]} in
  let done := PostsManager.deletePost Sample.quiet pm (VStr "a") w in
  done.1 = Ok true
  ∧ PostsManager.getAllPosts Sample.quiet pm done.2
    = (Ok (VArr [VObj [("id", VStr "b")]]), done.2)
  ∧ PostsManager.deletePost Sample.quiet pm (VStr "c") w = (Ok false, w).
Proof.
  intros pm es w done.
  destruct (deletePost_spec Sample.quiet pm (VStr "a") es w) as [_ Hsome].
  { vm_compute. reflexivity. }
  { vm_compute. reflexivity. }
  { repeat constructor; eexists; reflexivity. }
  destruct Hsome as (_ & _ & Hiff & Hload & _); [discriminate |].
  fold done in Hiff, Hload.
  assert (Hok : done.1 = Ok true) by (apply Hiff; reflexivity).
  split; [exact Hok |]. split; [exact (Hload Hok) |].
  vm_compute. reflexivity.
Defined.

(** A run of X23: the status of the post [b] updated. *)
Lemma updatePost_spec_run :
  let pm := PostsManager.Make (StorageManager.Make (VStr "app") (VBool false) (VArr []))
                              (VNum 1000) in
  let before := [VObj [("id", VStr "a")]] in
  let ps := [("id", VStr "b"); ("status", VStr "draft")] in
  let after := [VObj [("id", VStr "b"); ("status", VStr "old")]] in
  let ups := [("status", VStr "published")] in
  let w := Sample.page 0 {[ "app_generated_posts"
                            := text_of (JSON.stringify (VArr (before ++ VObj ps :: after))) ]} in
  let done := PostsManager.updatePost Sample.quiet pm (VStr "b") (VObj ups) w in
  ∃ merged,
    PostsManager.getAllPosts Sample.quiet pm done.2
    = (Ok (VArr (before ++ VObj merged :: after)), done.2)
    ∧ lookup_prop "lastModified" merged = VStr "1970-01-01T00:00:00.000Z"
    ∧ (∀ k, k ≠ "lastModified" →
         lookup_prop k merged
         = if bool_decide (k ∈ ups.*1) then lookup_prop k ups else lookup_prop k ps)
    ∧ (∀ other, Forall (λ p, ∃ qs, p = VObj qs
                             ∧ strict_eq (lookup_prop "id" qs) other = false)
                       (before ++ VObj ps :: after) →
         PostsManager.updatePost Sample.quiet pm other (VObj ups) w = (Ok false, w)).
Proof.
  intros pm before ps after ups w.
  apply (updatePost_spec Sample.quiet pm (VStr "b") before after ps ups
           "1970-01-01T00:00:00.000Z" w).
  - vm_compute. reflexivity.
  - vm_compute. reflexivity.
  - repeat constructor; eexists; split; reflexivity.
  - reflexivity.
  - vm_compute. reflexivity.
  - vm_compute. reflexivity.
  - vm_compute. reflexivity.
Defined.

(** A run of X24: a third post saved where two are kept. *)
Lemma savePost_spec_run :
  let pm := PostsManager.Make (StorageManager.Make (VStr "app") (VBool false) (VArr []))
                              (VNum 2) in
  let es := [VObj [("id", VStr "a")]; VObj [("id", VStr "b")]] in
  let ps := [("title", VStr "Hi")] in
  let w := Sample.page 0 {[ "app_generated_posts" := text_of (JSON.stringify (VArr es)) ]} in
  let done := PostsManager.savePost Sample.quiet pm "k3j2h1g0f" (VObj ps) w in
  ∃ post,
    PostsManager.getAllPosts Sample.quiet pm done.2
    = (Ok (VArr (VObj post :: firstn (Z.to_nat 2 - 1) es)), done.2)
    ∧ (length (VObj post :: firstn (Z.to_nat 2 - 1) es) ≤ Z.to_nat 2)%nat
    ∧ lookup_prop "id" post
      = (if truthy (lookup_prop "id" ps) then lookup_prop "id" ps
         else VStr ("post_" +:+ pretty (now w) +:+ "_" +:+ "k3j2h1g0f"))
    ∧ lookup_prop "timestamp" post
      = (if truthy (lookup_prop "timestamp" ps) then lookup_prop "timestamp" ps
         else VStr "1970-01-01T00:00:00.000Z")
    ∧ (∀ k, k ≠ "id" → k ≠ "timestamp" → lookup_prop k post = lookup_prop k ps).
Proof.
  intros pm es ps w.
  apply (savePost_spec Sample.quiet pm "k3j2h1g0f" ps es 2 "1970-01-01T00:00:00.000Z" w).
  - vm_compute. reflexivity.
  - vm_compute. reflexivity.
  - vm_compute. reflexivity.
  - reflexivity.
  - lia.
  - vm_compute. reflexivity.
  - vm_compute. reflexivity.
Defined.

(* --------------------------------------------------------------------- *)
(** *** AIAPIManager *)
(* --------------------------------------------------------------------- *)

Section StructuredResponse.
Import AIAPIManager.

Lemma trim_start_head (s : string) (c : ascii) (r : string) :
  trim_start s = String c r → is_space c = false.
Proof.
  induction s as [|a s IH]; [discriminate |]. cbn [trim_start].
  destruct (is_space a) eqn:Ha; [exact IH |]. intros H. injection H as <- _. exact Ha.
Qed.

Lemma trim_end_last (s : string) :
  ∀ c r, trim_end s = String c r → is_space (last_char c r) = false.
Proof.
  induction s as [|a s IH]; [discriminate |]. intros c r. cbn [trim_end].
  destruct (trim_end s) as [|c' r'] eqn:Ht.
  - destruct (is_space a) eqn:Ha; [discriminate |].
    intros H. injection H as <- <-. exact Ha.
  - intros H. injection H as <- <-. cbn [last_char]. exact (IH c' r' eq_refl).
Qed.

Lemma trim_end_head (c : ascii) (r : string) :
  is_space c = false → ∃ r', trim_end (String c r) = String c r'.
Proof.
  intros Hc. cbn [trim_end]. destruct (trim_end r); [rewrite Hc |]; eexists; reflexivity.
Qed.

(** What [trim] returns neither starts nor ends with white space. *)
Lemma trim_trimmed (s : string) : trimmed (trim s) = true.
Proof.
  unfold trim. destruct (trim_start s) as [|c r] eqn:Hs; [reflexivity |].
  pose proof (trim_start_head s c r Hs) as Hc.
  destruct (trim_end_head c r Hc) as [r' Hr]. rewrite Hr.
  cbn [trimmed]. rewrite Hc, (trim_end_last _ c r' Hr). reflexivity.
Qed.

Lemma close_section_keys (result : list (string * value)) (cur : string)
      (content : list string) (k : string) :
  k ∈ (close_section result cur content).*1
  ↔ k ∈ result.*1 ∨ (k = cur ∧ k ≠ "" ∧ k ≠ "__proto__").
Proof.
  unfold close_section, assign.
  destruct (String.eqb_spec cur "") as [->|Hne]; [intuition congruence |].
  destruct (String.eqb_spec cur "__proto__") as [->|Hp]; [intuition congruence |].
  rewrite set_prop_keys. intuition congruence.
Qed.

Lemma close_section_nodup (result : list (string * value)) (cur : string)
      (content : list string) :
  NoDup result.*1 → NoDup (close_section result cur content).*1.
Proof.
  intros Hnd. unfold close_section, assign.
  destruct (String.eqb cur ""); [exact Hnd |].
  destruct (String.eqb cur "__proto__"); [exact Hnd |].
  apply set_prop_nodup. exact Hnd.
Qed.

Lemma close_section_values (result : list (string * value)) (cur : string)
      (content : list string) :
  Forall (λ kv, ∃ s, kv.2 = VStr s ∧ trimmed s = true) result →
  Forall (λ kv, ∃ s, kv.2 = VStr s ∧ trimmed s = true)
         (close_section result cur content).
Proof.
  intros Hall. unfold close_section, assign.
  destruct (String.eqb cur ""); [exact Hall |].
  destruct (String.eqb cur "__proto__"); [exact Hall |].
  apply (set_prop_forall (λ v, ∃ s, v = VStr s ∧ trimmed s = true)); [| exact Hall].
  eexists. split; [reflexivity | apply trim_trimmed].
Qed.

Lemma parse_lines_inv (sections lines : list string) :
  ∀ result cur content,
    let out := parse_lines sections lines result cur content in
    (∀ k, k ∈ out.*1
          ↔ k ∈ result.*1 ∨ (k = cur ∧ k ≠ "" ∧ k ≠ "__proto__")
            ∨ (k ≠ "" ∧ k ≠ "__proto__"
               ∧ ∃ line, line ∈ lines ∧ heading sections line = Some k))
    ∧ (NoDup result.*1 → NoDup out.*1)
    ∧ (Forall (λ kv, ∃ s, kv.2 = VStr s ∧ trimmed s = true) result →
       Forall (λ kv, ∃ s, kv.2 = VStr s ∧ trimmed s = true) out).
Proof.
  induction lines as [|line lines IH]; intros result cur content out; subst out.
  - cbn [parse_lines]. split; [| split].
    + intros k. rewrite close_section_keys. split; [tauto |].
      intros [?|[?|(_ & _ & line & Hin & _)]]; [tauto | tauto | inversion Hin].
    + apply close_section_nodup.
    + apply close_section_values.
  - cbn [parse_lines]. destruct (heading sections line) as [section|] eqn:Hh.
    + destruct (IH (close_section result cur content) section
                   [trim (drop_chars (String.length section + 1) line)])
        as (Hkeys & Hnd & Hall).
      split; [| split].
      * intros k. rewrite Hkeys, close_section_keys. split.
        -- intros [[?|?]|[(-> & Hne & Hp)|(Hne & Hp & l & Hin & Hl)]]; [tauto | tauto | |].
           ++ right. right. split; [exact Hne |]. split; [exact Hp |].
              exists line. split; [left | exact Hh].
           ++ right. right. split; [exact Hne |]. split; [exact Hp |].
              exists l. split; [right; exact Hin | exact Hl].
        -- intros [?|[?|(Hne & Hp & l & Hin & Hl)]]; [tauto | tauto |].
           apply elem_of_cons in Hin as [->|Hin].
           ++ right. left. rewrite Hh in Hl. injection Hl as ->. tauto.
           ++ right. right. split; [exact Hne |]. split; [exact Hp |].
              exists l. split; assumption.
      * intros H. apply Hnd, close_section_nodup, H.
      * intros H. apply Hall, close_section_values, H.
    + destruct (IH result cur
                   (if String.eqb cur "" then content else content ++ [line]))
        as (Hkeys & Hnd & Hall).
      split; [| split; assumption].
      intros k. rewrite Hkeys. split.
      * intros [?|[?|(Hne & Hp & l & Hin & Hl)]]; [tauto | tauto |].
        right. right. split; [exact Hne |]. split; [exact Hp |].
        exists l. split; [right; exact Hin | exact Hl].
      * intros [?|[?|(Hne & Hp & l & Hin & Hl)]]; [tauto | tauto |].
        apply elem_of_cons in Hin as [->|Hin]; [congruence |].
        right. right. split; [exact Hne |]. split; [exact Hp |].
        exists l. split; assumption.
Qed.

(** X27. [parseStructuredResponse(content, sections)] returns one
    property for each section that heads a line of [content] (the first
    listed section whose name and a colon start the line), the empty
    name and [__proto__] apart, and no other property.  Every value is a
    string with no white space at either end. *)
Theorem parseStructuredResponse_spec (content : string) (sections : list string) :
  ∃ out,
    parseStructuredResponse content sections = VObj out
    ∧ NoDup out.*1
    ∧ (∀ k, k ∈ out.*1
            ↔ k ≠ "" ∧ k ≠ "__proto__"
              ∧ ∃ line, line ∈ split_lines content ∧ heading sections line = Some k)
    ∧ (∀ k v, (k, v) ∈ out →
         k ∈ sections
         ∧ (∃ line, line ∈ split_lines content ∧ startsWith line (k +:+ ":") = true)
         ∧ ∃ s, v = VStr s ∧ trimmed s = true).
Proof.
  destruct (parse_lines_inv sections (split_lines content) [] "" [])
    as (Hkeys & Hnd & Hall).
  eexists. split; [reflexivity |]. split; [apply Hnd; constructor |].
  assert (Hk : ∀ k, k ∈ (parse_lines sections (split_lines content) [] "" []).*1
                    ↔ k ≠ "" ∧ k ≠ "__proto__"
                      ∧ ∃ line, line ∈ split_lines content
                                ∧ heading sections line = Some k).
  { intros k. rewrite Hkeys. cbn. rewrite elem_of_nil. intuition congruence. }
  split; [exact Hk |].
  intros k v Hin.
  assert (Hkin : k ∈ (parse_lines sections (split_lines content) [] "" []).*1).
  { apply list_elem_of_fmap. exists (k, v). split; [reflexivity | exact Hin]. }
  apply Hk in Hkin as (_ & _ & line & Hline & Hh).
  unfold heading in Hh. apply find_some in Hh as [Hsec Hstart].
  split; [apply list_elem_of_In; exact Hsec |].
  split; [exists line; split; assumption |].
  specialize (Hall (Forall_nil_2 _)). rewrite Forall_forall in Hall.
  exact (Hall (k, v) Hin).
Qed.

End StructuredResponse.

Section AiConfig.
Context (E : Env).
Import AIAPIManager.

Lemma ai_saveToStorage_run (ai : AIAPIManager.t) (w : world) :
  let k := to_string (AIAPIManager.storageKey ai) in
  let text := text_of (JSON.stringify
                         (VObj [("provider", provider ai); ("apiKey", apiKey ai);
                                ("proxyUrl", proxyUrl ai);
                                ("defaultModel", defaultModel ai)])) in
  AIAPIManager.saveToStorage E ai w =
  if storage_accepts E (localStorage w) k text
  then (Ok true, with_item k text (logged (ESetItem k text) w))
  else (Ok false,
        logged (EConsoleError "Error saving AI config to storage:" QuotaExceededError)
               (logged (ESetItem k text) w)).
Proof.
  intros k text. unfold AIAPIManager.saveToStorage. unfold_M. fold k. fold text.
  destruct (storage_accepts E (localStorage w) k text); reflexivity.
Qed.

Lemma ai_loadFromStorage_run (ai : AIAPIManager.t) (data : list (string * value))
      (text : string) (w : world) :
  localStorage w !! to_string (AIAPIManager.storageKey ai) = Some text →
  text ≠ EmptyString → JSON.parse_text (JSON_beyond E) text = Ok (VObj data) →
  AIAPIManager.loadFromStorage E ai w
  = (Ok (true,
         AIAPIManager.Make
           (or_else (lookup_prop "provider" data) (provider ai))
           (or_else (lookup_prop "apiKey" data) (apiKey ai))
           (or_else (lookup_prop "proxyUrl" data) (proxyUrl ai))
           (AIAPIManager.storageKey ai)
           (or_else (lookup_prop "defaultModel" data) (defaultModel ai))), w).
Proof.
  intros Hitem Hne Hparse. unfold AIAPIManager.loadFromStorage. unfold_M.
  rewrite Hitem. destruct text as [|c text]; [congruence |].
  rewrite Hparse. reflexivity.
Qed.

Lemma ai_record_jsonable (p k u m : value) :
  jsonable p = true → jsonable k = true → jsonable u = true → jsonable m = true →
  jsonable (VObj [("provider", p); ("apiKey", k); ("proxyUrl", u); ("defaultModel", m)])
  = true.
Proof.
  intros Hp Hk Hu Hm. apply jsonable_object.
  - apply (bool_decide_unpack _). vm_compute. exact I.
  - repeat constructor; assumption.
Qed.

Lemma ai_save_then_load (ai ai2 : AIAPIManager.t) (w : world) :
  jsonable (provider ai) = true → jsonable (apiKey ai) = true →
  jsonable (proxyUrl ai) = true → jsonable (defaultModel ai) = true →
  (AIAPIManager.saveToStorage E ai w).1 = Ok true →
  to_string (AIAPIManager.storageKey ai2) = to_string (AIAPIManager.storageKey ai) →
  AIAPIManager.loadFromStorage E ai2 (AIAPIManager.saveToStorage E ai w).2
  = (Ok (true,
         AIAPIManager.Make
           (or_else (provider ai) (provider ai2))
           (or_else (apiKey ai) (apiKey ai2))
           (or_else (proxyUrl ai) (proxyUrl ai2))
           (AIAPIManager.storageKey ai2)
           (or_else (defaultModel ai) (defaultModel ai2))),
     (AIAPIManager.saveToStorage E ai w).2).
Proof.
  intros Hp Hk Hu Hm Hok Hkey.
  pose proof (ai_record_jsonable _ _ _ _ Hp Hk Hu Hm) as Hj.
  destruct (parse_text_stringify (JSON_beyond E) _ Hj) as (text & Htext & Hne & Hparse).
  pose proof (ai_saveToStorage_run ai w) as Hrun. cbv zeta in Hrun.
  rewrite Htext in Hrun. cbn [text_of] in Hrun. rewrite Hrun in *.
  destruct (storage_accepts E (localStorage w) _ text); [| discriminate].
  cbn [snd].
  match goal with
  | |- AIAPIManager.loadFromStorage E ai2 ?w1 = _ =>
      assert (Hitem : localStorage w1 !! to_string (AIAPIManager.storageKey ai2)
                      = Some text)
        by (rewrite Hkey; unfold with_item; cbn [localStorage]; apply lookup_insert_eq)
  end.
  rewrite (ai_loadFromStorage_run ai2 _ text _ Hitem Hne Hparse). reflexivity.
Qed.

(** X28. The configuration [saveToStorage] wrote and localStorage
    accepted is what [loadFromStorage] restores in any manager on the
    same storage key: each of provider, API key, proxy URL and default
    model that was truthy when saved is restored, and where the saved one
    was falsy the loading manager keeps its own. *)
Theorem ai_config_restored (ai ai2 : AIAPIManager.t) (w : world) :
  jsonable (provider ai) = true → jsonable (apiKey ai) = true →
  jsonable (proxyUrl ai) = true → jsonable (defaultModel ai) = true →
  (AIAPIManager.saveToStorage E ai w).1 = Ok true →
  to_string (AIAPIManager.storageKey ai2) = to_string (AIAPIManager.storageKey ai) →
  let saved := (AIAPIManager.saveToStorage E ai w).2 in
  AIAPIManager.loadFromStorage E ai2 saved
  = (Ok (true,
         AIAPIManager.Make
           (or_else (provider ai) (provider ai2))
           (or_else (apiKey ai) (apiKey ai2))
           (or_else (proxyUrl ai) (proxyUrl ai2))
           (AIAPIManager.storageKey ai2)
           (or_else (defaultModel ai) (defaultModel ai2))), saved).
Proof.
  intros Hp Hk Hu Hm Hok Hkey saved. subst saved.
  apply ai_save_then_load; assumption.
Qed.

(** X29. [clearConfig()] leaves the manager without API key and proxy
    URL and with its other fields as they were, so that [getStatus()]
    reports no key and no proxy, and a configuration exactly when the
    provider is [manual].  When localStorage accepted the write, loading
    from storage again changes nothing: the key does not come back. *)
Theorem clearConfig_spec (ai : AIAPIManager.t) (w : world) :
  let cleared := AIAPIManager.Make (provider ai) VNull VNull
                                   (AIAPIManager.storageKey ai) (defaultModel ai) in
  let saved := AIAPIManager.saveToStorage E cleared w in
  AIAPIManager.clearConfig E ai w = (Ok cleared, saved.2)
  ∧ lookup_prop "hasApiKey" (own_props (AIAPIManager.getStatus cleared)) = VBool false
  ∧ lookup_prop "hasProxyUrl" (own_props (AIAPIManager.getStatus cleared)) = VBool false
  ∧ lookup_prop "isConfigured" (own_props (AIAPIManager.getStatus cleared))
    = VBool (strict_eq (provider ai) (VStr "manual"))
  ∧ (saved.1 = Ok true →
     jsonable (provider ai) = true → jsonable (defaultModel ai) = true →
     AIAPIManager.loadFromStorage E cleared saved.2 = (Ok (true, cleared), saved.2)).
Proof.
  intros cleared saved.
  assert (Hflag : ∃ b, saved.1 = Ok b).
  { subst saved. rewrite ai_saveToStorage_run.
    destruct (storage_accepts E _ _ _); eexists; reflexivity. }
  destruct Hflag as [b Hb].
  split; [| split; [| split; [| split]]].
  - unfold AIAPIManager.clearConfig. fold cleared.
    rewrite (bind_run _ _ w saved.2 b); [reflexivity |].
    fold saved. destruct saved as [r w']. cbn [fst snd] in *. rewrite Hb. reflexivity.
  - reflexivity.
  - reflexivity.
  - cbn. rewrite orb_false_r. reflexivity.
  - intros Hok Hp Hm. subst saved.
    rewrite (ai_save_then_load cleared cleared w Hp eq_refl eq_refl Hm Hok eq_refl).
    subst cleared. cbn [provider apiKey proxyUrl defaultModel AIAPIManager.storageKey].
    unfold or_else. cbn [truthy].
    destruct (truthy (provider ai)), (truthy (defaultModel ai)); reflexivity.
Qed.

(** X30. [updateConfig(config)] replaces the provider by a truthy one
    only, takes every other field the configuration defines (null
    included), and saves.  When localStorage accepted the write, a
    manager constructed afterwards on the same storage key starts with
    every truthy field of the updated one, and with the defaults where
    the updated one had none. *)
Theorem updated_config_survives (ai : AIAPIManager.t) (cs : list (string * value))
        (w : world) :
  let updated :=
    AIAPIManager.Make
      (if truthy (lookup_prop "provider" cs) then lookup_prop "provider" cs
       else provider ai)
      (match lookup_prop "apiKey" cs with
       | VUndefined => apiKey ai | _ => lookup_prop "apiKey" cs end)
      (match lookup_prop "proxyUrl" cs with
       | VUndefined => proxyUrl ai | _ => lookup_prop "proxyUrl" cs end)
      (AIAPIManager.storageKey ai)
      (match lookup_prop "defaultModel" cs with
       | VUndefined => defaultModel ai | _ => lookup_prop "defaultModel" cs end) in
  let saved := AIAPIManager.saveToStorage E updated w in
  AIAPIManager.updateConfig E ai (VObj cs) w = (Ok updated, saved.2)
  ∧ (saved.1 = Ok true →
     jsonable (provider updated) = true → jsonable (apiKey updated) = true →
     jsonable (proxyUrl updated) = true → jsonable (defaultModel updated) = true →
     truthy (AIAPIManager.storageKey ai) = true →
     AIAPIManager.constructor E (VObj [("storageKey", AIAPIManager.storageKey ai)]) saved.2
     = (Ok (AIAPIManager.Make
              (or_else (provider updated) (VStr "claude"))
              (or_else (apiKey updated) VNull)
              (or_else (proxyUrl updated) VNull)
              (AIAPIManager.storageKey ai)
              (or_else (defaultModel updated) VNull)), saved.2)).
Proof.
  intros updated saved.
  assert (Hflag : ∃ b, saved.1 = Ok b).
  { subst saved. rewrite ai_saveToStorage_run.
    destruct (storage_accepts E _ _ _); eexists; reflexivity. }
  destruct Hflag as [b Hb]. split.
  - unfold AIAPIManager.updateConfig. cbn [get].
    rewrite (bind_run (lift _) _ w w (lookup_prop "provider" cs) eq_refl).
    rewrite (bind_run (lift _) _ w w (lookup_prop "apiKey" cs) eq_refl).
    rewrite (bind_run (lift _) _ w w (lookup_prop "proxyUrl" cs) eq_refl).
    rewrite (bind_run (lift _) _ w w (lookup_prop "defaultModel" cs) eq_refl).
    fold updated. rewrite (bind_run _ _ w saved.2 b); [reflexivity |].
    fold saved. destruct saved as [r w']. cbn [fst snd] in *. rewrite Hb. reflexivity.
  - intros Hok Hp Hk Hu Hm Hkey.
    unfold AIAPIManager.constructor. cbn [get lookup_prop String.eqb Ascii.eqb Bool.eqb].
    rewrite (bind_run (lift _) _ saved.2 saved.2 VUndefined eq_refl).
    rewrite (bind_run (lift _) _ saved.2 saved.2 VUndefined eq_refl).
    rewrite (bind_run (lift _) _ saved.2 saved.2 VUndefined eq_refl).
    rewrite (bind_run (lift _) _ saved.2 saved.2 (AIAPIManager.storageKey ai) eq_refl).
    rewrite (bind_run (lift _) _ saved.2 saved.2 VUndefined eq_refl).
    assert (Hsk : or_else (AIAPIManager.storageKey ai) (VStr "ai_api_config")
                  = AIAPIManager.storageKey ai)
      by (unfold or_else; rewrite Hkey; reflexivity).
    rewrite Hsk.
    change (or_else VUndefined (VStr "claude")) with (VStr "claude").
    change (or_else VUndefined VNull) with VNull.
    subst saved.
    erewrite bind_run
      by (apply (ai_save_then_load updated _ w Hp Hk Hu Hm Hok); reflexivity).
    reflexivity.
Qed.

End AiConfig.

(** A run of X28: a configuration saved with a key and no proxy, loaded
    into a manager fresh from its defaults. *)
Lemma ai_config_restored_run :
  let ai := AIAPIManager.Make (VStr "openai") (VStr "sk-1") VNull
                              (VStr "ai_api_config") VNull in
  let ai2 := AIAPIManager.Make (VStr "claude") VNull (VStr "https://proxy")
                               (VStr "ai_api_config") VNull in
  let saved := (AIAPIManager.saveToStorage Sample.quiet ai (Sample.page 0 ∅)).2 in
  AIAPIManager.loadFromStorage Sample.quiet ai2 saved
  = (Ok (true,
         AIAPIManager.Make
           (or_else (AIAPIManager.provider ai) (AIAPIManager.provider ai2))
           (or_else (AIAPIManager.apiKey ai) (AIAPIManager.apiKey ai2))
           (or_else (AIAPIManager.proxyUrl ai) (AIAPIManager.proxyUrl ai2))
           (AIAPIManager.storageKey ai2)
           (or_else (AIAPIManager.defaultModel ai) (AIAPIManager.defaultModel ai2))), saved).
Proof.
  intros ai ai2.
  apply (ai_config_restored Sample.quiet ai ai2 (Sample.page 0 ∅)); reflexivity.
Defined.

(** A run of X25: the post [c] saved after [a] and [b], then deleted. *)
Lemma savePost_then_deletePost_run :
  let pm := PostsManager.Make (StorageManager.Make (VStr "app") (VBool false) (VArr []))
                              (VNum 1000) in
  let es := [VObj [("id", VStr "a")]; VObj [("id", VStr "b")]] in
  let ps := [("id", VStr "c"); ("title", VStr "Hi")] in
  let w := Sample.page 0 {[ "app_generated_posts" := text_of (JSON.stringify (VArr es)) ]} in
  let saved := PostsManager.savePost Sample.quiet pm "k3j2h1g0f" (VObj ps) w in
  let deleted := PostsManager.deletePost Sample.quiet pm (VStr "c") saved.2 in
  PostsManager.getAllPosts Sample.quiet pm deleted.2 = (Ok (VArr es), deleted.2).
Proof.
  intros pm es ps w.
  apply (savePost_then_deletePost Sample.quiet pm "k3j2h1g0f" ps es 1000
           "1970-01-01T00:00:00.000Z" "c" w).
  - vm_compute. reflexivity.
  - vm_compute. reflexivity.
  - vm_compute. reflexivity.
  - repeat constructor; eexists; split; reflexivity.
  - reflexivity.
  - discriminate.
  - reflexivity.
  - cbn. lia.
  - vm_compute. reflexivity.
  - vm_compute. reflexivity.
  - vm_compute. reflexivity.
Defined.

(** A run of X26: the drafts among three posts. *)
Lemma getPostsByFilter_spec_run :
  let pm := PostsManager.Make (StorageManager.Make (VStr "app") (VBool false) (VArr []))
                              (VNum 1000) in
  let es := [VObj [("id", VStr "a"); ("status", VStr "draft")];
             VObj [("id", VStr "b"); ("status", VStr "published")];
             VObj [("id", VStr "c"); ("status", VStr "draft")]] in
  let fs := [("status", VStr "draft")] in
  let w := Sample.page 0 {[ "app_generated_posts" := text_of (JSON.stringify (VArr es)) ]} in
  ∃ kept,
    PostsManager.getPostsByFilter Sample.quiet pm (VObj fs) w = (Ok (VArr kept), w)
    ∧ sublist kept es
    ∧ (∀ p field, p ∈ kept → field ∈ ["source"; "platform"; "status"] →
         truthy (lookup_prop field fs) = true →
         strict_eq (lookup_prop field (own_props p)) (lookup_prop field fs) = true)
    ∧ ((∀ field, field ∈ ["source"; "platform"; "status"; "dateFrom"; "dateTo"] →
          truthy (lookup_prop field fs) = false) → kept = es).
Proof.
  intros pm es fs w.
  apply (getPostsByFilter_spec Sample.quiet pm fs es w).
  - vm_compute. reflexivity.
  - repeat constructor; eexists; reflexivity.
Defined.
